(** * ics-f13: a segregated-list allocator and a proxy cache

    A shallow embedding of [simple-allocator/mm.c], [cache.c] and the
    request path of [simple-proxy/proxy.c], with the properties of the
    specification stated and settled against it. *)

From Stdlib Require Import ZArith Lia String Ascii List Bool.
From stdpp Require Import gmap strings list.

Local Open Scope Z_scope.

(** The three ways a modelled C function can end: it returns, it
    dereferences an address that is not mapped, or its loop is still
    running when the fuel of the model is used up. *)
Inductive outcome (A : Type) : Type :=
| Done (a : A)
| Fault
| Timeout.
Arguments Done {A} a.
Arguments Fault {A}.
Arguments Timeout {A}.

#[global] Instance outcome_bind : MBind outcome := fun A B f x =>
  match x with
  | Done a => f a
  | Fault => Fault
  | Timeout => Timeout
  end.

Definition NULL : Z := 0.

(** Membership goals over appended and consed lists. *)
Ltac list_mem :=
  repeat match goal with
  | H : context [_ ∈ _ ++ _] |- _ => setoid_rewrite elem_of_app in H
  | H : context [_ ∈ _ :: _] |- _ => setoid_rewrite elem_of_cons in H
  | H : context [_ ∈ []] |- _ => setoid_rewrite elem_of_nil in H
  end;
  repeat (setoid_rewrite elem_of_app || setoid_rewrite elem_of_cons
          || setoid_rewrite elem_of_nil);
  solve [intuition (subst; eauto; congruence)].

(** ** cache.c *)
Module Cache.

(** [int] arithmetic of the cache counters, wrap-around written out. *)
Definition wrap_int (z : Z) : Z := (z + 2 ^ 31) mod 2 ^ 32 - 2 ^ 31.
Definition int_range (z : Z) : Prop := - 2 ^ 31 <= z < 2 ^ 31.

(** [struct object]; the fields carry an [o_] prefix because [size],
    [prev] and [next] are taken. The request and response buffers are
    kept by content. *)
Record object : Type := Object {
  o_request : string;
  o_response : string;
  o_size : Z;
  o_prev : Z;
  o_next : Z
}.

(** [struct cache]. *)
Record cache : Type := CacheRec {
  bytes_left : Z;
  MRA : Z;
  LRA : Z
}.

(** The cache handle together with the objects that are allocated. *)
Record state : Type := State {
  C : cache;
  objs : gmap Z object
}.

Definition set_bytes_left (c : cache) (v : Z) : cache :=
  {| bytes_left := v; MRA := MRA c; LRA := LRA c |}.
Definition set_MRA (c : cache) (v : Z) : cache :=
  {| bytes_left := bytes_left c; MRA := v; LRA := LRA c |}.
Definition set_LRA (c : cache) (v : Z) : cache :=
  {| bytes_left := bytes_left c; MRA := MRA c; LRA := v |}.

Definition set_prev (o : object) (v : Z) : object :=
  {| o_request := o_request o; o_response := o_response o;
     o_size := o_size o; o_prev := v; o_next := o_next o |}.
Definition set_next (o : object) (v : Z) : object :=
  {| o_request := o_request o; o_response := o_response o;
     o_size := o_size o; o_prev := o_prev o; o_next := v |}.

(** [p->field] for reading, and [p->prev = v], [p->next = v]. *)
Definition deref (h : gmap Z object) (p : Z) : outcome object :=
  match h !! p with
  | Some o => Done o
  | None => Fault
  end.

Definition store_prev (h : gmap Z object) (p v : Z) : outcome (gmap Z object) :=
  o ← deref h p; Done (<[p := set_prev o v]> h).
Definition store_next (h : gmap Z object) (p v : Z) : outcome (gmap Z object) :=
  o ← deref h p; Done (<[p := set_next o v]> h).

(** [strcmp]: the difference of the first two bytes that differ, the
    comparison ending at a NUL byte or at the end of the buffer. *)
Definition code (c : ascii) : Z := Z.of_N (N_of_ascii c).

Fixpoint strcmp (s1 s2 : string) : Z :=
  match s1, s2 with
  | EmptyString, EmptyString => 0
  | EmptyString, String c2 _ => - code c2
  | String c1 _, EmptyString => code c1
  | String c1 r1, String c2 r2 =>
      if code c1 =? code c2
      then (if code c1 =? 0 then 0 else strcmp r1 r2)
      else code c1 - code c2
  end.

(** [cache_init] *)
Definition cache_init (max_size : Z) : state :=
  {| C := {| bytes_left := max_size; MRA := NULL; LRA := NULL |};
     objs := ∅ |}.

(** [cache_remove] *)
Definition cache_remove (s : state) (obj : Z) : outcome state :=
  o ← deref (objs s) obj;
  let c := set_bytes_left (C s) (wrap_int (bytes_left (C s) + o_size o)) in
  r ← (if (o_prev o =? NULL) && (o_next o =? NULL) then
          Done (set_LRA (set_MRA c NULL) NULL, objs s)
        else if o_prev o =? NULL then
          h ← store_prev (objs s) (o_next o) NULL;
          Done (set_MRA c (o_next o), h)
        else if o_next o =? NULL then
          h ← store_next (objs s) (o_prev o) NULL;
          Done (set_LRA c (o_prev o), h)
        else
          h1 ← store_next (objs s) (o_prev o) (o_next o);
          h2 ← store_prev h1 (o_next o) (o_prev o);
          Done (c, h2));
  (* free(obj->request); free(obj->response); free(obj) *)
  _ ← deref (snd r) obj;
  Done {| C := fst r; objs := delete obj (snd r) |}.

(** [new_object]; [a] is the address that [Malloc] returned. *)
Definition new_object (a : Z) (req resp : string) (obj_size : Z) (s : state)
  : state :=
  {| C := C s;
     objs := <[a := {| o_request := req; o_response := resp;
                       o_size := obj_size; o_prev := NULL; o_next := NULL |}]>
             (objs s) |}.

Definition Malloc_fresh (a : Z) (s : state) : Prop :=
  a <> NULL /\ objs s !! a = None.

(** [evict]: the [while] loop, one removal per unit of fuel. *)
Fixpoint evict_loop (fuel : nat) (s : state) (req_size : Z) : outcome state :=
  if bytes_left (C s) <? req_size then
    match fuel with
    | O => Timeout
    | S f => s' ← cache_remove s (LRA (C s)); evict_loop f s' req_size
    end
  else Done s.

(** Every removal that returns releases one object, so the loop cannot
    run longer than there are objects. *)
Definition evict (s : state) (req_size : Z) : outcome state :=
  evict_loop (S (size (objs s))) s req_size.

(** [cache_insert] *)
Definition cache_insert (s : state) (obj : Z) : outcome state :=
  o ← deref (objs s) obj;
  s1 ← evict s (o_size o);
  o1 ← deref (objs s1) obj;
  let c := set_bytes_left (C s1) (wrap_int (bytes_left (C s1) - o_size o1)) in
  if MRA c =? NULL then
    Done {| C := set_LRA (set_MRA c obj) obj; objs := objs s1 |}
  else
    let temp := MRA c in
    h1 ← store_prev (objs s1) obj NULL;
    h2 ← store_next h1 obj temp;
    h3 ← store_prev h2 temp obj;
    Done {| C := set_MRA c obj; objs := h3 |}.

(** [cache_free]: the loop, then the handle is released and the objects
    that are still allocated remain. *)
Fixpoint cache_free_loop (fuel : nat) (s : state) : outcome state :=
  if MRA (C s) =? NULL then Done s
  else
    match fuel with
    | O => Timeout
    | S f => s' ← cache_remove s (MRA (C s)); cache_free_loop f s'
    end.

Definition cache_free (s : state) : outcome (gmap Z object) :=
  s' ← cache_free_loop (S (size (objs s))) s; Done (objs s').

(** [find_request] *)
Fixpoint find_loop (fuel : nat) (h : gmap Z object) (scan : Z) (req : string)
  : outcome Z :=
  if scan =? NULL then Done NULL
  else
    match fuel with
    | O => Timeout
    | S f =>
        o ← deref h scan;
        if strcmp req (o_request o) =? 0 then Done scan
        else find_loop f h (o_next o) req
    end.

Definition find_request (s : state) (req : string) : outcome Z :=
  find_loop (S (size (objs s))) (objs s) (MRA (C s)) req.

(** The resident objects, MRA first: the walk that [find_request] makes. *)
Fixpoint walk (fuel : nat) (h : gmap Z object) (p : Z) : list Z :=
  if p =? NULL then []
  else
    match fuel with
    | O => []
    | S f =>
        match h !! p with
        | Some o => p :: walk f h (o_next o)
        | None => []
        end
    end.

Definition resident (s : state) : list Z :=
  walk (size (objs s)) (objs s) (MRA (C s)).

Definition size_of (h : gmap Z object) (p : Z) : Z :=
  match h !! p with
  | Some o => o_size o
  | None => 0
  end.

Definition total_size (s : state) : Z :=
  fold_right (fun p acc => size_of (objs s) p + acc) 0 (resident s).

(** The operations of a client. An insertion is [new_object] at the
    address [a] followed by [cache_insert]. *)
Inductive op : Type :=
| Insert (a : Z) (req resp : string) (sz : Z)
| Remove (a : Z)
| Find (req : string).

Definition run_op (s : state) (o : op) : outcome state :=
  match o with
  | Insert a req resp sz => cache_insert (new_object a req resp sz s) a
  | Remove a => cache_remove s a
  | Find req => _ ← find_request s req; Done s
  end.

Fixpoint run (s : state) (ops : list op) : outcome state :=
  match ops with
  | [] => Done s
  | o :: rest => s' ← run_op s o; run s' rest
  end.

(** What a client has to respect: [Malloc] returns an unused address, an
    object's size is a byte count that fits the cache, and only resident
    objects are removed. *)
Definition op_ok (max_size : Z) (s : state) (o : op) : Prop :=
  match o with
  | Insert a _ _ sz => Malloc_fresh a s /\ 0 <= sz <= max_size
  | Remove a => a ∈ resident s
  | Find _ => True
  end.

Fixpoint trace_ok (max_size : Z) (s : state) (ops : list op) : Prop :=
  match ops with
  | [] => True
  | o :: rest =>
      op_ok max_size s o /\
      match run_op s o with
      | Done s' => trace_ok max_size s' rest
      | _ => True
      end
  end.

(** The state that an outcome ends in. *)
Definition cache_final (x : outcome state) : state :=
  match x with
  | Done s => s
  | _ => cache_init 0
  end.

(** *** The representation invariant of the cache *)

(** [dseg h p l f t e]: in [h], the objects [l] are linked from [f] to
    [t]; the first one points back to [p] and the last one on to [e]. *)
Fixpoint dseg (h : gmap Z object) (p : Z) (l : list Z) (f t e : Z) : Prop :=
  match l with
  | [] => f = e /\ t = p
  | a :: l' =>
      f = a /\ a <> NULL /\
      exists o, h !! a = Some o /\ o_prev o = p /\ dseg h a l' (o_next o) t e
  end.

Definition sum_sizes (h : gmap Z object) (l : list Z) : Z :=
  fold_right (fun p acc => size_of h p + acc) 0 l.

(** What a lookup shows of an object apart from its links. *)
Definition payload (h : gmap Z object) (a : Z) : option (string * string * Z) :=
  (fun o => (o_request o, o_response o, o_size o)) <$> h !! a.

Record cache_inv (max_size : Z) (s : state) (l : list Z) : Prop := {
  inv_list : dseg (objs s) NULL l (MRA (C s)) (LRA (C s)) NULL;
  inv_nodup : NoDup l;
  inv_budget : sum_sizes (objs s) l + bytes_left (C s) = max_size;
  inv_sizes : forall a, a ∈ l -> 0 <= size_of (objs s) a;
  inv_left : Z.min 0 max_size <= bytes_left (C s);
  inv_idle : forall a o, objs s !! a = Some o -> a ∉ l ->
             o_prev o = NULL /\ o_next o = NULL;
  inv_null : objs s !! NULL = None;
  inv_max : int_range max_size
}.

(** The first match of a request along a list of objects, as the scan of
    [find_request] meets them. *)
Fixpoint first_match (h : gmap Z object) (req : string) (l : list Z) : Z :=
  match l with
  | [] => NULL
  | a :: l' =>
      match h !! a with
      | Some o => if strcmp req (o_request o) =? 0 then a
                  else first_match h req l'
      | None => NULL
      end
  end.

Definition fresh_object (req resp : string) (sz : Z) : object :=
  {| o_request := req; o_response := resp; o_size := sz;
     o_prev := NULL; o_next := NULL |}.

Definition matches (h : gmap Z object) (req : string) (a : Z) : Prop :=
  exists o, h !! a = Some o /\ strcmp req (o_request o) = 0.

(** The addresses that a trace inserts, in the order of insertion, and
    whether it leaves removal to the eviction loop. *)
Definition inserted (ops : list op) : list Z :=
  flat_map (fun o => match o with Insert a _ _ _ => [a] | _ => [] end) ops.

(** The time of the last insertion at each address, counted from [n]. *)
Fixpoint stamps (n : nat) (ops : list op) (b : Z -> nat) : Z -> nat :=
  match ops with
  | [] => b
  | Insert a _ _ _ :: rest =>
      stamps (S n) rest (fun x => if x =? a then n else b x)
  | _ :: rest => stamps (S n) rest b
  end.

Fixpoint newest_first (b : Z -> nat) (l : list Z) : Prop :=
  match l with
  | [] => True
  | x :: l' => (forall y, y ∈ l' -> (b y < b x)%nat) /\ newest_first b l'
  end.

Definition only_evicts (ops : list op) : bool :=
  forallb (fun o => match o with Remove _ => false | _ => true end) ops.

Section Lists.
Context (h : gmap Z object).

Lemma dseg_app p l1 l2 f t e :
  dseg h p (l1 ++ l2) f t e <->
  exists m mid, dseg h p l1 f m mid /\ dseg h m l2 mid t e.
Proof.
  revert p f. induction l1 as [|a l1 IH]; intros p f; simpl.
  - split.
    + intros H. exists p, f. auto.
    + intros (m & mid & [-> ->] & H). exact H.
  - split.
    + intros (-> & Ha & o & Ho & Hp & H).
      apply IH in H as (m & mid & H1 & H2).
      exists m, mid. split; [|exact H2]. eauto 8.
    + intros (m & mid & (-> & Ha & o & Ho & Hp & H1) & H2).
      split; [reflexivity|]. split; [exact Ha|].
      exists o. split; [exact Ho|]. split; [exact Hp|].
      apply IH. eauto.
Qed.

Lemma dseg_stored p l f t e a :
  dseg h p l f t e -> a ∈ l -> a <> NULL /\ is_Some (h !! a).
Proof.
  revert p f. induction l as [|b l IH]; intros p f H Hin.
  - by apply elem_of_nil in Hin.
  - destruct H as (-> & Hb & o & Ho & _ & H).
    apply elem_of_cons in Hin as [->|Hin]; [eauto|]. eapply IH; eauto.
Qed.

Lemma dseg_first p l f t e :
  dseg h p l f t e -> l <> [] -> f <> NULL /\ exists l', l = f :: l'.
Proof.
  destruct l as [|a l]; [congruence|]. intros (-> & Ha & _) _. eauto.
Qed.

Lemma dseg_last p l f t e :
  dseg h p l f t e -> l <> [] ->
  t <> NULL /\ exists l' o, l = l' ++ [t] /\ h !! t = Some o /\ o_next o = e.
Proof.
  revert p f. induction l as [|a l IH]; intros p f H Hne; [congruence|].
  destruct H as (-> & Ha & o & Ho & Hp & H).
  destruct l as [|b l].
  - destruct H as [H1 ->]. split; [exact Ha|]. exists [], o. auto.
  - destruct (IH _ _ H) as (Ht & l' & o' & El & Ho' & Hn); [congruence|].
    split; [exact Ht|]. exists (a :: l'), o'. rewrite El. auto.
Qed.

Lemma dseg_nil_end p l f t :
  dseg h p l f t NULL -> f = NULL -> l = [].
Proof.
  destruct l as [|a l]; [reflexivity|]. intros (-> & Ha & _) E. contradiction.
Qed.
End Lists.

Lemma dseg_frame h h' p l f t e :
  (forall a, a ∈ l -> h' !! a = h !! a) ->
  dseg h p l f t e -> dseg h' p l f t e.
Proof.
  revert p f. induction l as [|a l IH]; intros p f Hsame H; [exact H|].
  destruct H as (-> & Ha & o & Ho & Hp & H).
  split; [reflexivity|]. split; [exact Ha|]. exists o.
  rewrite Hsame by apply list_elem_of_here.
  split; [exact Ho|]. split; [exact Hp|].
  apply IH; [|exact H]. intros b Hb. apply Hsame. by apply list_elem_of_further.
Qed.

(** Redirecting the forward link of the last object of a segment. *)
Lemma dseg_set_end h p l f t e e' o :
  dseg h p l f t e -> NoDup l -> l <> [] -> h !! t = Some o ->
  dseg (<[t := set_next o e']> h) p l f t e'.
Proof.
  revert p f. induction l as [|a l IH]; intros p f H Hnd Hne Ht; [congruence|].
  destruct H as (-> & Ha & oa & Hoa & Hp & H).
  apply NoDup_cons in Hnd as [Hnin Hnd'].
  destruct l as [|b l].
  - destruct H as [H1 ->]. rewrite Hoa in Ht. injection Ht as <-.
    split; [reflexivity|]. split; [exact Ha|].
    exists (set_next oa e'). rewrite lookup_insert_eq. simpl. auto.
  - assert (Hat : a <> t).
    { destruct (dseg_last _ _ _ _ _ _ H) as (_ & l' & _ & El & _); [congruence|].
      intros ->. apply Hnin. rewrite El. apply elem_of_app. right. apply list_elem_of_here. }
    split; [reflexivity|]. split; [exact Ha|].
    exists oa. rewrite lookup_insert_ne by congruence.
    split; [exact Hoa|]. split; [exact Hp|].
    apply IH; auto; congruence.
Qed.

(** Redirecting the backward link of the first object of a segment. *)
Lemma dseg_set_start h p p' l f t e o :
  dseg h p l f t e -> NoDup l -> l <> [] -> h !! f = Some o ->
  dseg (<[f := set_prev o p']> h) p' l f t e.
Proof.
  destruct l as [|a l]; [congruence|].
  intros (-> & Ha & oa & Hoa & Hp & H) Hnd _ Hf.
  rewrite Hoa in Hf. injection Hf as <-.
  apply NoDup_cons in Hnd as [Hnin Hnd].
  split; [reflexivity|]. split; [exact Ha|].
  exists (set_prev oa p'). rewrite lookup_insert_eq. simpl.
  split; [reflexivity|]. split; [reflexivity|].
  eapply dseg_frame; [|exact H].
  intros b Hb. apply lookup_insert_ne. intros ->. apply Hnin, Hb.
Qed.

Lemma bind_Done {A B} (a : A) (f : A -> outcome B) : (Done a ≫= f) = f a.
Proof. reflexivity. Qed.

Lemma deref_Some h a o : h !! a = Some o -> deref h a = Done o.
Proof. unfold deref. intros ->. reflexivity. Qed.

Lemma wrap_int_id z : int_range z -> wrap_int z = z.
Proof.
  unfold int_range, wrap_int. intros H.
  rewrite Z.mod_small; lia.
Qed.

Lemma payload_insert_prev h b ob v x :
  h !! b = Some ob -> payload (<[b := set_prev ob v]> h) x = payload h x.
Proof.
  intros Hb. unfold payload. destruct (decide (b = x)) as [->|Hne].
  - rewrite lookup_insert_eq, Hb. reflexivity.
  - rewrite lookup_insert_ne by exact Hne. reflexivity.
Qed.

Lemma payload_insert_next h b ob v x :
  h !! b = Some ob -> payload (<[b := set_next ob v]> h) x = payload h x.
Proof.
  intros Hb. unfold payload. destruct (decide (b = x)) as [->|Hne].
  - rewrite lookup_insert_eq, Hb. reflexivity.
  - rewrite lookup_insert_ne by exact Hne. reflexivity.
Qed.

Lemma payload_delete h a x : x <> a -> payload (delete a h) x = payload h x.
Proof. intros Hne. unfold payload. rewrite lookup_delete_ne by congruence. reflexivity. Qed.

Lemma size_of_payload h h' x : payload h' x = payload h x -> size_of h' x = size_of h x.
Proof.
  unfold payload, size_of. destruct (h' !! x), (h !! x); simpl; congruence.
Qed.

Lemma sum_sizes_ext h h' l :
  (forall x, x ∈ l -> payload h' x = payload h x) -> sum_sizes h' l = sum_sizes h l.
Proof.
  induction l as [|a l IH]; intros H; simpl; [reflexivity|].
  rewrite (size_of_payload h h' a) by (apply H, list_elem_of_here).
  rewrite IH; [reflexivity|]. intros x Hx. apply H. by apply list_elem_of_further.
Qed.

Lemma sum_sizes_app h l1 l2 : sum_sizes h (l1 ++ l2) = sum_sizes h l1 + sum_sizes h l2.
Proof. induction l1 as [|a l1 IH]; simpl; [reflexivity|]. rewrite IH. lia. Qed.

Lemma sum_sizes_nonneg h l : (forall a, a ∈ l -> 0 <= size_of h a) -> 0 <= sum_sizes h l.
Proof.
  induction l as [|a l IH]; intros H; simpl; [lia|].
  specialize (H a (list_elem_of_here _ _)) as Ha.
  assert (0 <= sum_sizes h l); [|lia].
  apply IH. intros x Hx. apply H. by apply list_elem_of_further.
Qed.

(** The links of a resident object are its neighbours in the list. *)
Lemma cache_remove_spec max_size s l1 a l2 :
  cache_inv max_size s (l1 ++ a :: l2) ->
  exists s' o,
    objs s !! a = Some o /\
    cache_remove s a = Done s' /\
    cache_inv max_size s' (l1 ++ l2) /\
    bytes_left (C s') = bytes_left (C s) + o_size o /\
    objs s' !! a = None /\
    (forall x, x <> a -> payload (objs s') x = payload (objs s) x) /\
    (forall x, x ∉ l1 ++ a :: l2 -> objs s' !! x = objs s !! x).
Proof.
  intros [Hl Hnd Hb Hsz Hleft Hidle Hnull Hmax].
  destruct s as [[bl mra lra] h]. simpl in *.
  apply dseg_app in Hl as (m & mid & H1 & (-> & Ha & o & Ho & Hp & H2)).
  apply NoDup_app in Hnd as (Hnd1 & Hdisj & Hnd2).
  apply NoDup_cons in Hnd2 as [Ha2 Hnd2].
  assert (Ha1 : a ∉ l1).
  { intros Hin. apply (Hdisj _ Hin), list_elem_of_here. }
  assert (Hsa : 0 <= o_size o).
  { specialize (Hsz a). unfold size_of in Hsz. rewrite Ho in Hsz.
    apply Hsz, elem_of_app. right. apply list_elem_of_here. }
  assert (Hs1 : 0 <= sum_sizes h l1).
  { apply sum_sizes_nonneg. intros x Hx. apply Hsz, elem_of_app. auto. }
  assert (Hs2 : 0 <= sum_sizes h l2).
  { apply sum_sizes_nonneg. intros x Hx. apply Hsz, elem_of_app. right.
    by apply list_elem_of_further. }
  rewrite sum_sizes_app in Hb. simpl in Hb.
  assert (Esz : size_of h a = o_size o) by (unfold size_of; rewrite Ho; reflexivity).
  rewrite Esz in Hb.
  assert (Hw : wrap_int (bl + o_size o) = bl + o_size o).
  { apply wrap_int_id. unfold int_range in *. lia. }
  (* the heap after the unlinking, before the release *)
  assert (Hun : exists c' h',
    (if (o_prev o =? NULL) && (o_next o =? NULL)
     then Done (set_LRA (set_MRA (set_bytes_left (CacheRec bl mra lra) (wrap_int (bl + o_size o))) NULL) NULL, h)
     else if o_prev o =? NULL
     then h0 ← store_prev h (o_next o) NULL;
          Done (set_MRA (set_bytes_left (CacheRec bl mra lra) (wrap_int (bl + o_size o))) (o_next o), h0)
     else if o_next o =? NULL
     then h0 ← store_next h (o_prev o) NULL;
          Done (set_LRA (set_bytes_left (CacheRec bl mra lra) (wrap_int (bl + o_size o))) (o_prev o), h0)
     else h1 ← store_next h (o_prev o) (o_next o);
          h2 ← store_prev h1 (o_next o) (o_prev o);
          Done (set_bytes_left (CacheRec bl mra lra) (wrap_int (bl + o_size o)), h2))
    = Done (c', h') /\
    bytes_left c' = bl + o_size o /\
    dseg h' NULL (l1 ++ l2) (MRA c') (LRA c') NULL /\
    h' !! a = Some o /\
    (forall x, payload h' x = payload h x) /\
    (forall x, x ∉ l1 ++ a :: l2 -> h' !! x = h !! x)).
  { rewrite Hw. clear Hw Hb Hleft Hsz Hs1 Hs2 Esz.
    destruct l1 as [|b1 l1']; destruct l2 as [|b2 l2'].
    - destruct H1 as [-> ->]. destruct H2 as [Hn ->].
      rewrite Hp, Hn. simpl. eexists _, _. split; [reflexivity|]. simpl. auto 10.
    - destruct H1 as [-> ->]. destruct H2 as (Hn & Hb2 & o2 & Ho2 & Hp2 & H2).
      rewrite Hp, Hn. replace (b2 =? NULL) with false by (symmetry; apply Z.eqb_neq; exact Hb2).
      simpl. unfold store_prev, deref. rewrite Ho2. simpl.
      eexists _, _. split; [reflexivity|]. simpl.
      assert (Hab : a <> b2) by (intros ->; apply Ha2, list_elem_of_here).
      split; [reflexivity|]. split; [|split; [|split]].
      + apply (dseg_set_start h a NULL (b2 :: l2') b2 lra NULL o2);
          [simpl; eauto 10 | exact Hnd2 | congruence | exact Ho2].
      + rewrite lookup_insert_ne by congruence. exact Ho.
      + intros x. by apply payload_insert_prev.
      + intros x Hx. apply lookup_insert_ne. intros ->. list_mem.
    - destruct H2 as [Hn ->].
      destruct (dseg_last _ _ _ _ _ _ H1) as (Hm & l' & om & El & Hom & Hnm); [congruence|].
      rewrite Hp, Hn.
      replace (m =? NULL) with false by (symmetry; apply Z.eqb_neq; exact Hm).
      simpl. unfold store_next, deref. rewrite Hom. simpl.
      eexists _, _. split; [reflexivity|]. simpl.
      assert (Hmin : m ∈ b1 :: l1').
      { rewrite El. apply elem_of_app. right. apply list_elem_of_here. }
      assert (Ham : m <> a) by (intros ->; exact (Ha1 Hmin)).
      split; [reflexivity|]. rewrite app_nil_r. split; [|split; [|split]].
      + apply (dseg_set_end h NULL (b1 :: l1') mra m a NULL om);
          [exact H1 | exact Hnd1 | congruence | exact Hom].
      + rewrite lookup_insert_ne by congruence. exact Ho.
      + intros x. by apply payload_insert_next.
      + intros x Hx. apply lookup_insert_ne. intros ->. list_mem.
    - destruct H2 as (Hn & Hb2 & o2 & Ho2 & Hp2 & H2).
      destruct (dseg_last _ _ _ _ _ _ H1) as (Hm & l' & om & El & Hom & Hnm); [congruence|].
      rewrite Hp, Hn.
      replace (m =? NULL) with false by (symmetry; apply Z.eqb_neq; exact Hm).
      replace (b2 =? NULL) with false by (symmetry; apply Z.eqb_neq; exact Hb2).
      simpl. unfold store_next, store_prev, deref. rewrite Hom. simpl.
      assert (Hmin : m ∈ b1 :: l1').
      { rewrite El. apply elem_of_app. right. apply list_elem_of_here. }
      assert (Ham : m <> a) by (intros ->; exact (Ha1 Hmin)).
      assert (Hab : a <> b2) by (intros ->; apply Ha2, list_elem_of_here).
      assert (Hmb : m <> b2).
      { intros ->. apply (Hdisj _ Hmin). apply list_elem_of_further, list_elem_of_here. }
      rewrite lookup_insert_ne by congruence. rewrite Ho2. simpl.
      eexists _, _. split; [reflexivity|]. simpl.
      split; [reflexivity|]. split; [|split; [|split]].
      + apply (proj2 (dseg_app _ NULL (b1 :: l1') (b2 :: l2') mra lra NULL)).
        exists m, b2. split.
        * eapply dseg_frame;
            [|apply (dseg_set_end h NULL (b1 :: l1') mra m a b2 om);
              [exact H1 | exact Hnd1 | congruence | exact Hom]].
          intros x Hx. apply lookup_insert_ne. intros ->.
          apply (Hdisj _ Hx). apply list_elem_of_further, list_elem_of_here.
        * apply (dseg_set_start _ a m (b2 :: l2') b2 lra NULL o2);
            [|exact Hnd2|congruence|].
          -- eapply (dseg_frame h);
               [|simpl; split; [reflexivity|]; split; [exact Hb2|]; eauto].
             intros x Hx. apply lookup_insert_ne. intros ->.
             apply (Hdisj _ Hmin). by apply list_elem_of_further.
          -- rewrite lookup_insert_ne by congruence. exact Ho2.
      + rewrite !lookup_insert_ne by congruence. exact Ho.
      + intros x. rewrite payload_insert_prev by (by rewrite lookup_insert_ne).
         by apply payload_insert_next.
      + intros x Hx. rewrite !lookup_insert_ne; [reflexivity| |];
          intros ->; list_mem. }
  destruct Hun as (c' & h' & Hrun & Hbl & Hseg & Hoa & Hpay & Hrest).
  exists {| C := c'; objs := delete a h' |}, o.
  split; [exact Ho|]. split.
  { unfold cache_remove. cbn [objs C bytes_left].
    rewrite (deref_Some _ _ _ Ho), bind_Done, Hrun, bind_Done. cbn [fst snd].
    rewrite (deref_Some _ _ _ Hoa). reflexivity. }
  assert (Hnin : a ∉ l1 ++ l2).
  { intros Hin. apply elem_of_app in Hin as [Hin|Hin]; auto. }
  assert (Hpay' : forall x, x <> a -> payload (delete a h') x = payload h x).
  { intros x Hx. rewrite payload_delete by exact Hx. apply Hpay. }
  split; [|simpl; split; [exact Hbl|]; split; [apply lookup_delete_eq|]; split; [exact Hpay'|]].
  - constructor; simpl.
    + eapply dseg_frame; [|exact Hseg]. intros x Hx. apply lookup_delete_ne.
      intros ->. exact (Hnin Hx).
    + apply NoDup_app. split; [exact Hnd1|]. split; [|exact Hnd2].
      intros x Hx1 Hx2. apply (Hdisj _ Hx1). by apply list_elem_of_further.
    + rewrite (sum_sizes_ext h); [rewrite sum_sizes_app; lia|].
      intros x Hx. apply Hpay'. intros ->. exact (Hnin Hx).
    + intros x Hx. rewrite (size_of_payload h).
      * apply Hsz. list_mem.
      * apply Hpay'. intros ->. exact (Hnin Hx).
    + lia.
    + intros x ox Hx Hxl. destruct (decide (x = a)) as [->|Hxa].
      { rewrite lookup_delete_eq in Hx. discriminate. }
      rewrite lookup_delete_ne in Hx by congruence.
      rewrite Hrest in Hx.
      * apply (Hidle _ _ Hx). list_mem.
      * list_mem.
    + rewrite lookup_delete_ne by congruence. rewrite Hrest; [exact Hnull|].
      intros Hin. apply elem_of_app in Hin as [Hin|Hin].
      * by destruct (dseg_stored _ _ _ _ _ _ _ H1 Hin).
      * apply elem_of_cons in Hin as [Hin|Hin]; [congruence|].
        by destruct (dseg_stored _ _ _ _ _ _ _ H2 Hin).
    + exact Hmax.
  - intros x Hx. destruct (decide (x = a)) as [->|Hxa].
    + exfalso. apply Hx, elem_of_app. right. apply list_elem_of_here.
    + rewrite lookup_delete_ne by congruence. by apply Hrest.
Qed.

Lemma length_le_size (h : gmap Z object) (l : list Z) :
  NoDup l -> (forall a, a ∈ l -> is_Some (h !! a)) -> (length l <= size h)%nat.
Proof.
  intros Hnd Hin.
  rewrite <- (size_list_to_set (C := gset Z) l Hnd), <- size_dom.
  apply subseteq_size. intros x Hx.
  apply elem_of_list_to_set in Hx. apply elem_of_dom. auto.
Qed.

Lemma inv_length max_size s l :
  cache_inv max_size s l -> (length l <= size (objs s))%nat.
Proof.
  intros H. apply length_le_size; [apply (inv_nodup _ _ _ H)|].
  intros a Ha. eapply dseg_stored; [apply (inv_list _ _ _ H)|exact Ha].
Qed.

Lemma walk_dseg h l : forall fuel p f t,
  dseg h p l f t NULL -> (length l <= fuel)%nat -> walk fuel h f = l.
Proof.
  induction l as [|a l IH]; intros fuel p f t H Hf.
  - destruct H as [-> _]. destruct fuel; reflexivity.
  - destruct H as (-> & Ha & o & Ho & _ & H).
    destruct fuel as [|fuel]; [simpl in Hf; lia|].
    simpl. apply Z.eqb_neq in Ha. rewrite Ha, Ho. f_equal.
    eapply IH; [exact H|]. simpl in Hf. lia.
Qed.

Lemma inv_resident max_size s l : cache_inv max_size s l -> resident s = l.
Proof.
  intros H. unfold resident.
  eapply walk_dseg; [apply (inv_list _ _ _ H)|]. eapply inv_length, H.
Qed.

Lemma inv_total max_size s l :
  cache_inv max_size s l -> total_size s + bytes_left (C s) = max_size.
Proof.
  intros H. unfold total_size. rewrite (inv_resident _ _ _ H).
  apply (inv_budget _ _ _ H).
Qed.

Lemma inv_ends max_size s l :
  cache_inv max_size s l ->
  (MRA (C s) = NULL <-> LRA (C s) = NULL) /\ (LRA (C s) = NULL <-> l = []).
Proof.
  intros H. pose proof (inv_list _ _ _ H) as Hl.
  destruct l as [|a l].
  - destruct Hl as [-> ->]. tauto.
  - destruct (dseg_first _ _ _ _ _ _ Hl) as [Hf _]; [congruence|].
    destruct (dseg_last _ _ _ _ _ _ Hl) as [Ht _]; [congruence|].
    split; split; intros E; congruence.
Qed.

Lemma init_inv max_size : int_range max_size -> cache_inv max_size (cache_init max_size) [].
Proof.
  intros Hm. constructor; simpl; auto.
  - constructor.
  - intros a Ha. by apply elem_of_nil in Ha.
  - lia.
  - intros a o Ha. rewrite lookup_empty in Ha. discriminate.
Qed.

Lemma inv_left_le max_size s l :
  cache_inv max_size s l -> bytes_left (C s) <= max_size.
Proof.
  intros H. pose proof (inv_budget _ _ _ H).
  pose proof (sum_sizes_nonneg _ _ (inv_sizes _ _ _ H)). lia.
Qed.

(** The eviction loop removes a tail of the list and stops with room for
    the request. *)
Lemma evict_loop_fits max_size req_size l : forall s fuel,
  cache_inv max_size s l -> (length l < fuel)%nat -> req_size <= max_size ->
  exists l0 ev s',
    l = l0 ++ ev /\
    evict_loop fuel s req_size = Done s' /\
    cache_inv max_size s' l0 /\
    req_size <= bytes_left (C s') /\
    (forall x, x ∉ l -> objs s' !! x = objs s !! x) /\
    (forall x, x ∈ l0 -> payload (objs s') x = payload (objs s) x).
Proof.
  induction l as [|a l IH] using rev_ind; intros s fuel Hinv Hfuel Hreq.
  - exists [], [], s. pose proof (inv_budget _ _ _ Hinv) as Hb.
    unfold sum_sizes in Hb. simpl in Hb.
    assert (E : evict_loop fuel s req_size = Done s).
    { destruct fuel; simpl; replace (bytes_left (C s) <? req_size) with false;
        try reflexivity; symmetry; apply Z.ltb_ge; lia. }
    split; [reflexivity|]. split; [exact E|]. split; [exact Hinv|].
    split; [lia|]. split; auto.
  - destruct (Z.ltb_spec (bytes_left (C s)) req_size) as [Hlt|Hge].
    + destruct (dseg_last _ _ _ _ _ _ (inv_list _ _ _ Hinv)) as (_ & l' & _ & El & _).
      { destruct l; discriminate. }
      apply app_inj_tail in El as [_ El].
      destruct (cache_remove_spec _ _ _ _ _ Hinv)
        as (s1 & o & Ho & Hrm & Hinv1 & Hbl & Hgone & Hpay & Hrest).
      rewrite app_nil_r in Hinv1.
      destruct fuel as [|fuel]; [lia|].
      rewrite length_app in Hfuel. simpl in Hfuel.
      destruct (IH s1 fuel Hinv1) as (l0 & ev & s' & -> & Hrun & Hinv' & Hroom & Hr' & Hp');
        [lia|exact Hreq|].
      exists l0, (ev ++ [a]), s'. split; [by rewrite app_assoc|].
      split.
      { simpl. apply Z.ltb_lt in Hlt. rewrite Hlt, <- El, Hrm. exact Hrun. }
      split; [exact Hinv'|]. split; [exact Hroom|]. split.
      * intros x Hx. rewrite Hr', Hrest; [reflexivity|exact Hx|].
        intros Hin. apply Hx, elem_of_app. auto.
      * intros x Hx. rewrite Hp' by exact Hx. apply Hpay. intros ->.
        pose proof (inv_nodup _ _ _ Hinv) as Hnd.
        apply NoDup_app in Hnd as (_ & Hd & _).
        apply (Hd a); [apply elem_of_app; auto|apply list_elem_of_here].
    + exists (l ++ [a]), [], s. rewrite app_nil_r.
      assert (E : evict_loop fuel s req_size = Done s).
      { destruct fuel; simpl; replace (bytes_left (C s) <? req_size) with false;
          try reflexivity; symmetry; apply Z.ltb_ge; lia. }
      split; [reflexivity|]. split; [exact E|]. split; [exact Hinv|].
      split; [lia|]. split; auto.
Qed.

(** With a request larger than the cache the loop empties the list and
    then removes the null [LRA]. *)
Lemma evict_loop_oversize max_size req_size l : forall s fuel,
  cache_inv max_size s l -> (length l < fuel)%nat -> max_size < req_size ->
  evict_loop fuel s req_size = Fault.
Proof.
  induction l as [|a l IH] using rev_ind; intros s fuel Hinv Hfuel Hreq;
    pose proof (inv_left_le _ _ _ Hinv) as Hle;
    (destruct fuel as [|fuel]; [simpl in Hfuel; lia|]);
    simpl; (replace (bytes_left (C s) <? req_size) with true
             by (symmetry; apply Z.ltb_lt; lia)).
  - destruct (inv_list _ _ _ Hinv) as [_ ->].
    unfold cache_remove, deref. rewrite (inv_null _ _ _ Hinv). reflexivity.
  - destruct (dseg_last _ _ _ _ _ _ (inv_list _ _ _ Hinv)) as (_ & l' & _ & El & _).
    { destruct l; discriminate. }
    apply app_inj_tail in El as [_ El].
    destruct (cache_remove_spec _ _ _ _ _ Hinv)
      as (s1 & o & Ho & Hrm & Hinv1 & _).
    rewrite app_nil_r in Hinv1. rewrite <- El, Hrm, bind_Done.
    apply (IH s1 fuel Hinv1); [|exact Hreq].
    rewrite length_app in Hfuel. simpl in Hfuel. lia.
Qed.

Lemma new_object_inv max_size s l a req resp sz :
  cache_inv max_size s l -> Malloc_fresh a s ->
  cache_inv max_size (new_object a req resp sz s) l /\ a ∉ l.
Proof.
  intros Hinv [Ha Hfresh].
  assert (Hnin : a ∉ l).
  { intros Hin. destruct (dseg_stored _ _ _ _ _ _ _ (inv_list _ _ _ Hinv) Hin) as [_ [o Ho]].
    congruence. }
  assert (Hsame : forall x, x ∈ l -> objs (new_object a req resp sz s) !! x = objs s !! x).
  { intros x Hx. simpl. apply lookup_insert_ne. intros ->. exact (Hnin Hx). }
  split; [|exact Hnin].
  destruct Hinv as [Hl Hnd Hb Hsz Hleft Hidle Hnull Hmax].
  constructor; auto.
  - eapply dseg_frame; [|exact Hl]. exact Hsame.
  - rewrite <- Hb. f_equal. apply sum_sizes_ext. intros x Hx.
    unfold payload. by rewrite Hsame.
  - intros x Hx. unfold size_of. rewrite Hsame by exact Hx. by apply Hsz.
  - intros x o. simpl. destruct (decide (a = x)) as [->|Hne].
    + rewrite lookup_insert_eq. intros [= <-] _. auto.
    + rewrite lookup_insert_ne by exact Hne. apply Hidle.
  - simpl. rewrite lookup_insert_ne by exact Ha. exact Hnull.
Qed.

(** An insertion that fits: a tail of the list is evicted and the new
    object becomes the head. *)
Lemma cache_insert_spec max_size s l a req resp sz :
  cache_inv max_size s l -> Malloc_fresh a s -> 0 <= sz <= max_size ->
  exists l0 ev s1 s',
    l = l0 ++ ev /\
    evict (new_object a req resp sz s) sz = Done s1 /\
    sz <= bytes_left (C s1) /\
    cache_insert (new_object a req resp sz s) a = Done s' /\
    cache_inv max_size s' (a :: l0) /\
    bytes_left (C s') = bytes_left (C s1) - sz /\
    payload (objs s') a = Some (req, resp, sz).
Proof.
  intros Hinv Hfresh Hsz.
  destruct (new_object_inv _ _ _ a req resp sz Hinv Hfresh) as [Hinv0 Hnin].
  set (s0 := new_object a req resp sz s) in *.
  assert (Ho : objs s0 !! a = Some (fresh_object req resp sz)) by apply lookup_insert_eq.
  destruct (evict_loop_fits max_size sz l s0 (S (size (objs s0))) Hinv0)
    as (l0 & ev & s1 & El & Hev & Hinv1 & Hroom & Hrest & Hpay); [|lia|].
  { pose proof (inv_length _ _ _ Hinv0). lia. }
  change (evict s0 sz = Done s1) in Hev.
  assert (Ho1 : objs s1 !! a = Some (fresh_object req resp sz)).
  { rewrite Hrest by exact Hnin. exact Ho. }
  assert (Hnin0 : a ∉ l0).
  { intros Hin. apply Hnin. rewrite El. apply elem_of_app. auto. }
  pose proof (inv_left_le _ _ _ Hinv1) as Hle.
  pose proof (inv_max _ _ _ Hinv1) as Hmax.
  assert (Hw : wrap_int (bytes_left (C s1) - sz) = bytes_left (C s1) - sz).
  { apply wrap_int_id. unfold int_range in *. lia. }
  destruct Hinv1 as [Hl1 Hnd1 Hb1 Hsz1 Hleft1 Hidle1 Hnull1 _].
  destruct s1 as [[bl mra lra] h1]. cbn [objs C bytes_left MRA LRA] in *.
  assert (Ha : a <> NULL) by apply Hfresh.
  assert (Hrun : exists s',
    cache_insert s0 a = Done s' /\
    bytes_left (C s') = bl - sz /\
    dseg (objs s') NULL (a :: l0) (MRA (C s')) (LRA (C s')) NULL /\
    (forall x, payload (objs s') x = payload h1 x) /\
    (forall x, x ∉ a :: l0 -> objs s' !! x = h1 !! x)).
  { unfold cache_insert. rewrite (deref_Some _ _ _ Ho), bind_Done.
    change (o_size (fresh_object req resp sz)) with sz.
    fold s0. rewrite Hev, bind_Done. cbn [objs C].
    rewrite (deref_Some _ _ _ Ho1), bind_Done.
    change (o_size (fresh_object req resp sz)) with sz.
    cbn [set_bytes_left MRA bytes_left]. rewrite Hw.
    destruct l0 as [|b l0'].
    - destruct Hl1 as [-> ->]. cbn [Z.eqb NULL].
      eexists. split; [reflexivity|]. cbn [C objs set_LRA set_MRA bytes_left MRA LRA].
      split; [reflexivity|]. split; [|split; intros; reflexivity].
      split; [reflexivity|]. split; [exact Ha|].
      exists (fresh_object req resp sz). split; [exact Ho1|].
      split; [reflexivity|]. split; reflexivity.
    - destruct Hl1 as (-> & Hb & ob & Hob & Hpb & Hl1).
      apply Z.eqb_neq in Hb as Hb'. rewrite Hb'.
      assert (Hab : a <> b) by (intros ->; apply Hnin0, list_elem_of_here).
      unfold store_prev at 2. rewrite (deref_Some _ _ _ Ho1), bind_Done, bind_Done.
      unfold store_next. unfold deref. rewrite lookup_insert_eq, bind_Done, bind_Done.
      unfold store_prev. unfold deref. rewrite !lookup_insert_ne by exact Hab.
      rewrite Hob, bind_Done.
      eexists. split; [reflexivity|]. cbn [C objs set_LRA set_MRA bytes_left MRA LRA].
      split; [reflexivity|]. split; [|split].
      + split; [reflexivity|]. split; [exact Ha|].
        eexists. rewrite lookup_insert_ne by congruence. rewrite lookup_insert_eq.
        split; [reflexivity|]. split; [reflexivity|]. cbn [o_next set_next].
        apply (dseg_set_start _ NULL a (b :: l0') b lra NULL ob);
          [|exact Hnd1|congruence|].
        * eapply (dseg_frame h1); [|simpl; eauto 10].
          intros x Hx. rewrite !lookup_insert_ne; [reflexivity| |]; intros ->; exact (Hnin0 Hx).
        * rewrite !lookup_insert_ne by exact Hab. exact Hob.
      + intros x. rewrite payload_insert_prev by (by rewrite !lookup_insert_ne).
        rewrite payload_insert_next by apply lookup_insert_eq.
        by apply payload_insert_prev.
      + intros x Hx. rewrite !lookup_insert_ne; [reflexivity| | |]; intros ->; apply Hx; list_mem. }
  destruct Hrun as (s' & Hins & Hbl & Hseg & Hpay' & Hrest').
  exists l0, ev, {| C := {| bytes_left := bl; MRA := mra; LRA := lra |}; objs := h1 |}, s'.
  split; [exact El|]. split; [exact Hev|]. split; [exact Hroom|]. split; [exact Hins|].
  assert (Esz : size_of (objs s') a = sz).
  { rewrite (size_of_payload h1) by apply Hpay'. unfold size_of. by rewrite Ho1. }
  split; [|split; [exact Hbl|]].
  - constructor.
    + exact Hseg.
    + apply NoDup_cons. auto.
    + unfold sum_sizes. cbn [fold_right]. fold (sum_sizes (objs s') l0).
      rewrite Esz, (sum_sizes_ext h1) by (intros; apply Hpay'). lia.
    + intros x Hx. apply elem_of_cons in Hx as [->|Hx]; [lia|].
      rewrite (size_of_payload h1) by apply Hpay'. by apply Hsz1.
    + lia.
    + intros x ox Hx Hxl. rewrite Hrest' in Hx by exact Hxl.
      apply (Hidle1 _ _ Hx). intros Hin. apply Hxl. by apply list_elem_of_further.
    + rewrite Hrest'; [exact Hnull1|]. intros Hin.
      apply elem_of_cons in Hin as [Hin|Hin]; [congruence|].
      by destruct (dseg_stored _ _ _ _ _ _ _ Hl1 Hin).
    + exact Hmax.
  - rewrite Hpay'. unfold payload. rewrite Ho1. reflexivity.
Qed.

(** An insertion that cannot fit ends in the removal of the null [LRA]. *)
Lemma cache_insert_oversize max_size s l a req resp sz :
  cache_inv max_size s l -> Malloc_fresh a s -> max_size < sz ->
  cache_insert (new_object a req resp sz s) a = Fault.
Proof.
  intros Hinv Hfresh Hsz.
  destruct (new_object_inv _ _ _ a req resp sz Hinv Hfresh) as [Hinv0 Hnin].
  unfold cache_insert.
  assert (Ho : objs (new_object a req resp sz s) !! a = Some (fresh_object req resp sz))
    by apply lookup_insert_eq.
  rewrite (deref_Some _ _ _ Ho), bind_Done.
  change (o_size (fresh_object req resp sz)) with sz.
  unfold evict. rewrite (evict_loop_oversize max_size sz l); auto.
  pose proof (inv_length _ _ _ Hinv0). lia.
Qed.

Lemma strcmp_refl s : strcmp s s = 0.
Proof.
  induction s as [|c s IH]; simpl; [reflexivity|].
  rewrite Z.eqb_refl. destruct (code c =? 0); auto.
Qed.

Lemma find_loop_dseg h req l : forall fuel p f t,
  dseg h p l f t NULL -> (length l < fuel)%nat ->
  find_loop fuel h f req = Done (first_match h req l).
Proof.
  induction l as [|a l IH]; intros fuel p f t H Hf.
  - destruct H as [-> _]. destruct fuel; reflexivity.
  - destruct H as (-> & Ha & o & Ho & _ & H).
    destruct fuel as [|fuel]; [simpl in Hf; lia|].
    simpl. apply Z.eqb_neq in Ha. rewrite Ha, (deref_Some _ _ _ Ho), bind_Done, Ho.
    destruct (strcmp req (o_request o) =? 0); [reflexivity|].
    eapply IH; [exact H|]. simpl in Hf. lia.
Qed.

Lemma find_request_spec max_size s l req :
  cache_inv max_size s l ->
  find_request s req = Done (first_match (objs s) req l).
Proof.
  intros H. unfold find_request.
  eapply find_loop_dseg; [apply (inv_list _ _ _ H)|].
  pose proof (inv_length _ _ _ H). lia.
Qed.

(** [first_match] is the first object of the list that matches. *)
Lemma first_match_spec h req l :
  (forall a, a ∈ l -> a <> NULL /\ is_Some (h !! a)) ->
  (first_match h req l = NULL /\ forall a, a ∈ l -> ~ matches h req a) \/
  (exists l1 l2, l = l1 ++ first_match h req l :: l2 /\
     matches h req (first_match h req l) /\
     forall a, a ∈ l1 -> ~ matches h req a).
Proof.
  induction l as [|a l IH]; intros Hl.
  - left. split; [reflexivity|]. intros a Ha. by apply elem_of_nil in Ha.
  - destruct (Hl a (list_elem_of_here _ _)) as [Ha [o Ho]].
    simpl. rewrite Ho.
    destruct (Z.eqb_spec (strcmp req (o_request o)) 0) as [E|E].
    + right. exists [], l. split; [reflexivity|]. split; [exists o; auto|].
      intros x Hx. by apply elem_of_nil in Hx.
    + assert (Hna : ~ matches h req a).
      { intros (o' & Ho' & Hm). congruence. }
      destruct IH as [[Hn Hall]|(l1 & l2 & El & Hm & Hbefore)].
      * intros x Hx. apply Hl. by apply list_elem_of_further.
      * left. split; [exact Hn|]. intros x Hx.
        apply elem_of_cons in Hx as [->|Hx]; auto.
      * right. exists (a :: l1), l2. split; [simpl; congruence|].
        split; [exact Hm|]. intros x Hx.
        apply elem_of_cons in Hx as [->|Hx]; auto.
Qed.

Lemma cache_free_loop_spec max_size l : forall s fuel,
  cache_inv max_size s l -> (length l < fuel)%nat ->
  exists s', cache_free_loop fuel s = Done s' /\ cache_inv max_size s' [].
Proof.
  induction l as [|a l IH]; intros s fuel Hinv Hf.
  - exists s. split; [|exact Hinv]. destruct (inv_list _ _ _ Hinv) as [E _].
    destruct fuel; simpl; rewrite E; reflexivity.
  - destruct fuel as [|fuel]; [simpl in Hf; lia|].
    destruct (inv_list _ _ _ Hinv) as (E & Ha & _).
    destruct (cache_remove_spec max_size s [] a l Hinv)
      as (s1 & o & Ho & Hrm & Hinv1 & _).
    destruct (IH s1 fuel Hinv1) as (s' & Hrun & Hinv'); [simpl in Hf; lia|].
    exists s'. split; [|exact Hinv'].
    simpl. rewrite E. apply Z.eqb_neq in Ha. rewrite Ha, Hrm. exact Hrun.
Qed.

(** Every operation of a well-behaved client returns and keeps the
    invariant. *)
Lemma run_op_inv max_size s l o :
  cache_inv max_size s l -> op_ok max_size s o ->
  exists s' l', run_op s o = Done s' /\ cache_inv max_size s' l'.
Proof.
  intros Hinv Hok. destruct o as [a req resp sz|a|req]; simpl in *.
  - destruct Hok as [Hfresh Hsz].
    destruct (cache_insert_spec _ _ _ a req resp sz Hinv Hfresh Hsz)
      as (l0 & ev & s1 & s' & _ & _ & _ & Hins & Hinv' & _).
    eauto.
  - rewrite (inv_resident _ _ _ Hinv) in Hok.
    apply list_elem_of_split in Hok as (l1 & l2 & ->).
    destruct (cache_remove_spec _ _ _ _ _ Hinv) as (s' & o & _ & Hrm & Hinv' & _).
    eauto.
  - rewrite (find_request_spec _ _ _ req Hinv). eauto.
Qed.

Lemma run_inv max_size ops : forall s l,
  cache_inv max_size s l -> trace_ok max_size s ops ->
  exists s' l', run s ops = Done s' /\ cache_inv max_size s' l'.
Proof.
  induction ops as [|o ops IH]; intros s l Hinv Hok.
  - exists s, l. auto.
  - destruct Hok as [Hok Hrest].
    destruct (run_op_inv _ _ _ _ Hinv Hok) as (s1 & l1 & Hrun & Hinv1).
    rewrite Hrun in Hrest. simpl. rewrite Hrun, bind_Done. eauto.
Qed.

Lemma run_app s ops1 ops2 :
  run s (ops1 ++ ops2) = s1 ← run s ops1; run s1 ops2.
Proof.
  revert s. induction ops1 as [|o ops1 IH]; intros s; simpl; [reflexivity|].
  destruct (run_op s o); simpl; auto.
Qed.

Lemma trace_ok_app max_size ops1 ops2 : forall s s1,
  trace_ok max_size s (ops1 ++ ops2) -> run s ops1 = Done s1 ->
  trace_ok max_size s ops1 /\ trace_ok max_size s1 ops2.
Proof.
  induction ops1 as [|o ops1 IH]; intros s s1 Hok Hrun; simpl in *.
  - injection Hrun as <-. auto.
  - destruct Hok as [Hok Hrest]. destruct (run_op s o) as [s2| |]; try discriminate.
    rewrite bind_Done in Hrun. destruct (IH _ _ Hrest Hrun). auto.
Qed.

Lemma run_newest_first max_size ops : forall s l s',
  cache_inv max_size s l -> trace_ok max_size s ops -> only_evicts ops = true ->
  run s ops = Done s' ->
  exists k, rev (inserted ops) ++ l = resident s' ++ k.
Proof.
  induction ops as [|o ops IH]; intros s l s' Hinv Hok Hev Hrun.
  - simpl in Hrun. injection Hrun as <-. exists []. simpl.
    rewrite (inv_resident _ _ _ Hinv). by rewrite app_nil_r.
  - destruct Hok as [Hok Hrest]. simpl in Hrun.
    apply andb_prop in Hev as [Ho Hev].
    destruct o as [a req resp sz|a|req]; try discriminate; simpl in *.
    + destruct Hok as [Hfresh Hsz].
      destruct (cache_insert_spec _ _ _ a req resp sz Hinv Hfresh Hsz)
        as (l0 & ev & s1 & s2 & El & _ & _ & Hins & Hinv' & _).
      rewrite Hins in Hrest, Hrun. rewrite bind_Done in Hrun.
      destruct (IH _ _ _ Hinv' Hrest Hev Hrun) as (k & Hk).
      exists (k ++ ev). rewrite El, <- app_assoc. simpl.
      change (a :: l0 ++ ev) with ((a :: l0) ++ ev).
      rewrite app_assoc, Hk, <- app_assoc. reflexivity.
    + rewrite (find_request_spec _ _ _ req Hinv) in Hrest, Hrun.
      rewrite !bind_Done in Hrun. rewrite bind_Done in Hrest.
      eapply IH; eauto.
Qed.

Lemma newest_first_app b l1 l2 :
  newest_first b (l1 ++ l2) -> newest_first b l1 /\ newest_first b l2.
Proof.
  induction l1 as [|x l1 IH]; simpl; [auto|].
  intros [Hx H]. destruct (IH H) as [H1 H2]. split; [|exact H2].
  split; [|exact H1]. intros y Hy. apply Hx, elem_of_app. auto.
Qed.

Lemma newest_first_remove b l1 a l2 :
  newest_first b (l1 ++ a :: l2) -> newest_first b (l1 ++ l2).
Proof.
  induction l1 as [|x l1 IH]; simpl.
  - intros [_ H]. exact H.
  - intros [Hx H]. split; [|auto]. intros y Hy. apply Hx.
    apply elem_of_app in Hy as [Hy|Hy]; apply elem_of_app; auto.
    right. by apply list_elem_of_further.
Qed.

Lemma newest_first_ext b b' l :
  (forall x, x ∈ l -> b' x = b x) -> newest_first b l -> newest_first b' l.
Proof.
  induction l as [|x l IH]; simpl; [auto|]. intros He [Hx H]. split.
  - intros y Hy. rewrite (He x), (He y); auto using list_elem_of_here, list_elem_of_further.
  - apply IH; auto using list_elem_of_further.
Qed.

Lemma run_stamps max_size ops : forall s l s' n b,
  cache_inv max_size s l -> trace_ok max_size s ops ->
  newest_first b l -> (forall x, x ∈ l -> (b x < n)%nat) ->
  run s ops = Done s' ->
  newest_first (stamps n ops b) (resident s').
Proof.
  induction ops as [|o ops IH]; intros s l s' n b Hinv Hok Hnf Hlt Hrun.
  - simpl in Hrun. injection Hrun as <-. simpl.
    by rewrite (inv_resident _ _ _ Hinv).
  - destruct Hok as [Hok Hrest]. simpl in Hrun.
    destruct o as [a req resp sz|a|req]; simpl in *.
    + destruct Hok as [Hfresh Hsz].
      destruct (new_object_inv _ _ _ a req resp sz Hinv Hfresh) as [_ Hnin].
      destruct (cache_insert_spec _ _ _ a req resp sz Hinv Hfresh Hsz)
        as (l0 & ev & s1 & s2 & El & _ & _ & Hins & Hinv' & _).
      rewrite Hins in Hrest, Hrun. rewrite bind_Done in Hrun.
      assert (Hin0 : forall x, x ∈ l0 -> x ∈ l /\ (x =? a) = false).
      { intros x Hx. assert (x ∈ l) by (rewrite El; apply elem_of_app; auto).
        split; [assumption|]. apply Z.eqb_neq. intros ->. contradiction. }
      apply (IH _ _ _ (S n) _ Hinv' Hrest); [| |exact Hrun].
      * split.
        -- intros y Hy. destruct (Hin0 y Hy) as [Hyl ->].
           rewrite Z.eqb_refl. by apply Hlt.
        -- apply (newest_first_ext b).
           ++ intros x Hx. by destruct (Hin0 x Hx) as [_ ->].
           ++ rewrite El in Hnf. by apply newest_first_app in Hnf as [H _].
      * intros x Hx. apply elem_of_cons in Hx as [->|Hx].
        -- rewrite Z.eqb_refl. lia.
        -- destruct (Hin0 x Hx) as [Hxl ->]. specialize (Hlt x Hxl). lia.
    + rewrite (inv_resident _ _ _ Hinv) in Hok.
      apply list_elem_of_split in Hok as (l1 & l2 & ->).
      destruct (cache_remove_spec _ _ _ _ _ Hinv) as (s1 & o & _ & Hrm & Hinv' & _).
      rewrite Hrm in Hrest, Hrun. rewrite bind_Done in Hrun.
      apply (IH _ _ _ (S n) b Hinv' Hrest); [| |exact Hrun].
      * by apply newest_first_remove in Hnf.
      * intros x Hx. assert (x ∈ l1 ++ a :: l2) by list_mem.
        specialize (Hlt x H). lia.
    + rewrite (find_request_spec _ _ _ req Hinv) in Hrest, Hrun.
      rewrite !bind_Done in Hrun. rewrite bind_Done in Hrest.
      apply (IH _ _ _ (S n) b Hinv Hrest); [exact Hnf| |exact Hrun].
      intros x Hx. specialize (Hlt x Hx). lia.
Qed.

Lemma newest_first_before b l1 r l2 x :
  newest_first b (l1 ++ r :: l2) -> x ∈ r :: l2 -> (b x <= b r)%nat.
Proof.
  intros H Hx. apply newest_first_app in H as [_ [Hr _]].
  apply elem_of_cons in Hx as [->|Hx]; [lia|]. specialize (Hr x Hx). lia.
Qed.

(** C2. Starting from [cache_init max_size], after every sequence of
    insertions (of objects whose size is a byte count of at most
    [max_size]), removals of resident objects and lookups, the sizes of
    the resident objects and [bytes_left] add up to [max_size]; [MRA] is
    null iff [LRA] is null iff no object is resident; and [cache_free]
    from there returns, its loop ending in the same balance with the
    list empty. *)
Theorem cache_budget_invariant max_size ops :
  int_range max_size ->
  trace_ok max_size (cache_init max_size) ops ->
  exists s,
    run (cache_init max_size) ops = Done s /\
    total_size s + bytes_left (C s) = max_size /\
    (MRA (C s) = NULL <-> LRA (C s) = NULL) /\
    (LRA (C s) = NULL <-> resident s = []) /\
    exists s',
      cache_free_loop (S (size (objs s))) s = Done s' /\
      cache_free s = Done (objs s') /\
      total_size s' + bytes_left (C s') = max_size /\
      MRA (C s') = NULL /\ LRA (C s') = NULL /\ resident s' = [].
Proof.
  intros Hmax Hok.
  destruct (run_inv _ _ _ _ (init_inv _ Hmax) Hok) as (s & l & Hrun & Hinv).
  exists s. split; [exact Hrun|]. split; [eapply inv_total, Hinv|].
  destruct (inv_ends _ _ _ Hinv) as [H1 H2].
  rewrite (inv_resident _ _ _ Hinv). split; [exact H1|]. split; [exact H2|].
  destruct (cache_free_loop_spec max_size l s (S (size (objs s))) Hinv)
    as (s' & Hfree & Hinv').
  { pose proof (inv_length _ _ _ Hinv). lia. }
  exists s'. split; [exact Hfree|]. split.
  { unfold cache_free. rewrite Hfree. reflexivity. }
  split; [eapply inv_total, Hinv'|].
  destruct (inv_list _ _ _ Hinv') as [-> ->].
  rewrite (inv_resident _ _ _ Hinv'). auto.
Qed.

Lemma cache_budget_invariant_witness :
  exists s,
    run (cache_init 100) [Insert 8 "o1" "x" 60; Insert 16 "o2" "y" 50; Find "o1"]
      = Done s /\
    total_size s + bytes_left (C s) = 100.
Proof.
  assert (H1 : int_range 100) by (unfold int_range; lia).
  assert (H2 : trace_ok 100 (cache_init 100)
                 [Insert 8 "o1" "x" 60; Insert 16 "o2" "y" 50; Find "o1"]).
  { vm_compute. repeat split; try discriminate; try reflexivity. }
  destruct (cache_budget_invariant 100 _ H1 H2) as (s & Hrun & Hsum & _).
  exists s. split; [exact Hrun|exact Hsum].
Defined.


(** C3. When the last operation of a trace inserts an object [a] of a
    size that fits, a lookup of its request returns [a]; the objects
    resident before are the survivors followed by the evicted ones, so
    that eviction took a tail; a lookup changes nothing, so a hit does
    not promote; and when nothing was removed by hand the resident
    objects are the most recently inserted ones, newest first. *)
Theorem insert_then_find max_size ops a req resp sz :
  int_range max_size ->
  trace_ok max_size (cache_init max_size) (ops ++ [Insert a req resp sz]) ->
  exists s s',
    run (cache_init max_size) ops = Done s /\
    run_op s (Insert a req resp sz) = Done s' /\
    find_request s' req = Done a /\
    payload (objs s') a = Some (req, resp, sz) /\
    (exists evicted, resident s' = a :: tail (resident s') /\
                     resident s = tail (resident s') ++ evicted) /\
    (forall r, run_op s' (Find r) = Done s') /\
    (only_evicts ops = true ->
     exists older, a :: rev (inserted ops) = resident s' ++ older).
Proof.
  intros Hmax Hok.
  pose proof (init_inv _ Hmax) as Hinit.
  destruct (run_inv _ _ _ _ Hinit Hok) as (s2 & l2 & Hrun2 & Hinv2).
  rewrite run_app in Hrun2.
  destruct (run (cache_init max_size) ops) as [s| |] eqn:Hrun; try discriminate.
  destruct (trace_ok_app _ _ _ _ _ Hok Hrun) as [Hok1 [[Hfresh Hsz] _]].
  destruct (run_inv _ _ _ _ Hinit Hok1) as (s0 & l & Hrun0 & Hinv).
  rewrite Hrun in Hrun0. injection Hrun0 as <-.
  destruct (cache_insert_spec _ _ _ a req resp sz Hinv Hfresh Hsz)
    as (l0 & ev & s1 & s' & El & _ & _ & Hins & Hinv' & _ & Hpay).
  exists s, s'. split; [reflexivity|]. split; [exact Hins|].
  rewrite (inv_resident _ _ _ Hinv'), (inv_resident _ _ _ Hinv).
  split; [|split; [exact Hpay|split; [|split]]].
  - rewrite (find_request_spec _ _ _ req Hinv'). simpl.
    unfold payload in Hpay. destruct (objs s' !! a) as [o|]; [|discriminate].
    injection Hpay as -> _ _. by rewrite strcmp_refl.
  - exists ev. simpl. auto.
  - intros r. simpl. by rewrite (find_request_spec _ _ _ r Hinv').
  - intros Hev.
    assert (Hev' : only_evicts (ops ++ [Insert a req resp sz]) = true).
    { unfold only_evicts in *. rewrite forallb_app, Hev. reflexivity. }
    assert (Hrun' : run (cache_init max_size) (ops ++ [Insert a req resp sz]) = Done s').
    { rewrite run_app, Hrun, bind_Done. simpl. by rewrite Hins. }
    destruct (run_newest_first _ _ _ _ _ Hinit Hok Hev' Hrun') as (k & Hk).
    exists k. rewrite <- (inv_resident _ _ _ Hinv'), <- Hk.
    unfold inserted. rewrite flat_map_app, rev_app_distr, app_nil_r. reflexivity.
Qed.

Lemma insert_then_find_witness :
  exists s', run (cache_init 100)
               [Insert 8 "o1" "x" 60; Insert 16 "o2" "y" 50] = Done s' /\
             find_request s' "o2" = Done 16.
Proof.
  assert (H1 : int_range 100) by (unfold int_range; lia).
  assert (H2 : trace_ok 100 (cache_init 100)
                 ([Insert 8 "o1" "x" 60] ++ [Insert 16 "o2" "y" 50])).
  { vm_compute. repeat split; try discriminate; try reflexivity. }
  destruct (insert_then_find 100 _ 16 "o2" "y" 50 H1 H2)
    as (s & s' & Hrun & Hins & Hfind & _).
  exists s'. split; [|exact Hfind].
  change (run (cache_init 100) ([Insert 8 "o1" "x" 60] ++ [Insert 16 "o2" "y" 50])
          = Done s').
  rewrite run_app, Hrun, bind_Done. cbn [run]. rewrite Hins. reflexivity.
Defined.

(** C8, as the specification has it: an object larger than the cache
    would leave [bytes_left] negative. On an empty cache of 100 bytes
    an object of 150 bytes does not: the insertion does not return. *)
Lemma oversized_insert_leaves_no_negative_budget :
  ~ exists s',
      cache_insert (new_object 8 "k" "v" 150 (cache_init 100)) 8 = Done s' /\
      bytes_left (C s') < 0.
Proof.
  assert (E : cache_insert (new_object 8 "k" "v" 150 (cache_init 100)) 8 = Fault)
    by (vm_compute; reflexivity).
  intros (s' & H & _). rewrite E in H. discriminate.
Qed.

(** C8, amended. In a state reached by a trace, an insertion of a fresh
    object whose size fits has the eviction loop return with
    [bytes_left] at least the size, and ends with [bytes_left]
    non-negative; an insertion of a larger object has the loop empty the
    list and then remove the null [LRA], which is a fault: it never
    returns with [bytes_left] negative. *)
Theorem cache_insert_within_budget max_size ops s a req resp sz :
  int_range max_size ->
  trace_ok max_size (cache_init max_size) ops ->
  run (cache_init max_size) ops = Done s ->
  Malloc_fresh a s -> 0 <= sz ->
  (sz <= max_size ->
   exists s1 s',
     evict (new_object a req resp sz s) sz = Done s1 /\
     sz <= bytes_left (C s1) /\
     cache_insert (new_object a req resp sz s) a = Done s' /\
     bytes_left (C s') = bytes_left (C s1) - sz /\
     0 <= bytes_left (C s')) /\
  (max_size < sz ->
   cache_insert (new_object a req resp sz s) a = Fault).
Proof.
  intros Hmax Hok Hrun Hfresh Hsz.
  destruct (run_inv _ _ _ _ (init_inv _ Hmax) Hok) as (s0 & l & Hrun0 & Hinv).
  rewrite Hrun in Hrun0. injection Hrun0 as <-.
  split.
  - intros Hfit.
    destruct (cache_insert_spec _ _ _ a req resp sz Hinv Hfresh (conj Hsz Hfit))
      as (l0 & ev & s1 & s' & _ & Hev & Hroom & Hins & _ & Hbl & _).
    exists s1, s'. repeat (split; [assumption|]). lia.
  - intros Hbig. eapply cache_insert_oversize; eauto.
Qed.

Lemma cache_insert_within_budget_witness :
  exists s1 s',
    evict (new_object 8 "o1" "x" 60 (cache_init 100)) 60 = Done s1 /\
    60 <= bytes_left (C s1) /\
    cache_insert (new_object 8 "o1" "x" 60 (cache_init 100)) 8 = Done s' /\
    0 <= bytes_left (C s').
Proof.
  assert (H1 : int_range 100) by (unfold int_range; lia).
  assert (H2 : trace_ok 100 (cache_init 100) []) by exact I.
  assert (H3 : run (cache_init 100) [] = Done (cache_init 100)) by reflexivity.
  assert (H4 : Malloc_fresh 8 (cache_init 100)).
  { split; [discriminate|reflexivity]. }
  assert (H5 : 0 <= 60) by lia.
  destruct (cache_insert_within_budget 100 [] _ 8 "o1" "x" 60 H1 H2 H3 H4 H5)
    as [Hfit _].
  destruct Hfit as (s1 & s' & Hev & Hroom & Hins & _ & Hleft); [lia|].
  exists s1, s'. auto.
Defined.

(** C10. In a state reached by a trace, [find_request] returns either
    null, when no resident object has the request, or a resident object
    [r] that has it and such that no object before [r] in the list from
    [MRA] has it; the list is in the order of insertion, newest first,
    so every resident object with a byte-identical request was inserted
    no later than [r]. *)
Theorem find_request_newest_match max_size ops req :
  int_range max_size ->
  trace_ok max_size (cache_init max_size) ops ->
  exists s r,
    run (cache_init max_size) ops = Done s /\
    find_request s req = Done r /\
    newest_first (stamps 1 ops (fun _ => O)) (resident s) /\
    ((r = NULL /\ forall a, a ∈ resident s -> ~ matches (objs s) req a) \/
     (matches (objs s) req r /\
      (exists newer older,
         resident s = newer ++ r :: older /\
         forall a, a ∈ newer -> ~ matches (objs s) req a) /\
      forall a, a ∈ resident s -> matches (objs s) req a ->
        (stamps 1 ops (fun _ => O) a <= stamps 1 ops (fun _ => O) r)%nat)).
Proof.
  intros Hmax Hok.
  pose proof (init_inv _ Hmax) as Hinit.
  destruct (run_inv _ _ _ _ Hinit Hok) as (s & l & Hrun & Hinv).
  exists s, (first_match (objs s) req l).
  split; [exact Hrun|]. split; [by apply find_request_spec with max_size|].
  assert (Hnf : newest_first (stamps 1 ops (fun _ => O)) (resident s)).
  { apply (run_stamps max_size ops _ [] s 1%nat _ Hinit Hok); [exact I| |exact Hrun].
    intros x Hx. by apply elem_of_nil in Hx. }
  split; [exact Hnf|].
  rewrite (inv_resident _ _ _ Hinv) in *.
  destruct (first_match_spec (objs s) req l) as [[Hn Hall]|(l1 & l2 & El & Hm & Hbefore)].
  { intros a Ha. eapply dseg_stored; [apply (inv_list _ _ _ Hinv)|exact Ha]. }
  - left. auto.
  - right. split; [exact Hm|]. split; [eauto|].
    intros a Ha Hma. rewrite El in Ha, Hnf.
    apply elem_of_app in Ha as [Ha|Ha]; [destruct (Hbefore a Ha Hma)|].
    eapply newest_first_before; eauto.
Qed.

Lemma find_request_newest_match_witness :
  exists s r,
    run (cache_init 100)
        [Insert 8 "k" "x" 30; Insert 16 "k" "y" 30; Insert 24 "j" "z" 30] = Done s /\
    find_request s "k" = Done r.
Proof.
  assert (H1 : int_range 100) by (unfold int_range; lia).
  assert (H2 : trace_ok 100 (cache_init 100)
                 [Insert 8 "k" "x" 30; Insert 16 "k" "y" 30; Insert 24 "j" "z" 30]).
  { vm_compute. repeat split; try discriminate; try reflexivity. }
  destruct (find_request_newest_match 100 _ "k" H1 H2) as (s & r & Hrun & Hfind & _).
  exists s, r. auto.
Defined.

Lemma reach_cache_inv max_size ops s :
  int_range max_size -> trace_ok max_size (cache_init max_size) ops ->
  run (cache_init max_size) ops = Done s ->
  exists l, cache_inv max_size s l.
Proof.
  intros Hmax Hok Hrun.
  destruct (run_inv max_size ops _ _ (init_inv max_size Hmax) Hok) as (s' & l & Hrun' & Hinv).
  rewrite Hrun in Hrun'. injection Hrun' as <-. eauto.
Qed.

(** [cache_remove] of a resident object, in a cache that a client has
    built: it returns; the object is released and is resident no more;
    the other objects stay, in their order and with their contents; the
    budget grows by the size of the object. *)
Theorem remove_resident max_size ops s a :
  int_range max_size ->
  trace_ok max_size (cache_init max_size) ops ->
  run (cache_init max_size) ops = Done s ->
  a ∈ resident s ->
  exists s' o newer older,
    objs s !! a = Some o /\
    cache_remove s a = Done s' /\
    resident s = newer ++ a :: older /\
    resident s' = newer ++ older /\
    a ∉ resident s' /\
    objs s' !! a = None /\
    bytes_left (C s') = bytes_left (C s) + o_size o /\
    (forall x, x <> a -> payload (objs s') x = payload (objs s) x).
Proof.
  intros Hmax Hok Hrun Hin.
  destruct (reach_cache_inv _ _ _ Hmax Hok Hrun) as (l & Hinv).
  rewrite (inv_resident _ _ _ Hinv) in *.
  destruct (list_elem_of_split _ _ Hin) as (l1 & l2 & ->).
  destruct (cache_remove_spec _ _ _ _ _ Hinv)
    as (s' & o & Ho & Hrm & Hinv' & Hbl & Hgone & Hpay & _).
  exists s', o, l1, l2. rewrite (inv_resident _ _ _ Hinv').
  split; [exact Ho|]. split; [exact Hrm|]. split; [reflexivity|].
  split; [reflexivity|]. split.
  - pose proof (inv_nodup _ _ _ Hinv) as Hnd.
    apply NoDup_app in Hnd as (_ & Hd & Hnd2). apply NoDup_cons in Hnd2 as [Hn2 _].
    intros Hx. apply elem_of_app in Hx as [Hx|Hx]; [|contradiction].
    apply (Hd _ Hx), list_elem_of_here.
  - split; [exact Hgone|]. split; [exact Hbl|exact Hpay].
Qed.

Lemma sum_sizes_one h a : sum_sizes h [a] = size_of h a.
Proof. unfold sum_sizes. simpl. lia. Qed.

(** The eviction loop removes an object only while the budget is short
    of the request. *)
Lemma evict_loop_needed max_size req_size l : forall s fuel,
  cache_inv max_size s l -> (length l < fuel)%nat -> req_size <= max_size ->
  exists l0 ev s',
    l = l0 ++ ev /\
    evict_loop fuel s req_size = Done s' /\
    cache_inv max_size s' l0 /\
    bytes_left (C s') = bytes_left (C s) + sum_sizes (objs s) ev /\
    (forall ev1 x ev2, ev = ev1 ++ x :: ev2 ->
       bytes_left (C s) + sum_sizes (objs s) ev2 < req_size).
Proof.
  induction l as [|a l IH] using rev_ind; intros s fuel Hinv Hfuel Hreq.
  - exists [], [], s.
    pose proof (inv_budget _ _ _ Hinv) as Hb. unfold sum_sizes in Hb. simpl in Hb.
    assert (E : evict_loop fuel s req_size = Done s).
    { destruct fuel; simpl; replace (bytes_left (C s) <? req_size) with false;
        try reflexivity; symmetry; apply Z.ltb_ge; lia. }
    split; [reflexivity|]. split; [exact E|]. split; [exact Hinv|].
    split; [unfold sum_sizes; simpl; lia|].
    intros ev1 x ev2 E'. destruct ev1; discriminate.
  - destruct (Z.ltb_spec (bytes_left (C s)) req_size) as [Hlt|Hge].
    + destruct (dseg_last _ _ _ _ _ _ (inv_list _ _ _ Hinv)) as (_ & l' & _ & El & _).
      { destruct l; discriminate. }
      apply app_inj_tail in El as [_ El].
      destruct (cache_remove_spec _ _ _ _ _ Hinv)
        as (s1 & o & Ho & Hrm & Hinv1 & Hbl & Hgone & Hpay & Hrest).
      rewrite app_nil_r in Hinv1.
      destruct fuel as [|fuel]; [lia|].
      rewrite length_app in Hfuel. simpl in Hfuel.
      destruct (IH s1 fuel Hinv1) as (l0 & ev & s' & -> & Hrun & Hinv' & Hsum & Hmin);
        [lia|exact Hreq|].
      assert (Hsa : size_of (objs s) a = o_size o) by (unfold size_of; by rewrite Ho).
      assert (Hsame : forall e, (forall x, x ∈ e -> x ∈ l0 ++ ev) ->
                sum_sizes (objs s1) e = sum_sizes (objs s) e).
      { intros e He. apply sum_sizes_ext. intros x Hx. apply Hpay. intros ->.
        pose proof (inv_nodup _ _ _ Hinv) as Hnd.
        apply NoDup_app in Hnd as (_ & Hd & _).
        apply (Hd a); [apply He, Hx|apply list_elem_of_here]. }
      exists l0, (ev ++ [a]), s'. split; [by rewrite app_assoc|].
      split.
      { simpl. apply Z.ltb_lt in Hlt. rewrite Hlt, <- El, Hrm. exact Hrun. }
      split; [exact Hinv'|]. split.
      * rewrite Hsum, Hbl, sum_sizes_app, Hsame.
        -- rewrite sum_sizes_one, Hsa. lia.
        -- intros x Hx. apply elem_of_app. auto.
      * intros ev1 x ev2 E.
        destruct ev2 as [|y ev2' _] using rev_ind.
        -- unfold sum_sizes. simpl. lia.
        -- change (ev1 ++ x :: ev2' ++ [y]) with (ev1 ++ (x :: ev2') ++ [y]) in E.
           rewrite app_assoc in E. apply app_inj_tail in E as [E ->].
           specialize (Hmin _ _ _ E). rewrite Hsame in Hmin.
           ++ rewrite sum_sizes_app, sum_sizes_one, Hsa. lia.
           ++ intros z Hz. rewrite E. clear - Hz. list_mem.
    + exists (l ++ [a]), [], s. rewrite app_nil_r.
      assert (E : evict_loop fuel s req_size = Done s).
      { destruct fuel; simpl; replace (bytes_left (C s) <? req_size) with false;
          try reflexivity; symmetry; apply Z.ltb_ge; lia. }
      split; [reflexivity|]. split; [exact E|]. split; [exact Hinv|].
      split; [unfold sum_sizes; simpl; lia|].
      intros ev1 x ev2 E'. destruct ev1; discriminate.
Qed.

(** [evict], as [cache_insert] calls it for a new object of [sz] bytes:
    it removes the least recently inserted objects, and no more of them
    than the request needs: each one is removed when the budget, with
    the sizes of those removed before it, is still short of [sz]. The
    objects that stay keep their order and their contents. *)
Theorem evict_least_recent max_size ops s a req resp sz :
  int_range max_size ->
  trace_ok max_size (cache_init max_size) ops ->
  run (cache_init max_size) ops = Done s ->
  Malloc_fresh a s -> 0 <= sz <= max_size ->
  exists s1 evicted,
    evict (new_object a req resp sz s) sz = Done s1 /\
    resident s = resident s1 ++ evicted /\
    sz <= bytes_left (C s1) /\
    bytes_left (C s1) = bytes_left (C s) + sum_sizes (objs s) evicted /\
    (forall ev1 x ev2, evicted = ev1 ++ x :: ev2 ->
       bytes_left (C s) + sum_sizes (objs s) ev2 < sz) /\
    (forall x, x ∈ resident s1 -> payload (objs s1) x = payload (objs s) x).
Proof.
  intros Hmax Hok Hrun Hfresh Hsz.
  destruct (reach_cache_inv _ _ _ Hmax Hok Hrun) as (l & Hinv).
  destruct (new_object_inv _ _ _ a req resp sz Hinv Hfresh) as [Hinv0 Hnin].
  set (s0 := new_object a req resp sz s) in *.
  assert (Hlen : (length l < S (size (objs s0)))%nat).
  { pose proof (inv_length _ _ _ Hinv0). lia. }
  destruct (evict_loop_fits max_size sz l s0 _ Hinv0 Hlen ltac:(lia))
    as (l0 & ev & s1 & El & Hev & Hinv1 & Hroom & _ & Hpay).
  destruct (evict_loop_needed max_size sz l s0 _ Hinv0 Hlen ltac:(lia))
    as (l0' & ev' & s1' & El' & Hev' & Hinv1' & Hsum & Hmin).
  rewrite Hev in Hev'. injection Hev' as <-.
  pose proof (inv_resident _ _ _ Hinv1) as R1.
  pose proof (inv_resident _ _ _ Hinv1') as R1'. rewrite R1 in R1'. subst l0'.
  rewrite El in El'. apply app_inv_head in El'. subst ev'.
  assert (Hold : forall x, x ∈ l -> payload (objs s0) x = payload (objs s) x).
  { intros x Hx. unfold payload, s0. cbn [objs new_object].
    rewrite lookup_insert_ne; [reflexivity|]. intros ->. exact (Hnin Hx). }
  assert (Hsums : forall e, (forall x, x ∈ e -> x ∈ l) ->
            sum_sizes (objs s0) e = sum_sizes (objs s) e).
  { intros e He. apply sum_sizes_ext. intros x Hx. apply Hold, He, Hx. }
  exists s1, ev. split; [exact Hev|].
  rewrite (inv_resident _ _ _ Hinv), R1. split; [exact El|]. split; [exact Hroom|].
  split; [|split].
  - rewrite Hsum. change (C s0) with (C s). rewrite Hsums; [reflexivity|].
    intros x Hx. rewrite El. apply elem_of_app. auto.
  - intros ev1 x ev2 E. specialize (Hmin _ _ _ E). change (C s0) with (C s) in Hmin.
    rewrite Hsums in Hmin; [exact Hmin|].
    intros y Hy. rewrite El, E. clear - Hy. list_mem.
  - intros x Hx. rewrite Hpay by exact Hx. apply Hold. rewrite El.
    apply elem_of_app. auto.
Qed.

Lemma remove_resident_witness :
  int_range 100 /\ trace_ok 100 (cache_init 100) [Insert 8 "o1" "x" 60; Insert 16 "o2" "y" 30] /\
  run (cache_init 100) [Insert 8 "o1" "x" 60; Insert 16 "o2" "y" 30] = Done (cache_final (run (cache_init 100) [Insert 8 "o1" "x" 60; Insert 16 "o2" "y" 30])) /\ 8 ∈ resident (cache_final (run (cache_init 100) [Insert 8 "o1" "x" 60; Insert 16 "o2" "y" 30])) /\
  exists s' o newer older,
    objs (cache_final (run (cache_init 100) [Insert 8 "o1" "x" 60; Insert 16 "o2" "y" 30])) !! 8 = Some o /\
    cache_remove (cache_final (run (cache_init 100) [Insert 8 "o1" "x" 60; Insert 16 "o2" "y" 30])) 8 = Done s' /\
    resident (cache_final (run (cache_init 100) [Insert 8 "o1" "x" 60; Insert 16 "o2" "y" 30])) = newer ++ 8 :: older /\
    resident s' = newer ++ older /\
    8 ∉ resident s' /\
    objs s' !! 8 = None /\
    bytes_left (C s') = bytes_left (C (cache_final (run (cache_init 100) [Insert 8 "o1" "x" 60; Insert 16 "o2" "y" 30]))) + o_size o /\
    (forall x, x <> 8 -> payload (objs s') x = payload (objs (cache_final (run (cache_init 100) [Insert 8 "o1" "x" 60; Insert 16 "o2" "y" 30]))) x).
Proof.
  assert (H1 : int_range 100) by (unfold int_range; lia).
  assert (H2 : trace_ok 100 (cache_init 100) [Insert 8 "o1" "x" 60; Insert 16 "o2" "y" 30]).
  { vm_compute. repeat split; try discriminate; try reflexivity. }
  assert (H3 : run (cache_init 100) [Insert 8 "o1" "x" 60; Insert 16 "o2" "y" 30] = Done (cache_final (run (cache_init 100) [Insert 8 "o1" "x" 60; Insert 16 "o2" "y" 30]))) by (vm_compute; reflexivity).
  assert (H4 : 8 ∈ resident (cache_final (run (cache_init 100) [Insert 8 "o1" "x" 60; Insert 16 "o2" "y" 30])))
    by (vm_compute; apply list_elem_of_further, list_elem_of_here).
  split; [exact H1|]. split; [exact H2|]. split; [exact H3|]. split; [exact H4|].
  exact (remove_resident 100 _ _ 8 H1 H2 H3 H4).
Defined.

Lemma evict_least_recent_witness :
  int_range 100 /\ trace_ok 100 (cache_init 100) [Insert 8 "o1" "x" 60; Insert 16 "o2" "y" 30] /\
  run (cache_init 100) [Insert 8 "o1" "x" 60; Insert 16 "o2" "y" 30] = Done (cache_final (run (cache_init 100) [Insert 8 "o1" "x" 60; Insert 16 "o2" "y" 30])) /\ Malloc_fresh 24 (cache_final (run (cache_init 100) [Insert 8 "o1" "x" 60; Insert 16 "o2" "y" 30])) /\ 0 <= 50 <= 100 /\
  exists s1 evicted,
    evict (new_object 24 "o3" "z" 50 (cache_final (run (cache_init 100) [Insert 8 "o1" "x" 60; Insert 16 "o2" "y" 30]))) 50 = Done s1 /\
    resident (cache_final (run (cache_init 100) [Insert 8 "o1" "x" 60; Insert 16 "o2" "y" 30])) = resident s1 ++ evicted /\
    50 <= bytes_left (C s1) /\
    bytes_left (C s1) = bytes_left (C (cache_final (run (cache_init 100) [Insert 8 "o1" "x" 60; Insert 16 "o2" "y" 30]))) + sum_sizes (objs (cache_final (run (cache_init 100) [Insert 8 "o1" "x" 60; Insert 16 "o2" "y" 30]))) evicted /\
    (forall ev1 x ev2, evicted = ev1 ++ x :: ev2 ->
       bytes_left (C (cache_final (run (cache_init 100) [Insert 8 "o1" "x" 60; Insert 16 "o2" "y" 30]))) + sum_sizes (objs (cache_final (run (cache_init 100) [Insert 8 "o1" "x" 60; Insert 16 "o2" "y" 30]))) ev2 < 50) /\
    (forall x, x ∈ resident s1 -> payload (objs s1) x = payload (objs (cache_final (run (cache_init 100) [Insert 8 "o1" "x" 60; Insert 16 "o2" "y" 30]))) x).
Proof.
  assert (H1 : int_range 100) by (unfold int_range; lia).
  assert (H2 : trace_ok 100 (cache_init 100) [Insert 8 "o1" "x" 60; Insert 16 "o2" "y" 30]).
  { vm_compute. repeat split; try discriminate; try reflexivity. }
  assert (H3 : run (cache_init 100) [Insert 8 "o1" "x" 60; Insert 16 "o2" "y" 30] = Done (cache_final (run (cache_init 100) [Insert 8 "o1" "x" 60; Insert 16 "o2" "y" 30]))) by (vm_compute; reflexivity).
  assert (H4 : Malloc_fresh 24 (cache_final (run (cache_init 100) [Insert 8 "o1" "x" 60; Insert 16 "o2" "y" 30]))).
  { split; [unfold NULL; lia|vm_compute; reflexivity]. }
  assert (H5 : 0 <= 50 <= 100) by lia.
  split; [exact H1|]. split; [exact H2|]. split; [exact H3|]. split; [exact H4|].
  split; [exact H5|].
  exact (evict_least_recent 100 _ _ 24 "o3" "z" 50 H1 H2 H3 H4 H5).
Defined.

End Cache.

(** ** mm.c *)
Module Mm.

(** [size_t] and [unsigned long] are 64 bits wide; every operation on
    them wraps. Pointer arithmetic is left in [Z]: an access through a
    pointer outside the heap is a fault. *)
Definition w64 (z : Z) : Z := z mod 2 ^ 64.

Definition ALIGNMENT : Z := 8.
Definition WSIZE : Z := 4.
Definition DSIZE : Z := 8.
Definition QSIZE : Z := 16.
Definition CHUNKSIZE : Z := 260.
Definition SEGS : Z := 5.
Definition RATIO : Z := 6.
Definition LASTCLASS : Z := 1296.

Definition ALIGN (p : Z) : Z := Z.land (w64 (p + (ALIGNMENT - 1))) (w64 (Z.lnot 7)).
Definition MAX (x y : Z) : Z := if x >? y then x else y.
Definition PACK (size alloc : Z) : Z := Z.lor size alloc.

(** [bucket]: the [while] loop divides [num] until it is zero, so
    [num] units of fuel are enough. *)
Fixpoint bucket_loop (fuel : nat) (num log : Z) : Z :=
  match fuel with
  | O => log
  | S f => if num =? 0 then log else bucket_loop f (num / RATIO) (log + 1)
  end.

Definition bucket (num : Z) : Z :=
  let num := num / (2 * QSIZE) in
  if num >=? LASTCLASS then (SEGS - 1) * DSIZE
  else
    let num := num / RATIO in
    bucket_loop (Z.to_nat num) num 0 * DSIZE.

(** The size class of the specification:
    [min (SEGS - 1) (floor (log_RATIO (size / 32)))], the logarithm
    being the largest [k] with [32 * RATIO ^ k <= size]. *)
Fixpoint floor_log (fuel : nat) (base den num : Z) (k : Z) : Z :=
  match fuel with
  | O => k
  | S f => if den * base ^ (k + 1) <=? num then floor_log f base den num (k + 1)
           else k
  end.

Definition spec_class (size : Z) : Z :=
  Z.min (SEGS - 1) (floor_log 64 RATIO 32 size 0).

(** *** The heap of memlib, byte addressed *)
Record heap : Type := Heap {
  mem : gmap Z Z;
  mem_start_brk : Z;
  mem_brk : Z;
  mem_max_addr : Z;
  heap_listp : Z;
  seg_listp : Z;
  last_segp : Z
}.

Definition set_mem (s : heap) (m : gmap Z Z) : heap :=
  {| mem := m; mem_start_brk := mem_start_brk s; mem_brk := mem_brk s;
     mem_max_addr := mem_max_addr s; heap_listp := heap_listp s;
     seg_listp := seg_listp s; last_segp := last_segp s |}.
Definition set_brk (s : heap) (b : Z) : heap :=
  {| mem := mem s; mem_start_brk := mem_start_brk s; mem_brk := b;
     mem_max_addr := mem_max_addr s; heap_listp := heap_listp s;
     seg_listp := seg_listp s; last_segp := last_segp s |}.
Definition set_heap_listp (s : heap) (p : Z) : heap :=
  {| mem := mem s; mem_start_brk := mem_start_brk s; mem_brk := mem_brk s;
     mem_max_addr := mem_max_addr s; heap_listp := p;
     seg_listp := seg_listp s; last_segp := last_segp s |}.
Definition set_seg_listp (s : heap) (p : Z) : heap :=
  {| mem := mem s; mem_start_brk := mem_start_brk s; mem_brk := mem_brk s;
     mem_max_addr := mem_max_addr s; heap_listp := heap_listp s;
     seg_listp := p; last_segp := last_segp s |}.
Definition set_last_segp (s : heap) (p : Z) : heap :=
  {| mem := mem s; mem_start_brk := mem_start_brk s; mem_brk := mem_brk s;
     mem_max_addr := mem_max_addr s; heap_listp := heap_listp s;
     seg_listp := seg_listp s; last_segp := p |}.

(** The memory is addressed by bytes: a cell is read, and written, as an
    [unsigned char]; a cell never written reads as 0. *)
Definition loadb (m : gmap Z Z) (a : Z) : Z := default 0 (m !! a) mod 256.
Definition storeb (m : gmap Z Z) (a v : Z) : gmap Z Z := <[a := v mod 256]> m.

(** An [unsigned long] in memory, little endian. *)
Fixpoint load_le (n : nat) (m : gmap Z Z) (a : Z) : Z :=
  match n with
  | O => 0
  | S k => loadb m a + 256 * load_le k m (a + 1)
  end.

Fixpoint store_le (n : nat) (m : gmap Z Z) (a v : Z) : gmap Z Z :=
  match n with
  | O => m
  | S k => store_le k (storeb m a v) (a + 1) (v / 256)
  end.

Definition load8 (m : gmap Z Z) (a : Z) : Z := load_le 8 m a.
Definition store8 (m : gmap Z Z) (a v : Z) : gmap Z Z := store_le 8 m a v.

(** *** The allocator as a state and error monad over the heap *)
Definition M (A : Type) : Type := heap -> outcome (A * heap).

#[global] Instance M_ret : MRet M := fun A a s => Done (a, s).
#[global] Instance M_bind : MBind M := fun A B f x s =>
  match x s with
  | Done (a, s') => f a s'
  | Fault => Fault
  | Timeout => Timeout
  end.

Definition get {A} (f : heap -> A) : M A := fun s => Done (f s, s).
Definition modify (f : heap -> heap) : M unit := fun s => Done (tt, f s).
Definition fault {A} : M A := fun _ => Fault.
Definition timeout {A} : M A := fun _ => Timeout.

Definition in_heap_range (s : heap) (a n : Z) : bool :=
  (mem_start_brk s <=? a) && (a + n <=? mem_brk s).

Definition GET (p : Z) : M Z := fun s =>
  if in_heap_range s p 8 then Done (load8 (mem s) p, s) else Fault.
Definition PUT (p val : Z) : M unit := fun s =>
  if in_heap_range s p 8 then Done (tt, set_mem s (store8 (mem s) p val))
  else Fault.

Definition GET_ADDRESS (p : Z) : M Z := GET p.
Definition PUT_ADDRESS (p ptr : Z) : M unit := PUT p ptr.

Definition GET_SIZE (p : Z) : M Z := v ← GET p; mret (Z.land v (w64 (Z.lnot 7))).
Definition GET_ALLOC (p : Z) : M Z := v ← GET p; mret (Z.land v 1).

Definition HDRP (bp : Z) : Z := bp - DSIZE.
Definition FTRP (bp : Z) : M Z := sz ← GET_SIZE (HDRP bp); mret (bp + sz - QSIZE).
Definition NEXT_BLKP (bp : Z) : M Z := sz ← GET_SIZE (bp - DSIZE); mret (bp + sz).
Definition PREV_BLKP (bp : Z) : M Z := sz ← GET_SIZE (bp - QSIZE); mret (bp - sz).

Definition NEXT_PTR (bp : Z) : Z := bp.
Definition PREV_PTR (bp : Z) : Z := bp + DSIZE.
Definition NEXT_FREEBLKP (bp : Z) : M Z := GET_ADDRESS (NEXT_PTR bp).
Definition PREV_FREEBLKP (bp : Z) : M Z := GET_ADDRESS (PREV_PTR bp).

(** Modelled from the spec: [mem_sbrk] of memlib, which is not among the
    sources, the "monotonic grow-by-bytes primitive returning the new low
    address of the added region (or a sentinel failure)"; the sentinel is
    [(void * )-1]. *)
Definition mem_sbrk (incr : Z) : M Z := fun s =>
  if mem_brk s + incr >? mem_max_addr s then Done (w64 (-1), s)
  else Done (mem_brk s, set_brk s (mem_brk s + incr)).

(** Modelled from the spec: [memset] and [memcpy] of the C library, on
    bytes; a range that leaves the heap is a fault, an empty range
    touches nothing. *)
Definition fill (m : gmap Z Z) (p c : Z) (n : nat) : gmap Z Z :=
  fold_left (fun m i => storeb m (p + Z.of_nat i) c) (seq 0 n) m.
Definition copy (m : gmap Z Z) (dst src : Z) (n : nat) : gmap Z Z :=
  fold_left (fun m' i => storeb m' (dst + Z.of_nat i) (loadb m (src + Z.of_nat i)))
            (seq 0 n) m.

Definition memset (p c n : Z) : M Z := fun s =>
  if n =? 0 then Done (p, s)
  else if in_heap_range s p n
  then Done (p, set_mem s (fill (mem s) p c (Z.to_nat n)))
  else Fault.

Definition memcpy (dst src n : Z) : M Z := fun s =>
  if n =? 0 then Done (dst, s)
  else if in_heap_range s dst n && in_heap_range s src n
  then Done (dst, set_mem s (copy (mem s) dst src (Z.to_nat n)))
  else Fault.

(** [splice_together] *)
Definition splice_together (bp_prev bp_next size : Z) : M unit :=
  sl ← get seg_listp;
  let bucket_ptr := sl + bucket size in
  if (bp_prev =? NULL) && (bp_next =? NULL) then
    PUT_ADDRESS bucket_ptr NULL
  else if (bp_prev =? NULL) && negb (bp_next =? NULL) then
    _ ← PUT_ADDRESS bucket_ptr bp_next;
    PUT_ADDRESS (PREV_PTR bp_next) NULL
  else if negb (bp_prev =? NULL) && (bp_next =? NULL) then
    PUT_ADDRESS (NEXT_PTR bp_prev) NULL
  else
    _ ← PUT_ADDRESS (NEXT_PTR bp_prev) bp_next;
    PUT_ADDRESS (PREV_PTR bp_next) bp_prev.

(** The lines under "Insert coalesced block at root", which [coalesce]
    repeats in each of its four cases. *)
Definition insert_at_root (bp size : Z) : M Z :=
  sl ← get seg_listp;
  let bucket_ptr := sl + bucket size in
  seg_bucket ← GET_ADDRESS bucket_ptr;
  _ ← PUT_ADDRESS (NEXT_PTR bp) seg_bucket;
  _ ← PUT_ADDRESS (PREV_PTR bp) NULL;
  _ ← (if negb (seg_bucket =? NULL) then PUT_ADDRESS (PREV_PTR seg_bucket) bp
       else mret tt);
  _ ← PUT_ADDRESS bucket_ptr bp;
  mret bp.

(** [coalesce] *)
Definition coalesce (bp : Z) : M Z :=
  pb ← PREV_BLKP bp; pf ← FTRP pb; prev_alloc ← GET_ALLOC pf;
  nb ← NEXT_BLKP bp; next_alloc ← GET_ALLOC (HDRP nb);
  size ← GET_SIZE (HDRP bp);
  if negb (prev_alloc =? 0) && negb (next_alloc =? 0) then
    insert_at_root bp size
  else if negb (prev_alloc =? 0) && (next_alloc =? 0) then
    next_adjblock ← NEXT_BLKP bp;
    succ_next ← NEXT_FREEBLKP next_adjblock;
    succ_prev ← PREV_FREEBLKP next_adjblock;
    nsz ← GET_SIZE (HDRP next_adjblock);
    _ ← splice_together succ_prev succ_next nsz;
    nsz' ← GET_SIZE (HDRP next_adjblock);
    let size := w64 (size + nsz') in
    _ ← PUT (HDRP bp) (PACK size 0);
    f ← FTRP bp;
    _ ← PUT f (PACK size 0);
    insert_at_root bp size
  else if (prev_alloc =? 0) && negb (next_alloc =? 0) then
    prev_adjblock ← PREV_BLKP bp;
    pred_next ← NEXT_FREEBLKP prev_adjblock;
    pred_prev ← PREV_FREEBLKP prev_adjblock;
    psz ← GET_SIZE (HDRP prev_adjblock);
    _ ← splice_together pred_prev pred_next psz;
    psz' ← GET_SIZE (HDRP prev_adjblock);
    let size := w64 (size + psz') in
    f ← FTRP bp;
    _ ← PUT f (PACK size 0);
    _ ← PUT (HDRP prev_adjblock) (PACK size 0);
    insert_at_root prev_adjblock size
  else
    next_adjblock ← NEXT_BLKP bp;
    succ_next ← NEXT_FREEBLKP next_adjblock;
    succ_prev ← PREV_FREEBLKP next_adjblock;
    nsz ← GET_SIZE (HDRP next_adjblock);
    _ ← splice_together succ_prev succ_next nsz;
    prev_adjblock ← PREV_BLKP bp;
    pred_next ← NEXT_FREEBLKP prev_adjblock;
    pred_prev ← PREV_FREEBLKP prev_adjblock;
    psz ← GET_SIZE (HDRP prev_adjblock);
    _ ← splice_together pred_prev pred_next psz;
    psz' ← GET_SIZE (HDRP prev_adjblock);
    nf ← FTRP next_adjblock;
    nsz' ← GET_SIZE nf;
    let size := w64 (size + w64 (psz' + nsz')) in
    _ ← PUT (HDRP prev_adjblock) (PACK size 0);
    nf' ← FTRP next_adjblock;
    _ ← PUT nf' (PACK size 0);
    insert_at_root prev_adjblock size.

(** [extend_heap] *)
Definition extend_heap (words : Z) : M Z :=
  let size := if negb (words mod 2 =? 0) then w64 (w64 (words + 1) * WSIZE)
              else w64 (words * WSIZE) in
  bp ← mem_sbrk size;
  if bp =? w64 (-1) then mret NULL
  else
    _ ← PUT (HDRP bp) (PACK size 0);
    f ← FTRP bp;
    _ ← PUT f (PACK size 0);
    nb ← NEXT_BLKP bp;
    _ ← PUT (HDRP nb) (PACK 0 1);
    coalesce bp.

(** [place] *)
Definition place (bp asize : Z) : M unit :=
  csize ← GET_SIZE (HDRP bp);
  next_free ← NEXT_FREEBLKP bp;
  prev_free ← PREV_FREEBLKP bp;
  if w64 (csize - asize) >=? 2 * QSIZE then
    _ ← PUT (HDRP bp) (PACK asize 1);
    f ← FTRP bp;
    _ ← PUT f (PACK asize 1);
    bp ← NEXT_BLKP bp;
    _ ← PUT (HDRP bp) (PACK (w64 (csize - asize)) 0);
    f ← FTRP bp;
    _ ← PUT f (PACK (w64 (csize - asize)) 0);
    _ ← splice_together prev_free next_free csize;
    _ ← coalesce bp;
    mret tt
  else
    _ ← PUT (HDRP bp) (PACK csize 1);
    f ← FTRP bp;
    _ ← PUT f (PACK csize 1);
    splice_together prev_free next_free csize.

(** [find_fit]. The inner loop walks one class list; it also records the
    blocks it visits, which the C code does not. Its result is the
    [result] variable, whether it left by the [return] on an exact fit
    or by the end of the loop. *)
Fixpoint fit_loop (fuel : nat) (asize bp result smallest count : Z)
    (visited : list Z) : M (Z * list Z) :=
  if negb (bp =? NULL) && (count <? 10) then
    match fuel with
    | O => timeout
    | S f =>
        sz ← GET_SIZE (HDRP bp);
        if asize <=? sz then
          if (result =? NULL) || (sz <? smallest) then
            if sz =? asize then mret (bp, visited ++ [bp])
            else
              nx ← GET_ADDRESS bp;
              fit_loop f asize nx bp sz (count + 1) (visited ++ [bp])
          else
            nx ← GET_ADDRESS bp;
            fit_loop f asize nx result smallest (count + 1) (visited ++ [bp])
        else
          nx ← GET_ADDRESS bp;
          fit_loop f asize nx result smallest count (visited ++ [bp])
    end
  else mret (result, visited).

Fixpoint class_loop (classes : nat) (fuel : nat) (asize b_ptr max_addr : Z)
    (visited : list Z) : M (Z * list Z) :=
  if b_ptr <=? max_addr then
    match classes with
    | O => timeout
    | S c =>
        bp ← GET_ADDRESS b_ptr;
        r ← fit_loop fuel asize bp NULL (w64 (-1)) 0 visited;
        if negb (fst r =? NULL) then mret r
        else class_loop c fuel asize (b_ptr + DSIZE) max_addr (snd r)
    end
  else mret (NULL, visited).

(** A class list that ends lies in the heap and has fewer nodes than
    the heap has bytes; there are no more classes than addresses from
    [b_ptr] to [last_segp]. *)
Definition find_fit_trace (asize : Z) : M (Z * list Z) :=
  sl ← get seg_listp;
  max_addr ← get last_segp;
  lo ← get mem_start_brk;
  hi ← get mem_brk;
  let b_ptr := sl + bucket asize in
  class_loop (Z.to_nat (max_addr - b_ptr + 1)) (Z.to_nat (hi - lo)) asize b_ptr
             max_addr [].

Definition find_fit (asize : Z) : M Z :=
  r ← find_fit_trace asize; mret (fst r).

(** [mm_init] *)
Definition mm_init : M Z :=
  p ← mem_sbrk (4 * DSIZE + SEGS * DSIZE);
  _ ← modify (fun s => set_heap_listp s p);
  if p =? w64 (-1) then mret (-1)
  else
    _ ← PUT p 0;
    _ ← foldr (fun x k => _ ← PUT_ADDRESS (p + x * DSIZE) NULL; k) (mret tt)
              (seqZ 1 SEGS);
    _ ← PUT (p + (SEGS + 1) * DSIZE) (PACK QSIZE 1);
    _ ← PUT (p + (SEGS + 2) * DSIZE) (PACK QSIZE 1);
    _ ← PUT (p + (SEGS + 3) * DSIZE) (PACK 0 1);
    _ ← modify (fun s => set_seg_listp s (p + DSIZE));
    _ ← modify (fun s => set_last_segp s (p + SEGS * DSIZE));
    _ ← modify (fun s => set_heap_listp s (p + (SEGS + 2) * DSIZE));
    r ← extend_heap (CHUNKSIZE / WSIZE);
    if r =? NULL then mret (-1) else mret 0.

Definition init_if_needed : M unit :=
  hl ← get heap_listp;
  if hl =? 0 then _ ← mm_init; mret tt else mret tt.

Definition adjust (size : Z) : Z :=
  if size <=? QSIZE then 2 * QSIZE else ALIGN (w64 (size + QSIZE)).

(** [malloc] *)
Definition malloc (size : Z) : M Z :=
  _ ← init_if_needed;
  if size =? 0 then mret NULL
  else
    let asize := adjust size in
    bp ← find_fit asize;
    if negb (bp =? NULL) then
      _ ← place bp asize; mret bp
    else
      let extendsize := MAX asize CHUNKSIZE in
      bp ← extend_heap (extendsize / WSIZE);
      if bp =? NULL then mret NULL
      else _ ← place bp asize; mret bp.

(** [free] *)
Definition free (ptr : Z) : M unit :=
  if ptr =? 0 then mret tt
  else
    size ← GET_SIZE (HDRP ptr);
    _ ← init_if_needed;
    _ ← PUT (HDRP ptr) (PACK size 0);
    f ← FTRP ptr;
    _ ← PUT f (PACK size 0);
    _ ← coalesce ptr;
    mret tt.

(** [realloc] *)
Definition realloc (oldptr size : Z) : M Z :=
  if size =? 0 then _ ← free oldptr; mret 0
  else if oldptr =? NULL then malloc size
  else
    let asize := adjust size in
    oldsize ← GET_SIZE (HDRP oldptr);
    if asize =? oldsize then mret oldptr
    else if asize <? oldsize then
      if w64 (oldsize - asize) >=? 2 * QSIZE then
        _ ← PUT (HDRP oldptr) (PACK asize 1);
        f ← FTRP oldptr;
        _ ← PUT f (PACK asize 1);
        bp ← NEXT_BLKP oldptr;
        _ ← PUT (HDRP bp) (PACK (w64 (oldsize - asize)) 0);
        f ← FTRP bp;
        _ ← PUT f (PACK (w64 (oldsize - asize)) 0);
        _ ← coalesce bp;
        mret oldptr
      else mret oldptr
    else
      next_block ← NEXT_BLKP oldptr;
      na ← (if negb (next_block =? NULL) then GET_ALLOC (HDRP next_block)
            else mret 1);
      absorbed ←
        (if negb (next_block =? NULL) && (na =? 0) then
           succ_next ← NEXT_FREEBLKP next_block;
           succ_prev ← PREV_FREEBLKP next_block;
           nextsize ← GET_SIZE (HDRP next_block);
           if asize <=? w64 (oldsize + nextsize) then
             _ ← PUT (HDRP oldptr) (PACK (w64 (oldsize + nextsize)) 1);
             f ← FTRP oldptr;
             _ ← PUT f (PACK (w64 (oldsize + nextsize)) 1);
             _ ← splice_together succ_prev succ_next nextsize;
             mret true
           else mret false
         else mret false);
      if absorbed : bool then mret oldptr
      else
        newptr ← malloc size;
        if newptr =? 0 then mret 0
        else
          let oldsize := if size <? oldsize then size else oldsize in
          _ ← memcpy newptr oldptr oldsize;
          _ ← free oldptr;
          mret newptr.

(** [calloc] *)
Definition calloc (nmemb size : Z) : M Z :=
  let bytes := w64 (nmemb * size) in
  newptr ← malloc bytes;
  _ ← memset newptr 0 bytes;
  mret newptr.

(** *** The heap as the checker walks it *)

(** A block is its payload address, its size and its allocated bit. The
    walk is the loop of [mm_checkheap]: from [heap_listp], that is from
    the prologue, to the first header of size zero. *)
Fixpoint walk_blocks (fuel : nat) (s : heap) (bp : Z) : list (Z * Z * bool) :=
  match fuel with
  | O => []
  | S f =>
      if in_heap_range s (HDRP bp) 8 then
        let v := load8 (mem s) (HDRP bp) in
        let sz := Z.land v (w64 (Z.lnot 7)) in
        if 0 <? sz then (bp, sz, negb (Z.land v 1 =? 0)) :: walk_blocks f s (bp + sz)
        else []
      else []
  end.

Definition blocks (s : heap) : list (Z * Z * bool) :=
  walk_blocks (Z.to_nat (mem_brk s - mem_start_brk s)) s (heap_listp s).

(** The tiled region: the blocks after the prologue. *)
Definition tiled (s : heap) : list (Z * Z * bool) := tail (blocks s).

Definition header (s : heap) (bp : Z) : Z := load8 (mem s) (HDRP bp).
Definition footer (s : heap) (bp size : Z) : Z := load8 (mem s) (bp + size - QSIZE).

(** No two blocks that follow one another are both free. *)
Fixpoint adj_ok (bl : list (Z * Z * bool)) : Prop :=
  match bl with
  | [] => True
  | b :: rest =>
      match rest with
      | [] => True
      | b' :: _ => snd b = true \/ snd b' = true
      end /\ adj_ok rest
  end.

(** The bytes of a payload. *)
Definition bytes_at (s : heap) (p n : Z) : list Z :=
  map (loadb (mem s)) (seqZ p n).

(** *** Clients *)
Inductive op : Type :=
| Malloc (n : Z)
| Free (p : Z)
| Realloc (p n : Z)
| Calloc (k n : Z)
| Store (p v : Z).

(** [Store p v] is the client writing the byte [v] at [p]. *)
Definition run_op (o : op) : M unit :=
  match o with
  | Malloc n => _ ← malloc n; mret tt
  | Free p => free p
  | Realloc p n => _ ← realloc p n; mret tt
  | Calloc k n => _ ← calloc k n; mret tt
  | Store p v => modify (fun s => set_mem s (storeb (mem s) p v))
  end.

Fixpoint run_ops (ops : list op) : M unit :=
  match ops with
  | [] => mret tt
  | o :: rest => _ ← run_op o; run_ops rest
  end.

(** The largest request whose size adjustment does not wrap. *)
Definition max_request : Z := 2 ^ 64 - 24.

Definition live (s : heap) (p : Z) : Prop := exists z, (p, z, true) ∈ tiled s.

Definition in_payload (s : heap) (x : Z) : Prop :=
  exists b z, (b, z, true) ∈ tiled s /\ b <= x < b + z - QSIZE.

(** What a client has to respect: sizes are [size_t] values within
    [max_request]; only pointers that are allocated are freed or
    reallocated; a client writes into payloads only. *)
Definition op_ok (s : heap) (o : op) : Prop :=
  match o with
  | Malloc n => 0 <= n <= max_request
  | Free p => p = NULL \/ live s p
  | Realloc p n => (p = NULL \/ live s p) /\ 0 <= n <= max_request
  | Calloc k n => 0 <= k < 2 ^ 64 /\ 0 <= n < 2 ^ 64 /\ w64 (k * n) <= max_request
  | Store p v => in_payload s p
  end.

Fixpoint trace_ok (s : heap) (ops : list op) : Prop :=
  match ops with
  | [] => True
  | o :: rest =>
      op_ok s o /\
      match run_op o s with
      | Done (_, s') => trace_ok s' rest
      | _ => True
      end
  end.

(** memlib before [mm_init]: an empty heap at an aligned address, below
    the sentinel of [mem_sbrk]. *)
Definition fresh (s : heap) : Prop :=
  0 < mem_start_brk s /\ mem_start_brk s mod 8 = 0 /\
  mem_brk s = mem_start_brk s /\ mem_max_addr s < 2 ^ 64 - 1.

(** *** The representation invariant *)
Definition tag (sz : Z) (a : bool) : Z := PACK sz (if a then 1 else 0).

(** [tiles m p bl e]: the blocks [bl] lie one after the other from [p]
    to [e], each with its header and footer. *)
Fixpoint tiles (m : gmap Z Z) (p : Z) (bl : list (Z * Z * bool)) (e : Z) : Prop :=
  match bl with
  | [] => p = e
  | (bp, sz, a) :: rest =>
      bp = p /\ 16 <= sz /\ sz mod 8 = 0 /\
      load8 m (bp - 8) = tag sz a /\ load8 m (bp + sz - 16) = tag sz a /\
      tiles m (bp + sz) rest e
  end.

(** [fseg m p l f t e]: the free blocks [l] are linked from [f] to [t];
    the first of them points back to [p] and the last one on to [e]. *)
Fixpoint fseg (m : gmap Z Z) (p : Z) (l : list Z) (f t e : Z) : Prop :=
  match l with
  | [] => f = e /\ t = p
  | bp :: rest =>
      f = bp /\ bp <> NULL /\ load8 m (bp + 8) = p /\
      fseg m bp rest (load8 m bp) t e
  end.

Definition class_offset (k : Z) : Prop := 0 <= k <= 32 /\ k mod 8 = 0.

(** The class lists hold exactly the blocks [L], each in the class of its
    size. *)
Record lists_ok (s : heap) (L : Z -> Z -> Prop) : Prop := {
  lo_heads : 0 < mem_start_brk s <= seg_listp s /\
             seg_listp s + 40 <= mem_brk s < 2 ^ 64;
  lo_in : forall b z, L b z -> seg_listp s + 40 <= b /\ b + 16 <= mem_brk s;
  lo_fun : forall b z z', L b z -> L b z' -> z = z';
  lo_apart : forall b z b' z', L b z -> L b' z' ->
             b = b' \/ b + 16 <= b' \/ b' + 16 <= b;
  lo_class : forall k, class_offset k ->
             exists l t,
               fseg (mem s) NULL l (load8 (mem s) (seg_listp s + k)) t NULL /\
               NoDup l /\
               forall b, b ∈ l <-> exists z, L b z /\ bucket z = k
}.

(** A word that [GET] and [PUT] may access. *)
Definition valid (s : heap) (p : Z) : Prop :=
  mem_start_brk s <= p /\ p + 8 <= mem_brk s.

(** [m'] differs from [m] at most in the words at [ws]. *)
Definition unchanged_except (m m' : gmap Z Z) (ws : list Z) : Prop :=
  forall x, (forall w, w ∈ ws -> x < w \/ w + 8 <= x) -> loadb m' x = loadb m x.

(** Blocks far enough from one another for their two link words. *)
Definition apart (l : list Z) : Prop :=
  forall x y, x ∈ l -> y ∈ l -> x = y \/ x + 16 <= y \/ y + 16 <= x.

Definition listed (bl : list (Z * Z * bool)) (b z : Z) : Prop :=
  (b, z, false) ∈ bl.

(** The heap inside an operation: the class lists hold the blocks [L],
    which need not be the free blocks of the tiling. *)
Record heap_mid (s : heap) (bl : list (Z * Z * bool)) (L : Z -> Z -> Prop)
  : Prop := {
  hm_lo : 0 < mem_start_brk s;
  hm_al : mem_start_brk s mod 8 = 0;
  hm_max : mem_brk s <= mem_max_addr s /\ mem_max_addr s < 2 ^ 64 - 1;
  hm_seg : seg_listp s = mem_start_brk s + 8;
  hm_last : last_segp s = mem_start_brk s + 40;
  hm_hl : heap_listp s = mem_start_brk s + 56;
  hm_tiles : tiles (mem s) (heap_listp s) ((heap_listp s, 16, true) :: bl)
                   (mem_brk s);
  hm_min : forall b z a, (b, z, a) ∈ bl -> 32 <= z;
  hm_epi : load8 (mem s) (mem_brk s - 8) = tag 0 true;
  hm_lists : lists_ok s L
}.

(** The invariant between operations. *)
Definition heap_inv (s : heap) (bl : list (Z * Z * bool)) : Prop :=
  heap_mid s bl (listed bl) /\ adj_ok bl.

(** The payloads of the allocated blocks of [bl] hold the same bytes in
    [m'] as in [m]. *)
Definition preserves (bl : list (Z * Z * bool)) (m m' : gmap Z Z) : Prop :=
  forall q zq x, (q, zq, true) ∈ bl -> q <= x < q + zq - 16 ->
                 loadb m' x = loadb m x.

(** The words that the class lists keep: the heads and the two links
    of each block of [L]. *)
Definition lists_word (s : heap) (L : Z -> Z -> Prop) (w : Z) : Prop :=
  (seg_listp s <= w /\ w + 8 <= seg_listp s + 40) \/
  exists b z, L b z /\ (w = b \/ w = b + 8).

Definition bit (a : bool) : Z := if a then 1 else 0.

(** The state on which [coalesce] is called: the block [bp] is tagged
    free and is in no list; around it the heap is as between
    operations. *)
Definition coalesce_pre (s : heap) (l1 : list (Z * Z * bool)) (bp sz : Z)
    (l2 : list (Z * Z * bool)) : Prop :=
  heap_mid s (l1 ++ (bp, sz, false) :: l2) (listed (l1 ++ l2)) /\
  adj_ok (l1 ++ (bp, sz, true) :: l2).

(** A block's header and footer rewritten. *)
Definition retag (m : gmap Z Z) (bp z : Z) (a : bool) : gmap Z Z :=
  store8 (store8 m (bp - 8) (tag z a)) (bp + z - 16) (tag z a).

(** The inner loop of [find_fit] run on the blocks of a class list, each
    with its size. *)
Fixpoint scan (asize : Z) (l : list (Z * Z)) (result smallest count : Z)
    (visited : list Z) : Z * list Z :=
  match l with
  | [] => (result, visited)
  | (b, z) :: rest =>
      if count <? 10 then
        if asize <=? z then
          if (result =? NULL) || (z <? smallest) then
            if z =? asize then (b, visited ++ [b])
            else scan asize rest b z (count + 1) (visited ++ [b])
          else scan asize rest result smallest (count + 1) (visited ++ [b])
        else scan asize rest result smallest count (visited ++ [b])
      else (result, visited)
  end.

(** The blocks of [l] that are large enough for [asize]. *)
Definition fits (asize : Z) (l : list (Z * Z)) : list (Z * Z) :=
  List.filter (fun x => asize <=? snd x) l.

(** What [find_fit] has found when it has visited the blocks [lv]: no
    more than ten that fit; one of the smallest of those, if there is
    any; a block of exactly [asize] bytes ends the search. *)
Definition found (asize : Z) (lv : list (Z * Z)) (r : Z) : Prop :=
  (length (fits asize lv) <= 10)%nat /\
  (r = NULL <-> fits asize lv = []) /\
  (r <> NULL -> exists z, (r, z) ∈ fits asize lv /\
                 forall b z', (b, z') ∈ fits asize lv -> z <= z') /\
  (forall l1 b l2, lv = l1 ++ (b, asize) :: l2 -> l2 = [] /\ r = b).

(** The loop variables of [find_fit] after the blocks [l0] of a class. *)
Definition scanning (asize : Z) (l0 : list (Z * Z)) (result smallest count : Z) : Prop :=
  count = Z.of_nat (length (fits asize l0)) /\ count <= 10 /\
  (result = NULL -> fits asize l0 = []) /\
  (result <> NULL -> (result, smallest) ∈ fits asize l0 /\
                     forall b z, (b, z) ∈ fits asize l0 -> smallest <= z) /\
  (forall b, (b, asize) ∉ l0).

(** The heap that [mm_init] lays out before it calls [extend_heap]. *)
Definition init_mem (m : gmap Z Z) (p : Z) : gmap Z Z :=
  store8 (store8 (store8
    (store8 (store8 (store8 (store8 (store8 (store8 m p 0)
       (p + 8) 0) (p + 16) 0) (p + 24) 0) (p + 32) 0) (p + 40) 0)
    (p + 48) 17) (p + 56) 17) (p + 64) 1.

Definition init_heap (s : heap) : heap :=
  {| mem := init_mem (mem s) (mem_start_brk s);
     mem_start_brk := mem_start_brk s;
     mem_brk := mem_start_brk s + 72;
     mem_max_addr := mem_max_addr s;
     heap_listp := mem_start_brk s + 56;
     seg_listp := mem_start_brk s + 8;
     last_segp := mem_start_brk s + 40 |}.

(** [x] is in no payload of an allocated block of [bl]. *)
Definition outside (bl : list (Z * Z * bool)) (x : Z) : Prop :=
  forall b z, (b, z, true) ∈ bl -> x < b \/ b + z - 16 <= x.

Definition no_calloc (o : op) : bool :=
  match o with Calloc _ _ => false | _ => true end.

(** The heap of memlib before [mm_init]: [size] bytes at address 4096. *)
Definition heap0 (size : Z) : heap :=
  {| mem := ∅; mem_start_brk := 4096; mem_brk := 4096; mem_max_addr := 4096 + size;
     heap_listp := 0; seg_listp := 0; last_segp := 0 |}.

(** The state that an outcome ends in. *)
Definition final {A} (x : outcome (A * heap)) : heap :=
  match x with
  | Done (_, s) => s
  | _ => heap0 0
  end.

(** A client that leaves 52 free blocks of 32 bytes, no two of them
    adjacent: it allocates 104 blocks and frees every other one. *)
Fixpoint alloc_many (n : nat) : M (list Z) :=
  match n with
  | O => mret []
  | S k => p ← malloc 16; ps ← alloc_many k; mret (p :: ps)
  end.

Fixpoint free_alternate (ps : list Z) : M unit :=
  match ps with
  | p :: _ :: rest => _ ← free p; free_alternate rest
  | _ => mret tt
  end.

Definition fragmented : M unit :=
  _ ← mm_init; ps ← alloc_many 104; free_alternate ps.

(** The number of blocks that [find_fit] visits in the heap that a
    client leaves. *)
Definition visits (asize : Z) (client : M unit) (s0 : heap) : option nat :=
  match client s0 with
  | Done (_, s) =>
      match find_fit_trace asize s with
      | Done ((_, v), _) => Some (length v)
      | _ => None
      end
  | _ => None
  end.

(** The heaps that a client reaches: [mm_init] has returned 0 on the
    empty heap of memlib, and the client has run operations that keep to
    [op_ok]. *)
Definition reachable (s : heap) : Prop :=
  exists s0 s1 ops,
    fresh s0 /\ mm_init s0 = Done (0, s1) /\ trace_ok s1 ops /\
    run_ops ops s1 = Done (tt, s).

(** The heap checker. What [mm_checkheap] prints: one constructor for each [printf], with
    the pointer or the number that it formats. *)
Inductive report : Type :=
| Heap_at (p : Z)
| End_of_list (bp : Z)
| Bad_prologue
| Not_aligned (bp : Z)
| Not_in_heap (bp : Z)
| Header_footer (bp : Z)
| Below_minimum (bp : Z)
| Not_coalesced
| Bad_epilogue
| Has_cycle (k : Z)
| Not_free (bp : Z)
| Bad_links (bp : Z)
| Seg_not_in_heap (bp : Z)
| Wrong_bucket (bp : Z)
| Counts_differ.

Definition printf (r : report) (out : list report) : list report := out ++ [r].

(** Modelled from the spec: [mem_heap_lo] and [mem_heap_hi] of memlib,
    which is not among the sources: the first and the last byte of "the
    current heap bounds". *)
Definition mem_heap_lo : M Z := get mem_start_brk.
Definition mem_heap_hi : M Z := b ← get mem_brk; mret (b - 1).

(** [printblock]: the [printf] of a block with a header is commented
    out in the source; the reads before it are not. *)
Definition printblock (bp : Z) (out : list report) : M (list report) :=
  hsize ← GET_SIZE (HDRP bp);
  halloc ← GET_ALLOC (HDRP bp);
  f ← FTRP bp;
  fsize ← GET_SIZE f;
  f ← FTRP bp;
  falloc ← GET_ALLOC f;
  if hsize =? 0 then mret (printf (End_of_list bp) out) else mret out.

(** [in_heap] *)
Definition in_heap (p : Z) : M bool :=
  hi ← mem_heap_hi;
  if p <=? hi then lo ← mem_heap_lo; mret (lo <=? p) else mret false.

(** [aligned] *)
Definition aligned (p : Z) : bool := ALIGN p =? p.

(** [if(c) { if(verbose) printblock(bp); printf(...); }], which
    [checkblock] repeats for each of its four tests. *)
Definition complain (c : bool) (verbose bp : Z) (r : report) (out : list report)
  : M (list report) :=
  if c then
    out ← (if negb (verbose =? 0) then printblock bp out else mret out);
    mret (printf r out)
  else mret out.

(** [checkblock] *)
Definition checkblock (bp verbose : Z) (out : list report) : M (list report) :=
  out ← complain (negb (aligned bp)) verbose bp (Not_aligned bp) out;
  ih ← in_heap bp;
  out ← complain (negb ih) verbose bp (Not_in_heap bp) out;
  h ← GET (HDRP bp);
  f ← FTRP bp;
  fv ← GET f;
  out ← complain (negb (h =? fv)) verbose bp (Header_footer bp) out;
  hl ← get heap_listp;
  small ← (if negb (bp =? hl) then sz ← GET_SIZE (HDRP bp); mret (sz <? 2 * QSIZE)
           else mret false);
  complain small verbose bp (Below_minimum bp) out.

(** [hascycle]: the loop, one round per unit of fuel. *)
Fixpoint hascycle_loop (fuel : nat) (tortoise hare : Z) : M bool :=
  if negb (tortoise =? NULL) && negb (hare =? NULL) then
    match fuel with
    | O => timeout
    | S f =>
        tortoise ← NEXT_FREEBLKP tortoise;
        hare ← NEXT_FREEBLKP hare;
        if hare =? NULL then mret false
        else
          hare ← NEXT_FREEBLKP hare;
          if tortoise =? hare then mret true
          else hascycle_loop f tortoise hare
    end
  else mret false.

(** The tortoise reads a word of the heap in every round, and meets the
    hare before it has read one twice. *)
Definition hascycle (bp : Z) : M bool :=
  lo ← get mem_start_brk;
  hi ← get mem_brk;
  hascycle_loop (Z.to_nat (hi - lo)) bp bp.

(** The first loop of [mm_checkheap], over the blocks of the heap; the
    counters are [int]s. *)
Fixpoint heap_loop (fuel : nat) (verbose bp heap_free_count : Z) (out : list report)
  : M (Z * Z * list report) :=
  sz ← GET_SIZE (HDRP bp);
  if 0 <? sz then
    match fuel with
    | O => timeout
    | S f =>
        out ← (if negb (verbose =? 0) then printblock bp out else mret out);
        out ← checkblock bp verbose out;
        a ← GET_ALLOC (HDRP bp);
        let heap_free_count :=
          if a =? 0 then Cache.wrap_int (heap_free_count + 1) else heap_free_count in
        a ← GET_ALLOC (HDRP bp);
        out ← (if a =? 0 then
                 nb ← NEXT_BLKP bp;
                 na ← GET_ALLOC (HDRP nb);
                 if na =? 0 then mret (printf Not_coalesced out) else mret out
               else mret out);
        nb ← NEXT_BLKP bp;
        heap_loop f verbose nb heap_free_count out
    end
  else mret (bp, heap_free_count, out).

(** The loop over one class list. *)
Fixpoint list_loop (fuel : nat) (verbose b_ptr bp seg_free_count : Z)
    (out : list report) : M (Z * list report) :=
  if negb (bp =? NULL) then
    match fuel with
    | O => timeout
    | S f =>
        out ← (if negb (verbose =? 0) then printblock bp out else mret out);
        let seg_free_count := Cache.wrap_int (seg_free_count + 1) in
        a ← GET_ALLOC (HDRP bp);
        let out := if negb (a =? 0) then printf (Not_free bp) out else out in
        next_free ← GET_ADDRESS bp;
        out ← (if negb (next_free =? NULL) then
                 pv ← PREV_FREEBLKP next_free;
                 if negb (pv =? bp) then mret (printf (Bad_links bp) out) else mret out
               else mret out);
        ih ← in_heap bp;
        let out := if negb ih then printf (Seg_not_in_heap bp) out else out in
        asize ← GET_SIZE (HDRP bp);
        sl ← get seg_listp;
        let out := if negb (b_ptr =? sl + bucket asize)
                   then printf (Wrong_bucket bp) out else out in
        nx ← GET_ADDRESS bp;
        list_loop f verbose b_ptr nx seg_free_count out
    end
  else mret (seg_free_count, out).

(** The loop over the classes. *)
Fixpoint seg_loop (classes fuel : nat) (verbose b_ptr max_addr seg_free_count : Z)
    (out : list report) : M (Z * list report) :=
  if b_ptr <=? max_addr then
    match classes with
    | O => timeout
    | S c =>
        bp ← GET_ADDRESS b_ptr;
        cyc ← hascycle bp;
        out ← (if cyc : bool then
                 out ← (if negb (verbose =? 0) then printblock bp out else mret out);
                 sz ← GET_SIZE (HDRP bp);
                 mret (printf (Has_cycle (bucket sz / WSIZE)) out)
               else mret out);
        r ← list_loop fuel verbose b_ptr bp seg_free_count out;
        seg_loop c fuel verbose (b_ptr + DSIZE) max_addr (fst r) (snd r)
    end
  else mret (seg_free_count, out).

(** [mm_checkheap]. A walk over the blocks, or along a class list, that
    ends has fewer steps than the heap has bytes; there are no more
    classes than addresses from [seg_listp] to [last_segp]. *)
Definition mm_checkheap (verbose : Z) : M (list report) :=
  hl ← get heap_listp;
  let out := if negb (verbose =? 0) then [Heap_at hl] else [] in
  psz ← GET_SIZE (HDRP hl);
  bad ← (if negb (psz =? QSIZE) then mret true
         else a ← GET_ALLOC (HDRP hl); mret (a =? 0));
  let out := if bad : bool then printf Bad_prologue out else out in
  out ← checkblock hl verbose out;
  lo ← get mem_start_brk;
  hi ← get mem_brk;
  r ← heap_loop (Z.to_nat (hi - lo)) verbose hl 0 out;
  let bp := fst (fst r) in
  let heap_free_count := snd (fst r) in
  out ← (if negb (verbose =? 0) then printblock bp (snd r) else mret (snd r));
  esz ← GET_SIZE (HDRP bp);
  bad ← (if negb (esz =? 0) then mret true
         else a ← GET_ALLOC (HDRP bp); mret (a =? 0));
  let out := if bad : bool then printf Bad_epilogue out else out in
  b_ptr ← get seg_listp;
  max_addr ← get last_segp;
  r ← seg_loop (Z.to_nat (max_addr - b_ptr + 1)) (Z.to_nat (hi - lo)) verbose
               b_ptr max_addr 0 out;
  if negb (heap_free_count =? fst r) then mret (printf Counts_differ (snd r))
  else mret (snd r).

Definition free_count (l : list (Z * Z * bool)) : nat :=
  length (List.filter (fun x => negb (snd x)) l).

(** The counter after [n] increments. *)
Definition count_up (c : Z) (n : nat) : Z :=
  Nat.iter n (fun c => Cache.wrap_int (c + 1)) c.

(** The size in the header of a block. *)
Definition size_at (s : heap) (bp : Z) : Z :=
  Z.land (load8 (mem s) (HDRP bp)) (w64 (Z.lnot 7)).

(** What [checkblock] tests. *)
Definition block_ok (s : heap) (bp : Z) : Prop :=
  bp mod 8 = 0 /\ mem_start_brk s <= bp < mem_brk s /\
  header s bp = footer s bp (size_at s bp) /\
  (bp <> heap_listp s -> 32 <= size_at s bp).

(** A block as the walk of the checker meets it, with what the checker
    tests of it. *)
Definition checked (s : heap) (x : Z * Z * bool) : Prop :=
  snd (fst x) = size_at s (fst (fst x)) /\ block_ok s (fst (fst x)).

(** *** Size classes *)


Lemma geb_false a b : a < b -> (a >=? b) = false.
Proof. intros. rewrite Z.geb_leb. apply Z.leb_gt. lia. Qed.

Lemma geb_true a b : b <= a -> (a >=? b) = true.
Proof. intros. rewrite Z.geb_leb. apply Z.leb_le. lia. Qed.

Lemma floor_log_spec fuel b d n : forall k,
  1 < b -> 0 < d -> 0 <= k -> d * b ^ k <= n ->
  let r := floor_log fuel b d n k in
  k <= r <= k + Z.of_nat fuel /\ d * b ^ r <= n /\
  (r < k + Z.of_nat fuel -> n < d * b ^ (r + 1)).
Proof.
  induction fuel as [|fuel IH]; intros k Hb Hd Hk Hle; simpl.
  - split; [lia|]. split; [exact Hle|]. lia.
  - destruct (Z.leb_spec (d * b ^ (k + 1)) n) as [H|H].
    + destruct (IH (k + 1) Hb Hd ltac:(lia) H) as (H1 & H2 & H3).
      split; [lia|]. split; [exact H2|]. intros; apply H3. lia.
    + split; [lia|]. split; [exact Hle|]. intros _. exact H.
Qed.

Lemma pow_bracket_unique b d n j r :
  1 < b -> 0 < d -> 0 <= j -> 0 <= r ->
  d * b ^ j <= n < d * b ^ (j + 1) ->
  d * b ^ r <= n < d * b ^ (r + 1) -> j = r.
Proof.
  intros Hb Hd Hj Hr [Hj1 Hj2] [Hr1 Hr2].
  destruct (Z.lt_trichotomy j r) as [Hlt|[Heq|Hgt]]; [|exact Heq|]; exfalso.
  - assert (b ^ (j + 1) <= b ^ r) by (apply Z.pow_le_mono_r; lia). nia.
  - assert (b ^ (r + 1) <= b ^ j) by (apply Z.pow_le_mono_r; lia). nia.
Qed.

Lemma floor_log_bracket n :
  32 <= n < 2 ^ 64 ->
  let r := floor_log 64 RATIO 32 n 0 in
  0 <= r /\ 32 * RATIO ^ r <= n < 32 * RATIO ^ (r + 1).
Proof.
  intros Hn r.
  destruct (floor_log_spec 64 RATIO 32 n 0) as (H1 & H2 & H3);
    [unfold RATIO; lia|lia|lia|simpl; lia|].
  fold r in H1, H2, H3. split; [lia|]. split; [exact H2|]. apply H3.
  destruct (Z.eq_dec r 64) as [E|E]; [|lia].
  rewrite E in H2. unfold RATIO in H2. exfalso.
  assert (2 ^ 64 < 32 * 6 ^ 64) by (vm_compute; reflexivity). lia.
Qed.

Lemma floor_log_eq n j :
  32 <= n < 2 ^ 64 -> 0 <= j -> 32 * RATIO ^ j <= n < 32 * RATIO ^ (j + 1) ->
  floor_log 64 RATIO 32 n 0 = j.
Proof.
  intros Hn Hj Hb. destruct (floor_log_bracket n Hn) as [Hr Hbr].
  symmetry. eapply (pow_bracket_unique RATIO 32 n); eauto; unfold RATIO; lia.
Qed.

Lemma bucket_loop_zero fuel log : bucket_loop fuel 0 log = log.
Proof. destruct fuel; reflexivity. Qed.

Lemma bucket_loop_step fuel num log :
  0 < num -> (Z.to_nat num <= fuel)%nat ->
  bucket_loop fuel num log = bucket_loop (pred fuel) (num / RATIO) (log + 1) /\
  (Z.to_nat (num / RATIO) <= pred fuel)%nat.
Proof.
  intros Hn Hf. destruct fuel as [|fuel]; [lia|]. simpl.
  replace (num =? 0) with false by (symmetry; apply Z.eqb_neq; lia).
  split; [reflexivity|].
  assert (num / RATIO < num) by (apply Z.div_lt; unfold RATIO; lia).
  assert (0 <= num / RATIO) by (apply Z.div_pos; unfold RATIO; lia). lia.
Qed.

Lemma bucket_small n :
  32 <= n < 32 * LASTCLASS ->
  exists j, 0 <= j < 4 /\ bucket n = j * DSIZE /\
            32 * RATIO ^ j <= n < 32 * RATIO ^ (j + 1).
Proof.
  intros Hn. unfold bucket, LASTCLASS, QSIZE, RATIO, DSIZE, SEGS in *.
  change (2 * 16) with 32.
  assert (Hq : 1 <= n / 32 < 1296).
  { split; [apply Z.div_le_lower_bound; lia|apply Z.div_lt_upper_bound; lia]. }
  rewrite geb_false by lia.
  pose proof (Z.div_mod n 32 ltac:(lia)) as E0.
  pose proof (Z.mod_pos_bound n 32 ltac:(lia)) as B0.
  set (q := n / 32) in *.
  pose proof (Z.div_mod q 6 ltac:(lia)) as E1.
  pose proof (Z.mod_pos_bound q 6 ltac:(lia)) as B1.
  set (q1 := q / 6) in *.
  destruct (Z.eq_dec q1 0) as [Z1|N1].
  { exists 0. rewrite Z1. simpl. split; [lia|]. split; [reflexivity|]. lia. }
  destruct (bucket_loop_step (Z.to_nat q1) q1 0) as [-> F1]; [lia|lia|].
  unfold RATIO in *.
  pose proof (Z.div_mod q1 6 ltac:(lia)) as E2.
  pose proof (Z.mod_pos_bound q1 6 ltac:(lia)) as B2.
  set (q2 := q1 / 6) in *.
  destruct (Z.eq_dec q2 0) as [Z2|N2].
  { exists 1. rewrite Z2, bucket_loop_zero. split; [lia|]. split; [reflexivity|].
    change (6 ^ 1) with 6. change (6 ^ (1 + 1)) with 36. lia. }
  destruct (bucket_loop_step (pred (Z.to_nat q1)) q2 (0 + 1)) as [-> F2]; [lia|lia|].
  unfold RATIO in *.
  pose proof (Z.div_mod q2 6 ltac:(lia)) as E3.
  pose proof (Z.mod_pos_bound q2 6 ltac:(lia)) as B3.
  set (q3 := q2 / 6) in *.
  destruct (Z.eq_dec q3 0) as [Z3|N3].
  { exists 2. rewrite Z3, bucket_loop_zero. split; [lia|]. split; [reflexivity|].
    change (6 ^ 2) with 36. change (6 ^ (2 + 1)) with 216. lia. }
  destruct (bucket_loop_step (pred (pred (Z.to_nat q1))) q3 (0 + 1 + 1)) as [-> F3]; [lia|lia|].
  unfold RATIO in *.
  assert (Z4 : q3 / 6 = 0) by (apply Z.div_small; lia).
  exists 3. rewrite Z4, bucket_loop_zero. split; [lia|]. split; [reflexivity|].
  change (6 ^ 3) with 216. change (6 ^ (3 + 1)) with 1296. lia.
Qed.

Lemma bucket_large n : 32 * LASTCLASS <= n -> bucket n = (SEGS - 1) * DSIZE.
Proof.
  intros Hn. unfold bucket, LASTCLASS, QSIZE in *. change (2 * 16) with 32.
  assert (1296 <= n / 32) by (apply Z.div_le_lower_bound; lia).
  rewrite geb_true by lia.
  reflexivity.
Qed.

(** C5. For every block size from 32 up, [bucket] returns the slot size
    times the class of the specification, which is the smaller of
    [SEGS - 1] and the largest [k] with [32 * RATIO ^ k <= size]; and
    every size from [32 * RATIO ^ (SEGS - 1)] up is in the last class. *)
Theorem bucket_is_size_class size :
  32 <= size < 2 ^ 64 ->
  bucket size = spec_class size * DSIZE /\
  (exists k, 0 <= k /\ 32 * RATIO ^ k <= size < 32 * RATIO ^ (k + 1) /\
             spec_class size = Z.min (SEGS - 1) k) /\
  (32 * RATIO ^ (SEGS - 1) <= size -> bucket size = (SEGS - 1) * DSIZE).
Proof.
  intros Hs. destruct (floor_log_bracket size Hs) as [Hr Hbr].
  split; [|split].
  - destruct (Z.lt_ge_cases size (32 * LASTCLASS)) as [Hsmall|Hlarge].
    + destruct (bucket_small size) as (j & Hj & -> & Hb); [lia|].
      unfold spec_class. rewrite (floor_log_eq size j Hs) by (lia || exact Hb).
      unfold SEGS. f_equal. lia.
    + rewrite (bucket_large size Hlarge). unfold spec_class. f_equal.
      symmetry. apply Z.min_l.
      destruct (Z.le_gt_cases (SEGS - 1) (floor_log 64 RATIO 32 size 0)) as [|Hlt];
        [assumption|exfalso].
      assert (RATIO ^ (floor_log 64 RATIO 32 size 0 + 1) <= RATIO ^ 4)
        by (apply Z.pow_le_mono_r; unfold RATIO, SEGS in *; lia).
      unfold LASTCLASS, RATIO in *. change (6 ^ 4) with 1296 in *. lia.
  - exists (floor_log 64 RATIO 32 size 0). auto.
  - intros Hl. apply bucket_large. exact Hl.
Qed.

Lemma bucket_is_size_class_witness :
  bucket 200 = spec_class 200 * DSIZE.
Proof.
  assert (H : 32 <= 200 < 2 ^ 64) by lia.
  exact (proj1 (bucket_is_size_class 200 H)).
Defined.

(** *** Memory *)


Lemma loadb_storeb_same m a v : loadb (storeb m a v) a = v mod 256.
Proof. unfold loadb, storeb. rewrite lookup_insert_eq. apply Z.mod_mod. lia. Qed.

Lemma loadb_storeb_other m a v b : a <> b -> loadb (storeb m a v) b = loadb m b.
Proof. intros H. unfold loadb, storeb. by rewrite lookup_insert_ne. Qed.

Lemma loadb_store_le n : forall m a v b,
  b < a \/ a + Z.of_nat n <= b -> loadb (store_le n m a v) b = loadb m b.
Proof.
  induction n as [|n IH]; intros m a v b H; [reflexivity|].
  cbn [store_le]. rewrite IH by lia. apply loadb_storeb_other. lia.
Qed.

Lemma load_le_ext n : forall m m' a,
  (forall x, a <= x < a + Z.of_nat n -> loadb m' x = loadb m x) ->
  load_le n m' a = load_le n m a.
Proof.
  induction n as [|n IH]; intros m m' a H; [reflexivity|].
  cbn [load_le]. rewrite H by lia. rewrite (IH m m') ; [reflexivity|].
  intros x Hx. apply H. lia.
Qed.

Lemma load_store_le n : forall m a v,
  load_le n (store_le n m a v) a = v mod 256 ^ Z.of_nat n.
Proof.
  induction n as [|n IH]; intros m a v.
  - simpl. by rewrite Z.mod_1_r.
  - cbn [load_le store_le]. rewrite IH.
    rewrite loadb_store_le by lia. rewrite loadb_storeb_same.
    rewrite Nat2Z.inj_succ, Z.pow_succ_r by lia.
    rewrite (Z.rem_mul_r v 256 (256 ^ Z.of_nat n)); lia.
Qed.

Lemma load8_store8_same m a v : load8 (store8 m a v) a = w64 v.
Proof. unfold load8, store8. rewrite load_store_le. reflexivity. Qed.

Lemma load8_ext m m' a :
  (forall x, a <= x < a + 8 -> loadb m' x = loadb m x) -> load8 m' a = load8 m a.
Proof. intros H. apply load_le_ext. exact H. Qed.

Lemma loadb_store8 m a v b :
  b < a \/ a + 8 <= b -> loadb (store8 m a v) b = loadb m b.
Proof. intros H. apply loadb_store_le. simpl. lia. Qed.

Lemma load8_store8_other m a v b :
  b + 8 <= a \/ a + 8 <= b -> load8 (store8 m a v) b = load8 m b.
Proof. intros H. apply load8_ext. intros x Hx. apply loadb_store8. lia. Qed.

(** bits *)
Lemma PACK_add sz a : 0 <= sz -> sz mod 8 = 0 -> 0 <= a < 8 -> PACK sz a = sz + a.
Proof.
  intros Hsz Hm Ha. unfold PACK.
  assert (E : Z.land sz a = 0).
  { apply Z.bits_inj'. intros n Hn. rewrite Z.land_spec, Z.bits_0.
    destruct (Z.lt_ge_cases n 3).
    - replace sz with (sz / 8 * 2 ^ 3) by (Z.div_mod_to_equations; lia).
      rewrite Z.mul_pow2_bits_low by lia. reflexivity.
    - rewrite (Z.bits_above_log2 a n); [apply andb_false_r|lia|].
      destruct (Z.eq_dec a 0) as [->|]; [simpl; lia|].
      apply Z.log2_lt_pow2; [lia|]. apply Z.lt_le_trans with (2 ^ 3); [simpl; lia|].
      apply Z.pow_le_mono_r; lia. }
  pose proof (Z.add_lor_land sz a). lia.
Qed.

Lemma land_low sz a : 0 <= sz -> sz mod 8 = 0 -> 0 <= a < 2 -> Z.land (sz + a) 1 = a.
Proof.
  intros Hsz Hm Ha. change 1 with (Z.ones 1). rewrite Z.land_ones by lia.
  change (2 ^ 1) with 2. Z.div_mod_to_equations. lia.
Qed.

Lemma land_high sz a :
  0 <= sz < 2 ^ 64 -> sz mod 8 = 0 -> 0 <= a < 8 ->
  Z.land (sz + a) (w64 (Z.lnot 7)) = sz.
Proof.
  intros Hsz Hm Ha.
  change (w64 (Z.lnot 7)) with (Z.ldiff (Z.ones 64) (Z.ones 3)).
  rewrite <- (PACK_add sz a) by lia. unfold PACK.
  apply Z.bits_inj'. intros n Hn.
  rewrite Z.land_spec, Z.lor_spec, Z.ldiff_spec.
  assert (Hlow : n < 3 -> Z.testbit sz n = false).
  { intros. replace sz with (sz / 8 * 2 ^ 3) by (Z.div_mod_to_equations; lia).
    apply Z.mul_pow2_bits_low. lia. }
  assert (Ha3 : 3 <= n -> Z.testbit a n = false).
  { intros. destruct (Z.eq_dec a 0) as [->|]; [apply Z.bits_0|].
    apply Z.bits_above_log2; [lia|].
    apply Z.log2_lt_pow2; [lia|]. apply Z.lt_le_trans with (2 ^ 3); [simpl; lia|].
    apply Z.pow_le_mono_r; lia. }
  assert (Hhigh : 64 <= n -> Z.testbit sz n = false).
  { intros. destruct (Z.eq_dec sz 0) as [->|]; [apply Z.bits_0|].
    apply Z.bits_above_log2; [lia|].
    apply Z.log2_lt_pow2; [lia|]. apply Z.lt_le_trans with (2 ^ 64); [lia|].
    apply Z.pow_le_mono_r; lia. }
  destruct (Z.lt_ge_cases n 3).
  - rewrite Hlow by lia. rewrite (Z.ones_spec_low 3) by lia.
    cbn [negb]. rewrite !andb_false_r. reflexivity.
  - rewrite Ha3 by lia. rewrite (Z.ones_spec_high 3) by lia.
    rewrite orb_false_r. destruct (Z.lt_ge_cases n 64).
    + rewrite Z.ones_spec_low by lia. cbn [negb andb]. by rewrite andb_true_r.
    + rewrite Hhigh by lia. reflexivity.
Qed.

(** monad *)
Lemma bind_run {A B} (m : M A) (f : A -> M B) s a s' :
  m s = Done (a, s') -> (m ≫= f) s = f a s'.
Proof. intros H. unfold mbind, M_bind. rewrite H. reflexivity. Qed.

Lemma ret_run {A} (a : A) s : (mret a : M A) s = Done (a, s).
Proof. reflexivity. Qed.

Lemma get_run {A} (f : heap -> A) s : get f s = Done (f s, s).
Proof. reflexivity. Qed.

Lemma in_heap_range_true s p n :
  mem_start_brk s <= p /\ p + n <= mem_brk s -> in_heap_range s p n = true.
Proof.
  intros [H1 H2]. unfold in_heap_range.
  apply andb_true_intro. split; apply Z.leb_le; lia.
Qed.

Lemma GET_run s p : valid s p -> GET p s = Done (load8 (mem s) p, s).
Proof. intros H. unfold GET. by rewrite in_heap_range_true. Qed.

Lemma PUT_run s p v :
  valid s p -> PUT p v s = Done (tt, set_mem s (store8 (mem s) p v)).
Proof. intros H. unfold PUT. by rewrite in_heap_range_true. Qed.

Lemma GET_SIZE_run s p :
  valid s p -> GET_SIZE p s = Done (Z.land (load8 (mem s) p) (w64 (Z.lnot 7)), s).
Proof. intros H. unfold GET_SIZE. rewrite (bind_run _ _ _ _ _ (GET_run s p H)). reflexivity. Qed.

Lemma GET_ALLOC_run s p :
  valid s p -> GET_ALLOC p s = Done (Z.land (load8 (mem s) p) 1, s).
Proof. intros H. unfold GET_ALLOC. rewrite (bind_run _ _ _ _ _ (GET_run s p H)). reflexivity. Qed.

Lemma tag_add sz a : 0 <= sz -> sz mod 8 = 0 -> tag sz a = sz + (if a then 1 else 0).
Proof. intros. unfold tag. apply PACK_add; auto. destruct a; lia. Qed.

Lemma tag_size sz a :
  0 <= sz < 2 ^ 64 -> sz mod 8 = 0 -> Z.land (tag sz a) (w64 (Z.lnot 7)) = sz.
Proof. intros. rewrite tag_add by lia. apply land_high; auto. destruct a; lia. Qed.

Lemma tag_alloc sz a :
  0 <= sz -> sz mod 8 = 0 -> Z.land (tag sz a) 1 = if a then 1 else 0.
Proof. intros. rewrite tag_add by lia. apply land_low; auto. destruct a; lia. Qed.

Lemma tag_range sz a : 0 <= sz < 2 ^ 64 -> sz mod 8 = 0 -> w64 (tag sz a) = tag sz a.
Proof.
  intros. rewrite tag_add by lia. unfold w64. apply Z.mod_small.
  destruct a; Z.div_mod_to_equations; lia.
Qed.

(** tiles *)
Lemma tiles_app m l1 : forall p l2 e,
  tiles m p (l1 ++ l2) e <-> exists q, tiles m p l1 q /\ tiles m q l2 e.
Proof.
  induction l1 as [|[[b z] a] l1 IH]; intros p l2 e; simpl.
  - split; [intros H; exists p; auto|intros (q & -> & H); exact H].
  - split.
    + intros (-> & H1 & H2 & H3 & H4 & H). apply IH in H as (q & Hq1 & Hq2).
      exists q. auto 10.
    + intros (q & (-> & H1 & H2 & H3 & H4 & H) & Hq).
      split; [reflexivity|]. repeat (split; [assumption|]). apply IH. eauto.
Qed.

Lemma tiles_le m l : forall p e, tiles m p l e -> p <= e.
Proof.
  induction l as [|[[b z] a] l IH]; intros p e; simpl.
  - lia.
  - intros (-> & H1 & _ & _ & _ & H). apply IH in H. lia.
Qed.

Lemma tiles_bounds m l : forall p e b z a,
  tiles m p l e -> (b, z, a) ∈ l -> p <= b /\ b + z <= e /\ 16 <= z /\ z mod 8 = 0.
Proof.
  induction l as [|[[b' z'] a'] l IH]; intros p e b z a H Hin.
  - by apply elem_of_nil in Hin.
  - destruct H as (-> & H1 & H2 & _ & _ & H).
    apply elem_of_cons in Hin as [[= -> -> ->]|Hin].
    + apply tiles_le in H. lia.
    + destruct (IH _ _ _ _ _ H Hin). lia.
Qed.

Lemma tiles_frame m m' l : forall p e,
  (forall x, p - 8 <= x < e - 8 -> loadb m' x = loadb m x) ->
  tiles m p l e -> tiles m' p l e.
Proof.
  induction l as [|[[b z] a] l IH]; intros p e Hsame H; [exact H|].
  destruct H as (-> & H1 & H2 & H3 & H4 & H).
  pose proof (tiles_le _ _ _ _ H) as Hle.
  split; [reflexivity|]. split; [exact H1|]. split; [exact H2|].
  rewrite !(load8_ext m m') by (intros; apply Hsame; lia).
  split; [exact H3|]. split; [exact H4|].
  apply IH; [|exact H]. intros x Hx. apply Hsame. lia.
Qed.

Lemma tiles_apart m l : forall p e b z a b' z' a',
  tiles m p l e -> (b, z, a) ∈ l -> (b', z', a') ∈ l ->
  (b, z, a) = (b', z', a') \/ b + z <= b' \/ b' + z' <= b.
Proof.
  induction l as [|[[b0 z0] a0] l IH]; intros p e b z a b' z' a' H Hin Hin'.
  - by apply elem_of_nil in Hin.
  - destruct H as (-> & H1 & H2 & _ & _ & H).
    apply elem_of_cons in Hin as [[= -> -> ->]|Hin];
      apply elem_of_cons in Hin' as [[= -> -> ->]|Hin'].
    + auto.
    + destruct (tiles_bounds _ _ _ _ _ _ _ H Hin'). lia.
    + destruct (tiles_bounds _ _ _ _ _ _ _ H Hin). lia.
    + eapply IH; eauto.
Qed.


(** *** Class lists *)

Lemma bucket_loop_bound fuel : forall num log j,
  0 <= j -> 0 <= num < RATIO ^ j ->
  log <= bucket_loop fuel num log <= log + j.
Proof.
  induction fuel as [|fuel IH]; intros num log j Hj Hn; simpl; [lia|].
  destruct (Z.eqb_spec num 0) as [E|E]; [lia|].
  assert (j <> 0) by (intros ->; simpl in Hn; lia).
  destruct (IH (num / RATIO) (log + 1) (j - 1)) as [H1 H2]; [lia| |lia].
  replace (RATIO ^ j) with (RATIO * RATIO ^ (j - 1)) in Hn
    by (rewrite <- Z.pow_succ_r by lia; f_equal; lia).
  unfold RATIO in *. split; [apply Z.div_pos; lia|].
  apply Z.div_lt_upper_bound; lia.
Qed.

Lemma bucket_range n : class_offset (bucket n).
Proof.
  unfold bucket, class_offset, LASTCLASS, QSIZE, SEGS, DSIZE.
  destruct (Z.geb_spec (n / (2 * 16)) 1296) as [H|H]; [split; [lia|reflexivity]|].
  set (q := n / (2 * 16) / RATIO).
  assert (Hq : q < 216) by (apply Z.div_lt_upper_bound; unfold RATIO; lia).
  destruct (Z.lt_ge_cases q 0) as [Hneg|Hpos].
  - replace (Z.to_nat q) with O by lia. simpl. split; [lia|reflexivity].
  - pose proof (bucket_loop_bound (Z.to_nat q) q 0 3 ltac:(lia)) as Hb.
    unfold RATIO in Hb. change (6 ^ 3) with 216 in Hb. specialize (Hb ltac:(lia)).
    split; [lia|]. apply Z.mod_mul. lia.
Qed.

(** fseg *)
Lemma fseg_app m l1 : forall p l2 f t e,
  fseg m p (l1 ++ l2) f t e <->
  exists t1 mid, fseg m p l1 f t1 mid /\ fseg m t1 l2 mid t e.
Proof.
  induction l1 as [|a l1 IH]; intros p l2 f t e; simpl.
  - split.
    + intros H. exists p, f. auto.
    + intros (t1 & mid & [-> ->] & H). exact H.
  - split.
    + intros (-> & Ha & Hp & H). apply IH in H as (t1 & mid & H1 & H2).
      exists t1, mid. auto.
    + intros (t1 & mid & (-> & Ha & Hp & H1) & H2).
      split; [reflexivity|]. split; [exact Ha|]. split; [exact Hp|].
      apply IH. eauto.
Qed.

Lemma fseg_last m l : forall p f t e,
  fseg m p l f t e -> l <> [] ->
  t <> NULL /\ load8 m t = e /\ exists l', l = l' ++ [t].
Proof.
  induction l as [|a l IH]; intros p f t e H Hne; [congruence|].
  destruct H as (-> & Ha & Hp & H). destruct l as [|b l].
  - destruct H as [H ->]. split; [exact Ha|]. split; [exact H|]. by exists [].
  - destruct (IH _ _ _ _ H) as (Ht & He & l' & El); [congruence|].
    split; [exact Ht|]. split; [exact He|]. exists (a :: l'). by rewrite El.
Qed.

Lemma fseg_frame m m' l : forall p f t e,
  (forall b, b ∈ l -> load8 m' b = load8 m b /\ load8 m' (b + 8) = load8 m (b + 8)) ->
  fseg m p l f t e -> fseg m' p l f t e.
Proof.
  induction l as [|a l IH]; intros p f t e Hsame H; [exact H|].
  destruct H as (-> & Ha & Hp & H).
  destruct (Hsame a (list_elem_of_here _ _)) as [E1 E2].
  split; [reflexivity|]. split; [exact Ha|]. rewrite E1, E2. split; [exact Hp|].
  apply IH; [|exact H]. intros b Hb. apply Hsame. by apply list_elem_of_further.
Qed.

Lemma apart_cons a l : apart (a :: l) -> apart l.
Proof. intros H x y Hx Hy. apply H; by apply list_elem_of_further. Qed.

(** Redirecting the forward link of the last block of a segment. *)
Lemma fseg_set_end m l : forall p f t e e',
  fseg m p l f t e -> NoDup l -> apart l -> l <> [] -> 0 <= e' < 2 ^ 64 ->
  fseg (store8 m t e') p l f t e'.
Proof.
  induction l as [|a l IH]; intros p f t e e' H Hnd Hap Hne He; [congruence|].
  destruct H as (-> & Ha & Hp & H).
  apply NoDup_cons in Hnd as [Hnin Hnd].
  destruct l as [|b l].
  - destruct H as [H ->]. split; [reflexivity|]. split; [exact Ha|].
    rewrite load8_store8_other by lia. split; [exact Hp|].
    rewrite load8_store8_same. split; [|reflexivity]. unfold w64. apply Z.mod_small. lia.
  - destruct (fseg_last _ _ _ _ _ _ H) as (Ht & _ & l' & El); [congruence|].
    assert (Htin : t ∈ b :: l) by (rewrite El; apply elem_of_app; right; apply list_elem_of_here).
    assert (Hat : a + 16 <= t \/ t + 16 <= a).
    { destruct (Hap a t) as [E|E]; [apply list_elem_of_here|by apply list_elem_of_further| |exact E].
      subst. contradiction. }
    split; [reflexivity|]. split; [exact Ha|].
    rewrite !load8_store8_other by lia. split; [exact Hp|].
    apply (IH a _ t e e'); [exact H|exact Hnd|by apply apart_cons in Hap|congruence|exact He].
Qed.

(** Redirecting the backward link of the first block of a segment. *)
Lemma fseg_set_start m l p f t e p' :
  fseg m p l f t e -> NoDup l -> apart l -> l <> [] -> 0 <= p' < 2 ^ 64 ->
  fseg (store8 m (f + 8) p') p' l f t e.
Proof.
  destruct l as [|a l]; [congruence|].
  intros (-> & Ha & Hp & H) Hnd Hap _ Hp'.
  apply NoDup_cons in Hnd as [Hnin Hnd].
  split; [reflexivity|]. split; [exact Ha|].
  rewrite load8_store8_same. split; [unfold w64; apply Z.mod_small; lia|].
  rewrite load8_store8_other by lia.
  eapply fseg_frame; [|exact H].
  intros b Hb.
  assert (a + 16 <= b \/ b + 16 <= a).
  { destruct (Hap a b) as [E|E]; [apply list_elem_of_here|by apply list_elem_of_further| |exact E].
    subst. contradiction. }
  rewrite !load8_store8_other by lia. auto.
Qed.

Lemma fseg_in m l : forall p f t e b, fseg m p l f t e -> b ∈ l -> b <> NULL.
Proof.
  induction l as [|a l IH]; intros p f t e b H Hb; [by apply elem_of_nil in Hb|].
  destruct H as (-> & Ha & _ & H).
  apply elem_of_cons in Hb as [->|Hb]; [exact Ha|eauto].
Qed.


Lemma unchanged_refl m : unchanged_except m m [].
Proof. intros x _. reflexivity. Qed.

Lemma unchanged_store8 m w v : unchanged_except m (store8 m w v) [w].
Proof.
  intros x H. apply loadb_store8.
  destruct (H w (list_elem_of_here _ _)); lia.
Qed.

Lemma unchanged_trans m m1 m2 ws1 ws2 :
  unchanged_except m m1 ws1 -> unchanged_except m1 m2 ws2 ->
  unchanged_except m m2 (ws1 ++ ws2).
Proof.
  intros H1 H2 x Hx. rewrite H2, H1; [reflexivity| |];
    intros w Hw; apply Hx, elem_of_app; auto.
Qed.

Lemma unchanged_weaken m m' ws ws' :
  unchanged_except m m' ws -> (forall w, w ∈ ws -> w ∈ ws') ->
  unchanged_except m m' ws'.
Proof. intros H Hsub x Hx. apply H. intros w Hw. apply Hx, Hsub, Hw. Qed.

Lemma unchanged_load8 m m' ws a :
  unchanged_except m m' ws -> (forall w, w ∈ ws -> a + 8 <= w \/ w + 8 <= a) ->
  load8 m' a = load8 m a.
Proof.
  intros H Hw. apply load8_ext. intros x Hx. apply H.
  intros w Hin. destruct (Hw w Hin); lia.
Qed.


Lemma class_offset_apart k k' :
  class_offset k -> class_offset k' -> k <> k' -> k + 8 <= k' \/ k' + 8 <= k.
Proof. unfold class_offset. intros [_ H] [_ H'] Hne. Z.div_mod_to_equations. lia. Qed.

(** Replacing the list of one class, the words of the others being
    left as they are. *)
Lemma lists_ok_replace s (L L' : Z -> Z -> Prop) k m' ws (lold lnew : list Z) t' :
  lists_ok s L -> class_offset k ->
  (forall x, x ∈ lold <-> exists z, L x z /\ bucket z = k) ->
  (forall b z, bucket z <> k -> (L' b z <-> L b z)) ->
  (forall b z, L' b z -> seg_listp s + 40 <= b /\ b + 16 <= mem_brk s) ->
  (forall b z z', L' b z -> L' b z' -> z = z') ->
  (forall b z b' z', L' b z -> L' b' z' -> b = b' \/ b + 16 <= b' \/ b' + 16 <= b) ->
  unchanged_except (mem s) m' ws ->
  (forall w, w ∈ ws ->
     w = seg_listp s + k \/
     exists x, (x ∈ lold \/ x ∈ lnew) /\ (w = x \/ w = x + 8)) ->
  fseg m' NULL lnew (load8 m' (seg_listp s + k)) t' NULL ->
  NoDup lnew ->
  (forall x, x ∈ lnew <-> exists z, L' x z /\ bucket z = k) ->
  lists_ok (set_mem s m') L'.
Proof.
  intros [Hh Hin Hfun Hap Hcl] Hk Hold Hoth Hin' Hfun' Hap' Hun Hws Hseg Hnd Hnew.
  constructor; cbn [mem mem_start_brk mem_brk seg_listp set_mem]; auto.
  intros k' Hk'. destruct (Z.eq_dec k' k) as [->|Hne].
  { exists lnew, t'. auto. }
  destruct (Hcl k' Hk') as (l' & tl & Hseg' & Hnd' & Hmem').
  exists l', tl.
  assert (Hnode : forall x, x ∈ l' ->
            forall w, w ∈ ws -> (x + 8 <= w \/ w + 8 <= x) /\ (x + 16 <= w \/ w + 8 <= x + 8)).
  { intros x Hx w Hw. apply Hmem' in Hx as (zx & HLx & Hbx).
    destruct (Hin _ _ HLx) as [Hx1 Hx2].
    assert (HLx' : L' x zx) by (apply Hoth; [congruence|exact HLx]).
    destruct (Hws w Hw) as [->|(y & Hy & Hwy)].
    - destruct Hk as [Hk _]. lia.
    - assert (Hxy : x + 16 <= y \/ y + 16 <= x).
      { destruct Hy as [Hy|Hy].
        + apply Hold in Hy as (zy & HLy & Hby).
          destruct (Hap _ _ _ _ HLx HLy) as [E|E]; [|exact E].
          subst y. rewrite (Hfun _ _ _ HLx HLy) in Hbx. congruence.
        + apply Hnew in Hy as (zy & HLy & Hby).
          destruct (Hap' _ _ _ _ HLx' HLy) as [E|E]; [|exact E].
          subst y. rewrite (Hfun' _ _ _ HLx' HLy) in Hbx. congruence. }
      destruct Hwy; subst w; lia. }
  split; [|split; [exact Hnd'|]].
  - rewrite (unchanged_load8 _ _ _ _ Hun).
    + eapply fseg_frame; [|exact Hseg']. intros x Hx. split.
      * apply (unchanged_load8 _ _ _ _ Hun). intros w Hw.
        destruct (Hnode x Hx w Hw). lia.
      * apply (unchanged_load8 _ _ _ _ Hun). intros w Hw.
        destruct (Hnode x Hx w Hw). lia.
    + intros w Hw.
      pose proof (class_offset_apart _ _ Hk Hk' ltac:(congruence)) as Hkk.
      destruct (Hws w Hw) as [->|(y & Hy & Hwy)]; [lia|].
      assert (seg_listp s + 40 <= y).
      { destruct Hy as [Hy|Hy].
        - apply Hold in Hy as (zy & HLy & _). apply (Hin _ _ HLy).
        - apply Hnew in Hy as (zy & HLy & _). apply (Hin' _ _ HLy). }
      destruct Hk' as [Hk' _]. destruct Hwy; subst w; lia.
  - intros b. rewrite Hmem'. split; intros (zb & HLb & Hbb); exists zb;
      (split; [apply Hoth; [congruence|exact HLb]|exact Hbb]).
Qed.


Lemma w64_small z : 0 <= z < 2 ^ 64 -> w64 z = z.
Proof. intros. unfold w64. by apply Z.mod_small. Qed.

Lemma PUT_ADDRESS_run s p v :
  valid s p -> PUT_ADDRESS p v s = Done (tt, set_mem s (store8 (mem s) p v)).
Proof. apply PUT_run. Qed.

Lemma eqb_NULL_false x : x <> NULL -> (x =? NULL) = false.
Proof. intros. by apply Z.eqb_neq. Qed.

(** Taking a block out of its class list. *)
Lemma splice_spec s L b z :
  lists_ok s L -> L b z ->
  exists m' ws,
    splice_together (load8 (mem s) (b + 8)) (load8 (mem s) b) z s
      = Done (tt, set_mem s m') /\
    lists_ok (set_mem s m') (fun b' z' => L b' z' /\ b' <> b) /\
    unchanged_except (mem s) m' ws /\
    (forall w, w ∈ ws ->
       (seg_listp s <= w /\ w + 8 <= seg_listp s + 40) \/
       exists b' z', L b' z' /\ b' <> b /\ (w = b' \/ w = b' + 8)).
Proof.
  intros Hok HL. pose proof Hok as [Hh Hin Hfun Hap Hcl].
  pose proof (bucket_range z) as Hk. set (k := bucket z) in *.
  destruct (Hcl k Hk) as (l & t & Hseg & Hnd & Hmem).
  assert (Hbl : b ∈ l) by (apply Hmem; eauto).
  apply list_elem_of_split in Hbl as (l1 & l2 & ->).
  apply fseg_app in Hseg as (t1 & mid & H1 & (-> & Hb0 & Hp & H2)).
  set (m := mem s) in *. set (sl := seg_listp s) in *.
  assert (Hnode : forall x, x ∈ l1 ++ b :: l2 ->
            exists zx, L x zx /\ bucket zx = k /\ sl + 40 <= x /\ x + 16 <= mem_brk s).
  { intros x Hx. apply Hmem in Hx as (zx & HLx & Hbx). exists zx.
    destruct (Hin _ _ HLx). auto. }
  assert (Hapl : apart (l1 ++ b :: l2)).
  { intros x y Hx Hy. destruct (Hnode x Hx) as (zx & HLx & _).
    destruct (Hnode y Hy) as (zy & HLy & _). eapply Hap; eauto. }
  pose proof Hnd as Hnd0.
  apply NoDup_app in Hnd as (Hnd1 & Hdisj & Hnd2).
  apply NoDup_cons in Hnd2 as [Hb2 Hnd2].
  assert (Hb1 : b ∉ l1) by (intros Hin1; apply (Hdisj _ Hin1), list_elem_of_here).
  assert (Hnd' : NoDup (l1 ++ l2)).
  { apply NoDup_app. split; [exact Hnd1|]. split; [|exact Hnd2].
    intros x Hx1 Hx2. apply (Hdisj _ Hx1). by apply list_elem_of_further. }
  assert (Hsub : forall x, x ∈ l1 ++ l2 -> x ∈ l1 ++ b :: l2 /\ x <> b).
  { intros x Hx. split; [list_mem|]. intros ->. list_mem. }
  assert (Hk32 : 0 <= k <= 32) by apply Hk.
  assert (Hfin : forall m' ws t',
    unchanged_except m m' ws ->
    (forall w, w ∈ ws -> w = sl + k \/ exists x, x ∈ l1 ++ l2 /\ (w = x \/ w = x + 8)) ->
    fseg m' NULL (l1 ++ l2) (load8 m' (sl + k)) t' NULL ->
    lists_ok (set_mem s m') (fun b' z' => L b' z' /\ b' <> b) /\
    unchanged_except (mem s) m' ws /\
    (forall w, w ∈ ws ->
       (seg_listp s <= w /\ w + 8 <= seg_listp s + 40) \/
       exists b' z', L b' z' /\ b' <> b /\ (w = b' \/ w = b' + 8))).
  { intros m' ws t' Hun Hws Hseg'. split; [|split; [exact Hun|]].
    - eapply (lists_ok_replace s L _ k m' ws (l1 ++ b :: l2) (l1 ++ l2) t');
        try eassumption.
      + intros b' z' Hne. split; [tauto|]. intros HL'. split; [exact HL'|].
        intros ->. rewrite (Hfun _ _ _ HL' HL) in Hne. contradiction.
      + intros b' z' [HL' _]. eauto.
      + intros b' z' z'' [HL' _] [HL'' _]. eauto.
      + intros b' z' b'' z'' [HL' _] [HL'' _]. eauto.
      + intros w Hw. destruct (Hws w Hw) as [->|(x & Hx & Hwx)]; eauto.
      + intros x. split.
        * intros Hx. destruct (Hsub x Hx) as [Hx' Hxb].
          destruct (Hnode x Hx') as (zx & HLx & Hbx & _). eauto.
        * intros (zx & [HLx Hxb] & Hbx).
          assert (x ∈ l1 ++ b :: l2) by (apply Hmem; eauto). list_mem.
    - intros w Hw. destruct (Hws w Hw) as [->|(x & Hx & Hwx)]; [left; lia|right].
      destruct (Hsub x Hx) as [Hx' Hxb].
      destruct (Hnode x Hx') as (zx & HLx & _). eauto 10. }
  unfold splice_together.
  rewrite (bind_run _ _ _ _ _ (get_run seg_listp s)). fold sl k. rewrite Hp.
  assert (Hvh : valid s (sl + k)) by (unfold valid; lia).
  destruct l1 as [|a1 l1']; destruct l2 as [|n l2'].
  - destruct H1 as [Hhd ->]. destruct H2 as [Hn _]. rewrite Hn.
    cbn [Z.eqb NULL andb]. rewrite (PUT_ADDRESS_run _ _ _ Hvh).
    eexists _, [sl + k]. split; [reflexivity|].
    apply (Hfin _ _ NULL); [apply unchanged_store8|list_mem|].
    fold m. rewrite load8_store8_same. split; reflexivity.
  - destruct H1 as [Hhd ->]. destruct H2 as (Hn & Hn0 & Hnp & H2).
    destruct (Hnode n ltac:(list_mem)) as (zn & HLn & _ & Hn1 & Hn2).
    rewrite Hn. rewrite (eqb_NULL_false n Hn0). cbn [Z.eqb NULL andb negb].
    rewrite (bind_run _ _ _ _ _ (PUT_ADDRESS_run _ _ _ Hvh)).
    rewrite PUT_ADDRESS_run by (unfold valid, PREV_PTR, DSIZE; cbn; lia).
    eexists _, [sl + k; n + 8]. split; [reflexivity|].
    cbn [mem set_mem]. fold m. unfold PREV_PTR, DSIZE.
    apply (Hfin _ _ t).
    + eapply (unchanged_trans _ _ _ [sl + k] [n + 8]); apply unchanged_store8.
    + intros w Hw. apply elem_of_cons in Hw as [->|Hw]; [auto|].
      apply list_elem_of_singleton in Hw as ->. right. exists n. split; [list_mem|auto].
    + rewrite load8_store8_other by lia. rewrite load8_store8_same.
      rewrite w64_small by lia.
      change ([] ++ n :: l2') with (n :: l2').
      apply (fseg_set_start _ (n :: l2') b n t NULL NULL);
        [|exact Hnd2| |congruence|unfold NULL; lia].
      * eapply fseg_frame; [|simpl; eauto].
        intros x Hx. destruct (Hnode x ltac:(list_mem)) as (_ & _ & _ & Hx1 & _).
        rewrite !load8_store8_other by lia. auto.
      * intros x y Hx Hy. apply Hapl; list_mem.
  - destruct H2 as [Hn _].
    destruct (fseg_last _ _ _ _ _ _ H1) as (Ht1 & Ht1n & l1'' & El1); [congruence|].
    assert (Ht1in : t1 ∈ a1 :: l1') by (rewrite El1; list_mem).
    destruct (Hnode t1 ltac:(list_mem)) as (zt & HLt & _ & Ht11 & Ht12).
    rewrite Hn. rewrite (eqb_NULL_false t1 Ht1). cbn [Z.eqb NULL andb negb].
    rewrite PUT_ADDRESS_run by (unfold valid, NEXT_PTR; lia).
    eexists _, [t1]. split; [reflexivity|]. unfold NEXT_PTR. fold m.
    apply (Hfin _ _ t1).
    + apply unchanged_store8.
    + intros w Hw. apply list_elem_of_singleton in Hw as ->. right. exists t1.
      split; [list_mem|auto].
    + rewrite load8_store8_other by lia. rewrite app_nil_r.
      apply (fseg_set_end _ _ _ _ _ b); [exact H1|exact Hnd1| |congruence|unfold NULL; lia].
      intros x y Hx Hy. apply Hapl; list_mem.
  - destruct H2 as (Hn & Hn0 & Hnp & H2).
    destruct (fseg_last _ _ _ _ _ _ H1) as (Ht1 & Ht1n & l1'' & El1); [congruence|].
    assert (Ht1in : t1 ∈ a1 :: l1') by (rewrite El1; list_mem).
    destruct (Hnode t1 ltac:(list_mem)) as (zt & HLt & _ & Ht11 & Ht12).
    destruct (Hnode n ltac:(list_mem)) as (zn & HLn & _ & Hn1 & Hn2).
    assert (Htn : t1 + 16 <= n \/ n + 16 <= t1).
    { destruct (Hapl t1 n) as [E|E]; [list_mem|list_mem| |exact E].
      subst. exfalso. apply (Hdisj _ Ht1in). list_mem. }
    rewrite Hn. rewrite (eqb_NULL_false t1 Ht1), (eqb_NULL_false n Hn0).
    cbn [Z.eqb NULL andb negb].
    assert (Hv1 : valid s (NEXT_PTR t1)) by (unfold valid, NEXT_PTR; fold sl; lia).
    rewrite (bind_run _ _ _ _ _ (PUT_ADDRESS_run s _ _ Hv1)).
    rewrite PUT_ADDRESS_run by (unfold valid, PREV_PTR, DSIZE; cbn; lia).
    eexists _, [t1; n + 8]. split; [reflexivity|].
    cbn [mem set_mem]. fold m. unfold PREV_PTR, NEXT_PTR, DSIZE.
    apply (Hfin _ _ t).
    + eapply (unchanged_trans _ _ _ [t1] [n + 8]); apply unchanged_store8.
    + intros w Hw. apply elem_of_cons in Hw as [->|Hw].
      * right. exists t1. split; [list_mem|auto].
      * apply list_elem_of_singleton in Hw as ->. right. exists n. split; [list_mem|auto].
    + rewrite !load8_store8_other by lia.
      apply fseg_app. exists t1, n. split.
      * eapply fseg_frame;
          [|apply (fseg_set_end m (a1 :: l1') NULL _ t1 b n);
            [exact H1|exact Hnd1| |congruence|lia]].
        -- intros x Hx. destruct (Hapl x n) as [E|E]; [list_mem|list_mem| |].
           ++ subst. exfalso. apply (Hdisj _ Hx). list_mem.
           ++ rewrite !(load8_store8_other _ (n + 8)) by lia. auto.
        -- intros x y Hx Hy. apply Hapl; list_mem.
      * apply (fseg_set_start _ (n :: l2') b n t NULL t1);
          [|exact Hnd2| |congruence|lia].
        -- eapply fseg_frame; [|simpl; eauto].
           intros x Hx. destruct (Hapl x t1) as [E|E]; [list_mem|list_mem| |].
           ++ subst. exfalso. apply (Hdisj _ Ht1in). list_mem.
           ++ rewrite !(load8_store8_other _ t1) by lia. auto.
        -- intros x y Hx Hy. apply Hapl; list_mem.
Qed.


Lemma valid_set_mem s m p : valid s p -> valid (set_mem s m) p.
Proof. intros H. exact H. Qed.

Lemma GET_at s m p : valid s p -> GET p (set_mem s m) = Done (load8 m p, set_mem s m).
Proof. intros H. apply (GET_run (set_mem s m)), H. Qed.

Lemma PUT_at s m p v :
  valid s p -> PUT p v (set_mem s m) = Done (tt, set_mem s (store8 m p v)).
Proof. intros H. apply (PUT_run (set_mem s m)), H. Qed.

Ltac mget H :=
  unfold GET_ADDRESS;
  first [ rewrite (bind_run _ _ _ _ _ (GET_at _ _ _ H))
        | rewrite (bind_run _ _ _ _ _ (GET_run _ _ H)) ].
Ltac mput H :=
  unfold PUT_ADDRESS;
  first [ rewrite (bind_run _ _ _ _ _ (PUT_at _ _ _ _ H))
        | rewrite (bind_run _ _ _ _ _ (PUT_run _ _ _ H))
        | rewrite (PUT_at _ _ _ _ H)
        | rewrite (PUT_run _ _ _ H) ].

Lemma GET_ADDRESS_run s p : valid s p -> GET_ADDRESS p s = Done (load8 (mem s) p, s).
Proof. apply GET_run. Qed.

(** Putting a block at the head of the class list of its size. *)
Lemma insert_spec s L b z :
  lists_ok s L ->
  seg_listp s + 40 <= b /\ b + 16 <= mem_brk s ->
  (forall b' z', L b' z' -> b + 16 <= b' \/ b' + 16 <= b) ->
  exists m' ws,
    insert_at_root b z s = Done (b, set_mem s m') /\
    lists_ok (set_mem s m') (fun b' z' => L b' z' \/ (b' = b /\ z' = z)) /\
    unchanged_except (mem s) m' ws /\
    (forall w, w ∈ ws ->
       (seg_listp s <= w /\ w + 8 <= seg_listp s + 40) \/ w = b \/ w = b + 8 \/
       exists b' z', L b' z' /\ (w = b' \/ w = b' + 8)).
Proof.
  intros Hok Hb Hsep. pose proof Hok as [Hh Hin Hfun Hap Hcl].
  pose proof (bucket_range z) as Hk. set (k := bucket z) in *.
  destruct (Hcl k Hk) as (l & t & Hseg & Hnd & Hmem).
  set (m := mem s) in *. set (sl := seg_listp s) in *.
  assert (Hnode : forall x, x ∈ l ->
            exists zx, L x zx /\ bucket zx = k /\ sl + 40 <= x /\ x + 16 <= mem_brk s /\
                       (b + 16 <= x \/ x + 16 <= b)).
  { intros x Hx. apply Hmem in Hx as (zx & HLx & Hbx). exists zx.
    destruct (Hin _ _ HLx). pose proof (Hsep _ _ HLx). auto. }
  assert (Hapl : apart (b :: l)).
  { intros x y Hx Hy.
    apply elem_of_cons in Hx as [->|Hx]; apply elem_of_cons in Hy as [->|Hy]; auto.
    - destruct (Hnode y Hy) as (_ & _ & _ & _ & _ & E). lia.
    - destruct (Hnode x Hx) as (_ & _ & _ & _ & _ & E). lia.
    - destruct (Hnode x Hx) as (zx & HLx & _).
      destruct (Hnode y Hy) as (zy & HLy & _). eapply Hap; eauto. }
  assert (Hbl : b ∉ l).
  { intros Hx. destruct (Hnode b Hx) as (_ & _ & _ & _ & _ & E). lia. }
  assert (Hk32 : 0 <= k <= 32) by apply Hk.
  assert (Hb0 : b <> NULL) by (unfold NULL; lia).
  assert (Hfin : forall m' ws t',
    unchanged_except m m' ws ->
    (forall w, w ∈ ws -> w = sl + k \/ exists x, x ∈ b :: l /\ (w = x \/ w = x + 8)) ->
    fseg m' NULL (b :: l) (load8 m' (sl + k)) t' NULL ->
    lists_ok (set_mem s m') (fun b' z' => L b' z' \/ (b' = b /\ z' = z)) /\
    unchanged_except (mem s) m' ws /\
    (forall w, w ∈ ws ->
       (seg_listp s <= w /\ w + 8 <= seg_listp s + 40) \/ w = b \/ w = b + 8 \/
       exists b' z', L b' z' /\ (w = b' \/ w = b' + 8))).
  { intros m' ws t' Hun Hws Hseg'. split; [|split; [exact Hun|]].
    - eapply (lists_ok_replace s L _ k m' ws l (b :: l) t'); try eassumption.
      + intros b' z' Hne. split; [|tauto]. intros [HL'|[-> ->]]; [exact HL'|].
        contradiction.
      + intros b' z' [HL'|[-> ->]]; [eauto|exact Hb].
      + intros b' z' z'' [HL'|[-> ->]] [HL''|[E ->]]; eauto.
        * subst. destruct (Hsep _ _ HL'); lia.
        * destruct (Hsep _ _ HL''); lia.
      + intros b' z' b'' z'' [HL'|[-> ->]] [HL''|[-> ->]]; eauto.
        * destruct (Hsep _ _ HL'); lia.
      + intros w Hw. destruct (Hws w Hw) as [->|(x & Hx & Hwx)]; eauto.
      + apply NoDup_cons. auto.
      + intros x. split.
        * intros Hx. apply elem_of_cons in Hx as [->|Hx]; [eauto 6|].
          destruct (Hnode x Hx) as (zx & HLx & Hbx & _). eauto.
        * intros (zx & [HLx|[-> ->]] & Hbx); [|apply list_elem_of_here].
          apply list_elem_of_further, Hmem. eauto.
    - intros w Hw. destruct (Hws w Hw) as [->|(x & Hx & Hwx)]; [left; lia|right].
      apply elem_of_cons in Hx as [->|Hx]; [tauto|].
      destruct (Hnode x Hx) as (zx & HLx & _). eauto 10. }
  unfold insert_at_root.
  rewrite (bind_run _ _ _ _ _ (get_run seg_listp s)). fold sl k.
  assert (Hvh : valid s (sl + k)) by (unfold valid; lia).
  assert (Hvb : valid s b) by (unfold valid; fold sl; lia).
  assert (Hvb8 : valid s (b + 8)) by (unfold valid; fold sl; lia).
  unfold NEXT_PTR, PREV_PTR, DSIZE.
  mget Hvh. fold m. set (h := load8 m (sl + k)) in *.
  mput Hvb. mput Hvb8.
  destruct l as [|h' l'].
  - destruct Hseg as [Hh0 _]. rewrite Hh0. cbn [Z.eqb NULL negb].
    rewrite (bind_run _ _ _ _ _ (ret_run tt _)).
    mput Hvh. rewrite ret_run.
    eexists _, [b; b + 8; sl + k]. split; [reflexivity|].
    apply (Hfin _ _ b).
    + eapply (unchanged_trans _ _ _ [b] [b + 8; sl + k]); [apply unchanged_store8|].
      eapply (unchanged_trans _ _ _ [b + 8] [sl + k]); apply unchanged_store8.
    + intros w Hw. repeat (apply elem_of_cons in Hw as [->|Hw]);
        [right; exists b; list_mem|right; exists b; list_mem|auto|by apply elem_of_nil in Hw].
    + rewrite load8_store8_same, w64_small by lia.
      split; [reflexivity|]. split; [exact Hb0|].
      rewrite load8_store8_other by lia. rewrite load8_store8_same.
      split; [reflexivity|].
      rewrite !load8_store8_other by lia. rewrite load8_store8_same.
      split; reflexivity.
  - destruct Hseg as (Hh0 & Hh1 & Hhp & Hseg).
    destruct (Hnode h' ltac:(list_mem)) as (zh & HLh & _ & Hh2 & Hh3 & Hh4).
    rewrite Hh0 in *. rewrite (eqb_NULL_false h' Hh1). cbn [negb].
    assert (Hvh8 : valid s (h' + 8)) by (unfold valid; fold sl; lia).
    mput Hvh8. mput Hvh. rewrite ret_run.
    eexists _, [b; b + 8; h' + 8; sl + k]. split; [reflexivity|].
    apply (Hfin _ _ t).
    + eapply (unchanged_trans _ _ _ [b] [b + 8; h' + 8; sl + k]); [apply unchanged_store8|].
      eapply (unchanged_trans _ _ _ [b + 8] [h' + 8; sl + k]); [apply unchanged_store8|].
      eapply (unchanged_trans _ _ _ [h' + 8] [sl + k]); apply unchanged_store8.
    + intros w Hw. repeat (apply elem_of_cons in Hw as [->|Hw]);
        [right; exists b; list_mem|right; exists b; list_mem|right; exists h'; list_mem
        |auto|by apply elem_of_nil in Hw].
    + rewrite load8_store8_same, w64_small by lia.
      split; [reflexivity|]. split; [exact Hb0|].
      rewrite !(load8_store8_other _ (sl + k)) by lia.
      rewrite !(load8_store8_other _ (h' + 8) _ (b + 8)) by lia.
      rewrite load8_store8_same.
      split; [reflexivity|].
      rewrite !(load8_store8_other _ (h' + 8) _ b) by lia.
      rewrite !(load8_store8_other _ (b + 8) _ b) by lia.
      rewrite load8_store8_same, w64_small by lia.
      eapply fseg_frame;
        [|apply (fseg_set_start (store8 (store8 m b h') (b + 8) 0) (h' :: l') NULL h' t NULL b);
          [|exact Hnd|intros x y Hx Hy; apply Hapl; list_mem|congruence|lia]].
      * intros x Hx. destruct (Hnode x Hx) as (_ & _ & _ & Hx1 & _).
        rewrite !(load8_store8_other _ (sl + k)) by lia. auto.
      * eapply fseg_frame; [|simpl; eauto].
        intros x Hx. destruct (Hnode x Hx) as (_ & _ & _ & _ & _ & Hx1).
        rewrite !load8_store8_other by lia. auto.
Qed.


(** *** The heap inside an operation *)

Lemma set_mem_twice s m1 m2 : set_mem (set_mem s m1) m2 = set_mem s m2.
Proof. reflexivity. Qed.

Lemma tiles_unchanged m m' ws l : forall p e,
  tiles m p l e -> unchanged_except m m' ws ->
  (forall w b z a, w ∈ ws -> (b, z, a) ∈ l ->
     (w + 8 <= b - 8 \/ b <= w) /\ (w + 8 <= b + z - 16 \/ b + z - 8 <= w)) ->
  tiles m' p l e.
Proof.
  induction l as [|[[b z] a] l IH]; intros p e H Hun Hw; [exact H|].
  destruct H as (-> & H1 & H2 & H3 & H4 & H).
  split; [reflexivity|]. split; [exact H1|]. split; [exact H2|].
  rewrite !(unchanged_load8 _ _ _ _ Hun).
  - split; [exact H3|]. split; [exact H4|]. apply IH; auto.
    intros w b' z' a' Hin1 Hin2. apply (Hw w b' z' a'); [exact Hin1|by apply list_elem_of_further].
  - intros w Hin. destruct (Hw w p z a Hin (list_elem_of_here _ _)). lia.
  - intros w Hin. destruct (Hw w p z a Hin (list_elem_of_here _ _)). lia.
Qed.

Lemma tiles_last m l : forall p e b z a,
  tiles m p (l ++ [(b, z, a)]) e ->
  b + z = e /\ 16 <= z /\ z mod 8 = 0 /\
  load8 m (b - 8) = tag z a /\ load8 m (e - 16) = tag z a /\ tiles m p l b.
Proof.
  intros p e b z a H. apply tiles_app in H as (q & H1 & (-> & H2 & H3 & H4 & H5 & <-)).
  replace (q + z - 16) with (q + z - 16) in * by lia. auto 10.
Qed.

Lemma lists_unchanged s L m' ws :
  lists_ok s L -> unchanged_except (mem s) m' ws ->
  (forall w, w ∈ ws -> seg_listp s + 40 <= w /\
     forall b z, L b z -> w + 8 <= b \/ b + 16 <= w) ->
  lists_ok (set_mem s m') L.
Proof.
  intros [Hh Hin Hfun Hap Hcl] Hun Hws.
  constructor; cbn [mem mem_start_brk mem_brk seg_listp set_mem]; auto.
  intros k Hk. destruct (Hcl k Hk) as (l & t & Hseg & Hnd & Hmem).
  exists l, t. split; [|auto].
  rewrite (unchanged_load8 _ _ _ _ Hun).
  - eapply fseg_frame; [|exact Hseg]. intros x Hx.
    apply Hmem in Hx as (zx & HLx & _).
    split; apply (unchanged_load8 _ _ _ _ Hun); intros w Hw;
      destruct (Hws w Hw) as [_ Hs]; destruct (Hs _ _ HLx); lia.
  - intros w Hw. destruct (Hws w Hw) as [Hs _]. destruct Hk as [Hk _]. lia.
Qed.

Lemma lists_ok_ext s (L L' : Z -> Z -> Prop) :
  (forall b z, L b z <-> L' b z) -> lists_ok s L -> lists_ok s L'.
Proof.
  intros He [Hh Hin Hfun Hap Hcl]. constructor; auto.
  - intros b z H. apply He in H. eauto.
  - intros b z z' H H'. apply He in H, H'. eauto.
  - intros b z b' z' H H'. apply He in H, H'. eauto.
  - intros k Hk. destruct (Hcl k Hk) as (l & t & Hseg & Hnd & Hmem).
    exists l, t. split; [exact Hseg|]. split; [exact Hnd|].
    intros b. rewrite Hmem. split; intros (z & H & Hb); exists z; (split; [by apply He|exact Hb]).
Qed.

Lemma heap_mid_ext s bl (L L' : Z -> Z -> Prop) :
  (forall b z, L b z <-> L' b z) -> heap_mid s bl L -> heap_mid s bl L'.
Proof.
  intros He [? ? ? ? ? ? ? ? ? Hl]. constructor; auto.
  eapply lists_ok_ext; eauto.
Qed.

(** Where the blocks of the tiled region lie. *)
Lemma mid_block s bl L b z a :
  heap_mid s bl L -> (b, z, a) ∈ bl ->
  heap_listp s + 16 <= b /\ b + z <= mem_brk s /\ 32 <= z /\ z mod 8 = 0.
Proof.
  intros H Hin. destruct (hm_tiles _ _ _ H) as (_ & _ & _ & _ & _ & Ht).
  destruct (tiles_bounds _ _ _ _ _ _ _ Ht Hin) as (H1 & H2 & _ & H4).
  pose proof (hm_min _ _ _ H _ _ _ Hin). lia.
Qed.

Lemma mid_apart s bl L b z a b' z' a' :
  heap_mid s bl L -> (b, z, a) ∈ bl -> (b', z', a') ∈ bl ->
  (b, z, a) = (b', z', a') \/ b + z <= b' \/ b' + z' <= b.
Proof.
  intros H Hin Hin'. destruct (hm_tiles _ _ _ H) as (_ & _ & _ & _ & _ & Ht).
  eapply tiles_apart; eauto.
Qed.

Lemma mid_brk s bl L : heap_mid s bl L -> heap_listp s + 16 <= mem_brk s < 2 ^ 64.
Proof.
  intros H. destruct (hm_tiles _ _ _ H) as (_ & _ & _ & _ & _ & Ht).
  apply tiles_le in Ht. pose proof (hm_max _ _ _ H). lia.
Qed.


(** The link words of a block of the tiling lie clear of every header
    and footer. *)
Lemma link_words_clear m p l e b z a w :
  tiles m p l e -> (b, z, a) ∈ l -> 32 <= z -> w = b \/ w = b + 8 ->
  forall b' z' a', (b', z', a') ∈ l ->
    (w + 8 <= b' - 8 \/ b' <= w) /\ (w + 8 <= b' + z' - 16 \/ b' + z' - 8 <= w).
Proof.
  intros Ht Hin Hz Hw b' z' a' Hin'.
  destruct (tiles_bounds _ _ _ _ _ _ _ Ht Hin') as (_ & _ & Hz' & _).
  destruct (tiles_apart _ _ _ _ _ _ _ _ _ _ Ht Hin Hin') as [[= -> -> ->]|E]; lia.
Qed.

(** Writes to the class lists leave the tiling and the payloads alone. *)
Lemma mid_lists_update s bl (L L' Lw : Z -> Z -> Prop) m' ws :
  heap_mid s bl L ->
  lists_ok (set_mem s m') L' ->
  unchanged_except (mem s) m' ws ->
  (forall w, w ∈ ws -> lists_word s Lw w) ->
  (forall b z, Lw b z -> exists z', (b, z', false) ∈ bl) ->
  heap_mid (set_mem s m') bl L' /\ preserves bl (mem s) m'.
Proof.
  intros Hmid Hl' Hun Hws Hfree.
  assert (Hword : forall w, w ∈ ws ->
            (w + 8 <= heap_listp s - 8) \/
            exists b z, (b, z, false) ∈ bl /\ (w = b \/ w = b + 8)).
  { intros w Hw. destruct (Hws w Hw) as [Hh|(b & z & HL & Hb)].
    - left. rewrite (hm_hl _ _ _ Hmid), (hm_seg _ _ _ Hmid) in *. lia.
    - right. destruct (Hfree _ _ HL) as (z' & Hin). eauto. }
  pose proof (hm_tiles _ _ _ Hmid) as Ht.
  pose proof (mid_brk _ _ _ Hmid) as Hbrk.
  split.
  - destruct Hmid as [? ? ? ? ? ? _ Hmin Hepi Hl].
    constructor; cbn [mem mem_start_brk mem_brk mem_max_addr seg_listp last_segp
                      heap_listp set_mem]; auto.
    + eapply tiles_unchanged; [exact Ht|exact Hun|].
      intros w b z a Hw Hin. destruct (Hword w Hw) as [Hlow|(b' & z' & Hin' & Hb')].
      * destruct (tiles_bounds _ _ _ _ _ _ _ Ht Hin) as (? & ? & ? & ?). lia.
      * eapply (link_words_clear _ _ _ _ b' z' false);
          [exact Ht|by apply list_elem_of_further|by eapply Hmin|exact Hb'|exact Hin].
    + rewrite (unchanged_load8 _ _ _ _ Hun); [exact Hepi|].
      intros w Hw. destruct (Hword w Hw) as [Hlow|(b' & z' & Hin' & Hb')]; [lia|].
      destruct Ht as (_ & _ & _ & _ & _ & Ht).
      destruct (tiles_bounds _ _ _ _ _ _ _ Ht Hin') as (? & ? & ? & ?).
      pose proof (Hmin _ _ _ Hin'). lia.
  - intros q zq x Hq Hx. apply Hun. intros w Hw.
    destruct (mid_block _ _ _ _ _ _ Hmid Hq) as (Hq1 & Hq2 & Hq3 & _).
    destruct (Hword w Hw) as [Hlow|(b' & z' & Hin' & Hb')]; [lia|].
    destruct (mid_block _ _ _ _ _ _ Hmid Hin') as (Hb1 & Hb2 & Hb3 & _).
    destruct (mid_apart _ _ _ _ _ _ _ _ _ Hmid Hq Hin') as [[=]|E]; lia.
Qed.

(** [splice_together] inside an operation. *)
Lemma mid_splice s bl L b z :
  heap_mid s bl L -> L b z ->
  (forall b' z', L b' z' -> b' <> b -> exists z'', (b', z'', false) ∈ bl) ->
  exists m',
    splice_together (load8 (mem s) (b + 8)) (load8 (mem s) b) z s
      = Done (tt, set_mem s m') /\
    heap_mid (set_mem s m') bl (fun b' z' => L b' z' /\ b' <> b) /\
    preserves bl (mem s) m'.
Proof.
  intros Hmid HL Hfree.
  destruct (splice_spec s L b z (hm_lists _ _ _ Hmid) HL)
    as (m' & ws & Hrun & Hl' & Hun & Hws).
  exists m'. split; [exact Hrun|].
  apply (mid_lists_update s bl L _ (fun b' z' => L b' z' /\ b' <> b) m' ws Hmid Hl');
    [exact Hun| |].
  - intros w Hw. destruct (Hws w Hw) as [H|(b' & z' & HL' & Hne & Hb')]; [by left|].
    right. exists b', z'. auto.
  - intros b' z' [HL' Hne]. eauto.
Qed.

(** [insert_at_root] inside an operation. *)
Lemma mid_insert s bl L b z zb :
  heap_mid s bl L -> (b, zb, false) ∈ bl ->
  (forall z', ~ L b z') ->
  (forall b' z', L b' z' -> exists z'', (b', z'', false) ∈ bl) ->
  exists m',
    insert_at_root b z s = Done (b, set_mem s m') /\
    heap_mid (set_mem s m') bl (fun b' z' => L b' z' \/ (b' = b /\ z' = z)) /\
    preserves bl (mem s) m'.
Proof.
  intros Hmid Hb HnL Hfree.
  destruct (mid_block _ _ _ _ _ _ Hmid Hb) as (Hb1 & Hb2 & Hb3 & _).
  destruct (insert_spec s L b z (hm_lists _ _ _ Hmid))
    as (m' & ws & Hrun & Hl' & Hun & Hws).
  { rewrite (hm_seg _ _ _ Hmid). rewrite (hm_hl _ _ _ Hmid) in Hb1. lia. }
  { intros b' z' HL'. destruct (Hfree _ _ HL') as (z'' & Hin').
    destruct (mid_block _ _ _ _ _ _ Hmid Hin') as (? & ? & ? & _).
    destruct (mid_apart _ _ _ _ _ _ _ _ _ Hmid Hb Hin') as [[= -> ->]|E]; [|lia].
    destruct (HnL _ HL'). }
  exists m'. split; [exact Hrun|].
  apply (mid_lists_update s bl L _ (fun b' z' => L b' z' \/ (b' = b /\ z' = z))
           m' ws Hmid Hl'); [exact Hun| |].
  - intros w Hw. destruct (Hws w Hw) as [H|[->|[->|(b' & z' & HL' & Hb')]]].
    + by left.
    + right. exists b, z. auto.
    + right. exists b, z. auto.
    + right. exists b', z'. auto.
  - intros b' z' [HL'|[-> ->]]; eauto.
Qed.

(** Rewriting the headers and footers of a run of blocks. *)
Lemma mid_retile s l1 mid mid' l2 L m' ws q q' :
  heap_mid s (l1 ++ mid ++ l2) L ->
  tiles (mem s) (heap_listp s) ((heap_listp s, 16, true) :: l1) q ->
  tiles (mem s) q' l2 (mem_brk s) ->
  unchanged_except (mem s) m' ws ->
  (forall w, w ∈ ws -> q - 8 <= w /\ w + 8 <= q' - 8) ->
  (forall w b z, w ∈ ws -> L b z -> w + 8 <= b \/ b + 16 <= w) ->
  tiles m' q mid' q' ->
  (forall b z a, (b, z, a) ∈ mid' -> 32 <= z) ->
  heap_mid (set_mem s m') (l1 ++ mid' ++ l2) L.
Proof.
  intros Hmid Ht1 Ht2 Hun Hws HwL Htm Hmin'.
  pose proof (tiles_le _ _ _ _ Ht1) as Hq1.
  pose proof (tiles_le _ _ _ _ Ht2) as Hq2.
  pose proof (tiles_le _ _ _ _ Htm) as Hq3.
  destruct Hmid as [? ? ? Hseg ? Hhl _ Hmin Hepi Hl].
  constructor; cbn [mem mem_start_brk mem_brk mem_max_addr seg_listp last_segp
                    heap_listp set_mem]; auto.
  - change ((heap_listp s, 16, true) :: l1 ++ mid' ++ l2)
      with (((heap_listp s, 16, true) :: l1) ++ mid' ++ l2).
    apply tiles_app. exists q. split.
    + eapply tiles_frame; [|exact Ht1]. intros x Hx. apply Hun.
      intros w Hw. destruct (Hws w Hw). lia.
    + apply tiles_app. exists q'. split; [exact Htm|].
      eapply tiles_frame; [|exact Ht2]. intros x Hx. apply Hun.
      intros w Hw. destruct (Hws w Hw). lia.
  - intros b z a Hin. apply elem_of_app in Hin as [Hin|Hin].
    + apply (Hmin b z a). list_mem.
    + apply elem_of_app in Hin as [Hin|Hin]; [eauto|].
      apply (Hmin b z a). list_mem.
  - rewrite (unchanged_load8 _ _ _ _ Hun); [exact Hepi|].
    intros w Hw. destruct (Hws w Hw). lia.
  - eapply lists_unchanged; eauto. intros w Hw. split; [|eauto].
    destruct (Hws w Hw). destruct Ht1 as (_ & _ & _ & _ & _ & Ht1).
    apply tiles_le in Ht1. lia.
Qed.


(** Reading the boundary tags of a block of the heap. *)
Lemma mid_full_block s bl L b z a :
  heap_mid s bl L -> (b, z, a) ∈ (heap_listp s, 16, true) :: bl ->
  heap_listp s <= b /\ b + z <= mem_brk s /\ 16 <= z /\ z mod 8 = 0 /\
  load8 (mem s) (b - 8) = tag z a /\ load8 (mem s) (b + z - 16) = tag z a /\
  valid s (b - 8) /\ valid s (b + z - 16) /\ 0 <= z < 2 ^ 64.
Proof.
  intros Hmid Hin. pose proof (hm_tiles _ _ _ Hmid) as Ht.
  destruct (tiles_bounds _ _ _ _ _ _ _ Ht Hin) as (H1 & H2 & H3 & H4).
  apply list_elem_of_split in Hin as (la & lb & E). rewrite E in Ht.
  apply tiles_app in Ht as (q & _ & (-> & _ & _ & H5 & H6 & _)).
  pose proof (hm_max _ _ _ Hmid). pose proof (hm_hl _ _ _ Hmid).
  pose proof (hm_lo _ _ _ Hmid). unfold valid.
  repeat (split; [first [assumption|lia]|]). lia.
Qed.

Lemma rd_size s bl L b z a :
  heap_mid s bl L -> (b, z, a) ∈ (heap_listp s, 16, true) :: bl ->
  GET_SIZE (HDRP b) s = Done (z, s).
Proof.
  intros Hmid Hin.
  destruct (mid_full_block _ _ _ _ _ _ Hmid Hin) as (_ & _ & ? & ? & Hh & _ & Hv & _ & ?).
  unfold HDRP, DSIZE. rewrite (GET_SIZE_run _ _ Hv), Hh, tag_size by lia. reflexivity.
Qed.

Lemma rd_alloc s bl L b z a :
  heap_mid s bl L -> (b, z, a) ∈ (heap_listp s, 16, true) :: bl ->
  GET_ALLOC (HDRP b) s = Done (bit a, s).
Proof.
  intros Hmid Hin.
  destruct (mid_full_block _ _ _ _ _ _ Hmid Hin) as (_ & _ & ? & ? & Hh & _ & Hv & _ & ?).
  unfold HDRP, DSIZE. rewrite (GET_ALLOC_run _ _ Hv), Hh, tag_alloc by lia. reflexivity.
Qed.

Lemma rd_fsize s bl L b z a :
  heap_mid s bl L -> (b, z, a) ∈ (heap_listp s, 16, true) :: bl ->
  GET_SIZE (b + z - 16) s = Done (z, s).
Proof.
  intros Hmid Hin.
  destruct (mid_full_block _ _ _ _ _ _ Hmid Hin) as (_ & _ & ? & ? & _ & Hf & _ & Hv & ?).
  rewrite (GET_SIZE_run _ _ Hv), Hf, tag_size by lia. reflexivity.
Qed.

Lemma rd_falloc s bl L b z a :
  heap_mid s bl L -> (b, z, a) ∈ (heap_listp s, 16, true) :: bl ->
  GET_ALLOC (b + z - 16) s = Done (bit a, s).
Proof.
  intros Hmid Hin.
  destruct (mid_full_block _ _ _ _ _ _ Hmid Hin) as (_ & _ & ? & ? & _ & Hf & _ & Hv & ?).
  rewrite (GET_ALLOC_run _ _ Hv), Hf, tag_alloc by lia. reflexivity.
Qed.

Lemma rd_ftrp s bl L b z a :
  heap_mid s bl L -> (b, z, a) ∈ (heap_listp s, 16, true) :: bl ->
  FTRP b s = Done (b + z - 16, s).
Proof.
  intros Hmid Hin. unfold FTRP.
  rewrite (bind_run _ _ _ _ _ (rd_size _ _ _ _ _ _ Hmid Hin)). reflexivity.
Qed.

Lemma rd_next s bl L b z a :
  heap_mid s bl L -> (b, z, a) ∈ (heap_listp s, 16, true) :: bl ->
  NEXT_BLKP b s = Done (b + z, s).
Proof.
  intros Hmid Hin. unfold NEXT_BLKP.
  rewrite (bind_run _ _ _ _ _ (rd_size _ _ _ _ _ _ Hmid Hin)). reflexivity.
Qed.

(** A block and the one before it, in the heap with its prologue. *)
Lemma tiles_adjacent m p la x y lb e :
  tiles m p (la ++ x :: y :: lb) e -> fst (fst y) = fst (fst x) + snd (fst x).
Proof.
  destruct x as [[b z] a], y as [[b' z'] a']. intros H.
  apply tiles_app in H as (q & _ & (-> & _ & _ & _ & _ & (-> & _))). reflexivity.
Qed.

Lemma rd_prev s bl L la pb psz pa b z a lb :
  heap_mid s bl L ->
  (heap_listp s, 16, true) :: bl = la ++ (pb, psz, pa) :: (b, z, a) :: lb ->
  PREV_BLKP b s = Done (pb, s).
Proof.
  intros Hmid E. pose proof (hm_tiles _ _ _ Hmid) as Ht. rewrite E in Ht.
  pose proof (tiles_adjacent _ _ _ _ _ _ _ Ht) as Hadj. cbn in Hadj.
  assert (Hin : (pb, psz, pa) ∈ (heap_listp s, 16, true) :: bl) by (rewrite E; list_mem).
  unfold PREV_BLKP, QSIZE. replace (b - 16) with (pb + psz - 16) by lia.
  rewrite (bind_run _ _ _ _ _ (rd_fsize _ _ _ _ _ _ Hmid Hin)).
  rewrite ret_run. do 2 f_equal. lia.
Qed.

Lemma rd_epilogue s bl L :
  heap_mid s bl L -> GET_ALLOC (HDRP (mem_brk s)) s = Done (1, s).
Proof.
  intros Hmid. pose proof (mid_brk _ _ _ Hmid). pose proof (hm_hl _ _ _ Hmid).
  pose proof (hm_lo _ _ _ Hmid).
  unfold HDRP, DSIZE. rewrite GET_ALLOC_run by (unfold valid; lia).
  rewrite (hm_epi _ _ _ Hmid). reflexivity.
Qed.

(** The block that follows, or the epilogue. *)
Lemma tiles_end m p la x e :
  tiles m p (la ++ [x]) e -> fst (fst x) + snd (fst x) = e.
Proof.
  destruct x as [[b z] a]. intros H.
  apply tiles_app in H as (q & _ & (-> & _ & _ & _ & _ & ->)). reflexivity.
Qed.

(** [adj_ok] looks at the allocated bits only. *)
Lemma adj_ok_app l1 l2 : adj_ok (l1 ++ l2) -> adj_ok l1 /\ adj_ok l2.
Proof.
  induction l1 as [|x l1 IH]; simpl; [auto|].
  intros [Hx H]. destruct (IH H) as [H1 H2]. split; [|exact H2].
  split; [|exact H1]. destruct l1; [exact I|exact Hx].
Qed.

Lemma adj_ok_join l1 x l2 :
  adj_ok (l1 ++ [x]) -> adj_ok (x :: l2) -> adj_ok (l1 ++ x :: l2).
Proof.
  induction l1 as [|y l1 IH]; simpl; [auto|].
  intros [Hy H] Hx. split; [|auto]. destruct l1; exact Hy.
Qed.

Lemma adj_ok_split l1 x l2 :
  adj_ok (l1 ++ x :: l2) -> adj_ok (l1 ++ [x]) /\ adj_ok (x :: l2).
Proof.
  induction l1 as [|y l1 IH]; simpl.
  - intros H. split; [auto|exact H].
  - intros [Hy H]. destruct (IH H) as [H1 H2]. split; [|exact H2].
    split; [|exact H1]. destruct l1; exact Hy.
Qed.

Lemma adj_ok_retag_last l1 x x' :
  adj_ok (l1 ++ [x]) -> snd x = snd x' -> adj_ok (l1 ++ [x']).
Proof.
  induction l1 as [|y l1 IH]; simpl; [auto|].
  intros [Hy H] E. split; [|auto]. destruct l1; simpl in *; [|exact Hy].
  rewrite <- E. exact Hy.
Qed.

Lemma adj_ok_retag_first x x' l2 :
  adj_ok (x :: l2) -> snd x = snd x' -> adj_ok (x' :: l2).
Proof.
  simpl. intros [Hx H] E. split; [|exact H]. destruct l2; [exact I|].
  rewrite <- E. exact Hx.
Qed.

Lemma adj_ok_after l1 y x :
  adj_ok (l1 ++ [y]) -> snd y = true -> adj_ok (l1 ++ [y; x]).
Proof.
  intros H E. apply (adj_ok_join l1 y [x]); [exact H|].
  simpl. auto.
Qed.

Lemma adj_ok_before x y l2 :
  adj_ok (y :: l2) -> snd y = true -> adj_ok (x :: y :: l2).
Proof. intros H E. split; [auto|exact H]. Qed.

Lemma adj_ok_single (x : Z * Z * bool) : adj_ok [x].
Proof. simpl. auto. Qed.

Lemma list_last_split {A} (x : A) l : exists l' y, x :: l = l' ++ [y].
Proof.
  revert x. induction l as [|z l IH]; intros x.
  - exists [], x. reflexivity.
  - destruct (IH z) as (l' & y & E). exists (x :: l'), y. rewrite E. reflexivity.
Qed.

Lemma listed_app_free l1 b z l2 b' z' :
  listed (l1 ++ (b, z, false) :: l2) b' z' <->
  listed (l1 ++ l2) b' z' \/ (b' = b /\ z' = z).
Proof.
  unfold listed. rewrite !elem_of_app, elem_of_cons. split.
  - intros [H|[[= -> ->]|H]]; auto.
  - intros [[H|H]|[-> ->]]; auto.
Qed.

Lemma listed_app_alloc l1 b z l2 b' z' :
  listed (l1 ++ (b, z, true) :: l2) b' z' <-> listed (l1 ++ l2) b' z'.
Proof.
  unfold listed. rewrite !elem_of_app, elem_of_cons. split.
  - intros [H|[[=]|H]]; auto.
  - intros [H|H]; auto.
Qed.

Lemma tiles_not_in m p l1 b z a l2 e z' a' :
  tiles m p (l1 ++ (b, z, a) :: l2) e -> (b, z', a') ∉ l1 ++ l2.
Proof.
  intros H Hin. apply tiles_app in H as (q & H1 & (-> & Hz & _ & _ & _ & H2)).
  apply elem_of_app in Hin as [Hin|Hin].
  - destruct (tiles_bounds _ _ _ _ _ _ _ H1 Hin). lia.
  - destruct (tiles_bounds _ _ _ _ _ _ _ H2 Hin). lia.
Qed.

Lemma mid_not_listed s l1 b z a l2 L z' a' :
  heap_mid s (l1 ++ (b, z, a) :: l2) L -> (b, z', a') ∉ l1 ++ l2.
Proof.
  intros Hmid. destruct (hm_tiles _ _ _ Hmid) as (_ & _ & _ & _ & _ & Ht).
  eapply tiles_not_in; eauto.
Qed.

Lemma coalesce_case1 s l1 bp sz l2 :
  coalesce_pre s l1 bp sz l2 ->
  adj_ok (l1 ++ (bp, sz, false) :: l2) ->
  exists m',
    insert_at_root bp sz s = Done (bp, set_mem s m') /\
    heap_inv (set_mem s m') (l1 ++ (bp, sz, false) :: l2) /\
    preserves (l1 ++ (bp, sz, false) :: l2) (mem s) m'.
Proof.
  intros [Hmid Hadj] Hadj'.
  destruct (mid_insert s _ _ bp sz sz Hmid) as (m' & Hrun & Hmid' & Hpres).
  - list_mem.
  - intros z' Hin. eapply mid_not_listed; eauto.
  - intros b' z' Hin. exists z'. unfold listed in Hin. list_mem.
  - exists m'. split; [exact Hrun|]. split; [|exact Hpres]. split; [|exact Hadj'].
    eapply heap_mid_ext; [|exact Hmid']. intros b z. symmetry. apply listed_app_free.
Qed.

Lemma preserves_trans bl m1 m2 m3 :
  preserves bl m1 m2 -> preserves bl m2 m3 -> preserves bl m1 m3.
Proof. intros H1 H2 q zq x Hq Hx. rewrite (H2 q zq), (H1 q zq); auto. Qed.

Lemma preserves_sub bl bl' m m' :
  (forall q zq, (q, zq, true) ∈ bl -> (q, zq, true) ∈ bl') ->
  preserves bl' m m' -> preserves bl m m'.
Proof. intros Hs H q zq x Hq Hx. apply (H q zq); auto. Qed.

(** The end of [coalesce]: one header and one footer make a run of free
    blocks a single block, which goes to the head of its class. *)
Lemma merge_blocks s l1 mid l2 b zt m' :
  heap_mid s (l1 ++ mid ++ l2) (listed (l1 ++ l2)) ->
  (forall q zq a, (q, zq, a) ∈ mid -> a = false) ->
  tiles (mem s) (heap_listp s) ((heap_listp s, 16, true) :: l1) b ->
  tiles (mem s) (b + zt) l2 (mem_brk s) ->
  32 <= zt -> zt mod 8 = 0 ->
  unchanged_except (mem s) m' [b - 8; b + zt - 16] ->
  load8 m' (b - 8) = tag zt false ->
  load8 m' (b + zt - 16) = tag zt false ->
  exists m'',
    insert_at_root b zt (set_mem s m') = Done (b, set_mem s m'') /\
    heap_mid (set_mem s m'') (l1 ++ (b, zt, false) :: l2)
             (listed (l1 ++ (b, zt, false) :: l2)) /\
    preserves (l1 ++ mid ++ l2) (mem s) m''.
Proof.
  intros Hmid Hfree Ht1 Ht2 HZ HZ8 Hun Hh Hf.
  pose proof (tiles_le _ _ _ _ Ht1) as Hq1.
  assert (Hb1 : forall q zq a, (q, zq, a) ∈ l1 -> q + zq <= b /\ 32 <= zq).
  { intros q zq a Hin. destruct Ht1 as (_ & _ & _ & _ & _ & Ht1).
    destruct (tiles_bounds _ _ _ _ _ _ _ Ht1 Hin) as (_ & ? & _).
    pose proof (hm_min _ _ _ Hmid q zq a ltac:(list_mem)). lia. }
  assert (Hb2 : forall q zq a, (q, zq, a) ∈ l2 -> b + zt <= q /\ 32 <= zq).
  { intros q zq a Hin.
    destruct (tiles_bounds _ _ _ _ _ _ _ Ht2 Hin) as (? & _).
    pose proof (hm_min _ _ _ Hmid q zq a ltac:(list_mem)). lia. }
  assert (Hmid' : heap_mid (set_mem s m') (l1 ++ [(b, zt, false)] ++ l2)
                           (listed (l1 ++ l2))).
  { eapply (mid_retile s l1 mid [(b, zt, false)] l2 _ m' _ b (b + zt)); eauto.
    - intros w Hw. repeat (apply elem_of_cons in Hw as [->|Hw]); try lia.
      by apply elem_of_nil in Hw.
    - intros w b' z' Hw Hin. unfold listed in Hin.
      apply elem_of_app in Hin as [Hin|Hin].
      + destruct (Hb1 _ _ _ Hin).
        repeat (apply elem_of_cons in Hw as [->|Hw]); try lia.
        by apply elem_of_nil in Hw.
      + destruct (Hb2 _ _ _ Hin).
        repeat (apply elem_of_cons in Hw as [->|Hw]); try lia.
        by apply elem_of_nil in Hw.
    - simpl. repeat (split; [first [reflexivity|assumption|lia]|]). reflexivity.
    - intros b' z' a' Hin. apply list_elem_of_singleton in Hin as [= -> -> ->]. exact HZ. }
  cbn [app] in Hmid'.
  destruct (mid_insert _ _ _ b zt zt Hmid') as (m'' & Hrun & Hmid'' & Hpres).
  - list_mem.
  - intros z' Hin. eapply mid_not_listed; eauto.
  - intros b' z' Hin. exists z'. unfold listed in Hin. list_mem.
  - exists m''. split; [exact Hrun|]. split.
    + eapply heap_mid_ext; [|exact Hmid'']. intros b' z'. symmetry. apply listed_app_free.
    + assert (Halloc : forall q zq, (q, zq, true) ∈ l1 ++ mid ++ l2 ->
                (q, zq, true) ∈ l1 ++ l2).
      { intros q zq Hin. apply elem_of_app in Hin as [Hin|Hin]; [list_mem|].
        apply elem_of_app in Hin as [Hin|Hin]; [|list_mem].
        apply Hfree in Hin. discriminate. }
      apply (preserves_trans _ _ m').
      * intros q zq x Hq Hx. apply Hun. intros w Hw.
        apply Halloc in Hq. apply elem_of_app in Hq as [Hq|Hq].
        -- destruct (Hb1 _ _ _ Hq).
           repeat (apply elem_of_cons in Hw as [->|Hw]); try lia.
           by apply elem_of_nil in Hw.
        -- destruct (Hb2 _ _ _ Hq).
           repeat (apply elem_of_cons in Hw as [->|Hw]); try lia.
           by apply elem_of_nil in Hw.
      * eapply preserves_sub; [|exact Hpres]. intros q zq Hq.
        apply Halloc in Hq. list_mem.
Qed.

Lemma mid_links_valid s bl L b z a :
  heap_mid s bl L -> (b, z, a) ∈ bl -> valid s b /\ valid s (b + 8).
Proof.
  intros Hmid Hin. destruct (mid_block _ _ _ _ _ _ Hmid Hin) as (? & ? & ? & _).
  pose proof (hm_hl _ _ _ Hmid). unfold valid. lia.
Qed.

Lemma prev_alloc_ok (P : Z * Z * bool) l1 lp pb psz x :
  adj_ok l1 -> P :: l1 = lp ++ [(pb, psz, true)] -> adj_ok (l1 ++ [x]).
Proof.
  intros Hadj E. destruct lp as [|P' l1']; simpl in E; injection E as _ ->.
  - apply adj_ok_single.
  - rewrite <- app_assoc. apply adj_ok_after; auto.
Qed.

Lemma next_alloc_ok l2 (x : Z * Z * bool) :
  adj_ok l2 ->
  (l2 = [] \/ exists nb nsz l2', l2 = (nb, nsz, true) :: l2') ->
  adj_ok (x :: l2).
Proof.
  intros Hadj [->|(nb & nsz & l2' & ->)]; [apply adj_ok_single|].
  apply adj_ok_before; auto.
Qed.

Lemma tag_eq_PACK z : tag z false = PACK z 0.
Proof. reflexivity. Qed.

Ltac mstep H := rewrite (bind_run _ _ _ _ _ H).

Lemma GET_SIZE_at s m p z a :
  valid s p -> load8 m p = tag z a -> 0 <= z < 2 ^ 64 -> z mod 8 = 0 ->
  GET_SIZE p (set_mem s m) = Done (z, set_mem s m).
Proof.
  intros Hv Hl Hz Hz8. unfold GET_SIZE. mstep (GET_at s m p Hv).
  rewrite Hl, tag_size by lia. reflexivity.
Qed.

Lemma FTRP_at s m bp z a :
  valid s (bp - 8) -> load8 m (bp - 8) = tag z a -> 0 <= z < 2 ^ 64 -> z mod 8 = 0 ->
  FTRP bp (set_mem s m) = Done (bp + z - 16, set_mem s m).
Proof.
  intros Hv Hl Hz Hz8. unfold FTRP, HDRP, DSIZE.
  mstep (GET_SIZE_at s m (bp - 8) z a Hv Hl Hz Hz8). reflexivity.
Qed.

Lemma NEXT_BLKP_at s m bp z a :
  valid s (bp - 8) -> load8 m (bp - 8) = tag z a -> 0 <= z < 2 ^ 64 -> z mod 8 = 0 ->
  NEXT_BLKP bp (set_mem s m) = Done (bp + z, set_mem s m).
Proof.
  intros Hv Hl Hz Hz8. unfold NEXT_BLKP, DSIZE.
  mstep (GET_SIZE_at s m (bp - 8) z a Hv Hl Hz Hz8). reflexivity.
Qed.

Lemma listed_remove l1 b z l2 b' z' :
  (forall z'', (b, z'', false) ∉ l1 ++ l2) ->
  (listed (l1 ++ (b, z, false) :: l2) b' z' /\ b' <> b) <-> listed (l1 ++ l2) b' z'.
Proof.
  intros Hnot. rewrite listed_app_free. split.
  - intros [[H|[-> _]] Hne]; [exact H|contradiction].
  - intros H. split; [auto|]. intros ->. exact (Hnot _ H).
Qed.

(** [coalesce] re-establishes the invariant. *)
Lemma coalesce_spec s l1 bp sz l2 :
  coalesce_pre s l1 bp sz l2 ->
  exists m' bl' bp' sz',
    coalesce bp s = Done (bp', set_mem s m') /\
    heap_inv (set_mem s m') bl' /\
    preserves (l1 ++ (bp, sz, false) :: l2) (mem s) m' /\
    (bp', sz', false) ∈ bl' /\ bp' <= bp /\ bp + sz <= bp' + sz' /\
    (forall q zq, (q, zq, true) ∈ bl' <-> (q, zq, true) ∈ l1 ++ l2).
Proof.
  intros Hpre. pose proof Hpre as [Hmid Hadj].
  set (P := (heap_listp s, 16, true)).
  set (bl := l1 ++ (bp, sz, false) :: l2) in *.
  destruct (list_last_split P l1) as (lp & [[pb psz] pa] & Elp).
  assert (EF : P :: bl = lp ++ (pb, psz, pa) :: (bp, sz, false) :: l2).
  { unfold bl. rewrite app_comm_cons, Elp, <- app_assoc. reflexivity. }
  assert (Hpin : (pb, psz, pa) ∈ P :: bl) by (rewrite EF; list_mem).
  assert (Hbin : (bp, sz, false) ∈ P :: bl) by (unfold bl; list_mem).
  pose proof (hm_tiles _ _ _ Hmid) as Ht. fold P in Ht.
  assert (Hpadj : bp = pb + psz).
  { rewrite EF in Ht. apply tiles_adjacent in Ht. exact Ht. }
  destruct (adj_ok_split _ _ _ Hadj) as [Hadj1 Hadj2].
  destruct (adj_ok_app _ _ Hadj1) as [Hadjl1 _].
  assert (Hadjl2 : adj_ok l2) by (destruct Hadj2; assumption).
  assert (Hna : exists na,
            GET_ALLOC (HDRP (bp + sz)) s = Done (bit na, s) /\
            (na = true -> l2 = [] \/ exists nb nsz l2', l2 = (nb, nsz, true) :: l2') /\
            (na = false -> exists nsz l2', l2 = (bp + sz, nsz, false) :: l2')).
  { destruct l2 as [|[[nb nsz] na] l2'].
    - exists true. split; [|split; [auto|discriminate]].
      assert (E : bp + sz = mem_brk s).
      { change (P :: bl) with ((P :: l1) ++ [(bp, sz, false)]) in Ht.
        apply tiles_end in Ht. exact Ht. }
      rewrite E. eapply rd_epilogue; eauto.
    - assert (E : nb = bp + sz).
      { change (P :: bl) with ((P :: l1) ++ (bp, sz, false) :: (nb, nsz, na) :: l2') in Ht.
        apply tiles_adjacent in Ht. exact Ht. }
      subst nb. exists na. split; [|split].
      + eapply rd_alloc; [exact Hmid|]. unfold bl. list_mem.
      + intros ->. right. eauto.
      + intros ->. eauto. }
  destruct Hna as (na & Hnrd & Hnt & Hnf).
  unfold coalesce.
  mstep (rd_prev _ _ _ _ _ _ _ _ _ _ _ Hmid EF).
  mstep (rd_ftrp _ _ _ _ _ _ Hmid Hpin).
  mstep (rd_falloc _ _ _ _ _ _ Hmid Hpin).
  mstep (rd_next _ _ _ _ _ _ Hmid Hbin).
  mstep Hnrd.
  mstep (rd_size _ _ _ _ _ _ Hmid Hbin).
  destruct pa, na; cbn [bit Z.eqb negb andb].
  - (* case 1 *)
    destruct (coalesce_case1 s l1 bp sz l2 Hpre) as (m' & Hrun & Hinv & Hpres).
    { apply adj_ok_join.
      - eapply prev_alloc_ok; eauto.
      - apply next_alloc_ok; auto. }
    exists m', bl, bp, sz. split; [exact Hrun|]. split; [exact Hinv|].
    split; [exact Hpres|]. split; [unfold bl; list_mem|].
    split; [lia|]. split; [lia|]. intros q zq. unfold bl. list_mem.
  - (* case 2: the next block is free *)
    destruct (Hnf eq_refl) as (nsz & l2' & ->).
    set (nb := bp + sz) in *.
    assert (Hnin : (nb, nsz, false) ∈ bl) by (unfold bl; list_mem).
    destruct (mid_links_valid _ _ _ _ _ _ Hmid Hnin) as [Hv1 Hv2].
    mstep (rd_next _ _ _ _ _ _ Hmid Hbin). fold nb.
    unfold NEXT_FREEBLKP, PREV_FREEBLKP, NEXT_PTR, PREV_PTR, DSIZE, GET_ADDRESS.
    mstep (GET_run _ _ Hv1). mstep (GET_run _ _ Hv2).
    mstep (rd_size _ _ _ nb nsz false Hmid ltac:(list_mem)).
    destruct (mid_splice s bl _ nb nsz Hmid) as (m1 & Hsp & Hmid1 & Hpres1).
    { unfold listed. list_mem. }
    { intros b' z' Hin _. exists z'. unfold listed in Hin. unfold bl. list_mem. }
    mstep Hsp.
    mstep (rd_size _ _ _ nb nsz false Hmid1 ltac:(list_mem)).
    destruct (mid_full_block _ _ _ _ _ _ Hmid1 Hbin)
      as (Hb1 & Hb2 & Hb3 & Hb4 & Hb5 & Hb6 & Hb7 & Hb8 & Hb9).
    destruct (mid_full_block _ _ _ nb nsz false Hmid1 ltac:(list_mem))
      as (Hn1 & Hn2 & Hn3 & Hn4 & Hn5 & Hn6 & Hn7 & Hn8 & Hn9).
    pose proof (mid_brk _ _ _ Hmid) as Hbrk.
    pose proof (hm_min _ _ _ Hmid _ _ _ Hnin) as Hnmin.
    pose proof (hm_hl _ _ _ Hmid) as Hhl. pose proof (hm_lo _ _ _ Hmid) as Hlo.
    cbn [mem mem_brk mem_start_brk heap_listp set_mem] in Hb1, Hb2, Hb5, Hb6, Hb7, Hb8,
      Hn1, Hn2, Hn5, Hn6, Hn7, Hn8.
    rewrite (w64_small (sz + nsz)) by (unfold nb in *; lia).
    set (zt := sz + nsz) in *.
    assert (HZ8 : zt mod 8 = 0) by (unfold zt; Z.div_mod_to_equations; lia).
    assert (HZr : 0 <= zt < 2 ^ 64) by (unfold zt, nb in *; lia).
    unfold HDRP, DSIZE. mput Hb7. rewrite <- tag_eq_PACK.
    mstep (FTRP_at s (store8 m1 (bp - 8) (tag zt false)) bp zt false Hb7
             ltac:(rewrite load8_store8_same; apply tag_range; assumption) HZr HZ8).
    assert (Hvf : valid s (bp + zt - 16)).
    { unfold valid in *. unfold zt, nb in *. cbn [mem_start_brk mem_brk set_mem] in *. lia. }
    mput Hvf.
    set (m3 := store8 (store8 m1 (bp - 8) (tag zt false)) (bp + zt - 16) (tag zt false)).
    pose proof (hm_tiles _ _ _ Hmid1) as Ht1.
    cbn [mem heap_listp mem_brk set_mem] in Ht1. fold P in Ht1.
    change (P :: bl) with ((P :: l1) ++ [(bp, sz, false); (nb, nsz, false)] ++ l2') in Ht1.
    apply tiles_app in Ht1 as (q & Hta & Htb).
    apply tiles_app in Htb as (q' & Htm & Htc).
    destruct Htm as (Eq & _ & _ & _ & _ & (_ & _ & _ & _ & _ & Eq')).
    subst q. cbn [tiles] in Eq'. subst q'.
    destruct (merge_blocks (set_mem s m1) l1 [(bp, sz, false); (nb, nsz, false)] l2'
                bp zt m3) as (m4 & Hins & Hmid4 & Hpres4).
    { eapply heap_mid_ext; [|exact Hmid1]. intros b' z'.
      apply listed_remove. intros z'' Hin.
      eapply (mid_not_listed s (l1 ++ [(bp, sz, false)]) nb nsz false l2' _ z'' false).
      - rewrite <- app_assoc. exact Hmid.
      - list_mem. }
    { intros q0 zq a Hin. clear - Hin. list_mem. }
    { exact Hta. }
    { cbn [mem mem_brk set_mem].
      replace (bp + zt) with (nb + nsz) by (unfold zt, nb; lia). exact Htc. }
    { unfold zt. lia. }
    { exact HZ8. }
    { cbn [mem set_mem]. unfold m3.
      eapply (unchanged_trans _ _ _ [bp - 8] [bp + zt - 16]); apply unchanged_store8. }
    { unfold m3. rewrite load8_store8_other by (unfold zt; lia).
      rewrite load8_store8_same. apply tag_range; assumption. }
    { unfold m3. rewrite load8_store8_same. apply tag_range; assumption. }
    rewrite !set_mem_twice in Hins. rewrite set_mem_twice in Hmid4.
    cbn [mem set_mem] in Hpres4.
    exists m4, (l1 ++ (bp, zt, false) :: l2'), bp, zt.
    split; [exact Hins|]. split.
    { split; [exact Hmid4|]. apply adj_ok_join.
      - eapply prev_alloc_ok; eauto.
      - eapply adj_ok_retag_first; [exact Hadjl2|reflexivity]. }
    split; [exact (preserves_trans _ _ _ _ Hpres1 Hpres4)|].
    split; [list_mem|]. split; [lia|]. split; [unfold zt, nb; lia|].
    intros q0 zq. clear - q0. list_mem.
  - (* case 3: the previous block is free *)
    assert (El1 : exists l1', l1 = l1' ++ [(pb, psz, false)]).
    { destruct lp as [|P' lp']; simpl in Elp.
      - discriminate Elp.
      - injection Elp as _ ->. eauto. }
    destruct El1 as (l1' & ->).
    assert (Hpin' : (pb, psz, false) ∈ bl) by (unfold bl; list_mem).
    destruct (mid_links_valid _ _ _ _ _ _ Hmid Hpin') as [Hv1 Hv2].
    mstep (rd_prev _ _ _ _ _ _ _ _ _ _ _ Hmid EF).
    unfold NEXT_FREEBLKP, PREV_FREEBLKP, NEXT_PTR, PREV_PTR, DSIZE, GET_ADDRESS.
    mstep (GET_run _ _ Hv1). mstep (GET_run _ _ Hv2).
    mstep (rd_size _ _ _ pb psz false Hmid Hpin).
    destruct (mid_splice s bl _ pb psz Hmid) as (m1 & Hsp & Hmid1 & Hpres1).
    { unfold listed. list_mem. }
    { intros b' z' Hin _. exists z'. unfold listed in Hin. unfold bl. list_mem. }
    mstep Hsp.
    mstep (rd_size _ _ _ pb psz false Hmid1 Hpin).
    destruct (mid_full_block _ _ _ _ _ _ Hmid1 Hbin)
      as (Hb1 & Hb2 & Hb3 & Hb4 & Hb5 & Hb6 & Hb7 & Hb8 & Hb9).
    destruct (mid_full_block _ _ _ pb psz false Hmid1 Hpin)
      as (Hn1 & Hn2 & Hn3 & Hn4 & Hn5 & Hn6 & Hn7 & Hn8 & Hn9).
    pose proof (mid_brk _ _ _ Hmid) as Hbrk.
    pose proof (hm_min _ _ _ Hmid _ _ _ Hpin') as Hpmin.
    pose proof (hm_hl _ _ _ Hmid) as Hhl. pose proof (hm_lo _ _ _ Hmid) as Hlo.
    cbn [mem mem_brk mem_start_brk heap_listp set_mem] in Hb1, Hb2, Hb5, Hb6, Hb7, Hb8,
      Hn1, Hn2, Hn5, Hn6, Hn7, Hn8.
    rewrite (w64_small (sz + psz)) by lia.
    set (zt := sz + psz) in *.
    assert (HZ8 : zt mod 8 = 0) by (unfold zt; Z.div_mod_to_equations; lia).
    assert (HZr : 0 <= zt < 2 ^ 64) by (unfold zt in *; lia).
    mstep (rd_ftrp _ _ _ bp sz false Hmid1 Hbin).
    mput Hb8. rewrite <- tag_eq_PACK.
    unfold HDRP, DSIZE. mput Hn7.
    set (m3 := store8 (store8 m1 (bp + sz - 16) (tag zt false)) (pb - 8) (tag zt false)).
    pose proof (hm_tiles _ _ _ Hmid1) as Ht1.
    cbn [mem heap_listp mem_brk set_mem] in Ht1. fold P in Ht1.
    change (P :: bl) with
      (((P :: l1') ++ [(pb, psz, false)]) ++ (bp, sz, false) :: l2) in Ht1.
    rewrite <- app_assoc in Ht1.
    apply tiles_app in Ht1 as (q & Hta & Htb).
    change ([(pb, psz, false)] ++ (bp, sz, false) :: l2)
      with ([(pb, psz, false); (bp, sz, false)] ++ l2) in Htb.
    apply tiles_app in Htb as (q' & Htm & Htc).
    destruct Htm as (Eq & _ & _ & _ & _ & (_ & _ & _ & _ & _ & Eq')).
    subst q. cbn [tiles] in Eq'. subst q'.
    destruct (merge_blocks (set_mem s m1) l1' [(pb, psz, false); (bp, sz, false)] l2
                pb zt m3) as (m4 & Hins & Hmid4 & Hpres4).
    { eapply heap_mid_ext; [|unfold bl in Hmid1; rewrite <- app_assoc in Hmid1; exact Hmid1].
      intros b' z'. rewrite <- app_assoc.
      apply listed_remove. intros z'' Hin.
      eapply (mid_not_listed s l1' pb psz false ((bp, sz, false) :: l2) _ z'' false).
      - unfold bl in Hmid. rewrite <- app_assoc in Hmid. exact Hmid.
      - list_mem. }
    { intros q0 zq a Hin. clear - Hin. list_mem. }
    { exact Hta. }
    { cbn [mem mem_brk set_mem].
      replace (pb + zt) with (bp + sz) by (unfold zt; lia). exact Htc. }
    { unfold zt. lia. }
    { exact HZ8. }
    { cbn [mem set_mem]. unfold m3.
      eapply unchanged_weaken.
      - eapply (unchanged_trans _ _ _ [bp + sz - 16] [pb - 8]); apply unchanged_store8.
      - intros w Hw. replace (pb + zt - 16) with (bp + sz - 16) by (unfold zt; lia).
        list_mem. }
    { unfold m3. rewrite load8_store8_same. apply tag_range; assumption. }
    { unfold m3. replace (pb + zt - 16) with (bp + sz - 16) by (unfold zt; lia).
      rewrite load8_store8_other by lia.
      rewrite load8_store8_same. apply tag_range; assumption. }
    rewrite !set_mem_twice in Hins. rewrite set_mem_twice in Hmid4.
    cbn [mem set_mem] in Hpres4.
    exists m4, (l1' ++ (pb, zt, false) :: l2), pb, zt.
    split; [exact Hins|]. split.
    { split; [exact Hmid4|]. apply adj_ok_join.
      - eapply adj_ok_retag_last; [exact Hadjl1|reflexivity].
      - apply next_alloc_ok; auto. }
    split.
    { eapply preserves_trans; [exact Hpres1|].
      unfold bl. rewrite <- app_assoc. exact Hpres4. }
    split; [list_mem|]. split; [lia|]. split; [unfold zt; lia|].
    intros q0 zq. clear - q0. list_mem.
  - (* case 4: both neighbours are free *)
    assert (El1 : exists l1', l1 = l1' ++ [(pb, psz, false)]).
    { destruct lp as [|P' lp']; simpl in Elp.
      - discriminate Elp.
      - injection Elp as _ ->. eauto. }
    destruct El1 as (l1' & ->).
    destruct (Hnf eq_refl) as (nsz & l2' & ->).
    set (nb := bp + sz) in *.
    assert (Hnin : (nb, nsz, false) ∈ bl) by (unfold bl; list_mem).
    assert (Hpin' : (pb, psz, false) ∈ bl) by (unfold bl; list_mem).
    destruct (mid_links_valid _ _ _ _ _ _ Hmid Hnin) as [Hv1 Hv2].
    destruct (mid_links_valid _ _ _ _ _ _ Hmid Hpin') as [Hv3 Hv4].
    mstep (rd_next _ _ _ _ _ _ Hmid Hbin). fold nb.
    unfold NEXT_FREEBLKP, PREV_FREEBLKP, NEXT_PTR, PREV_PTR, DSIZE, GET_ADDRESS.
    mstep (GET_run _ _ Hv1). mstep (GET_run _ _ Hv2).
    mstep (rd_size _ _ _ nb nsz false Hmid ltac:(list_mem)).
    destruct (mid_splice s bl _ nb nsz Hmid) as (m1 & Hsp & Hmid1 & Hpres1).
    { unfold listed. list_mem. }
    { intros b' z' Hin _. exists z'. unfold listed in Hin. unfold bl. list_mem. }
    mstep Hsp.
    mstep (rd_prev _ _ _ _ _ _ _ _ _ _ _ Hmid1 EF).
    mstep (GET_run (set_mem s m1) pb Hv3). mstep (GET_run (set_mem s m1) (pb + 8) Hv4).
    mstep (rd_size _ _ _ pb psz false Hmid1 Hpin).
    assert (Hne : pb <> nb).
    { pose proof (hm_min _ _ _ Hmid _ _ _ Hpin').
      destruct (mid_full_block _ _ _ _ _ _ Hmid Hbin) as (_ & _ & ? & _). unfold nb. lia. }
    destruct (mid_splice (set_mem s m1) bl _ pb psz Hmid1) as (m2 & Hsp2 & Hmid2 & Hpres2).
    { split; [unfold listed; list_mem|exact Hne]. }
    { intros b' z' [Hin _] _. exists z'. unfold listed in Hin. unfold bl. list_mem. }
    mstep Hsp2. rewrite set_mem_twice in Hmid2 |- *.
    cbn [mem set_mem] in Hpres2.
    mstep (rd_size _ _ _ pb psz false Hmid2 Hpin).
    mstep (rd_ftrp _ _ _ nb nsz false Hmid2 ltac:(list_mem)).
    mstep (rd_fsize _ _ _ nb nsz false Hmid2 ltac:(list_mem)).
    destruct (mid_full_block _ _ _ _ _ _ Hmid2 Hbin)
      as (Hb1 & Hb2 & Hb3 & Hb4 & Hb5 & Hb6 & Hb7 & Hb8 & Hb9).
    destruct (mid_full_block _ _ _ pb psz false Hmid2 Hpin)
      as (Hp1 & Hp2 & Hp3 & Hp4 & Hp5 & Hp6 & Hp7 & Hp8 & Hp9).
    destruct (mid_full_block _ _ _ nb nsz false Hmid2 ltac:(list_mem))
      as (Hn1 & Hn2 & Hn3 & Hn4 & Hn5 & Hn6 & Hn7 & Hn8 & Hn9).
    pose proof (mid_brk _ _ _ Hmid) as Hbrk.
    pose proof (hm_min _ _ _ Hmid _ _ _ Hpin') as Hpmin.
    pose proof (hm_min _ _ _ Hmid _ _ _ Hnin) as Hnmin.
    pose proof (hm_hl _ _ _ Hmid) as Hhl. pose proof (hm_lo _ _ _ Hmid) as Hlo.
    cbn [mem mem_brk mem_start_brk heap_listp set_mem] in Hb1, Hb2, Hb5, Hb6, Hb7, Hb8,
      Hn1, Hn2, Hn5, Hn6, Hn7, Hn8, Hp1, Hp2, Hp5, Hp6, Hp7, Hp8.
    rewrite (w64_small (psz + nsz)) by (unfold nb in *; lia).
    rewrite (w64_small (sz + (psz + nsz))) by (unfold nb in *; lia).
    set (zt := sz + (psz + nsz)) in *.
    assert (HZ8 : zt mod 8 = 0) by (unfold zt; Z.div_mod_to_equations; lia).
    assert (HZr : 0 <= zt < 2 ^ 64) by (unfold zt, nb in *; lia).
    unfold HDRP, DSIZE. mput Hp7. rewrite <- tag_eq_PACK.
    mstep (FTRP_at s (store8 m2 (pb - 8) (tag zt false)) nb nsz false Hn7
             ltac:(rewrite load8_store8_other by (unfold nb; lia); exact Hn5) Hn9 Hn4).
    assert (Hvf : valid s (nb + nsz - 16)) by exact Hn8.
    mput Hvf.
    set (m3 := store8 (store8 m2 (pb - 8) (tag zt false)) (nb + nsz - 16) (tag zt false)).
    pose proof (hm_tiles _ _ _ Hmid2) as Ht1.
    cbn [mem heap_listp mem_brk set_mem] in Ht1. fold P in Ht1.
    change (P :: bl) with
      (((P :: l1') ++ [(pb, psz, false)]) ++ (bp, sz, false) :: (nb, nsz, false) :: l2')
      in Ht1.
    rewrite <- app_assoc in Ht1.
    apply tiles_app in Ht1 as (q & Hta & Htb).
    change ([(pb, psz, false)] ++ (bp, sz, false) :: (nb, nsz, false) :: l2')
      with ([(pb, psz, false); (bp, sz, false); (nb, nsz, false)] ++ l2') in Htb.
    apply tiles_app in Htb as (q' & Htm & Htc).
    destruct Htm as (Eq & _ & _ & _ & _ & (_ & _ & _ & _ & _ &
                     (_ & _ & _ & _ & _ & Eq'))).
    subst q. cbn [tiles] in Eq'. subst q'.
    destruct (merge_blocks (set_mem s m2) l1'
                [(pb, psz, false); (bp, sz, false); (nb, nsz, false)] l2'
                pb zt m3) as (m4 & Hins & Hmid4 & Hpres4).
    { eapply heap_mid_ext; [|unfold bl in Hmid2; rewrite <- app_assoc in Hmid2; exact Hmid2].
      intros b' z'. cbv beta.
      rewrite (listed_remove (l1' ++ [(pb, psz, false)]) nb nsz l2' b' z').
      - rewrite <- app_assoc. apply listed_remove. intros z'' Hin.
        eapply (mid_not_listed s l1' pb psz false
                  ((bp, sz, false) :: (nb, nsz, false) :: l2') _ z'' false).
        + unfold bl in Hmid. rewrite <- app_assoc in Hmid. exact Hmid.
        + list_mem.
      - intros z'' Hin.
        eapply (mid_not_listed s ((l1' ++ [(pb, psz, false)]) ++ [(bp, sz, false)])
                  nb nsz false l2' _ z'' false).
        + rewrite <- app_assoc. exact Hmid.
        + list_mem. }
    { intros q0 zq a Hin. clear - Hin. list_mem. }
    { exact Hta. }
    { cbn [mem mem_brk set_mem].
      replace (pb + zt) with (nb + nsz) by (unfold zt, nb; lia). exact Htc. }
    { unfold zt. lia. }
    { exact HZ8. }
    { cbn [mem set_mem]. unfold m3.
      replace (pb + zt - 16) with (nb + nsz - 16) by (unfold zt, nb; lia).
      eapply (unchanged_trans _ _ _ [pb - 8] [nb + nsz - 16]); apply unchanged_store8. }
    { unfold m3. rewrite load8_store8_other by (unfold nb; lia).
      rewrite load8_store8_same. apply tag_range; assumption. }
    { unfold m3. replace (pb + zt - 16) with (nb + nsz - 16) by (unfold zt, nb; lia).
      rewrite load8_store8_same. apply tag_range; assumption. }
    rewrite !set_mem_twice in Hins. rewrite set_mem_twice in Hmid4.
    cbn [mem set_mem] in Hpres4.
    exists m4, (l1' ++ (pb, zt, false) :: l2'), pb, zt.
    split; [exact Hins|]. split.
    { split; [exact Hmid4|]. apply adj_ok_join.
      - eapply adj_ok_retag_last; [exact Hadjl1|reflexivity].
      - eapply adj_ok_retag_first; [exact Hadjl2|reflexivity]. }
    split.
    { eapply preserves_trans; [exact Hpres1|].
      eapply preserves_trans; [exact Hpres2|].
      unfold bl. rewrite <- app_assoc. exact Hpres4. }
    split; [list_mem|]. split; [lia|]. split; [unfold zt, nb; lia|].
    intros q0 zq. clear - q0. list_mem.
Qed.

Ltac mem_cases H :=
  repeat (apply elem_of_cons in H as [->|H]); try (by apply elem_of_nil in H).

Lemma load8_store8_eq m a v b : a = b -> load8 (store8 m a v) b = w64 v.
Proof. intros ->. apply load8_store8_same. Qed.

Lemma unchanged_retag m bp z a :
  unchanged_except m (retag m bp z a) [bp - 8; bp + z - 16].
Proof.
  unfold retag.
  eapply (unchanged_trans _ _ _ [bp - 8] [bp + z - 16]); apply unchanged_store8.
Qed.

Lemma retag_hdr m bp z a :
  16 <= z < 2 ^ 64 -> z mod 8 = 0 -> load8 (retag m bp z a) (bp - 8) = tag z a.
Proof.
  intros Hz Hz8. unfold retag. rewrite load8_store8_other by lia.
  rewrite load8_store8_same. apply tag_range; [lia|assumption].
Qed.

Lemma retag_ftr m bp z a :
  0 <= z < 2 ^ 64 -> z mod 8 = 0 -> load8 (retag m bp z a) (bp + z - 16) = tag z a.
Proof.
  intros Hz Hz8. unfold retag. rewrite load8_store8_same. apply tag_range; assumption.
Qed.

Lemma retag_other m bp z a x :
  (x + 8 <= bp - 8 \/ bp <= x) -> (x + 8 <= bp + z - 16 \/ bp + z - 8 <= x) ->
  load8 (retag m bp z a) x = load8 m x.
Proof. intros H1 H2. unfold retag. rewrite !load8_store8_other by lia. reflexivity. Qed.

Lemma tiles_retag m bp z a :
  16 <= z < 2 ^ 64 -> z mod 8 = 0 -> tiles (retag m bp z a) bp [(bp, z, a)] (bp + z).
Proof.
  intros Hz Hz8. cbn [tiles]. split; [reflexivity|]. split; [lia|]. split; [assumption|].
  split; [apply retag_hdr; assumption|]. split; [apply retag_ftr; [lia|assumption]|].
  reflexivity.
Qed.

(** The three lines that write a block's header and footer. *)
Lemma put_tags {B} s m bp z a (k : M B) :
  valid s (bp - 8) -> valid s (bp + z - 16) -> 0 <= z < 2 ^ 64 -> z mod 8 = 0 ->
  (_ ← PUT (HDRP bp) (PACK z (bit a)); f ← FTRP bp; _ ← PUT f (PACK z (bit a)); k)
    (set_mem s m) = k (set_mem s (retag m bp z a)).
Proof.
  intros Hv1 Hv2 Hz Hz8. unfold HDRP, DSIZE. mput Hv1.
  change (PACK z (bit a)) with (tag z a).
  mstep (FTRP_at s (store8 m (bp - 8) (tag z a)) bp z a Hv1
           ltac:(rewrite load8_store8_same; apply tag_range; assumption) Hz Hz8).
  mput Hv2. reflexivity.
Qed.

Lemma put_tags_run {B} s bp z a (k : M B) :
  valid s (bp - 8) -> valid s (bp + z - 16) -> 0 <= z < 2 ^ 64 -> z mod 8 = 0 ->
  (_ ← PUT (HDRP bp) (PACK z (bit a)); f ← FTRP bp; _ ← PUT f (PACK z (bit a)); k) s
  = k (set_mem s (retag (mem s) bp z a)).
Proof.
  intros Hv1 Hv2 Hz Hz8. unfold HDRP, DSIZE. mput Hv1.
  change (PACK z (bit a)) with (tag z a).
  mstep (FTRP_at s (store8 (mem s) (bp - 8) (tag z a)) bp z a Hv1
           ltac:(rewrite load8_store8_same; apply tag_range; assumption) Hz Hz8).
  mput Hv2. reflexivity.
Qed.

Lemma adj_ok_cons_alloc (y : Z * Z * bool) l : adj_ok l -> snd y = true -> adj_ok (y :: l).
Proof. intros H Hy. destruct l; simpl; auto. Qed.

Lemma adj_ok_snoc_alloc l (y : Z * Z * bool) : adj_ok l -> snd y = true -> adj_ok (l ++ [y]).
Proof.
  intros H Hy. induction l as [|a l IH]; [simpl; auto|].
  destruct H as [H1 H2]. specialize (IH H2).
  destruct l as [|b l]; simpl in *; auto.
Qed.

Lemma adj_ok_sides l1 (x : Z * Z * bool) l2 :
  adj_ok (l1 ++ x :: l2) -> adj_ok l1 /\ adj_ok l2.
Proof.
  intros H. destruct (adj_ok_app _ _ H) as [H1 H2]. split; [exact H1|].
  destruct H2 as [_ H2]. exact H2.
Qed.

Lemma adj_ok_alloc l1 (y : Z * Z * bool) l2 :
  adj_ok l1 -> adj_ok l2 -> snd y = true -> adj_ok (l1 ++ y :: l2).
Proof.
  intros H1 H2 Hy. apply adj_ok_join.
  - apply adj_ok_snoc_alloc; assumption.
  - apply adj_ok_cons_alloc; assumption.
Qed.

(** [place] re-establishes the invariant: the block is allocated, with
    what is left of it, if that is a block, free after it. *)
Lemma place_spec s l1 bp csize l2 asize :
  heap_inv s (l1 ++ (bp, csize, false) :: l2) ->
  32 <= asize <= csize -> asize mod 8 = 0 ->
  exists m' bl' z',
    place bp asize s = Done (tt, set_mem s m') /\
    heap_inv (set_mem s m') bl' /\
    preserves (l1 ++ l2) (mem s) m' /\
    asize <= z' /\ (bp, z', true) ∈ bl' /\
    (forall q zq, (q, zq, true) ∈ bl' <-> (q, zq, true) ∈ l1 ++ (bp, z', true) :: l2).
Proof.
  intros [Hmid Hadj] Ha Ha8.
  set (P := (heap_listp s, 16, true)).
  set (bl := l1 ++ (bp, csize, false) :: l2) in *.
  assert (Hbin' : (bp, csize, false) ∈ bl) by (unfold bl; list_mem).
  assert (Hbin : (bp, csize, false) ∈ P :: bl) by (apply list_elem_of_further, Hbin').
  destruct (mid_full_block _ _ _ _ _ _ Hmid Hbin)
    as (Hb1 & Hb2 & Hb3 & Hb4 & Hb5 & Hb6 & Hb7 & Hb8 & Hb9).
  destruct (mid_links_valid _ _ _ _ _ _ Hmid Hbin') as [Hv1 Hv2].
  destruct (adj_ok_sides _ _ _ Hadj) as [Hadj1 Hadj2].
  pose proof (hm_tiles _ _ _ Hmid) as Ht. fold P in Ht.
  change (P :: bl) with ((P :: l1) ++ [(bp, csize, false)] ++ l2) in Ht.
  apply tiles_app in Ht as (q & Hta & Htb).
  apply tiles_app in Htb as (q' & Htm & Htc).
  destruct Htm as (Eq & _ & _ & _ & _ & Eq'). subst q. cbn [tiles] in Eq'. subst q'.
  assert (HL : forall b z, listed bl b z -> b = bp \/ b + 32 <= bp \/ bp + csize <= b).
  { intros b z Hin. unfold listed in Hin.
    destruct (mid_apart _ _ _ _ _ _ _ _ _ Hmid Hin Hbin') as [[= -> _]|E]; [auto|].
    pose proof (hm_min _ _ _ Hmid _ _ _ Hin). lia. }
  unfold place. mstep (rd_size _ _ _ _ _ _ Hmid Hbin).
  unfold NEXT_FREEBLKP, PREV_FREEBLKP, NEXT_PTR, PREV_PTR, GET_ADDRESS.
  mstep (GET_run _ _ Hv1). mstep (GET_run _ _ Hv2).
  rewrite (w64_small (csize - asize)) by lia.
  change (2 * QSIZE) with 32.
  destruct (Z_lt_ge_dec (csize - asize) 32) as [Hsmall|Hbig].
  - (* the whole block *)
    rewrite geb_false by lia.
    change (PACK csize 1) with (PACK csize (bit true)).
    rewrite (put_tags_run s bp csize true _ Hb7 Hb8 Hb9 Hb4).
    set (mA := retag (mem s) bp csize true).
    assert (Hmid2 : heap_mid (set_mem s mA) (l1 ++ [(bp, csize, true)] ++ l2) (listed bl)).
    { eapply (mid_retile s l1 [(bp, csize, false)] [(bp, csize, true)] l2 _ mA
                [bp - 8; bp + csize - 16] bp (bp + csize)); eauto.
      - apply unchanged_retag.
      - intros w Hw. mem_cases Hw; lia.
      - intros w b z Hw Hin. destruct (HL _ _ Hin) as [->|E]; mem_cases Hw; lia.
      - apply tiles_retag; [lia|assumption].
      - intros b z a Hin. apply list_elem_of_singleton in Hin as [= -> -> ->]. lia. }
    cbn [app] in Hmid2.
    destruct (mid_splice (set_mem s mA) _ _ bp csize Hmid2) as (m3 & Hsp & Hmid3 & Hpres3).
    { exact Hbin'. }
    { intros b' z' Hin Hne. exists z'. unfold listed, bl in Hin. clear - Hin Hne. list_mem. }
    cbn [mem set_mem] in Hsp, Hpres3. rewrite set_mem_twice in Hsp, Hmid3.
    unfold mA in Hsp at 1 2. rewrite !retag_other in Hsp by lia.
    exists m3, (l1 ++ (bp, csize, true) :: l2), csize.
    split; [exact Hsp|]. split.
    { split.
      - eapply heap_mid_ext; [|exact Hmid3]. intros b z. cbv beta.
        rewrite listed_app_alloc. apply listed_remove.
        intros z'' Hin. eapply (mid_not_listed s l1 bp csize false l2); [exact Hmid|exact Hin].
      - apply adj_ok_alloc; auto. }
    split.
    { eapply (preserves_trans _ _ mA).
      - intros q0 zq x Hq Hx. apply (unchanged_retag (mem s) bp csize true). intros w Hw.
        assert (Hq' : (q0, zq, true) ∈ bl) by (unfold bl; clear - Hq; list_mem).
        destruct (mid_apart _ _ _ _ _ _ _ _ _ Hmid Hq' Hbin') as [[=]|E].
        mem_cases Hw; lia.
      - eapply preserves_sub; [|exact Hpres3]. intros q0 zq Hq. clear - Hq. list_mem. }
    split; [lia|]. split; [list_mem|]. intros q0 zq. reflexivity.
  - (* the block is split *)
    rewrite geb_true by lia.
    set (rem := csize - asize) in *. set (rb := bp + asize).
    assert (Hva : valid s (bp + asize - 16)) by (unfold valid in *; lia).
    assert (Hvr1 : valid s (rb - 8)) by (unfold valid, rb in *; lia).
    assert (Hvr2 : valid s (rb + rem - 16)) by (unfold valid, rb, rem in *; lia).
    assert (Hrem8 : rem mod 8 = 0) by (unfold rem; Z.div_mod_to_equations; lia).
    change (PACK asize 1) with (PACK asize (bit true)).
    rewrite (put_tags_run s bp asize true _ Hb7 Hva ltac:(lia) Ha8).
    set (mA := retag (mem s) bp asize true).
    mstep (NEXT_BLKP_at s mA bp asize true Hb7
             ltac:(apply retag_hdr; [lia|assumption]) ltac:(lia) Ha8).
    fold rb. change (PACK rem 0) with (PACK rem (bit false)).
    rewrite (put_tags s mA rb rem false _ Hvr1 Hvr2 ltac:(lia) Hrem8).
    set (mB := retag mA rb rem false).
    assert (Hun : unchanged_except (mem s) mB
                    ([bp - 8; bp + asize - 16] ++ [rb - 8; rb + rem - 16])).
    { eapply (unchanged_trans _ mA); apply unchanged_retag. }
    cbn [app] in Hun.
    assert (Hmid2 : heap_mid (set_mem s mB)
                      (l1 ++ [(bp, asize, true); (rb, rem, false)] ++ l2) (listed bl)).
    { eapply (mid_retile s l1 [(bp, csize, false)] _ l2 _ mB _ bp (bp + csize));
        [exact Hmid|exact Hta|exact Htc|exact Hun| | | |].
      - intros w Hw. unfold rb, rem in Hw. mem_cases Hw; lia.
      - intros w b z Hw Hin. unfold rb, rem in Hw.
        destruct (HL _ _ Hin) as [->|E]; mem_cases Hw; lia.
      - cbn [tiles]. unfold mB.
        rewrite !(retag_other mA rb rem false) by (unfold rb; lia).
        unfold mA. rewrite retag_hdr, retag_ftr by (first [lia|assumption]).
        rewrite retag_hdr, retag_ftr by (first [lia|assumption]).
        repeat (split; [first [reflexivity|assumption|lia]|]). unfold rb, rem. lia.
      - intros b z a Hin.
        repeat (apply elem_of_cons in Hin as [[= -> -> ->]|Hin]); try lia.
        by apply elem_of_nil in Hin. }
    cbn [app] in Hmid2.
    destruct (mid_splice (set_mem s mB) _ _ bp csize Hmid2) as (m3 & Hsp & Hmid3 & Hpres3).
    { exact Hbin'. }
    { intros b' z' Hin Hne. exists z'. unfold listed, bl in Hin. clear - Hin Hne. list_mem. }
    cbn [mem set_mem] in Hsp, Hpres3. rewrite set_mem_twice in Hsp, Hmid3.
    rewrite !(unchanged_load8 _ _ _ _ Hun) in Hsp
      by (intros w Hw; unfold rb, rem in Hw; mem_cases Hw; lia).
    mstep Hsp.
    destruct (coalesce_spec (set_mem s m3) (l1 ++ [(bp, asize, true)]) rb rem l2)
      as (m4 & bl' & bp' & sz' & Hco & Hinv & Hpres4 & _ & _ & _ & Halloc).
    { split.
      - rewrite <- !app_assoc. cbn [app].
        eapply heap_mid_ext; [|exact Hmid3]. intros b z. cbv beta.
        rewrite listed_app_alloc. apply listed_remove.
        intros z'' Hin. eapply (mid_not_listed s l1 bp csize false l2); [exact Hmid|exact Hin].
      - rewrite <- app_assoc. apply adj_ok_alloc; [exact Hadj1| |reflexivity].
        apply adj_ok_cons_alloc; [exact Hadj2|reflexivity]. }
    mstep Hco. rewrite set_mem_twice in Hinv |- *. cbn [mem set_mem] in Hpres4.
    exists m4, bl', asize.
    split; [reflexivity|]. split; [exact Hinv|]. split.
    { eapply (preserves_trans _ _ mB).
      - intros q0 zq x Hq Hx. apply Hun. intros w Hw.
        assert (Hq' : (q0, zq, true) ∈ bl) by (unfold bl; clear - Hq; list_mem).
        destruct (mid_apart _ _ _ _ _ _ _ _ _ Hmid Hq' Hbin') as [[=]|E].
        unfold rb, rem in Hw. mem_cases Hw; lia.
      - eapply (preserves_trans _ _ m3).
        + eapply preserves_sub; [|exact Hpres3]. intros q0 zq Hq. clear - Hq. list_mem.
        + eapply preserves_sub; [|exact Hpres4]. intros q0 zq Hq. clear - Hq. list_mem. }
    split; [lia|]. split.
    { apply Halloc. clear. list_mem. }
    intros q0 zq. rewrite Halloc. clear. split; intros H; list_mem.
Qed.

Lemma init_if_needed_run s bl L : heap_mid s bl L -> init_if_needed s = Done (tt, s).
Proof.
  intros Hmid. unfold init_if_needed. mstep (get_run heap_listp s).
  pose proof (hm_hl _ _ _ Hmid). pose proof (hm_lo _ _ _ Hmid).
  rewrite (proj2 (Z.eqb_neq _ _)) by lia. reflexivity.
Qed.

(** [free] re-establishes the invariant. *)
Lemma free_spec s l1 p z l2 :
  heap_inv s (l1 ++ (p, z, true) :: l2) ->
  exists m' bl',
    free p s = Done (tt, set_mem s m') /\
    heap_inv (set_mem s m') bl' /\
    preserves (l1 ++ l2) (mem s) m' /\
    (forall q zq, (q, zq, true) ∈ bl' <-> (q, zq, true) ∈ l1 ++ l2).
Proof.
  intros [Hmid Hadj].
  set (P := (heap_listp s, 16, true)).
  set (bl := l1 ++ (p, z, true) :: l2) in *.
  assert (Hbin' : (p, z, true) ∈ bl) by (unfold bl; list_mem).
  assert (Hbin : (p, z, true) ∈ P :: bl) by (apply list_elem_of_further, Hbin').
  destruct (mid_full_block _ _ _ _ _ _ Hmid Hbin)
    as (Hb1 & Hb2 & Hb3 & Hb4 & Hb5 & Hb6 & Hb7 & Hb8 & Hb9).
  destruct (mid_block _ _ _ _ _ _ Hmid Hbin') as (Hc1 & _ & Hc3 & _).
  pose proof (hm_hl _ _ _ Hmid) as Hhl. pose proof (hm_lo _ _ _ Hmid) as Hlo.
  pose proof (hm_tiles _ _ _ Hmid) as Ht. fold P in Ht.
  change (P :: bl) with ((P :: l1) ++ [(p, z, true)] ++ l2) in Ht.
  apply tiles_app in Ht as (q & Hta & Htb).
  apply tiles_app in Htb as (q' & Htm & Htc).
  destruct Htm as (Eq & _ & _ & _ & _ & Eq'). subst q. cbn [tiles] in Eq'. subst q'.
  assert (HL : forall b zb, listed bl b zb -> b + 32 <= p \/ p + z <= b).
  { intros b zb Hin. unfold listed in Hin.
    destruct (mid_apart _ _ _ _ _ _ _ _ _ Hmid Hin Hbin') as [[=]|E].
    pose proof (hm_min _ _ _ Hmid _ _ _ Hin). lia. }
  unfold free. rewrite (proj2 (Z.eqb_neq _ _)) by lia.
  mstep (rd_size _ _ _ _ _ _ Hmid Hbin).
  mstep (init_if_needed_run _ _ _ Hmid).
  change (PACK z 0) with (PACK z (bit false)).
  rewrite (put_tags_run s p z false _ Hb7 Hb8 Hb9 Hb4).
  set (mA := retag (mem s) p z false).
  assert (Hmid2 : heap_mid (set_mem s mA) (l1 ++ [(p, z, false)] ++ l2) (listed bl)).
  { eapply (mid_retile s l1 [(p, z, true)] _ l2 _ mA _ p (p + z));
      [exact Hmid|exact Hta|exact Htc|apply unchanged_retag| | | |].
    - intros w Hw. mem_cases Hw; lia.
    - intros w b zb Hw Hin. destruct (HL _ _ Hin); mem_cases Hw; lia.
    - apply tiles_retag; [lia|assumption].
    - intros b zb a Hin. apply list_elem_of_singleton in Hin as [= -> -> ->]. lia. }
  cbn [app] in Hmid2.
  destruct (coalesce_spec (set_mem s mA) l1 p z l2)
    as (m4 & bl' & bp' & sz' & Hco & Hinv & Hpres4 & _ & _ & _ & Halloc).
  { split; [|exact Hadj].
    eapply heap_mid_ext; [|exact Hmid2]. intros b zb. apply listed_app_alloc. }
  mstep Hco. rewrite set_mem_twice in Hinv |- *. cbn [mem set_mem] in Hpres4.
  exists m4, bl'. split; [reflexivity|]. split; [exact Hinv|]. split; [|exact Halloc].
  eapply (preserves_trans _ _ mA).
  - intros q0 zq x Hq Hx. apply (unchanged_retag (mem s) p z false). intros w Hw.
    assert (Hq' : (q0, zq, true) ∈ bl) by (unfold bl; clear - Hq; list_mem).
    destruct (mid_apart _ _ _ _ _ _ _ _ _ Hmid Hq' Hbin') as [E|E].
    + injection E as -> ->. exfalso.
      eapply (mid_not_listed s l1 p z true l2); [exact Hmid|exact Hq].
    + mem_cases Hw; lia.
  - eapply preserves_sub; [|exact Hpres4]. intros q0 zq Hq. clear - Hq. list_mem.
Qed.

Lemma lists_ok_grow s L b' :
  lists_ok s L -> mem_brk s <= b' < 2 ^ 64 -> lists_ok (set_brk s b') L.
Proof.
  intros [Hh Hin Hfun Hap Hcl] Hb.
  constructor; cbn [mem mem_start_brk mem_brk seg_listp set_brk]; auto.
  - lia.
  - intros b z HL. destruct (Hin b z HL). lia.
Qed.

Lemma w64_minus_one : w64 (-1) = 2 ^ 64 - 1.
Proof. reflexivity. Qed.

Lemma mem_sbrk_fail s incr :
  mem_brk s + incr > mem_max_addr s -> mem_sbrk incr s = Done (w64 (-1), s).
Proof.
  intros H. unfold mem_sbrk. rewrite (proj2 (Z.gtb_lt _ _)) by lia. reflexivity.
Qed.

Lemma mem_sbrk_grow s incr :
  mem_brk s + incr <= mem_max_addr s ->
  mem_sbrk incr s = Done (mem_brk s, set_brk s (mem_brk s + incr)).
Proof.
  intros H. unfold mem_sbrk. rewrite Z.gtb_ltb, (proj2 (Z.ltb_ge _ _)) by lia.
  reflexivity.
Qed.

(** [extend_heap] either finds memlib exhausted and changes nothing, or
    re-establishes the invariant with a free block at the end that
    covers the new bytes. *)
Lemma extend_heap_spec s bl words size :
  size = (if negb (words mod 2 =? 0) then w64 (w64 (words + 1) * WSIZE)
          else w64 (words * WSIZE)) ->
  32 <= size -> size mod 8 = 0 ->
  heap_inv s bl ->
  (mem_brk s + size > mem_max_addr s /\ extend_heap words s = Done (NULL, s)) \/
  (mem_brk s + size <= mem_max_addr s /\
   exists m' bl' bp' sz',
     extend_heap words s = Done (bp', set_mem (set_brk s (mem_brk s + size)) m') /\
     heap_inv (set_mem (set_brk s (mem_brk s + size)) m') bl' /\
     preserves bl (mem s) m' /\
     (bp', sz', false) ∈ bl' /\ size <= sz' /\
     (forall q zq, (q, zq, true) ∈ bl' <-> (q, zq, true) ∈ bl)).
Proof.
  intros Hsize Hs32 Hs8 [Hmid Hadj].
  assert (Hsr : 0 <= size < 2 ^ 64).
  { split; [lia|]. rewrite Hsize. destruct (negb _); apply Z.mod_pos_bound; lia. }
  unfold extend_heap. cbv zeta. rewrite <- Hsize. clear Hsize.
  pose proof (hm_max _ _ _ Hmid) as [Hmax1 Hmax2].
  pose proof (mid_brk _ _ _ Hmid) as Hbrk.
  pose proof (hm_hl _ _ _ Hmid) as Hhl. pose proof (hm_lo _ _ _ Hmid) as Hlo.
  destruct (Z_gt_le_dec (mem_brk s + size) (mem_max_addr s)) as [Hgt|Hle].
  { left. split; [exact Hgt|]. mstep (mem_sbrk_fail _ _ Hgt).
    rewrite Z.eqb_refl. reflexivity. }
  right. split; [exact Hle|].
  mstep (mem_sbrk_grow _ _ Hle). rewrite w64_minus_one.
  rewrite (proj2 (Z.eqb_neq _ _)) by lia.
  set (bp := mem_brk s) in *. set (s1 := set_brk s (bp + size)).
  assert (Hv1 : valid s1 (bp - 8)) by (unfold valid, s1, bp; cbn; lia).
  assert (Hv2 : valid s1 (bp + size - 16)) by (unfold valid, s1, bp; cbn; lia).
  assert (Hv3 : valid s1 (bp + size - 8)) by (unfold valid, s1, bp; cbn; lia).
  change (PACK size 0) with (PACK size (bit false)).
  rewrite (put_tags_run s1 bp size false _ Hv1 Hv2 Hsr Hs8).
  set (mA := retag (mem s1) bp size false).
  mstep (NEXT_BLKP_at s1 mA bp size false Hv1
           ltac:(apply retag_hdr; [lia|assumption]) Hsr Hs8).
  unfold HDRP, DSIZE. mput Hv3. change (PACK 0 1) with (tag 0 true).
  set (mB := store8 mA (bp + size - 8) (tag 0 true)).
  assert (Hun : unchanged_except (mem s) mB
                  ([bp - 8; bp + size - 16] ++ [bp + size - 8])).
  { eapply (unchanged_trans _ mA); [apply unchanged_retag|apply unchanged_store8]. }
  cbn [app] in Hun.
  assert (Hmid2 : heap_mid (set_mem s1 mB) (bl ++ [(bp, size, false)]) (listed bl)).
  { pose proof (hm_tiles _ _ _ Hmid) as Ht. fold bp in Ht.
    destruct Hmid as [? ? ? Hseg ? ? _ Hmin Hepi Hl].
    constructor; cbn [mem mem_start_brk mem_brk mem_max_addr seg_listp last_segp
                      heap_listp set_mem set_brk s1]; auto.
    - change ((heap_listp s, 16, true) :: bl ++ [(bp, size, false)])
        with (((heap_listp s, 16, true) :: bl) ++ [(bp, size, false)]).
      apply tiles_app. exists bp. split.
      + eapply tiles_frame; [|exact Ht]. intros x Hx. apply Hun.
        intros w Hw. mem_cases Hw; lia.
      + cbn [tiles]. unfold mB. rewrite !load8_store8_other by lia.
        unfold mA. rewrite retag_hdr, retag_ftr by (first [lia|assumption]).
        repeat (split; [first [reflexivity|assumption|lia]|]). reflexivity.
    - intros b z a Hin. apply elem_of_app in Hin as [Hin|Hin]; [eauto|].
      apply list_elem_of_singleton in Hin as [= -> -> ->]. lia.
    - unfold mB.
      rewrite load8_store8_same. reflexivity.
    - apply (lists_unchanged s1 _ mB [bp - 8; bp + size - 16; bp + size - 8]).
      + apply lists_ok_grow; [exact Hl|]. fold bp. lia.
      + exact Hun.
      + intros w Hw. split.
        * cbn [seg_listp s1 set_brk]. mem_cases Hw; lia.
        * intros b z HL. unfold listed in HL.
          destruct Ht as (_ & _ & _ & _ & _ & Ht).
          destruct (tiles_bounds _ _ _ _ _ _ _ Ht HL) as (? & ? & _).
          pose proof (Hmin _ _ _ HL). mem_cases Hw; lia. }
  destruct (coalesce_spec (set_mem s1 mB) bl bp size [])
    as (m4 & bl' & bp' & sz' & Hco & Hinv & Hpres4 & Hfree & Hle1 & Hle2 & Halloc).
  { split.
    - rewrite app_nil_r. exact Hmid2.
    - apply adj_ok_snoc_alloc; [exact Hadj|reflexivity]. }
  rewrite set_mem_twice in Hco, Hinv. cbn [mem set_mem] in Hpres4.
  exists m4, bl', bp', sz'. split; [exact Hco|]. split; [exact Hinv|]. split.
  { eapply (preserves_trans _ _ mB).
    - intros q0 zq x Hq Hx. apply Hun. intros w Hw.
      destruct (mid_block _ _ _ _ _ _ Hmid Hq) as (? & ? & ? & _).
      mem_cases Hw; lia.
    - eapply preserves_sub; [|exact Hpres4]. intros q0 zq Hq. clear - Hq. list_mem. }
  split; [exact Hfree|]. split; [lia|].
  intros q0 zq. rewrite Halloc, app_nil_r. reflexivity.
Qed.

Lemma fit_loop_scan asize s l : forall fuel p bp t result smallest count visited,
  fseg (mem s) p (map fst l) bp t NULL ->
  (forall b z, (b, z) ∈ l -> GET_SIZE (HDRP b) s = Done (z, s) /\ valid s b) ->
  (length l <= fuel)%nat ->
  fit_loop fuel asize bp result smallest count visited s
  = Done (scan asize l result smallest count visited, s).
Proof.
  induction l as [|[b z] l IH]; intros fuel p bp t result smallest count visited Hseg Hn Hf.
  - destruct Hseg as [-> _]. destruct fuel; reflexivity.
  - destruct Hseg as (-> & Hnn & _ & Hseg). cbn [map fst] in *.
    destruct fuel as [|fuel]; [simpl in Hf; lia|].
    cbn [fit_loop scan]. rewrite (eqb_NULL_false _ Hnn). cbn [negb andb].
    destruct (count <? 10); [|reflexivity].
    destruct (Hn b z ltac:(list_mem)) as [Hsz Hv].
    mstep Hsz.
    assert (Hrest : forall r' s' c' v',
              (nx ← GET_ADDRESS b; fit_loop fuel asize nx r' s' c' v') s
              = Done (scan asize l r' s' c' v', s)).
    { intros. mstep (GET_ADDRESS_run _ _ Hv).
      eapply IH; [exact Hseg| |simpl in Hf; lia].
      intros b' z' Hin. apply Hn. list_mem. }
    destruct (asize <=? z); [|apply Hrest].
    destruct ((result =? NULL) || (z <? smallest)); [|apply Hrest].
    destruct (z =? asize); [reflexivity|apply Hrest].
Qed.

Lemma fits_snoc asize l x :
  fits asize (l ++ [x]) = fits asize l ++ (if asize <=? snd x then [x] else []).
Proof. unfold fits. rewrite List.filter_app. reflexivity. Qed.

Lemma fits_in asize l b z : (b, z) ∈ fits asize l <-> (b, z) ∈ l /\ asize <= z.
Proof.
  unfold fits. rewrite !list_elem_of_In, List.filter_In. cbn [snd].
  rewrite Z.leb_le. reflexivity.
Qed.

Lemma scanning_found asize l0 result smallest count :
  scanning asize l0 result smallest count -> found asize l0 result.
Proof.
  intros (Hc & Hc10 & Hnull & Hres & Hex). split; [lia|]. split; [|split].
  - split; [exact Hnull|]. intros E. destruct (Z.eq_dec result NULL) as [|Hne]; [assumption|].
    destruct (Hres Hne) as [Hin _]. rewrite E in Hin. by apply elem_of_nil in Hin.
  - intros Hne. exists smallest. apply Hres, Hne.
  - intros l1 b l2 E. exfalso. apply (Hex b). rewrite E. list_mem.
Qed.

Lemma scanning_skip asize l0 result smallest count b z :
  z < asize -> scanning asize l0 result smallest count ->
  scanning asize (l0 ++ [(b, z)]) result smallest count.
Proof.
  intros Hz (H1 & H2 & H3 & H4 & Hex). unfold scanning. rewrite fits_snoc. cbn [snd].
  rewrite (proj2 (Z.leb_gt _ _)) by lia. rewrite app_nil_r.
  repeat (split; [assumption|]).
  intros b' Hin. apply elem_of_app in Hin as [Hin|Hin]; [exact (Hex _ Hin)|].
  apply list_elem_of_singleton in Hin as [= _ E]. lia.
Qed.

Lemma scanning_better asize l0 result smallest count b z :
  asize < z -> count < 10 -> b <> NULL -> result = NULL \/ z < smallest ->
  scanning asize l0 result smallest count ->
  scanning asize (l0 ++ [(b, z)]) b z (count + 1).
Proof.
  intros Hz Hc Hb Hbetter (Hcnt & _ & Hnull & Hres & Hex). unfold scanning.
  rewrite fits_snoc. cbn [snd]. rewrite (proj2 (Z.leb_le _ _)) by lia.
  rewrite length_app. cbn [length]. split; [lia|]. split; [lia|].
  split; [intros; contradiction|]. split.
  - intros _. split; [list_mem|].
    intros b' z' Hin. apply elem_of_app in Hin as [Hin|Hin].
    + destruct (Z.eq_dec result NULL) as [E|Hne].
      * rewrite (Hnull E) in Hin. by apply elem_of_nil in Hin.
      * destruct (Hres Hne) as [_ Hmin]. destruct Hbetter as [|Hlt]; [contradiction|].
        specialize (Hmin _ _ Hin). lia.
    + apply list_elem_of_singleton in Hin as [= _ ->]. lia.
  - intros b' Hin. apply elem_of_app in Hin as [Hin|Hin]; [exact (Hex _ Hin)|].
    apply list_elem_of_singleton in Hin as [= _ E]. lia.
Qed.

Lemma scanning_worse asize l0 result smallest count b z :
  asize <= z -> count < 10 -> result <> NULL -> smallest <= z ->
  scanning asize l0 result smallest count ->
  scanning asize (l0 ++ [(b, z)]) result smallest (count + 1).
Proof.
  intros Hz Hc Hr Hworse (Hcnt & _ & Hnull & Hres & Hex). unfold scanning.
  rewrite fits_snoc. cbn [snd]. rewrite (proj2 (Z.leb_le _ _)) by lia.
  rewrite length_app. cbn [length]. split; [lia|]. split; [lia|].
  split; [intros; contradiction|]. destruct (Hres Hr) as [Hin Hmin]. split.
  - intros _. split; [list_mem|].
    intros b' z' Hin'. apply elem_of_app in Hin' as [Hin'|Hin'].
    + eauto.
    + apply list_elem_of_singleton in Hin' as [= _ ->]. lia.
  - intros b' Hin'. apply elem_of_app in Hin' as [Hin'|Hin']; [exact (Hex _ Hin')|].
    apply list_elem_of_singleton in Hin' as [= _ E].
    apply fits_in in Hin as [Hin Hle].
    assert (smallest <> asize) by (intros ->; exact (Hex _ Hin)). lia.
Qed.

Lemma found_exact asize l0 result smallest count b :
  count < 10 -> b <> NULL ->
  scanning asize l0 result smallest count ->
  found asize (l0 ++ [(b, asize)]) b.
Proof.
  intros Hc Hb (Hcnt & _ & Hnull & Hres & Hex). unfold found.
  assert (Hall : forall b' z', (b', z') ∈ fits asize (l0 ++ [(b, asize)]) -> asize <= z').
  { intros b' z' Hin. apply fits_in in Hin. tauto. }
  split; [|split; [|split]].
  - rewrite fits_snoc. cbn [snd]. rewrite Z.leb_refl.
    rewrite length_app. cbn [length]. lia.
  - split; [contradiction|]. rewrite fits_snoc. cbn [snd]. rewrite Z.leb_refl.
    intros E. destruct (fits asize l0); discriminate E.
  - intros _. exists asize. split; [|exact Hall]. apply fits_in. split; [list_mem|lia].
  - intros l1 b' l2 E. destruct l2 as [|x l2].
    + apply app_inj_tail in E as [_ [= ->]]. auto.
    + exfalso. destruct (list_last_split x l2) as (l2' & y & E2). rewrite E2 in E.
      rewrite app_comm_cons, app_assoc in E. apply app_inj_tail in E as [E _].
      apply (Hex b'). rewrite E. list_mem.
Qed.

(** The inner loop, run from the state reached after [l0], stops after a
    part [l1] of the list with what is [found] in [l0 ++ l1]. *)
Lemma scan_found asize l : forall l0 result smallest count visited,
  (forall b z, (b, z) ∈ l -> b <> NULL) ->
  scanning asize l0 result smallest count ->
  exists l1 l2 r,
    l = l1 ++ l2 /\
    scan asize l result smallest count visited = (r, visited ++ map fst l1) /\
    found asize (l0 ++ l1) r.
Proof.
  induction l as [|[b z] l IH]; intros l0 result smallest count visited Hnn Hsc.
  - exists [], [], result. rewrite !app_nil_r. split; [reflexivity|]. split; [reflexivity|].
    eapply scanning_found; eauto.
  - assert (Hb : b <> NULL) by (apply (Hnn b z); list_mem).
    assert (Hnn' : forall b' z', (b', z') ∈ l -> b' <> NULL).
    { intros b' z' Hin. apply (Hnn b' z'). list_mem. }
    assert (Hstep : forall r' s' c',
              scanning asize (l0 ++ [(b, z)]) r' s' c' ->
              exists l1 l2 r,
                (b, z) :: l = l1 ++ l2 /\
                scan asize l r' s' c' (visited ++ [b]) = (r, visited ++ map fst l1) /\
                found asize (l0 ++ l1) r).
    { intros r' s' c' Hsc'.
      destruct (IH _ _ _ _ (visited ++ [b]) Hnn' Hsc') as (l1 & l2 & r & -> & Hrun & Hf).
      exists ((b, z) :: l1), l2, r. split; [reflexivity|].
      rewrite <- !app_assoc in *. cbn [app map fst] in *. auto. }
    cbn [scan]. destruct (Z.ltb_spec count 10) as [Hc|Hc].
    + destruct (Z.leb_spec asize z) as [Hz|Hz].
      * destruct (Z.eqb_spec result NULL) as [Hr|Hr]; cbn [orb].
        -- destruct (Z.eqb_spec z asize) as [->|Hne].
           ++ exists [(b, asize)], l, b. split; [reflexivity|]. split; [reflexivity|].
              eapply found_exact; eauto.
           ++ apply Hstep. eapply scanning_better; eauto. lia.
        -- destruct (Z.ltb_spec z smallest) as [Hlt|Hge].
           ++ destruct (Z.eqb_spec z asize) as [->|Hne].
              ** exists [(b, asize)], l, b. split; [reflexivity|]. split; [reflexivity|].
                 eapply found_exact; eauto.
              ** apply Hstep. eapply scanning_better; eauto. lia.
           ++ apply Hstep. eapply scanning_worse; eauto.
      * apply Hstep. eapply scanning_skip; eauto.
    + exists [], ((b, z) :: l), result. rewrite !app_nil_r.
      split; [reflexivity|]. split; [reflexivity|]. eapply scanning_found; eauto.
Qed.

Lemma sized_list (Q : Z -> Z -> Prop) (l : list Z) :
  (forall b, b ∈ l -> exists z, Q b z) ->
  exists lz : list (Z * Z), map fst lz = l /\ forall b z, (b, z) ∈ lz -> Q b z.
Proof.
  induction l as [|b l IH]; intros H.
  - exists []. split; [reflexivity|]. intros b z Hin. by apply elem_of_nil in Hin.
  - destruct (H b ltac:(list_mem)) as (z & Hz).
    destruct IH as (lz & E & Hlz); [intros b' Hb'; apply H; list_mem|].
    exists ((b, z) :: lz). split; [cbn; by rewrite E|].
    intros b' z' Hin. apply elem_of_cons in Hin as [[= -> ->]|Hin]; auto.
Qed.

Lemma length_bounded (l : list Z) lo hi :
  NoDup l -> (forall x, x ∈ l -> lo <= x < hi) -> (length l <= Z.to_nat (hi - lo))%nat.
Proof.
  intros Hnd Hin. rewrite <- (length_seqZ lo (hi - lo)).
  apply submseteq_length, NoDup_submseteq; [exact Hnd|].
  intros x Hx. apply elem_of_seqZ. specialize (Hin x Hx). lia.
Qed.

Lemma fits_nil_no_exact asize lv : fits asize lv = [] -> forall b, (b, asize) ∉ lv.
Proof.
  intros E b Hin. assert (H : (b, asize) ∈ fits asize lv) by (apply fits_in; split; [auto|lia]).
  rewrite E in H. by apply elem_of_nil in H.
Qed.

Lemma found_nothing asize lv : fits asize lv = [] -> found asize lv NULL.
Proof.
  intros E. unfold found. rewrite E. split; [simpl; lia|]. split; [tauto|].
  split; [intros H; contradiction|].
  intros l1 b l2 El. exfalso. apply (fits_nil_no_exact _ _ E b). rewrite El. list_mem.
Qed.

(** The outer loop of [find_fit], from the class at offset [k] on. *)
Lemma class_loop_spec s bl asize :
  heap_mid s bl (listed bl) ->
  forall classes k lv0,
    bucket asize <= k -> k mod 8 = 0 -> 32 - k < 8 * Z.of_nat classes ->
    NoDup (map fst lv0) ->
    (forall b z, (b, z) ∈ lv0 -> (b, z, false) ∈ bl /\ bucket asize <= bucket z < k) ->
    fits asize lv0 = [] ->
    exists r lv,
      class_loop classes (Z.to_nat (mem_brk s - mem_start_brk s)) asize
                 (seg_listp s + k) (seg_listp s + 32) (map fst lv0) s
        = Done ((r, map fst lv), s) /\
      NoDup (map fst lv) /\
      (forall b z, (b, z) ∈ lv -> (b, z, false) ∈ bl /\ bucket asize <= bucket z) /\
      found asize lv r.
Proof.
  intros Hmid.
  assert (Hdone : forall k (lv0 : list (Z * Z)),
            (forall b z, (b, z) ∈ lv0 -> (b, z, false) ∈ bl /\ bucket asize <= bucket z < k) ->
            forall b z, (b, z) ∈ lv0 -> (b, z, false) ∈ bl /\ bucket asize <= bucket z).
  { intros k lv0 H b z Hin. destruct (H b z Hin). split; [assumption|lia]. }
  induction classes as [|c IH]; intros k lv0 Hk Hk8 Hc Hnd Hlv Hfit.
  - cbn [class_loop]. rewrite (proj2 (Z.leb_gt _ _)) by lia.
    exists NULL, lv0. split; [reflexivity|]. split; [exact Hnd|].
    split; [eapply Hdone; eauto|]. apply found_nothing, Hfit.
  - cbn [class_loop]. destruct (Z.leb_spec (seg_listp s + k) (seg_listp s + 32)) as [Hle|Hgt].
    2:{ exists NULL, lv0. split; [reflexivity|]. split; [exact Hnd|].
        split; [eapply Hdone; eauto|]. apply found_nothing, Hfit. }
    pose proof (bucket_range asize) as [Hb0 _].
    assert (Hco : class_offset k) by (split; lia).
    pose proof (hm_lists _ _ _ Hmid) as Hl.
    destruct (lo_class _ _ Hl k Hco) as (l & t & Hseg & Hndl & Hmem).
    destruct (sized_list (fun b z => listed bl b z /\ bucket z = k) l) as (lz & Elz & Hlz).
    { intros b Hb. apply Hmem, Hb. }
    pose proof (lo_heads _ _ Hl) as Hh.
    assert (Hv : valid s (seg_listp s + k)) by (unfold valid; lia).
    mstep (GET_ADDRESS_run _ _ Hv).
    assert (Hnode : forall b z, (b, z) ∈ lz ->
              GET_SIZE (HDRP b) s = Done (z, s) /\ valid s b).
    { intros b z Hin. destruct (Hlz _ _ Hin) as [HL _]. unfold listed in HL. split.
      - eapply rd_size; [exact Hmid|]. apply list_elem_of_further, HL.
      - eapply mid_links_valid; eauto. }
    assert (Hlen : (length lz <= Z.to_nat (mem_brk s - mem_start_brk s))%nat).
    { rewrite <- (length_map fst), Elz. apply length_bounded; [exact Hndl|].
      intros x Hx. apply Hmem in Hx as (z & HL & _).
      destruct (lo_in _ _ Hl _ _ HL). lia. }
    rewrite <- Elz in Hseg.
    mstep (fit_loop_scan asize s lz _ _ _ _ NULL (w64 (-1)) 0 (map fst lv0) Hseg Hnode Hlen).
    destruct (scan_found asize lz lv0 NULL (w64 (-1)) 0 (map fst lv0))
      as (l1 & l2 & r & E12 & Hscan & Hfound).
    { intros b z Hin. destruct (Hlz _ _ Hin) as [HL _].
      destruct (lo_in _ _ Hl _ _ HL). unfold NULL. lia. }
    { unfold scanning. rewrite Hfit. cbn [length]. split; [reflexivity|]. split; [lia|].
      split; [reflexivity|]. split; [intros H; contradiction|].
      apply fits_nil_no_exact, Hfit. }
    rewrite Hscan. cbn [fst snd]. rewrite <- map_app.
    assert (Hlv' : forall b z, (b, z) ∈ lv0 ++ l1 ->
              (b, z, false) ∈ bl /\ bucket asize <= bucket z < k + 8).
    { intros b z Hin. apply elem_of_app in Hin as [Hin|Hin].
      - destruct (Hlv b z Hin). split; [assumption|lia].
      - destruct (Hlz b z) as [HL Hbk]; [rewrite E12; list_mem|].
        split; [exact HL|lia]. }
    assert (Hnd' : NoDup (map fst (lv0 ++ l1))).
    { rewrite map_app. apply NoDup_app. split; [exact Hnd|]. split.
      - intros b Hb0' Hb1.
        apply list_elem_of_fmap in Hb0' as ([b0 z0] & -> & Hin0).
        apply list_elem_of_fmap in Hb1 as ([b1 z1] & E & Hin1). cbn [fst] in E. subst b1.
        destruct (Hlv _ _ Hin0) as [HL0 Hk0].
        destruct (Hlz b0 z1) as [HL1 Hk1]; [rewrite E12; list_mem|].
        rewrite (lo_fun _ _ Hl _ _ _ HL0 HL1) in Hk0. lia.
      - rewrite <- Elz, E12, map_app in Hndl. apply NoDup_app in Hndl. tauto. }
    destruct (Z.eqb_spec r NULL) as [Hr|Hr]; cbn [negb].
    + replace (seg_listp s + k + DSIZE) with (seg_listp s + (k + 8)) by (unfold DSIZE; lia).
      apply IH; [lia|Z.div_mod_to_equations; lia|lia|exact Hnd'|exact Hlv'|].
      destruct Hfound as (_ & Hnull & _). apply Hnull, Hr.
    + exists r, (lv0 ++ l1). split; [reflexivity|]. split; [exact Hnd'|].
      split; [eapply Hdone; eauto|exact Hfound].
Qed.

(** [find_fit] changes nothing; it visits free blocks of the class of
    [asize] and of the classes above, each once, and no more than ten of
    them that fit. *)
Lemma find_fit_trace_spec s bl asize :
  heap_mid s bl (listed bl) ->
  exists r lv,
    find_fit_trace asize s = Done ((r, map fst lv), s) /\
    NoDup (map fst lv) /\
    (forall b z, (b, z) ∈ lv -> (b, z, false) ∈ bl /\ bucket asize <= bucket z) /\
    found asize lv r.
Proof.
  intros Hmid. unfold find_fit_trace.
  mstep (get_run seg_listp s). mstep (get_run last_segp s).
  mstep (get_run mem_start_brk s). mstep (get_run mem_brk s).
  pose proof (bucket_range asize) as [[Hb0 Hb1] Hb8].
  replace (last_segp s) with (seg_listp s + 32)
    by (rewrite (hm_last _ _ _ Hmid), (hm_seg _ _ _ Hmid); lia).
  apply (class_loop_spec s bl asize Hmid _ (bucket asize) []).
  - lia.
  - exact Hb8.
  - lia.
  - constructor.
  - intros b z Hin. by apply elem_of_nil in Hin.
  - reflexivity.
Qed.

Lemma find_fit_spec s bl asize :
  heap_mid s bl (listed bl) ->
  exists r,
    find_fit asize s = Done (r, s) /\
    (r = NULL \/ exists z, (r, z, false) ∈ bl /\ asize <= z).
Proof.
  intros Hmid.
  destruct (find_fit_trace_spec s bl asize Hmid) as (r & lv & Hrun & _ & Hlv & Hf).
  exists r. unfold find_fit. mstep Hrun. split; [reflexivity|].
  destruct (Z.eq_dec r NULL) as [|Hne]; [by left|right].
  destruct Hf as (_ & _ & Hf & _). destruct (Hf Hne) as (z & Hin & _).
  exists z. unfold fits in Hin. apply list_elem_of_In, List.filter_In in Hin.
  destruct Hin as [Hin Hz]. apply list_elem_of_In in Hin. cbn [snd] in Hz.
  split; [apply Hlv, Hin|lia].
Qed.

Lemma modify_run (f : heap -> heap) s : modify f s = Done (tt, f s).
Proof. reflexivity. Qed.

Ltac load_chain :=
  repeat first [ rewrite load8_store8_eq by lia
               | rewrite load8_store8_other by lia ].

Lemma init_heap_inv s :
  fresh s -> mem_start_brk s + 72 <= mem_max_addr s -> heap_inv (init_heap s) [].
Proof.
  intros (Hlo & Hal & Hbrk & Hmax) Hle. split; [|exact I].
  set (p := mem_start_brk s) in *.
  constructor; cbn [mem mem_start_brk mem_brk mem_max_addr seg_listp last_segp
                    heap_listp init_heap]; fold p; try first [assumption|reflexivity|lia].
  - cbn [tiles]. unfold init_mem.
    split; [reflexivity|]. split; [lia|]. split; [reflexivity|].
    split; [load_chain; reflexivity|]. split; [load_chain; reflexivity|]. lia.
  - intros b z a Hin. by apply elem_of_nil in Hin.
  - unfold init_mem. load_chain. reflexivity.
  - constructor; cbn [mem mem_start_brk mem_brk mem_max_addr seg_listp last_segp
                      heap_listp init_heap]; fold p.
    + lia.
    + intros b z Hin. by apply elem_of_nil in Hin.
    + intros b z z' Hin. by apply elem_of_nil in Hin.
    + intros b z b' z' Hin. by apply elem_of_nil in Hin.
    + intros k [Hk Hk8]. exists [], NULL. split; [|split; [constructor|]].
      * cbn [fseg]. split; [|reflexivity].
        assert (Ek : k = 0 \/ k = 8 \/ k = 16 \/ k = 24 \/ k = 32)
          by (Z.div_mod_to_equations; lia).
        unfold init_mem.
        destruct Ek as [->|[->|[->|[->| ->]]]]; load_chain; reflexivity.
      * intros b. split; [intros Hin; by apply elem_of_nil in Hin|].
        intros (z & Hin & _). by apply elem_of_nil in Hin.
Qed.

Lemma mm_init_layout s :
  fresh s -> mem_start_brk s + 72 <= mem_max_addr s ->
  mm_init s = (r ← extend_heap (CHUNKSIZE / WSIZE);
               if r =? NULL then mret (-1) else mret 0) (init_heap s).
Proof.
  intros (Hlo & Hal & Hbrk & Hmax) Hle. unfold mm_init.
  change (4 * DSIZE + SEGS * DSIZE) with 72.
  mstep (mem_sbrk_grow s 72 ltac:(lia)). rewrite Hbrk.
  set (p := mem_start_brk s) in *.
  mstep (modify_run (fun s0 => set_heap_listp s0 p) (set_brk s (p + 72))).
  rewrite w64_minus_one, (proj2 (Z.eqb_neq _ _)) by lia.
  set (s1 := set_heap_listp (set_brk s (p + 72)) p).
  assert (Hv : forall k, 0 <= k <= 64 -> valid s1 (p + k)).
  { intros k Hk. unfold valid, s1. cbn. fold p. lia. }
  change (seqZ 1 SEGS) with [1; 2; 3; 4; 5]. cbn [foldr].
  change ((SEGS + 1) * DSIZE) with 48. change ((SEGS + 2) * DSIZE) with 56.
  change ((SEGS + 3) * DSIZE) with 64. change (SEGS * DSIZE) with 40.
  change (1 * DSIZE) with 8. change (2 * DSIZE) with 16. change (3 * DSIZE) with 24.
  change (4 * DSIZE) with 32. change (5 * DSIZE) with 40. unfold DSIZE.
  pose proof (Hv 0 ltac:(lia)) as Hv0. rewrite Z.add_0_r in Hv0.
  mput Hv0.
  assert (Hheads : forall m,
            (_ ← PUT (p + 8) NULL; _ ← PUT (p + 16) NULL; _ ← PUT (p + 24) NULL;
             _ ← PUT (p + 32) NULL; _ ← PUT (p + 40) NULL; mret tt) (set_mem s1 m)
            = Done (tt, set_mem s1
                (store8 (store8 (store8 (store8 (store8 m (p + 8) 0) (p + 16) 0)
                   (p + 24) 0) (p + 32) 0) (p + 40) 0))).
  { intros m. mput (Hv 8 ltac:(lia)). mput (Hv 16 ltac:(lia)). mput (Hv 24 ltac:(lia)).
    mput (Hv 32 ltac:(lia)). mput (Hv 40 ltac:(lia)). reflexivity. }
  mstep (Hheads (store8 (mem s1) p 0)).
  mput (Hv 48 ltac:(lia)). mput (Hv 56 ltac:(lia)). mput (Hv 64 ltac:(lia)).
  reflexivity.
Qed.

Lemma mid_nonnull s bl L b z a : heap_mid s bl L -> (b, z, a) ∈ bl -> b <> NULL.
Proof.
  intros Hmid Hin. destruct (mid_block _ _ _ _ _ _ Hmid Hin) as (? & _).
  pose proof (hm_hl _ _ _ Hmid). pose proof (hm_lo _ _ _ Hmid). unfold NULL. lia.
Qed.

Lemma free_not_alloc s bl L b z z' : heap_mid s bl L -> (b, z, false) ∈ bl -> (b, z', true) ∉ bl.
Proof.
  intros Hmid Hin Hin'.
  pose proof (hm_min _ _ _ Hmid _ _ _ Hin). pose proof (hm_min _ _ _ Hmid _ _ _ Hin').
  destruct (mid_apart _ _ _ _ _ _ _ _ _ Hmid Hin Hin') as [[=]|E]. lia.
Qed.

(** [mm_init] on the empty heap of memlib: it fails, or it returns 0 and
    the invariant holds. *)
Lemma mm_init_spec s :
  fresh s ->
  exists r s', mm_init s = Done (r, s') /\ (r = 0 \/ r = -1) /\
               (r = 0 -> exists bl, heap_inv s' bl).
Proof.
  intros Hfresh. pose proof Hfresh as (Hlo & Hal & Hbrk & Hmax).
  destruct (Z_gt_le_dec (mem_start_brk s + 72) (mem_max_addr s)) as [Hgt|Hle].
  - exists (-1), (set_heap_listp s (w64 (-1))). split; [|split; [by right|discriminate]].
    unfold mm_init. change (4 * DSIZE + SEGS * DSIZE) with 72.
    mstep (mem_sbrk_fail s 72 ltac:(lia)).
    mstep (modify_run (fun s0 => set_heap_listp s0 (w64 (-1))) s).
    rewrite Z.eqb_refl. reflexivity.
  - rewrite (mm_init_layout s Hfresh Hle).
    pose proof (init_heap_inv s Hfresh Hle) as Hinv.
    change (CHUNKSIZE / WSIZE) with 65.
    destruct (extend_heap_spec (init_heap s) [] 65 264 eq_refl ltac:(lia) eq_refl Hinv)
      as [[_ Hrun]|(_ & m' & bl' & bp' & sz' & Hrun & Hinv' & _ & Hin & _)].
    + mstep Hrun. exists (-1), (init_heap s).
      split; [reflexivity|]. split; [by right|discriminate].
    + mstep Hrun. destruct Hinv' as [Hmid' Hadj'].
      rewrite (eqb_NULL_false _ (mid_nonnull _ _ _ _ _ _ Hmid' Hin)).
      eexists 0, _. split; [reflexivity|]. split; [by left|].
      intros _. exists bl'. split; assumption.
Qed.

Lemma adjust_spec n :
  0 < n <= max_request ->
  32 <= adjust n < 2 ^ 64 /\ adjust n mod 8 = 0 /\ n + 16 <= adjust n.
Proof.
  intros Hn. unfold max_request in Hn. unfold adjust, QSIZE.
  destruct (Z.leb_spec n 16) as [Hs|Hl].
  - change (2 * 16) with 32. split; [lia|]. split; [reflexivity|lia].
  - unfold ALIGN, ALIGNMENT. rewrite (w64_small (n + 16)) by lia.
    rewrite (w64_small (n + 16 + (8 - 1))) by lia.
    set (x := n + 16 + (8 - 1)).
    assert (Ex : x = 8 * (x / 8) + x mod 8) by (apply Z.div_mod; lia).
    assert (El : Z.land x (w64 (Z.lnot 7)) = 8 * (x / 8)).
    { rewrite Ex at 1.
      apply land_high; unfold x in *; Z.div_mod_to_equations; lia. }
    rewrite El. unfold x in *. Z.div_mod_to_equations. lia.
Qed.

Lemma extend_size asize :
  32 <= asize < 2 ^ 64 -> asize mod 8 = 0 ->
  exists size,
    size = (if negb ((MAX asize CHUNKSIZE / WSIZE) mod 2 =? 0)
            then w64 (w64 (MAX asize CHUNKSIZE / WSIZE + 1) * WSIZE)
            else w64 (MAX asize CHUNKSIZE / WSIZE * WSIZE)) /\
    asize <= size /\ size mod 8 = 0.
Proof.
  intros Ha Ha8. unfold MAX, CHUNKSIZE, WSIZE. eexists. split; [reflexivity|].
  destruct (Z.gtb_spec asize 260) as [Hgt|Hle].
  - assert (E : asize / 4 mod 2 = 0) by (Z.div_mod_to_equations; lia).
    rewrite E. cbn [Z.eqb negb]. rewrite w64_small by (Z.div_mod_to_equations; lia).
    Z.div_mod_to_equations. lia.
  - change (negb (260 / 4 mod 2 =? 0)) with true. cbv iota.
    change (w64 (w64 (260 / 4 + 1) * 4)) with 264. split; [lia|reflexivity].
Qed.

(** [malloc] re-establishes the invariant; it returns [NULL], with the
    same blocks allocated, or a block that was not allocated, of at
    least the requested size, whose payload it gives to the caller. *)
Lemma malloc_spec s bl n :
  heap_inv s bl -> 0 <= n <= max_request ->
  exists r s' bl',
    malloc n s = Done (r, s') /\ heap_inv s' bl' /\
    preserves bl (mem s) (mem s') /\
    ((r = NULL /\ forall q zq, (q, zq, true) ∈ bl' <-> (q, zq, true) ∈ bl) \/
     (exists z, n + 16 <= z /\ (r, z, true) ∈ bl' /\
        (forall z', (r, z', true) ∉ bl) /\
        forall q zq, (q, zq, true) ∈ bl' <-> (q, zq, true) ∈ bl \/ (q = r /\ zq = z))).
Proof.
  intros Hinv Hn. pose proof Hinv as [Hmid Hadj].
  unfold malloc. mstep (init_if_needed_run _ _ _ Hmid).
  destruct (Z.eqb_spec n 0) as [->|Hn0].
  { exists NULL, s, bl. split; [reflexivity|]. split; [exact Hinv|].
    split; [intros q zq x _ _; reflexivity|]. left. split; [reflexivity|tauto]. }
  destruct (adjust_spec n ltac:(lia)) as (Ha & Ha8 & Han).
  set (asize := adjust n) in *.
  assert (Hplace : forall s1 bl1 b z,
            heap_inv s1 bl1 -> (b, z, false) ∈ bl1 -> asize <= z ->
            exists m' bl' z',
              place b asize s1 = Done (tt, set_mem s1 m') /\
              heap_inv (set_mem s1 m') bl' /\ preserves bl1 (mem s1) m' /\
              n + 16 <= z' /\ (b, z', true) ∈ bl' /\ (forall z'', (b, z'', true) ∉ bl1) /\
              forall q zq, (q, zq, true) ∈ bl' <-> (q, zq, true) ∈ bl1 \/ (q = b /\ zq = z')).
  { intros s1 bl1 b z Hinv1 Hin Hz.
    destruct (list_elem_of_split _ _ Hin) as (l1 & l2 & ->).
    destruct (place_spec s1 l1 b z l2 asize Hinv1 ltac:(lia) Ha8)
      as (m' & bl' & z' & Hrun & Hinv' & Hpres & Hz' & Hin' & Halloc).
    exists m', bl', z'. split; [exact Hrun|]. split; [exact Hinv'|]. split.
    { eapply preserves_sub; [|exact Hpres]. intros q zq Hq. clear - Hq. list_mem. }
    split; [lia|]. split; [exact Hin'|]. split.
    { intros z''. eapply free_not_alloc; [apply Hinv1|exact Hin]. }
    intros q zq. rewrite Halloc. clear. split; intros H; list_mem. }
  destruct (find_fit_spec s bl asize Hmid) as (r & Hff & Hr).
  mstep Hff. destruct (Z.eqb_spec r NULL) as [Hnull|Hnn]; cbn [negb].
  - (* no fit: more memory *)
    destruct (extend_size asize Ha Ha8) as (size & Hsize & Hsz & Hs8).
    destruct (extend_heap_spec s bl _ size Hsize ltac:(lia) Hs8 Hinv)
      as [[_ Hrun]|(_ & m1 & bl1 & bp & sz & Hrun & Hinv1 & Hpres1 & Hin1 & Hle1 & Hal1)].
    + mstep Hrun. rewrite Z.eqb_refl.
      exists NULL, s, bl. split; [reflexivity|]. split; [exact Hinv|].
      split; [intros q zq x _ _; reflexivity|]. left. split; [reflexivity|tauto].
    + mstep Hrun. rewrite (eqb_NULL_false _ (mid_nonnull _ _ _ _ _ _ (proj1 Hinv1) Hin1)).
      destruct (Hplace _ _ _ _ Hinv1 Hin1 ltac:(lia))
        as (m' & bl' & z' & Hrun' & Hinv' & Hpres' & Hz' & Hin' & Hfresh & Halloc).
      mstep Hrun'. rewrite set_mem_twice in Hinv' |- *. cbn [mem set_mem] in Hpres'.
      eexists bp, _, bl'. split; [reflexivity|]. split; [exact Hinv'|]. split.
      { cbn [mem set_mem]. eapply preserves_trans; [exact Hpres1|].
        eapply preserves_sub; [|exact Hpres']. intros q zq Hq. apply Hal1, Hq. }
      right. exists z'. split; [exact Hz'|]. split; [exact Hin'|]. split.
      { intros z'' Hq. apply (Hfresh z''), Hal1, Hq. }
      intros q zq. rewrite Halloc, Hal1. reflexivity.
  - destruct Hr as [|(z & Hin & Hz)]; [contradiction|].
    destruct (Hplace _ _ _ _ Hinv Hin Hz)
      as (m' & bl' & z' & Hrun' & Hinv' & Hpres' & Hz' & Hin' & Hfresh & Halloc).
    mstep Hrun'.
    eexists r, _, bl'. split; [reflexivity|]. split; [exact Hinv'|].
    split; [exact Hpres'|]. right. exists z'. auto.
Qed.

Lemma tiles_payload m m' l : forall p e,
  tiles m p l e ->
  (forall x, p - 8 <= x < e - 8 -> outside l x -> loadb m' x = loadb m x) ->
  tiles m' p l e.
Proof.
  induction l as [|[[bp sz] a] l IH]; intros p e Ht Hx; [exact Ht|].
  pose proof Ht as (Ebp & Hsz & Hsz8 & Hh & Hf & Hrest). subst p.
  pose proof (tiles_le _ _ _ _ Hrest) as Hle.
  assert (Hout : forall x, bp - 8 <= x < bp \/ bp + sz - 16 <= x < bp + sz - 8 ->
            outside ((bp, sz, a) :: l) x).
  { intros x Hxr b z Hin. apply elem_of_cons in Hin as [[= -> -> _]|Hin]; [lia|].
    destruct (tiles_bounds _ _ _ _ _ _ _ Hrest Hin) as (? & _). lia. }
  cbn [tiles]. split; [reflexivity|]. split; [assumption|]. split; [assumption|].
  split; [|split].
  - rewrite <- Hh. apply load8_ext. intros x Hxr. apply Hx; [lia|]. apply Hout. lia.
  - rewrite <- Hf. apply load8_ext. intros x Hxr. apply Hx; [lia|]. apply Hout. lia.
  - apply IH; [exact Hrest|]. intros x Hxr Ho. apply Hx; [lia|].
    intros b z Hin. apply elem_of_cons in Hin as [[= -> -> _]|Hin]; [lia|].
    apply (Ho b z Hin).
Qed.

Lemma lists_frame s L m' :
  lists_ok s L ->
  (forall x, seg_listp s <= x < seg_listp s + 40 -> loadb m' x = loadb (mem s) x) ->
  (forall b z x, L b z -> b <= x < b + 16 -> loadb m' x = loadb (mem s) x) ->
  lists_ok (set_mem s m') L.
Proof.
  intros [Hh Hin Hfun Hap Hcl] Hheads Hlinks.
  constructor; cbn [mem mem_start_brk mem_brk seg_listp set_mem]; auto.
  intros k Hk. destruct (Hcl k Hk) as (l & t & Hseg & Hnd & Hmem).
  exists l, t. split; [|auto].
  rewrite (load8_ext (mem s) m').
  - eapply fseg_frame; [|exact Hseg]. intros x Hx.
    apply Hmem in Hx as (zx & HLx & _).
    split; apply load8_ext; intros y Hy; apply (Hlinks x zx); auto; lia.
  - intros x Hx. apply Hheads. destruct Hk as [Hk _]. lia.
Qed.

(** Writes into the payloads of allocated blocks keep the invariant. *)
Lemma inv_payload s bl m' :
  heap_inv s bl ->
  (forall x, outside bl x -> loadb m' x = loadb (mem s) x) ->
  heap_inv (set_mem s m') bl.
Proof.
  intros [Hmid Hadj] Hx. split; [|exact Hadj].
  pose proof (hm_tiles _ _ _ Hmid) as Ht.
  pose proof (mid_brk _ _ _ Hmid) as Hbrk.
  assert (Hblk : forall b z a, (b, z, a) ∈ bl ->
            heap_listp s + 16 <= b /\ b + z <= mem_brk s /\ 32 <= z).
  { intros b z a Hin. destruct (mid_block _ _ _ _ _ _ Hmid Hin) as (? & ? & ? & _). auto. }
  pose proof Hmid as [? ? ? Hseg ? Hhl _ Hmin Hepi Hl].
  constructor; cbn [mem mem_start_brk mem_brk mem_max_addr seg_listp last_segp
                    heap_listp set_mem]; auto.
  - eapply tiles_payload; [exact Ht|]. intros x _ Ho. apply Hx.
    intros b z Hin. apply (Ho b z). by apply list_elem_of_further.
  - rewrite <- Hepi. apply load8_ext. intros x Hxr. apply Hx.
    intros b z Hin. destruct (Hblk _ _ _ Hin) as (? & ? & ?). lia.
  - apply lists_frame; [exact Hl| |].
    + intros x Hxr. apply Hx. intros b z Hin. destruct (Hblk _ _ _ Hin) as (? & ? & ?). lia.
    + intros b z x HL Hxr. apply Hx. intros b' z' Hin. unfold listed in HL.
      pose proof (Hmin _ _ _ HL).
      destruct (mid_apart _ _ _ _ _ _ _ _ _ Hmid HL Hin) as [[=]|E]. lia.
Qed.

Lemma loadb_byte m a : loadb m a mod 256 = loadb m a.
Proof. unfold loadb. apply Z.mod_mod. lia. Qed.

Lemma fill_S m p c n : fill m p c (S n) = storeb (fill m p c n) (p + Z.of_nat n) c.
Proof. unfold fill. rewrite seq_S, fold_left_app. reflexivity. Qed.

Lemma copy_S m dst src n :
  copy m dst src (S n)
  = storeb (copy m dst src n) (dst + Z.of_nat n) (loadb m (src + Z.of_nat n)).
Proof. unfold copy. rewrite seq_S, fold_left_app. reflexivity. Qed.

Lemma loadb_fill m p c n x :
  loadb (fill m p c n) x
  = if decide (p <= x < p + Z.of_nat n) then c mod 256 else loadb m x.
Proof.
  induction n as [|n IH].
  - destruct (decide _); [lia|reflexivity].
  - rewrite fill_S. destruct (Z.eq_dec (p + Z.of_nat n) x) as [<-|Hne].
    + clear IH. rewrite loadb_storeb_same. destruct (decide _); [reflexivity|lia].
    + rewrite loadb_storeb_other by exact Hne. rewrite IH.
      destruct (decide _), (decide _); try reflexivity; lia.
Qed.

Lemma loadb_copy m dst src n x :
  loadb (copy m dst src n) x
  = if decide (dst <= x < dst + Z.of_nat n) then loadb m (src + (x - dst)) else loadb m x.
Proof.
  induction n as [|n IH].
  - destruct (decide _); [lia|reflexivity].
  - rewrite copy_S. destruct (Z.eq_dec (dst + Z.of_nat n) x) as [<-|Hne].
    + clear IH. rewrite loadb_storeb_same, loadb_byte. destruct (decide _); [|lia].
      f_equal. lia.
    + rewrite loadb_storeb_other by exact Hne. rewrite IH.
      destruct (decide _), (decide _); try reflexivity; lia.
Qed.

Lemma in_heap_range_block s bl L b z a k x :
  heap_mid s bl L -> (b, z, a) ∈ bl -> b <= x -> x + k <= b + z ->
  in_heap_range s x k = true.
Proof.
  intros Hmid Hin Hx Hk. destruct (mid_block _ _ _ _ _ _ Hmid Hin) as (? & ? & _).
  pose proof (hm_hl _ _ _ Hmid). apply in_heap_range_true. lia.
Qed.

(** The last resort of [realloc]: a new block, the old bytes copied into
    it, the old block freed. *)
Lemma realloc_move s bl p zp n :
  heap_inv s bl -> (p, zp, true) ∈ bl -> 0 < n <= max_request ->
  exists r s' bl',
    (newptr ← malloc n;
     if newptr =? 0 then mret 0
     else _ ← memcpy newptr p (if n <? zp then n else zp);
          _ ← free p; mret newptr) s = Done (r, s') /\
    heap_inv s' bl' /\
    (r <> NULL ->
     exists z', (r, z', true) ∈ bl' /\ n + 16 <= z' /\
       forall i, 0 <= i < Z.min (zp - 16) n ->
                 loadb (mem s') (r + i) = loadb (mem s) (p + i)).
Proof.
  intros Hinv Hp Hn.
  destruct (malloc_spec s bl n Hinv ltac:(lia))
    as (r & s1 & bl1 & Hrun & Hinv1 & Hpres1 & [[-> _]|(z & Hz & Hr & Hfresh & Halloc)]).
  { mstep Hrun. exists NULL, s1, bl1. split; [reflexivity|]. split; [exact Hinv1|].
    intros H. contradiction. }
  mstep Hrun. pose proof Hinv1 as [Hmid1 _].
  change (r =? 0) with (r =? NULL).
  rewrite (eqb_NULL_false _ (mid_nonnull _ _ _ _ _ _ Hmid1 Hr)).
  assert (Hp1 : (p, zp, true) ∈ bl1) by (apply Halloc; auto).
  destruct (mid_block _ _ _ _ _ _ Hmid1 Hp1) as (Hp2 & Hp3 & Hp4 & _).
  destruct (mid_block _ _ _ _ _ _ Hmid1 Hr) as (Hr2 & Hr3 & Hr4 & _).
  set (k := if n <? zp then n else zp).
  assert (Hk : 0 < k /\ k <= n /\ k <= zp /\ Z.min (zp - 16) n <= k).
  { unfold k. destruct (Z.ltb_spec n zp); lia. }
  assert (Hcpy : memcpy r p k s1 = Done (r, set_mem s1 (copy (mem s1) r p (Z.to_nat k)))).
  { unfold memcpy. rewrite (proj2 (Z.eqb_neq _ _)) by lia.
    rewrite (in_heap_range_block _ _ _ _ _ _ _ _ Hmid1 Hr) by lia.
    rewrite (in_heap_range_block _ _ _ _ _ _ _ _ Hmid1 Hp1) by lia. reflexivity. }
  mstep Hcpy. set (m2 := copy (mem s1) r p (Z.to_nat k)).
  assert (Hinv2 : heap_inv (set_mem s1 m2) bl1).
  { apply inv_payload; [exact Hinv1|]. intros x Hout. unfold m2. rewrite loadb_copy.
    destruct (decide _) as [Hin|]; [|reflexivity].
    destruct (Hout _ _ Hr); lia. }
  assert (Hne : r <> p).
  { intros ->. exact (Hfresh _ Hp). }
  destruct (list_elem_of_split _ _ Hp1) as (l1 & l2 & ->).
  destruct (free_spec _ _ _ _ _ Hinv2) as (m3 & bl3 & Hfree & Hinv3 & Hpres3 & Halloc3).
  mstep Hfree. rewrite set_mem_twice in Hinv3 |- *. cbn [mem set_mem] in Hpres3.
  assert (Hr' : (r, z, true) ∈ l1 ++ l2).
  { clear - Hr Hne. list_mem. }
  eexists r, _, bl3. split; [reflexivity|]. split; [exact Hinv3|].
  intros _. exists z. split; [apply Halloc3, Hr'|]. split; [exact Hz|].
  intros i Hi. cbn [mem set_mem].
  rewrite (Hpres3 r z) by (auto; lia).
  unfold m2. rewrite loadb_copy. destruct (decide _) as [_|Hno]; [|lia].
  replace (p + (r + i - r)) with (p + i) by lia.
  apply (Hpres1 p zp); [exact Hp|lia].
Qed.

(** The allocated bit of the block after [bp], or of the epilogue. *)
Lemma rd_next_alloc s l1 bp sz a l2 L :
  heap_mid s (l1 ++ (bp, sz, a) :: l2) L ->
  exists na,
    GET_ALLOC (HDRP (bp + sz)) s = Done (bit na, s) /\
    (na = true -> l2 = [] \/ exists nb nsz l2', l2 = (nb, nsz, true) :: l2') /\
    (na = false -> exists nsz l2', l2 = (bp + sz, nsz, false) :: l2').
Proof.
  intros Hmid. set (P := (heap_listp s, 16, true)).
  pose proof (hm_tiles _ _ _ Hmid) as Ht. fold P in Ht.
  destruct l2 as [|[[nb nsz] na] l2'].
  - exists true. split; [|split; [auto|discriminate]].
    assert (E : bp + sz = mem_brk s).
    { change (P :: l1 ++ [(bp, sz, a)]) with ((P :: l1) ++ [(bp, sz, a)]) in Ht.
      apply tiles_end in Ht. exact Ht. }
    rewrite E. eapply rd_epilogue; eauto.
  - assert (E : nb = bp + sz).
    { change (P :: l1 ++ (bp, sz, a) :: (nb, nsz, na) :: l2')
        with ((P :: l1) ++ (bp, sz, a) :: (nb, nsz, na) :: l2') in Ht.
      apply tiles_adjacent in Ht. exact Ht. }
    subst nb. exists na. split; [|split].
    + eapply rd_alloc; [exact Hmid|]. list_mem.
    + intros ->. right. eauto.
    + intros ->. eauto.
Qed.

(** [realloc] re-establishes the invariant; the block it returns holds
    the bytes of the old payload, as many as the new size allows. *)
Lemma realloc_spec s bl p n :
  heap_inv s bl -> (p = NULL \/ exists zp, (p, zp, true) ∈ bl) ->
  0 <= n <= max_request ->
  exists r s' bl',
    realloc p n s = Done (r, s') /\ heap_inv s' bl' /\
    (forall zp, (p, zp, true) ∈ bl -> 0 < n -> r <> NULL ->
     exists z', (r, z', true) ∈ bl' /\ n + 16 <= z' /\
       forall i, 0 <= i < Z.min (zp - 16) n ->
                 loadb (mem s') (r + i) = loadb (mem s) (p + i)).
Proof.
  intros Hinv Hp Hn. pose proof Hinv as [Hmid Hadj]. unfold realloc.
  destruct (Z.eqb_spec n 0) as [->|Hn0].
  { (* size 0: free *)
    destruct Hp as [->|(zp & Hp)].
    - exists 0, s, bl. split; [reflexivity|]. split; [exact Hinv|]. intros; lia.
    - destruct (list_elem_of_split _ _ Hp) as (l1 & l2 & ->).
      destruct (free_spec _ _ _ _ _ Hinv) as (m3 & bl3 & Hfree & Hinv3 & _).
      mstep Hfree. eexists 0, _, bl3. split; [reflexivity|]. split; [exact Hinv3|].
      intros; lia. }
  destruct Hp as [->|(zp & Hp)].
  { (* no old block: malloc *)
    rewrite Z.eqb_refl.
    destruct (malloc_spec s bl n Hinv Hn) as (r & s1 & bl1 & Hrun & Hinv1 & _).
    exists r, s1, bl1. split; [exact Hrun|]. split; [exact Hinv1|].
    intros zp Hin. exfalso. exact (mid_nonnull _ _ _ _ _ _ Hmid Hin eq_refl). }
  rewrite (eqb_NULL_false _ (mid_nonnull _ _ _ _ _ _ Hmid Hp)).
  assert (Hsame : forall z', (p, z', true) ∈ bl -> z' = zp).
  { intros z' Hin. destruct (mid_apart _ _ _ _ _ _ _ _ _ Hmid Hp Hin) as [[=]|E]; [auto|].
    pose proof (hm_min _ _ _ Hmid _ _ _ Hp). pose proof (hm_min _ _ _ Hmid _ _ _ Hin). lia. }
  destruct (adjust_spec n ltac:(lia)) as (Ha & Ha8 & Han).
  cbv zeta. set (asize := adjust n) in *.
  set (P := (heap_listp s, 16, true)).
  assert (Hbin : (p, zp, true) ∈ P :: bl) by (apply list_elem_of_further, Hp).
  destruct (mid_full_block _ _ _ _ _ _ Hmid Hbin)
    as (Hb1 & Hb2 & Hb3 & Hb4 & Hb5 & Hb6 & Hb7 & Hb8 & Hb9).
  pose proof (hm_min _ _ _ Hmid _ _ _ Hp) as Hzp.
  pose proof (hm_hl _ _ _ Hmid) as Hhl. pose proof (hm_lo _ _ _ Hmid) as Hlo.
  mstep (rd_size _ _ _ _ _ _ Hmid Hbin).
  assert (Hkeep : n + 16 <= zp ->
            exists r s' bl',
              Done (p, s) = Done (r, s') /\ heap_inv s' bl' /\
              (forall zp0, (p, zp0, true) ∈ bl -> 0 < n -> r <> NULL ->
               exists z', (r, z', true) ∈ bl' /\ n + 16 <= z' /\
                 forall i, 0 <= i < Z.min (zp0 - 16) n ->
                           loadb (mem s') (r + i) = loadb (mem s) (p + i))).
  { intros Hfit. exists p, s, bl. split; [reflexivity|]. split; [exact Hinv|].
    intros zp0 Hin _ _. exists zp. auto. }
  destruct (Z.eqb_spec asize zp) as [Heq|Hneq]; [apply Hkeep; lia|].
  destruct (list_elem_of_split _ _ Hp) as (l1 & l2 & Ebl). subst bl.
  set (bl := l1 ++ (p, zp, true) :: l2) in *.
  destruct (adj_ok_sides l1 (p, zp, true) l2 Hadj) as [Hadj1 Hadj2].
  pose proof (hm_tiles _ _ _ Hmid) as Ht. fold P in Ht.
  change (P :: bl) with ((P :: l1) ++ [(p, zp, true)] ++ l2) in Ht.
  apply tiles_app in Ht as (q & Hta & Htb).
  apply tiles_app in Htb as (q' & Htm & Htc).
  destruct Htm as (Eq & _ & _ & _ & _ & Eq'). subst q. cbn [tiles] in Eq'. subst q'.
  assert (HL : forall b z, listed bl b z -> b + 32 <= p \/ p + zp <= b).
  { intros b z Hin. unfold listed in Hin.
    destruct (mid_apart _ _ _ _ _ _ _ _ _ Hmid Hin Hp) as [[=]|E].
    pose proof (hm_min _ _ _ Hmid _ _ _ Hin). lia. }
  destruct (Z.ltb_spec asize zp) as [Hlt|Hge].
  { (* a smaller block *)
    rewrite (w64_small (zp - asize)) by lia. change (2 * QSIZE) with 32.
    destruct (Z_lt_ge_dec (zp - asize) 32) as [Hsmall|Hbig];
      [rewrite geb_false by lia; apply Hkeep; lia|].
    rewrite geb_true by lia.
    set (rem := zp - asize) in *. set (rb := p + asize).
    assert (Hva : valid s (p + asize - 16)) by (unfold valid in *; lia).
    assert (Hvr1 : valid s (rb - 8)) by (unfold valid, rb in *; lia).
    assert (Hvr2 : valid s (rb + rem - 16)) by (unfold valid, rb, rem in *; lia).
    assert (Hrem8 : rem mod 8 = 0) by (unfold rem; Z.div_mod_to_equations; lia).
    change (PACK asize 1) with (PACK asize (bit true)).
    rewrite (put_tags_run s p asize true _ Hb7 Hva ltac:(lia) Ha8).
    set (mA := retag (mem s) p asize true).
    mstep (NEXT_BLKP_at s mA p asize true Hb7
             ltac:(apply retag_hdr; [lia|assumption]) ltac:(lia) Ha8).
    fold rb. change (PACK rem 0) with (PACK rem (bit false)).
    rewrite (put_tags s mA rb rem false _ Hvr1 Hvr2 ltac:(lia) Hrem8).
    set (mB := retag mA rb rem false).
    assert (Hun : unchanged_except (mem s) mB
                    ([p - 8; p + asize - 16] ++ [rb - 8; rb + rem - 16])).
    { eapply (unchanged_trans _ mA); apply unchanged_retag. }
    cbn [app] in Hun.
    assert (Hmid2 : heap_mid (set_mem s mB)
                      (l1 ++ [(p, asize, true); (rb, rem, false)] ++ l2) (listed bl)).
    { eapply (mid_retile s l1 [(p, zp, true)] _ l2 _ mB _ p (p + zp));
        [exact Hmid|exact Hta|exact Htc|exact Hun| | | |].
      - intros w Hw. unfold rb, rem in Hw. mem_cases Hw; lia.
      - intros w b z Hw Hin. unfold rb, rem in Hw.
        destruct (HL _ _ Hin); mem_cases Hw; lia.
      - cbn [tiles]. unfold mB.
        rewrite !(retag_other mA rb rem false) by (unfold rb; lia).
        unfold mA. rewrite retag_hdr, retag_ftr by (first [lia|assumption]).
        rewrite retag_hdr, retag_ftr by (first [lia|assumption]).
        repeat (split; [first [reflexivity|assumption|lia]|]). unfold rb, rem. lia.
      - intros b z a Hin.
        repeat (apply elem_of_cons in Hin as [[= -> -> ->]|Hin]); try lia.
        by apply elem_of_nil in Hin. }
    cbn [app] in Hmid2.
    destruct (coalesce_spec (set_mem s mB) (l1 ++ [(p, asize, true)]) rb rem l2)
      as (m4 & bl' & bp' & sz' & Hco & Hinv4 & Hpres4 & _ & _ & _ & Halloc).
    { split.
      - rewrite <- !app_assoc. cbn [app].
        eapply heap_mid_ext; [|exact Hmid2]. intros b z.
        unfold bl. rewrite !listed_app_alloc. reflexivity.
      - rewrite <- app_assoc. apply adj_ok_alloc; [exact Hadj1| |reflexivity].
        apply adj_ok_cons_alloc; [exact Hadj2|reflexivity]. }
    mstep Hco. rewrite set_mem_twice in Hinv4 |- *. cbn [mem set_mem] in Hpres4.
    eexists p, _, bl'. split; [reflexivity|]. split; [exact Hinv4|].
    intros zp0 Hin _ _. rewrite (Hsame _ Hin). exists asize.
    split; [apply Halloc; clear; list_mem|]. split; [exact Han|].
    intros i Hi. cbn [mem set_mem].
    rewrite (Hpres4 p asize) by (first [clear; list_mem|lia]).
    apply Hun. intros w Hw. unfold rb, rem in Hw. mem_cases Hw; lia. }
  (* a larger block *)
  mstep (rd_next _ _ _ _ _ _ Hmid Hbin).
  rewrite (eqb_NULL_false (p + zp)) by (unfold NULL; lia). cbn [negb andb].
  destruct (rd_next_alloc s l1 p zp true l2 _ Hmid) as (na & Hna & Hnt & Hnf).
  mstep Hna.
  destruct (realloc_move s bl p zp n Hinv Hp ltac:(lia))
    as (r & s' & bl' & Hmove & Hinv' & Hbytes).
  assert (Hmoved : exists r s' bl',
            (newptr ← malloc n;
             if newptr =? 0 then mret 0
             else _ ← memcpy newptr p (if n <? zp then n else zp);
                  _ ← free p; mret newptr) s = Done (r, s') /\
            heap_inv s' bl' /\
            (forall zp0, (p, zp0, true) ∈ bl -> 0 < n -> r <> NULL ->
             exists z', (r, z', true) ∈ bl' /\ n + 16 <= z' /\
               forall i, 0 <= i < Z.min (zp0 - 16) n ->
                         loadb (mem s') (r + i) = loadb (mem s) (p + i))).
  { exists r, s', bl'. split; [exact Hmove|]. split; [exact Hinv'|].
    intros zp0 Hin _ Hr. rewrite (Hsame _ Hin). auto. }
  clear r s' bl' Hmove Hinv' Hbytes.
  destruct na.
  { change (bit true =? 0) with false. cbv iota.
    mstep (ret_run false s). exact Hmoved. }
  change (bit false =? 0) with true. cbv iota.
  destruct (Hnf eq_refl) as (nsz & l2' & ->).
  set (nb := p + zp) in *.
  assert (Hnin : (nb, nsz, false) ∈ bl) by (unfold bl; clear; list_mem).
  destruct (mid_links_valid _ _ _ _ _ _ Hmid Hnin) as [Hv1 Hv2].
  destruct (mid_block _ _ _ _ _ _ Hmid Hnin) as (Hn1 & Hn2 & Hn3 & Hn4).
  pose proof (mid_brk _ _ _ Hmid) as Hbrk.
  destruct (Z.leb_spec asize (zp + nsz)) as [Hfit|Hnofit].
  2:{ match goal with
      | |- context [(?inner ≫= ?k) s] =>
          assert (Hin : inner s = Done (false, s))
      end.
      { unfold NEXT_FREEBLKP, PREV_FREEBLKP, NEXT_PTR, PREV_PTR, DSIZE, GET_ADDRESS.
        mstep (GET_run _ _ Hv1). mstep (GET_run _ _ Hv2).
        mstep (rd_size _ _ _ nb nsz false Hmid ltac:(apply list_elem_of_further, Hnin)).
        rewrite (w64_small (zp + nsz)) by lia.
        rewrite (proj2 (Z.leb_gt _ _)) by lia. reflexivity. }
      mstep Hin. exact Hmoved. }
  (* the next block is free and large enough *)
  clear Hmoved. set (zt := zp + nsz).
  assert (Hzt8 : zt mod 8 = 0) by (unfold zt; Z.div_mod_to_equations; lia).
  assert (Hvf : valid s (p + zt - 16)) by (unfold valid, zt, nb in *; lia).
  set (mA := retag (mem s) p zt true).
  assert (Hmid2 : heap_mid (set_mem s mA) (l1 ++ [(p, zt, true)] ++ l2') (listed bl)).
  { eapply (mid_retile s l1 [(p, zp, true); (nb, nsz, false)] _ l2' _ mA _ p (p + zt));
      [exact Hmid|exact Hta| |apply unchanged_retag
      | | | |].
    - destruct Htc as (_ & _ & _ & _ & _ & Htc).
      replace (p + zt) with (nb + nsz) by (unfold zt, nb; lia). exact Htc.
    - intros w Hw. mem_cases Hw; unfold zt; lia.
    - intros w b z Hw Hin. destruct (Z.eq_dec b nb) as [->|Hne].
      + unfold zt, nb in *. mem_cases Hw; lia.
      + unfold listed in Hin.
        destruct (mid_apart _ _ _ _ _ _ _ _ _ Hmid Hin Hnin) as [[= E _]|E];
          [contradiction|].
        pose proof (hm_min _ _ _ Hmid _ _ _ Hin).
        destruct (HL _ _ Hin); unfold zt, nb in *; mem_cases Hw; lia.
    - apply tiles_retag; [unfold zt; lia|assumption].
    - intros b z a Hin. apply list_elem_of_singleton in Hin as [= -> -> ->].
      unfold zt. lia. }
  cbn [app] in Hmid2.
  destruct (mid_splice (set_mem s mA) _ _ nb nsz Hmid2) as (m3 & Hsp & Hmid3 & Hpres3).
  { exact Hnin. }
  { intros b' z' Hin Hne. exists z'. unfold listed, bl in Hin.
    clear - Hin Hne. list_mem. }
  cbn [mem set_mem] in Hsp, Hpres3. rewrite set_mem_twice in Hsp, Hmid3.
  unfold mA in Hsp at 1 2. rewrite !retag_other in Hsp by (unfold zt, nb in *; lia).
  match goal with
  | |- context [(?inner ≫= ?k) s] =>
      assert (Hin : inner s = Done (true, set_mem s m3))
  end.
  { unfold NEXT_FREEBLKP, PREV_FREEBLKP, NEXT_PTR, PREV_PTR, DSIZE, GET_ADDRESS.
    mstep (GET_run _ _ Hv1). mstep (GET_run _ _ Hv2).
    mstep (rd_size _ _ _ nb nsz false Hmid ltac:(apply list_elem_of_further, Hnin)).
    rewrite (w64_small (zp + nsz)) by lia. fold zt.
    rewrite (proj2 (Z.leb_le _ _)) by (unfold zt; lia).
    change (PACK zt 1) with (PACK zt (bit true)).
    rewrite (put_tags_run s p zt true _ Hb7 Hvf ltac:(unfold zt; lia) Hzt8).
    fold mA. mstep Hsp. reflexivity. }
  mstep Hin.
  eexists p, _, (l1 ++ (p, zt, true) :: l2'). split; [reflexivity|]. split.
  { split.
    - eapply heap_mid_ext; [|exact Hmid3]. intros b z. cbv beta.
      unfold bl. rewrite !listed_app_alloc. apply listed_remove.
      intros z'' Hin'.
      eapply (mid_not_listed s (l1 ++ [(p, zp, true)]) nb nsz false l2' _ z'' false).
      + rewrite <- app_assoc. exact Hmid.
      + clear - Hin'. list_mem.
    - destruct Hadj2 as [_ Hadj2].
      apply adj_ok_alloc; [exact Hadj1|exact Hadj2|reflexivity]. }
  intros zp0 Hin0 _ _. rewrite (Hsame _ Hin0). exists zt.
  split; [clear; list_mem|]. split; [unfold zt; lia|].
  intros i Hi. cbn [mem set_mem].
  rewrite (Hpres3 p zt) by (first [clear; list_mem|unfold zt; lia]).
  apply (unchanged_retag (mem s) p zt true). intros w Hw. unfold zt in Hw.
  mem_cases Hw; lia.
Qed.

Lemma tiles_length m l : forall p e, tiles m p l e -> 16 * Z.of_nat (length l) <= e - p.
Proof.
  induction l as [|[[bp sz] a] l IH]; intros p e Ht.
  - cbn in *. lia.
  - destruct Ht as (-> & Hsz & _ & _ & _ & Hrest). specialize (IH _ _ Hrest).
    cbn [length]. lia.
Qed.

(** The walk of the checker finds the blocks of the invariant. *)
Lemma walk_tiles s l : forall p fuel,
  tiles (mem s) p l (mem_brk s) ->
  load8 (mem s) (mem_brk s - 8) = tag 0 true ->
  mem_start_brk s + 8 <= p -> mem_brk s < 2 ^ 64 -> 0 <= p ->
  (length l <= fuel)%nat ->
  walk_blocks fuel s p = l.
Proof.
  induction l as [|[[bp sz] a] l IH]; intros p fuel Ht Hepi Hp Hbrk Hp0 Hf.
  - cbn [tiles] in Ht. subst p. destruct fuel as [|fuel]; [reflexivity|].
    cbn [walk_blocks]. unfold HDRP, DSIZE.
    rewrite in_heap_range_true by lia. rewrite Hepi. reflexivity.
  - destruct fuel as [|fuel]; [cbn in Hf; lia|].
    pose proof Ht as (Ebp & Hsz & Hsz8 & Hh & _ & Hrest). subst p.
    pose proof (tiles_le _ _ _ _ Hrest) as Hle.
    cbn [walk_blocks]. unfold HDRP, DSIZE.
    rewrite in_heap_range_true by lia. rewrite Hh.
    rewrite tag_size by (first [lia|assumption]).
    rewrite tag_alloc by (first [lia|assumption]).
    rewrite (proj2 (Z.ltb_lt 0 sz)) by lia.
    rewrite (IH (bp + sz) fuel); [|exact Hrest|exact Hepi|lia|exact Hbrk|lia|cbn in Hf; lia].
    destruct a; reflexivity.
Qed.

Lemma blocks_inv s bl L :
  heap_mid s bl L -> blocks s = (heap_listp s, 16, true) :: bl.
Proof.
  intros Hmid. unfold blocks.
  pose proof (hm_tiles _ _ _ Hmid) as Ht.
  pose proof (tiles_length _ _ _ _ Ht) as Hlen.
  pose proof (mid_brk _ _ _ Hmid) as Hbrk.
  pose proof (hm_hl _ _ _ Hmid) as Hhl. pose proof (hm_lo _ _ _ Hmid) as Hlo.
  apply walk_tiles; [exact Ht|exact (hm_epi _ _ _ Hmid)|lia|lia|lia|].
  apply Nat2Z.inj_le. rewrite Z2Nat.id by lia. lia.
Qed.

Lemma tiled_inv s bl L : heap_mid s bl L -> tiled s = bl.
Proof. intros Hmid. unfold tiled. rewrite (blocks_inv _ _ _ Hmid). reflexivity. Qed.

(** What the first claim asks of the blocks of a heap. *)
Lemma inv_blocks s bl :
  heap_inv s bl ->
  (forall b z a, (b, z, a) ∈ tiled s -> header s b = footer s b z /\ 32 <= z) /\
  adj_ok (tiled s).
Proof.
  intros [Hmid Hadj]. rewrite (tiled_inv _ _ _ Hmid). split; [|exact Hadj].
  intros b z a Hin.
  destruct (mid_full_block _ _ _ b z a Hmid ltac:(by apply list_elem_of_further))
    as (_ & _ & _ & _ & Hh & Hf & _).
  unfold header, footer, HDRP, DSIZE, QSIZE. rewrite Hh, Hf.
  split; [reflexivity|]. eapply hm_min; eauto.
Qed.

(** [calloc] returns like [malloc], with the bytes zeroed, or it runs
    [memset] on the [NULL] that [malloc] returned. *)
Lemma calloc_spec s bl k n :
  heap_inv s bl -> w64 (k * n) <= max_request ->
  (exists r s' bl',
     calloc k n s = Done (r, s') /\ heap_inv s' bl' /\
     (r <> NULL -> forall i, 0 <= i < w64 (k * n) -> loadb (mem s') (r + i) = 0)) \/
  (calloc k n s = Fault /\ w64 (k * n) <> 0 /\
   exists s', malloc (w64 (k * n)) s = Done (NULL, s')).
Proof.
  intros Hinv Hmax. unfold calloc. cbv zeta.
  assert (Hb : 0 <= w64 (k * n)) by (apply Z.mod_pos_bound; lia).
  set (bytes := w64 (k * n)) in *.
  destruct (malloc_spec s bl bytes Hinv ltac:(lia))
    as (r & s1 & bl1 & Hrun & Hinv1 & _ & [[-> _]|(z & Hz & Hr & _)]).
  - mstep Hrun. destruct (Z.eq_dec bytes 0) as [E|Hne].
    + left. exists NULL, s1, bl1. split; [|split; [exact Hinv1|intros H; contradiction]].
      unfold memset. rewrite E. reflexivity.
    + right. split; [|split; [exact Hne|eauto]].
      pose proof (hm_lo _ _ _ (proj1 Hinv1)) as Hlo.
      assert (Hms : memset NULL 0 bytes s1 = Fault).
      { unfold memset, in_heap_range, NULL.
        rewrite (proj2 (Z.eqb_neq _ _)) by exact Hne.
        rewrite (proj2 (Z.leb_gt _ _)) by lia. reflexivity. }
      unfold mbind, M_bind. rewrite Hms. reflexivity.
  - left. mstep Hrun. pose proof Hinv1 as [Hmid1 _].
    destruct (Z.eq_dec bytes 0) as [E|Hne].
    + exists r, s1, bl1. split; [|split; [exact Hinv1|intros _ i Hi; lia]].
      unfold memset. rewrite E. reflexivity.
    + assert (Hms : memset r 0 bytes s1
                    = Done (r, set_mem s1 (fill (mem s1) r 0 (Z.to_nat bytes)))).
      { unfold memset. rewrite (proj2 (Z.eqb_neq _ _)) by exact Hne.
        rewrite (in_heap_range_block _ _ _ _ _ _ _ _ Hmid1 Hr) by lia. reflexivity. }
      mstep Hms.
      eexists r, _, bl1. split; [reflexivity|]. split.
      * apply inv_payload; [exact Hinv1|]. intros x Hout. rewrite loadb_fill.
        destruct (decide _) as [Hin|]; [|reflexivity].
        destruct (Hout _ _ Hr); lia.
      * intros _ i Hi. cbn [mem set_mem]. rewrite loadb_fill.
        destruct (decide _) as [_|Hno]; [reflexivity|lia].
Qed.

(** Every operation of a client that keeps to [op_ok] re-establishes
    the invariant, unless it is a [calloc] that faults. *)
Lemma client_op_inv s bl o :
  heap_inv s bl -> op_ok s o ->
  (exists s' bl', run_op o s = Done (tt, s') /\ heap_inv s' bl') \/
  (exists k n, o = Calloc k n /\ run_op o s = Fault).
Proof.
  intros Hinv Hok. pose proof Hinv as [Hmid Hadj].
  pose proof (tiled_inv _ _ _ Hmid) as Etl.
  destruct o as [n|p|p n|k n|p v]; cbn [op_ok run_op] in *.
  - left. destruct (malloc_spec s bl n Hinv Hok) as (r & s' & bl' & Hrun & Hinv' & _).
    mstep Hrun. eauto.
  - left. destruct Hok as [->|(z & Hz)].
    + exists s, bl. split; [reflexivity|exact Hinv].
    + rewrite Etl in Hz. destruct (list_elem_of_split _ _ Hz) as (l1 & l2 & ->).
      destruct (free_spec _ _ _ _ _ Hinv) as (m' & bl' & Hrun & Hinv' & _). eauto.
  - left. destruct Hok as [Hp Hn].
    destruct (realloc_spec s bl p n Hinv) as (r & s' & bl' & Hrun & Hinv' & _).
    + destruct Hp as [->|(z & Hz)]; [by left|right]. rewrite Etl in Hz. eauto.
    + exact Hn.
    + mstep Hrun. eauto.
  - destruct Hok as (_ & _ & Hmax).
    destruct (calloc_spec s bl k n Hinv Hmax)
      as [(r & s' & bl' & Hrun & Hinv' & _)|(Hrun & _)].
    + left. mstep Hrun. eauto.
    + right. exists k, n. split; [reflexivity|].
      unfold mbind, M_bind. rewrite Hrun. reflexivity.
  - left. unfold modify. eexists _, bl. split; [reflexivity|].
    apply inv_payload; [exact Hinv|]. intros x Hout.
    destruct Hok as (b & z & Hin & Hx). rewrite Etl in Hin. unfold QSIZE in Hx.
    apply loadb_storeb_other. intros ->. destruct (Hout _ _ Hin); lia.
Qed.

(** A run of a client that keeps to [op_ok]: it ends, with the invariant,
    or it stops at a [calloc] that faults. *)
Lemma run_ops_inv ops : forall s bl,
  heap_inv s bl -> trace_ok s ops ->
  (exists s' bl', run_ops ops s = Done (tt, s') /\ heap_inv s' bl') \/
  (run_ops ops s = Fault /\ forallb no_calloc ops = false).
Proof.
  induction ops as [|o ops IH]; intros s bl Hinv Hok.
  - left. exists s, bl. split; [reflexivity|exact Hinv].
  - destruct Hok as [Hok Hrest]. cbn [run_ops forallb].
    destruct (client_op_inv s bl o Hinv Hok) as [(s1 & bl1 & Hrun & Hinv1)|(k & n & -> & Hrun)].
    + rewrite Hrun in Hrest. mstep Hrun.
      destruct (IH s1 bl1 Hinv1 Hrest) as [H|[H1 H2]]; [by left|right].
      split; [exact H1|]. rewrite H2. apply andb_false_r.
    + right. split; [|reflexivity]. unfold mbind, M_bind. rewrite Hrun. reflexivity.
Qed.

Ltac fresh_heap0 :=
  unfold fresh; cbn [heap0 mem_start_brk mem_brk mem_max_addr]; repeat split; try lia.

Lemma reach_inv s0 s1 ops s :
  fresh s0 -> mm_init s0 = Done (0, s1) -> trace_ok s1 ops ->
  run_ops ops s1 = Done (tt, s) -> exists bl, heap_inv s bl.
Proof.
  intros Hfresh Hinit Hok Hrun.
  destruct (mm_init_spec s0 Hfresh) as (r & s' & Hinit' & _ & Hinv).
  rewrite Hinit in Hinit'. injection Hinit' as <- <-.
  destruct (Hinv eq_refl) as (bl1 & Hinv1).
  destruct (run_ops_inv ops s1 bl1 Hinv1 Hok) as [(s2 & bl2 & Hrun2 & Hinv2)|[Hf _]].
  - rewrite Hrun in Hrun2. injection Hrun2 as <-. eauto.
  - rewrite Hrun in Hf. discriminate.
Qed.

Lemma bytes_at_ext s s' p r k :
  (forall i, 0 <= i < k -> loadb (mem s') (r + i) = loadb (mem s) (p + i)) ->
  bytes_at s' r k = bytes_at s p k.
Proof.
  intros H. unfold bytes_at. apply list_eq. intros i.
  rewrite !list_lookup_fmap.
  destruct (decide (Z.of_nat i < k)) as [Hi|Hi].
  - rewrite !lookup_seqZ_lt by lia. cbn. f_equal. apply H. lia.
  - rewrite !lookup_seqZ_ge by lia. reflexivity.
Qed.

(** C1, for requests whose size adjustment does not wrap: after
    [mm_init] has returned 0, every sequence of [malloc], [free],
    [realloc] and [calloc] calls of a client, with sizes of at most
    [2^64 - 24] bytes, runs to its end unless a [calloc] faults; when it
    has, every block of the tiled region has a footer equal to its
    header and at least 32 bytes, and no two adjacent blocks are free. *)
Theorem heap_blocks_invariant s0 s1 ops :
  fresh s0 -> mm_init s0 = Done (0, s1) -> trace_ok s1 ops ->
  (forallb no_calloc ops = true -> exists s2, run_ops ops s1 = Done (tt, s2)) /\
  (forall s2, run_ops ops s1 = Done (tt, s2) ->
     (forall b z a, (b, z, a) ∈ tiled s2 -> header s2 b = footer s2 b z /\ 32 <= z) /\
     adj_ok (tiled s2)).
Proof.
  intros Hfresh Hinit Hok. split.
  - intros Hnc.
    destruct (mm_init_spec s0 Hfresh) as (r & s' & Hinit' & _ & Hinv).
    rewrite Hinit in Hinit'. injection Hinit' as <- <-.
    destruct (Hinv eq_refl) as (bl1 & Hinv1).
    destruct (run_ops_inv ops s1 bl1 Hinv1 Hok) as [(s2 & bl2 & Hrun2 & _)|[_ Hc]].
    + eauto.
    + rewrite Hnc in Hc. discriminate.
  - intros s2 Hrun. destruct (reach_inv _ _ _ _ Hfresh Hinit Hok Hrun) as (bl & Hinv).
    apply (inv_blocks _ _ Hinv).
Qed.

Lemma heap_blocks_invariant_witness :
  fresh (heap0 (2 ^ 20)) /\
  mm_init (heap0 (2 ^ 20)) = Done (0, final (mm_init (heap0 (2 ^ 20)))) /\
  trace_ok (final (mm_init (heap0 (2 ^ 20)))) [Malloc 24; Free 4168] /\
  ((forallb no_calloc [Malloc 24; Free 4168] = true ->
    exists s2, run_ops [Malloc 24; Free 4168] (final (mm_init (heap0 (2 ^ 20))))
               = Done (tt, s2)) /\
   (forall s2, run_ops [Malloc 24; Free 4168] (final (mm_init (heap0 (2 ^ 20))))
               = Done (tt, s2) ->
      (forall b z a, (b, z, a) ∈ tiled s2 -> header s2 b = footer s2 b z /\ 32 <= z) /\
      adj_ok (tiled s2))).
Proof.
  assert (H1 : fresh (heap0 (2 ^ 20))) by fresh_heap0.
  assert (H2 : mm_init (heap0 (2 ^ 20)) = Done (0, final (mm_init (heap0 (2 ^ 20)))))
    by (vm_compute; reflexivity).
  assert (H3 : trace_ok (final (mm_init (heap0 (2 ^ 20)))) [Malloc 24; Free 4168]).
  { split; [unfold op_ok, max_request; lia|].
    replace (run_op (Malloc 24) (final (mm_init (heap0 (2 ^ 20)))))
      with (Done (tt, final (run_op (Malloc 24) (final (mm_init (heap0 (2 ^ 20)))))))
      by (vm_compute; reflexivity).
    split; [|destruct (run_op _ _) as [[[] ?]| |]; exact I].
    right. exists 40. vm_compute. apply list_elem_of_here. }
  split; [exact H1|]. split; [exact H2|]. split; [exact H3|].
  exact (heap_blocks_invariant _ _ _ H1 H2 H3).
Defined.

(** C1 as stated fails for a request that the size adjustment wraps:
    [malloc (2^64 - 16)] is served as a request of 0 bytes, and [place]
    writes the footer of a block of size 0 over the footer of the block
    before it. *)
Lemma oversized_request_breaks_blocks :
  exists s1 s2,
    fresh (heap0 (2 ^ 20)) /\
    mm_init (heap0 (2 ^ 20)) = Done (0, s1) /\
    run_ops [Malloc 24; Malloc (2 ^ 64 - 16)] s1 = Done (tt, s2) /\
    exists b z a, (b, z, a) ∈ tiled s2 /\ header s2 b <> footer s2 b z.
Proof.
  exists (final (mm_init (heap0 (2 ^ 20)))),
         (final (run_ops [Malloc 24; Malloc (2 ^ 64 - 16)]
                         (final (mm_init (heap0 (2 ^ 20)))))).
  split; [fresh_heap0|].
  split; [vm_compute; reflexivity|]. split; [vm_compute; reflexivity|].
  exists 4168, 40, true. split; [vm_compute; apply list_elem_of_here|].
  vm_compute. discriminate.
Qed.

(** C4, for requests whose size adjustment does not wrap: in a heap
    that a client has reached, [realloc p n] of an allocated block [p]
    with [0 < n <= 2^64 - 24] returns; when the result is not [NULL] it
    is an allocated block with room for [n] bytes whose first
    [min (old payload) n] bytes are those of [p] before the call. The
    payload of a block is its size less the 16 bytes of header and
    footer. *)
Theorem realloc_keeps_payload s0 s1 ops s p z n :
  fresh s0 -> mm_init s0 = Done (0, s1) -> trace_ok s1 ops ->
  run_ops ops s1 = Done (tt, s) ->
  (p, z, true) ∈ tiled s -> 0 < n <= max_request ->
  exists r s',
    realloc p n s = Done (r, s') /\
    (r <> NULL ->
     (exists z', (r, z', true) ∈ tiled s' /\ n <= z' - QSIZE) /\
     bytes_at s' r (Z.min (z - QSIZE) n) = bytes_at s p (Z.min (z - QSIZE) n)).
Proof.
  intros Hfresh Hinit Hok Hrun Hp Hn.
  destruct (reach_inv _ _ _ _ Hfresh Hinit Hok Hrun) as (bl & Hinv).
  rewrite (tiled_inv _ _ _ (proj1 Hinv)) in Hp.
  destruct (realloc_spec s bl p n Hinv ltac:(eauto) ltac:(lia))
    as (r & s' & bl' & Hre & Hinv' & Hbytes).
  exists r, s'. split; [exact Hre|]. intros Hr.
  destruct (Hbytes z Hp ltac:(lia) Hr) as (z' & Hin & Hz' & Heq).
  rewrite (tiled_inv _ _ _ (proj1 Hinv')). unfold QSIZE. split.
  - exists z'. split; [exact Hin|lia].
  - apply bytes_at_ext, Heq.
Qed.

Lemma realloc_keeps_payload_witness :
  fresh (heap0 (2 ^ 20)) /\
  mm_init (heap0 (2 ^ 20)) = Done (0, final (mm_init (heap0 (2 ^ 20)))) /\
  trace_ok (final (mm_init (heap0 (2 ^ 20)))) [Malloc 16; Store 4170 7] /\
  run_ops [Malloc 16; Store 4170 7] (final (mm_init (heap0 (2 ^ 20))))
  = Done (tt, final (run_ops [Malloc 16; Store 4170 7]
                             (final (mm_init (heap0 (2 ^ 20)))))) /\
  (4168, 32, true) ∈ tiled (final (run_ops [Malloc 16; Store 4170 7]
                                           (final (mm_init (heap0 (2 ^ 20)))))) /\
  0 < 100 <= max_request /\
  exists r s',
    realloc 4168 100 (final (run_ops [Malloc 16; Store 4170 7]
                                     (final (mm_init (heap0 (2 ^ 20))))))
    = Done (r, s') /\
    (r <> NULL ->
     (exists z', (r, z', true) ∈ tiled s' /\ 100 <= z' - QSIZE) /\
     bytes_at s' r (Z.min (32 - QSIZE) 100)
     = bytes_at (final (run_ops [Malloc 16; Store 4170 7]
                                (final (mm_init (heap0 (2 ^ 20))))))
                4168 (Z.min (32 - QSIZE) 100)).
Proof.
  assert (H1 : fresh (heap0 (2 ^ 20))) by fresh_heap0.
  assert (H2 : mm_init (heap0 (2 ^ 20)) = Done (0, final (mm_init (heap0 (2 ^ 20)))))
    by (vm_compute; reflexivity).
  assert (H3 : trace_ok (final (mm_init (heap0 (2 ^ 20)))) [Malloc 16; Store 4170 7]).
  { split; [unfold op_ok, max_request; lia|].
    replace (run_op (Malloc 16) (final (mm_init (heap0 (2 ^ 20)))))
      with (Done (tt, final (run_op (Malloc 16) (final (mm_init (heap0 (2 ^ 20)))))))
      by (vm_compute; reflexivity).
    split; [|destruct (run_op _ _) as [[[] ?]| |]; exact I].
    exists 4168, 32. split; [vm_compute; apply list_elem_of_here|].
    unfold QSIZE. lia. }
  assert (H4 : run_ops [Malloc 16; Store 4170 7] (final (mm_init (heap0 (2 ^ 20))))
               = Done (tt, final (run_ops [Malloc 16; Store 4170 7]
                                          (final (mm_init (heap0 (2 ^ 20)))))))
    by (vm_compute; reflexivity).
  assert (H5 : (4168, 32, true)
               ∈ tiled (final (run_ops [Malloc 16; Store 4170 7]
                                       (final (mm_init (heap0 (2 ^ 20)))))))
    by (vm_compute; apply list_elem_of_here).
  assert (H6 : 0 < 100 <= max_request) by (unfold max_request; lia).
  split; [exact H1|]. split; [exact H2|]. split; [exact H3|]. split; [exact H4|].
  split; [exact H5|]. split; [exact H6|].
  exact (realloc_keeps_payload _ _ _ _ _ _ _ H1 H2 H3 H4 H5 H6).
Defined.

(** C4 as stated fails for a size that the adjustment wraps:
    [realloc p (2^64 - 16)] takes the path that shrinks the block to 0
    bytes, frees what is left of it, which is all of it, and returns
    [p], whose payload now holds the links of a free block. *)
Lemma oversized_realloc_loses_payload :
  exists s1 s r s',
    fresh (heap0 (2 ^ 20)) /\
    mm_init (heap0 (2 ^ 20)) = Done (0, s1) /\
    run_ops [Malloc 16; Store 4176 72; Store 4177 16] s1 = Done (tt, s) /\
    (4168, 32, true) ∈ tiled s /\
    realloc 4168 (2 ^ 64 - 16) s = Done (r, s') /\ r <> NULL /\
    bytes_at s' r (Z.min (32 - QSIZE) (2 ^ 64 - 16))
    <> bytes_at s 4168 (Z.min (32 - QSIZE) (2 ^ 64 - 16)).
Proof.
  exists (final (mm_init (heap0 (2 ^ 20)))),
         (final (run_ops [Malloc 16; Store 4176 72; Store 4177 16]
                         (final (mm_init (heap0 (2 ^ 20)))))),
         4168,
         (final (realloc 4168 (2 ^ 64 - 16)
                   (final (run_ops [Malloc 16; Store 4176 72; Store 4177 16]
                                   (final (mm_init (heap0 (2 ^ 20)))))))).
  split; [fresh_heap0|].
  split; [vm_compute; reflexivity|]. split; [vm_compute; reflexivity|].
  split; [vm_compute; apply list_elem_of_here|].
  split; [vm_compute; reflexivity|].
  split; vm_compute; discriminate.
Qed.



(** C6 as stated fails in its bound of 50 nodes: [find_fit] counts the
    blocks that fit, not the blocks it visits. With 52 free blocks of 32
    bytes in the first class, the search that [malloc 100] starts, for
    120 bytes, of the same class, visits all of them. *)
Lemma find_fit_visits_more_than_fifty :
  fresh (heap0 (2 ^ 20)) /\ adjust 100 = 120 /\
  visits 120 fragmented (heap0 (2 ^ 20)) = Some 52%nat.
Proof.
  split; [fresh_heap0|]. split; [reflexivity|]. vm_compute. reflexivity.
Qed.

(** C9 fails when [malloc] fails: [calloc] passes the [NULL] it got from
    [malloc] to [memset], which writes through it. *)
Theorem calloc_null_dereference s s' k n :
  malloc (w64 (k * n)) s = Done (NULL, s') -> w64 (k * n) <> 0 ->
  0 < mem_start_brk s' ->
  calloc k n s = Fault.
Proof.
  intros Hm Hne Hlo. unfold calloc. cbv zeta. mstep Hm.
  assert (Hms : memset NULL 0 (w64 (k * n)) s' = Fault).
  { unfold memset, in_heap_range, NULL.
    rewrite (proj2 (Z.eqb_neq _ _)) by exact Hne.
    rewrite (proj2 (Z.leb_gt _ _)) by lia. reflexivity. }
  unfold mbind, M_bind. rewrite Hms. reflexivity.
Qed.

Lemma calloc_null_dereference_witness :
  malloc (w64 (1 * 1000)) (final (mm_init (heap0 336)))
  = Done (NULL, final (mm_init (heap0 336))) /\
  w64 (1 * 1000) <> 0 /\
  0 < mem_start_brk (final (mm_init (heap0 336))) /\
  calloc 1 1000 (final (mm_init (heap0 336))) = Fault.
Proof.
  assert (H1 : malloc (w64 (1 * 1000)) (final (mm_init (heap0 336)))
               = Done (NULL, final (mm_init (heap0 336)))) by (vm_compute; reflexivity).
  assert (H2 : w64 (1 * 1000) <> 0) by (vm_compute; discriminate).
  assert (H3 : 0 < mem_start_brk (final (mm_init (heap0 336)))) by (vm_compute; reflexivity).
  split; [exact H1|]. split; [exact H2|]. split; [exact H3|].
  exact (calloc_null_dereference _ _ 1 1000 H1 H2 H3).
Defined.

Lemma reachable_inv s : reachable s -> exists bl, heap_inv s bl.
Proof. intros (s0 & s1 & ops & H1 & H2 & H3 & H4). eapply reach_inv; eauto. Qed.

Lemma tiles_aligned m l : forall p e b z a,
  tiles m p l e -> p mod 8 = 0 -> (b, z, a) ∈ l -> b mod 8 = 0.
Proof.
  induction l as [|[[bp sz] a'] l IH]; intros p e b z a Ht Hp Hin.
  - by apply elem_of_nil in Hin.
  - destruct Ht as (-> & _ & Hsz8 & _ & _ & Hrest).
    apply elem_of_cons in Hin as [[= -> -> ->]|Hin]; [exact Hp|].
    eapply IH; [exact Hrest| |exact Hin]. Z.div_mod_to_equations. lia.
Qed.

Lemma mid_aligned s bl L b z a : heap_mid s bl L -> (b, z, a) ∈ bl -> b mod 8 = 0.
Proof.
  intros Hmid Hin. pose proof (hm_tiles _ _ _ Hmid) as Ht.
  eapply tiles_aligned; [exact Ht| |apply list_elem_of_further, Hin].
  rewrite (hm_hl _ _ _ Hmid). pose proof (hm_al _ _ _ Hmid).
  Z.div_mod_to_equations. lia.
Qed.

(** A tiling without allocated blocks and without two free blocks side
    by side has one block at most. *)
Lemma adj_ok_all_free (l : list (Z * Z * bool)) :
  adj_ok l -> (forall b z, (b, z, true) ∉ l) -> (length l <= 1)%nat.
Proof.
  intros Hadj Hfree. destruct l as [|[[b z] a] [|[[b' z'] a'] l]]; cbn; try lia.
  exfalso. destruct Hadj as [[H|H] _]; cbn in H; subst.
  - apply (Hfree b z). list_mem.
  - apply (Hfree b' z'). list_mem.
Qed.

(** [mm_init] on the empty heap of memlib returns 0 when memlib can give
    the 72 bytes of the class heads, prologue and epilogue and the 264
    bytes of the first chunk, and -1 when it cannot; on success the heap
    is one free block of 264 bytes. *)
Theorem mm_init_outcome s :
  fresh s ->
  (mem_start_brk s + 336 <= mem_max_addr s ->
   exists s', mm_init s = Done (0, s') /\
              tiled s' = [(mem_start_brk s + 72, 264, false)] /\
              mem_brk s' = mem_start_brk s + 336 /\
              heap_listp s' = mem_start_brk s + 56) /\
  (mem_max_addr s < mem_start_brk s + 336 -> exists s', mm_init s = Done (-1, s')).
Proof.
  intros Hfresh. pose proof Hfresh as (Hlo & Hal & Hbrk & Hmax). split.
  - intros Hroom.
    rewrite (mm_init_layout s Hfresh ltac:(lia)).
    pose proof (init_heap_inv s Hfresh ltac:(lia)) as Hinv.
    change (CHUNKSIZE / WSIZE) with 65.
    destruct (extend_heap_spec (init_heap s) [] 65 264 eq_refl ltac:(lia) eq_refl Hinv)
      as [[Hno _]|(_ & m' & bl' & bp' & sz' & Hrun & Hinv' & _ & Hin & Hsz & Halloc)].
    { cbn [init_heap mem_brk mem_max_addr] in Hno. lia. }
    mstep Hrun. destruct Hinv' as [Hmid' Hadj'].
    rewrite (eqb_NULL_false _ (mid_nonnull _ _ _ _ _ _ Hmid' Hin)).
    eexists. split; [reflexivity|].
    rewrite (tiled_inv _ _ _ Hmid').
    cbn [mem_brk heap_listp set_mem set_brk init_heap].
    split; [|split; lia].
    assert (Hlen : (length bl' <= 1)%nat).
    { apply adj_ok_all_free; [exact Hadj'|]. intros b z Hb. apply Halloc in Hb.
      by apply elem_of_nil in Hb. }
    destruct bl' as [|x [|y bl']]; [by apply elem_of_nil in Hin| |cbn in Hlen; lia].
    apply list_elem_of_singleton in Hin. subst x.
    pose proof (hm_tiles _ _ _ Hmid') as Ht.
    cbn [tiles mem mem_brk heap_listp set_mem set_brk init_heap] in Ht.
    destruct Ht as (_ & _ & _ & _ & _ & Eb & _ & _ & _ & _ & Ee).
    f_equal. f_equal. f_equal; lia.
  - intros Hsmall.
    destruct (Z_gt_le_dec (mem_start_brk s + 72) (mem_max_addr s)) as [Hgt|Hle].
    + eexists. unfold mm_init. change (4 * DSIZE + SEGS * DSIZE) with 72.
      mstep (mem_sbrk_fail s 72 ltac:(lia)).
      mstep (modify_run (fun s0 => set_heap_listp s0 (w64 (-1))) s).
      rewrite Z.eqb_refl. reflexivity.
    + rewrite (mm_init_layout s Hfresh Hle).
      pose proof (init_heap_inv s Hfresh Hle) as Hinv.
      change (CHUNKSIZE / WSIZE) with 65.
      destruct (extend_heap_spec (init_heap s) [] 65 264 eq_refl ltac:(lia) eq_refl Hinv)
        as [[_ Hrun]|(Hyes & _)].
      * mstep Hrun. eexists. reflexivity.
      * cbn [init_heap mem_brk mem_max_addr] in Hyes. lia.
Qed.

Lemma run_ops_app ops1 : forall ops2 s s1,
  run_ops ops1 s = Done (tt, s1) -> run_ops (ops1 ++ ops2) s = run_ops ops2 s1.
Proof.
  induction ops1 as [|o ops1 IH]; intros ops2 s s1 H.
  - cbn in H. injection H as <-. reflexivity.
  - cbn [run_ops app] in *. unfold mbind, M_bind in *.
    destruct (run_op o s) as [[[] s2]| |]; try discriminate. apply IH, H.
Qed.

Lemma client_trace_app ops1 : forall ops2 s s1,
  trace_ok s ops1 -> run_ops ops1 s = Done (tt, s1) -> trace_ok s1 ops2 ->
  trace_ok s (ops1 ++ ops2).
Proof.
  induction ops1 as [|o ops1 IH]; intros ops2 s s1 H1 Hrun H2.
  - cbn in Hrun. injection Hrun as <-. exact H2.
  - cbn [trace_ok run_ops app] in *. unfold mbind, M_bind in Hrun.
    destruct H1 as [Hok H1]. split; [exact Hok|].
    destruct (run_op o s) as [[[] s2]| |]; try discriminate. eapply IH; eauto.
Qed.

Lemma reachable_step s o s' :
  reachable s -> op_ok s o -> run_op o s = Done (tt, s') -> reachable s'.
Proof.
  intros (s0 & s1 & ops & H1 & H2 & H3 & H4) Hok Hrun.
  exists s0, s1, (ops ++ [o]). split; [exact H1|]. split; [exact H2|]. split.
  - eapply client_trace_app; [exact H3|exact H4|]. cbn. split; [exact Hok|].
    rewrite Hrun. exact I.
  - rewrite (run_ops_app _ _ _ _ H4). cbn [run_ops]. mstep Hrun. reflexivity.
Qed.

Lemma preserves_bytes bl s s' q zq :
  preserves bl (mem s) (mem s') -> (q, zq, true) ∈ bl ->
  bytes_at s' q (zq - QSIZE) = bytes_at s q (zq - QSIZE).
Proof.
  intros Hpres Hin. apply bytes_at_ext. intros i Hi. unfold QSIZE in Hi.
  apply (Hpres q zq); [exact Hin|lia].
Qed.

(** [malloc] in a heap that a client has reached: it returns; the blocks
    that were allocated stay allocated, with their sizes and the bytes of
    their payloads; it returns [NULL] and allocates nothing, or an
    address that is a multiple of 8, of a block that was not allocated
    and now is, with room for the [n] bytes. *)
Theorem malloc_result s n :
  reachable s -> 0 < n <= max_request ->
  exists r s',
    malloc n s = Done (r, s') /\ reachable s' /\
    (forall q zq, (q, zq, true) ∈ tiled s ->
       (q, zq, true) ∈ tiled s' /\
       bytes_at s' q (zq - QSIZE) = bytes_at s q (zq - QSIZE)) /\
    (r = NULL -> forall q zq, (q, zq, true) ∈ tiled s' -> (q, zq, true) ∈ tiled s) /\
    (r <> NULL ->
     r mod 8 = 0 /\ (forall z, (r, z, true) ∉ tiled s) /\
     exists z, (r, z, true) ∈ tiled s' /\ n <= z - QSIZE /\
       forall q zq, (q, zq, true) ∈ tiled s' ->
                    (q, zq, true) ∈ tiled s \/ (q = r /\ zq = z)).
Proof.
  intros Hreach Hn. destruct (reachable_inv _ Hreach) as (bl & Hinv).
  destruct (malloc_spec s bl n Hinv ltac:(lia))
    as (r & s' & bl' & Hrun & Hinv' & Hpres & Hcases).
  rewrite (tiled_inv _ _ _ (proj1 Hinv)).
  exists r, s'. split; [exact Hrun|]. split.
  { apply (reachable_step s (Malloc n) s' Hreach); [cbn; lia|].
    cbn [run_op]. mstep Hrun. reflexivity. }
  rewrite (tiled_inv _ _ _ (proj1 Hinv')).
  destruct Hcases as [[-> Halloc]|(z & Hz & Hr & Hfresh & Halloc)].
  - split; [|split; [intros _ q zq Hq; apply Halloc, Hq|intros H; contradiction]].
    intros q zq Hq. split; [apply Halloc, Hq|]. eapply preserves_bytes; eauto.
  - split; [|split].
    + intros q zq Hq. split; [apply Halloc; auto|]. eapply preserves_bytes; eauto.
    + intros ->. exfalso. exact (mid_nonnull _ _ _ _ _ _ (proj1 Hinv') Hr eq_refl).
    + intros _. split; [exact (mid_aligned _ _ _ _ _ _ (proj1 Hinv') Hr)|].
      split; [exact Hfresh|]. exists z. split; [exact Hr|]. unfold QSIZE.
      split; [lia|]. intros q zq Hq. apply Halloc, Hq.
Qed.

Lemma live_block_bounds s p z :
  reachable s -> (p, z, true) ∈ tiled s ->
  mem_start_brk s + 72 <= p /\ p + z <= mem_brk s /\ 32 <= z /\ z mod 8 = 0.
Proof.
  intros Hreach Hp. destruct (reachable_inv _ Hreach) as (bl & [Hmid _]).
  rewrite (tiled_inv _ _ _ Hmid) in Hp.
  destruct (mid_block _ _ _ _ _ _ Hmid Hp) as (H1 & H2 & H3 & H4).
  rewrite (hm_hl _ _ _ Hmid) in H1. repeat split; first [lia|assumption].
Qed.

(** The blocks that are allocated in a heap that a client has reached
    lie in the heap, at addresses that are multiples of 8, and no two of
    them overlap. *)
Theorem allocated_blocks_apart s p zp q zq :
  reachable s -> (p, zp, true) ∈ tiled s -> (q, zq, true) ∈ tiled s ->
  (p mod 8 = 0 /\ mem_start_brk s + 72 <= p /\ p + zp <= mem_brk s /\ 32 <= zp) /\
  ((p = q /\ zp = zq) \/ p + zp <= q \/ q + zq <= p).
Proof.
  intros Hreach Hp Hq. destruct (reachable_inv _ Hreach) as (bl & [Hmid _]).
  rewrite (tiled_inv _ _ _ Hmid) in Hp, Hq.
  destruct (mid_block _ _ _ _ _ _ Hmid Hp) as (H1 & H2 & H3 & _).
  rewrite (hm_hl _ _ _ Hmid) in H1. split.
  - split; [exact (mid_aligned _ _ _ _ _ _ Hmid Hp)|]. repeat split; lia.
  - destruct (mid_apart _ _ _ _ _ _ _ _ _ Hmid Hp Hq) as [[= -> ->]|E]; auto.
Qed.

(** [calloc] in a heap that a client has reached, when it returns: the
    result is [NULL], or the first [k * n] bytes at it, the product
    taken as a [size_t], are 0. *)
Theorem calloc_zeroes s k n r s' :
  reachable s -> w64 (k * n) <= max_request ->
  calloc k n s = Done (r, s') ->
  r <> NULL -> bytes_at s' r (w64 (k * n)) = replicate (Z.to_nat (w64 (k * n))) 0.
Proof.
  intros Hreach Hmax Hrun Hr. destruct (reachable_inv _ Hreach) as (bl & Hinv).
  destruct (calloc_spec s bl k n Hinv Hmax)
    as [(r' & s'' & bl' & Hrun' & _ & Hz)|(Hfault & _)].
  - rewrite Hrun in Hrun'. injection Hrun' as <- <-.
    unfold bytes_at. apply list_eq. intros i.
    rewrite list_lookup_fmap.
    destruct (decide (Z.of_nat i < w64 (k * n))) as [Hi|Hi].
    + rewrite lookup_seqZ_lt by lia. cbn. rewrite (Hz Hr) by lia.
      rewrite lookup_replicate_2 by lia. reflexivity.
    + rewrite lookup_seqZ_ge by lia. cbn.
      symmetry. apply lookup_replicate_None. lia.
  - rewrite Hrun in Hfault. discriminate.
Qed.

Lemma bucket_loop_ge fuel : forall num log, log <= bucket_loop fuel num log.
Proof.
  induction fuel as [|fuel IH]; intros num log; cbn [bucket_loop]; [lia|].
  destruct (num =? 0); [lia|]. specialize (IH (num / RATIO) (log + 1)). lia.
Qed.

Lemma bucket_loop_mono fuel1 : forall fuel2 n1 n2 log,
  0 <= n1 <= n2 -> n1 <= Z.of_nat fuel1 -> n2 <= Z.of_nat fuel2 ->
  bucket_loop fuel1 n1 log <= bucket_loop fuel2 n2 log.
Proof.
  induction fuel1 as [|fuel1 IH]; intros fuel2 n1 n2 log Hn H1 H2.
  - cbn [bucket_loop]. apply bucket_loop_ge.
  - cbn [bucket_loop]. destruct (Z.eqb_spec n1 0) as [E|E]; [apply bucket_loop_ge|].
    destruct fuel2 as [|fuel2]; [lia|]. cbn [bucket_loop].
    rewrite (proj2 (Z.eqb_neq n2 0)) by lia.
    unfold RATIO. apply IH.
    + split; [apply Z.div_pos; lia|apply Z.div_le_mono; lia].
    + assert (n1 / 6 < n1) by (apply Z.div_lt; lia). lia.
    + assert (n2 / 6 < n2) by (apply Z.div_lt; lia). lia.
Qed.

(** A larger block is in the same class or in a class above. *)
Lemma bucket_mono a b : 0 <= a <= b -> bucket a <= bucket b.
Proof.
  intros Hab. pose proof (bucket_range a) as [[_ Ha] _].
  unfold bucket, LASTCLASS, QSIZE, SEGS, DSIZE in *.
  assert (Hq : 0 <= a / (2 * 16) <= b / (2 * 16))
    by (split; [apply Z.div_pos; lia|apply Z.div_le_mono; lia]).
  destruct (Z.geb_spec (b / (2 * 16)) 1296) as [Hb|Hb]; [lia|].
  rewrite geb_false by lia.
  apply Z.mul_le_mono_nonneg_r; [lia|].
  unfold RATIO. apply bucket_loop_mono.
  - split; [apply Z.div_pos; lia|apply Z.div_le_mono; lia].
  - rewrite Z2Nat.id; [lia|apply Z.div_pos; lia].
  - rewrite Z2Nat.id; [lia|apply Z.div_pos; lia].
Qed.

Lemma scan_nonnull asize l : forall result smallest count visited,
  (forall b z, (b, z) ∈ l -> b <> NULL) -> result <> NULL ->
  fst (scan asize l result smallest count visited) <> NULL.
Proof.
  induction l as [|[b z] l IH]; intros result smallest count visited Hnn Hr; [exact Hr|].
  assert (Hb : b <> NULL) by (apply (Hnn b z); list_mem).
  assert (Hnn' : forall b' z', (b', z') ∈ l -> b' <> NULL).
  { intros b' z' Hin. apply (Hnn b' z'). list_mem. }
  cbn [scan]. destruct (count <? 10); [|exact Hr].
  destruct (asize <=? z); [|apply IH; assumption].
  destruct ((result =? NULL) || (z <? smallest)); [|apply IH; assumption].
  destruct (z =? asize); [exact Hb|apply IH; assumption].
Qed.

(** The inner loop of [find_fit] ends without a result only when no
    block of the list fits. *)
Lemma scan_null asize l : forall smallest count visited,
  (forall b z, (b, z) ∈ l -> b <> NULL) -> count < 10 ->
  fst (scan asize l NULL smallest count visited) = NULL ->
  forall b z, (b, z) ∈ l -> z < asize.
Proof.
  induction l as [|[b z] l IH]; intros smallest count visited Hnn Hc Hres b' z' Hin.
  - by apply elem_of_nil in Hin.
  - assert (Hb : b <> NULL) by (apply (Hnn b z); list_mem).
    assert (Hnn' : forall b' z', (b', z') ∈ l -> b' <> NULL).
    { intros b0 z0 Hin0. apply (Hnn b0 z0). list_mem. }
    cbn [scan] in Hres. rewrite (proj2 (Z.ltb_lt _ _) Hc) in Hres.
    destruct (Z.leb_spec asize z) as [Hz|Hz].
    + exfalso. rewrite Z.eqb_refl in Hres. cbn [orb] in Hres.
      destruct (z =? asize); [exact (Hb Hres)|].
      exact (scan_nonnull _ _ _ _ _ _ Hnn' Hb Hres).
    + apply elem_of_cons in Hin as [[= -> ->]|Hin]; [exact Hz|].
      eapply IH; eauto.
Qed.

(** The outer loop of [find_fit] ends without a result only when no
    block of the classes it walks fits. *)
Lemma class_loop_null s bl asize :
  heap_mid s bl (listed bl) ->
  forall classes k visited v s',
    0 <= k -> k mod 8 = 0 -> 32 - k < 8 * Z.of_nat classes ->
    class_loop classes (Z.to_nat (mem_brk s - mem_start_brk s)) asize
               (seg_listp s + k) (seg_listp s + 32) visited s
      = Done ((NULL, v), s') ->
    forall b z, (b, z, false) ∈ bl -> k <= bucket z -> z < asize.
Proof.
  intros Hmid. pose proof (hm_lists _ _ _ Hmid) as Hl.
  induction classes as [|c IH]; intros k visited v s' Hk Hk8 Hc Hrun b z Hin Hkz.
  - pose proof (bucket_range z) as [[_ Hb] _]. lia.
  - cbn [class_loop] in Hrun.
    destruct (Z.leb_spec (seg_listp s + k) (seg_listp s + 32)) as [Hle|Hgt].
    2:{ pose proof (bucket_range z) as [[_ Hb] _]. lia. }
    assert (Hco : class_offset k) by (split; lia).
    destruct (lo_class _ _ Hl k Hco) as (l & t & Hseg & Hndl & Hmem).
    destruct (sized_list (fun b z => listed bl b z /\ bucket z = k) l) as (lz & Elz & Hlz).
    { intros b0 Hb0. apply Hmem, Hb0. }
    pose proof (lo_heads _ _ Hl) as Hh.
    assert (Hv : valid s (seg_listp s + k)) by (unfold valid; lia).
    rewrite (bind_run _ _ _ _ _ (GET_ADDRESS_run _ _ Hv)) in Hrun.
    assert (Hnode : forall b z, (b, z) ∈ lz ->
              GET_SIZE (HDRP b) s = Done (z, s) /\ valid s b).
    { intros b0 z0 Hin0. destruct (Hlz _ _ Hin0) as [HL _]. unfold listed in HL. split.
      - eapply rd_size; [exact Hmid|]. apply list_elem_of_further, HL.
      - eapply mid_links_valid; eauto. }
    assert (Hlen : (length lz <= Z.to_nat (mem_brk s - mem_start_brk s))%nat).
    { rewrite <- (length_map fst), Elz. apply length_bounded; [exact Hndl|].
      intros x Hx. apply Hmem in Hx as (zx & HL & _).
      destruct (lo_in _ _ Hl _ _ HL). lia. }
    rewrite <- Elz in Hseg.
    rewrite (bind_run _ _ _ _ _
               (fit_loop_scan asize s lz _ _ _ _ NULL (w64 (-1)) 0 visited
                  Hseg Hnode Hlen)) in Hrun.
    assert (Hnn : forall b z, (b, z) ∈ lz -> b <> NULL).
    { intros b0 z0 Hin0. destruct (Hlz _ _ Hin0) as [HL _].
      destruct (lo_in _ _ Hl _ _ HL). unfold NULL. lia. }
    destruct (scan asize lz NULL (w64 (-1)) 0 visited) as [r1 v1] eqn:Escan.
    cbn [fst snd] in Hrun.
    destruct (Z.eqb_spec r1 NULL) as [Hr1|Hr1]; cbn [negb] in Hrun.
    + subst r1.
      pose proof (bucket_range z) as [_ Hz8].
      destruct (Z.eq_dec (bucket z) k) as [Ek|Ek].
      * assert (Hbl : b ∈ l) by (apply Hmem; exists z; split; [exact Hin|exact Ek]).
        rewrite <- Elz in Hbl. apply list_elem_of_fmap in Hbl as ([b0 z0] & E & Hin0).
        cbn [fst] in E. subst b0.
        destruct (Hlz _ _ Hin0) as [HL0 _].
        rewrite (lo_fun _ _ Hl _ _ _ Hin HL0).
        eapply (scan_null asize lz (w64 (-1)) 0 visited Hnn ltac:(lia));
          [rewrite Escan; reflexivity|exact Hin0].
      * replace (seg_listp s + k + DSIZE) with (seg_listp s + (k + 8)) in Hrun
          by (unfold DSIZE; lia).
        eapply (IH (k + 8)); [lia|Z.div_mod_to_equations; lia|lia|exact Hrun|exact Hin|].
        Z.div_mod_to_equations. lia.
    + exfalso. injection Hrun as E _ _. exact (Hr1 E).
Qed.

(** [find_fit] returns [NULL] only when no free block has [asize] bytes. *)
Lemma find_fit_complete s bl asize s' :
  heap_mid s bl (listed bl) -> 0 <= asize ->
  find_fit asize s = Done (NULL, s') ->
  forall b z, (b, z, false) ∈ bl -> z < asize.
Proof.
  intros Hmid Ha Hrun b z Hin.
  destruct (Z_lt_ge_dec z asize) as [|Hge]; [assumption|exfalso].
  unfold find_fit in Hrun. unfold mbind, M_bind in Hrun.
  destruct (find_fit_trace asize s) as [[[r v] s1]| |] eqn:Ecl; try discriminate.
  cbn [fst] in Hrun. injection Hrun as -> <-.
  unfold find_fit_trace in Ecl.
  rewrite (bind_run _ _ _ _ _ (get_run seg_listp s)) in Ecl.
  rewrite (bind_run _ _ _ _ _ (get_run last_segp s)) in Ecl.
  rewrite (bind_run _ _ _ _ _ (get_run mem_start_brk s)) in Ecl.
  rewrite (bind_run _ _ _ _ _ (get_run mem_brk s)) in Ecl.
  replace (last_segp s) with (seg_listp s + 32) in Ecl
    by (rewrite (hm_last _ _ _ Hmid), (hm_seg _ _ _ Hmid); lia).
  pose proof (bucket_range asize) as [[Hb0 Hb1] Hb8].
  assert (z < asize); [|lia].
  eapply (class_loop_null s bl asize Hmid _ (bucket asize) [] v s1);
    [lia|exact Hb8| |exact Ecl|exact Hin|apply bucket_mono; lia].
  lia.
Qed.

(** The bytes that [malloc] asks of [extend_heap] for a block of
    [asize] bytes. *)
Lemma extend_size_exact asize :
  32 <= asize < 2 ^ 64 -> asize mod 8 = 0 ->
  (if negb ((MAX asize CHUNKSIZE / WSIZE) mod 2 =? 0)
   then w64 (w64 (MAX asize CHUNKSIZE / WSIZE + 1) * WSIZE)
   else w64 (MAX asize CHUNKSIZE / WSIZE * WSIZE)) = Z.max asize 264.
Proof.
  intros Ha Ha8. unfold MAX, CHUNKSIZE, WSIZE.
  destruct (Z.gtb_spec asize 260) as [Hgt|Hle].
  - assert (E : asize / 4 mod 2 = 0) by (Z.div_mod_to_equations; lia).
    rewrite E. cbn [Z.eqb negb]. rewrite w64_small by (Z.div_mod_to_equations; lia).
    Z.div_mod_to_equations. lia.
  - change (negb (260 / 4 mod 2 =? 0)) with true. cbv iota.
    change (w64 (w64 (260 / 4 + 1) * 4)) with 264. lia.
Qed.

Lemma bind_value {A B} (m : M A) (b : B) s r s' :
  (_ ← m; mret b) s = Done (r, s') -> r = b.
Proof.
  unfold mbind, M_bind. destruct (m s) as [[a s1]| |]; try discriminate.
  intros [= <- _]. reflexivity.
Qed.

(** [malloc] with a free block that fits: it returns a block and leaves
    the end of the heap where it is. *)
Lemma malloc_reuse s bl n b z :
  heap_inv s bl -> 0 < n <= max_request ->
  (b, z, false) ∈ bl -> adjust n <= z ->
  exists r m', malloc n s = Done (r, set_mem s m') /\ r <> NULL.
Proof.
  intros Hinv Hn Hb Hz. pose proof Hinv as [Hmid _].
  destruct (adjust_spec n Hn) as (Ha & Ha8 & Han).
  unfold malloc. mstep (init_if_needed_run _ _ _ Hmid).
  rewrite (proj2 (Z.eqb_neq _ _)) by lia. cbv zeta.
  destruct (find_fit_spec s bl (adjust n) Hmid) as (r & Hff & Hr).
  mstep Hff. destruct Hr as [->|(zr & Hin & Hzr)].
  { pose proof (find_fit_complete s bl (adjust n) s Hmid ltac:(lia) Hff _ _ Hb). lia. }
  rewrite (eqb_NULL_false _ (mid_nonnull _ _ _ _ _ _ Hmid Hin)). cbn [negb].
  destruct (list_elem_of_split _ _ Hin) as (l1 & l2 & ->).
  destruct (place_spec s l1 r zr l2 (adjust n) Hinv ltac:(lia) Ha8)
    as (m' & bl' & z' & Hrun & _).
  mstep Hrun. exists r, m'. split; [reflexivity|].
  exact (mid_nonnull _ _ _ _ _ _ Hmid Hin).
Qed.

(** [malloc] returns [NULL] only when no free block fits and memlib
    cannot extend the heap; it has then changed nothing. *)
Lemma malloc_null s bl n s' :
  heap_inv s bl -> 0 < n <= max_request ->
  malloc n s = Done (NULL, s') ->
  s' = s /\ (forall b z, (b, z, false) ∈ bl -> z < adjust n) /\
  mem_max_addr s < mem_brk s + Z.max (adjust n) 264.
Proof.
  intros Hinv Hn Hrun. pose proof Hinv as [Hmid _].
  destruct (adjust_spec n Hn) as (Ha & Ha8 & Han).
  assert (Hnofit : forall b z, (b, z, false) ∈ bl -> z < adjust n).
  { intros b z Hb. destruct (Z_lt_ge_dec z (adjust n)) as [|Hge]; [assumption|exfalso].
    destruct (malloc_reuse s bl n b z Hinv Hn Hb ltac:(lia)) as (r & m' & Hrun' & Hr).
    rewrite Hrun in Hrun'. injection Hrun' as <- _. contradiction. }
  unfold malloc in Hrun.
  rewrite (bind_run _ _ _ _ _ (init_if_needed_run _ _ _ Hmid)) in Hrun.
  rewrite (proj2 (Z.eqb_neq _ _)) in Hrun by lia. cbv zeta in Hrun.
  destruct (find_fit_spec s bl (adjust n) Hmid) as (r & Hff & Hr).
  rewrite (bind_run _ _ _ _ _ Hff) in Hrun.
  destruct Hr as [->|(zr & Hin & Hzr)].
  2:{ specialize (Hnofit _ _ Hin). lia. }
  rewrite Z.eqb_refl in Hrun. cbn [negb] in Hrun.
  destruct (extend_heap_spec s bl _ _ (eq_sym (extend_size_exact _ Ha Ha8))
              ltac:(lia) ltac:(destruct (Z.max_spec (adjust n) 264) as [[_ ->]|[_ ->]];
                               [reflexivity|assumption]) Hinv)
    as [[Hfull Hext]|(_ & m1 & bl1 & bp & sz & Hext & Hinv1 & _ & Hin1 & _)].
  - rewrite (bind_run _ _ _ _ _ Hext) in Hrun. rewrite Z.eqb_refl in Hrun.
    injection Hrun as <-. split; [reflexivity|]. split; [exact Hnofit|lia].
  - exfalso. rewrite (bind_run _ _ _ _ _ Hext) in Hrun.
    pose proof (mid_nonnull _ _ _ _ _ _ (proj1 Hinv1) Hin1) as Hbp.
    rewrite (eqb_NULL_false _ Hbp) in Hrun.
    apply bind_value in Hrun. auto.
Qed.

Lemma malloc_exhausted s bl n :
  heap_inv s bl -> 0 < n <= max_request ->
  (forall b z, (b, z, false) ∈ bl -> z < adjust n) ->
  mem_max_addr s < mem_brk s + Z.max (adjust n) 264 ->
  malloc n s = Done (NULL, s).
Proof.
  intros Hinv Hn Hnofit Hfull. pose proof Hinv as [Hmid _].
  destruct (adjust_spec n Hn) as (Ha & Ha8 & Han).
  unfold malloc. mstep (init_if_needed_run _ _ _ Hmid).
  rewrite (proj2 (Z.eqb_neq _ _)) by lia. cbv zeta.
  destruct (find_fit_spec s bl (adjust n) Hmid) as (r & Hff & Hr).
  mstep Hff. destruct Hr as [->|(zr & Hin & Hzr)].
  2:{ specialize (Hnofit _ _ Hin). lia. }
  rewrite Z.eqb_refl. cbn [negb].
  destruct (extend_heap_spec s bl _ _ (eq_sym (extend_size_exact _ Ha Ha8))
              ltac:(lia) ltac:(destruct (Z.max_spec (adjust n) 264) as [[_ ->]|[_ ->]];
                               [reflexivity|assumption]) Hinv)
    as [[_ Hext]|(Hroom & _)]; [|lia].
  mstep Hext. rewrite Z.eqb_refl. reflexivity.
Qed.

(** [malloc] in a heap that a client has reached returns [NULL] exactly
    when no free block has the adjusted size and memlib cannot give
    [max (adjust n) 264] more bytes; the heap is then as it was. *)
Theorem malloc_null_iff_exhausted s n :
  reachable s -> 0 < n <= max_request ->
  ((exists s', malloc n s = Done (NULL, s')) <->
   (forall b z, (b, z, false) ∈ tiled s -> z < adjust n) /\
   mem_max_addr s < mem_brk s + Z.max (adjust n) 264) /\
  (forall s', malloc n s = Done (NULL, s') -> s' = s).
Proof.
  intros Hreach Hn. destruct (reachable_inv _ Hreach) as (bl & Hinv).
  rewrite (tiled_inv _ _ _ (proj1 Hinv)). split; [split|].
  - intros (s' & Hrun). destruct (malloc_null s bl n s' Hinv Hn Hrun) as (_ & H1 & H2). auto.
  - intros [H1 H2]. exists s. apply (malloc_exhausted s bl n Hinv Hn H1 H2).
  - intros s' Hrun. apply (malloc_null s bl n s' Hinv Hn Hrun).
Qed.

(** [malloc] in a heap that a client has reached, with a free block of
    the adjusted size: it returns a block, and the heap ends where it
    ended. *)
Theorem malloc_reuses_free_block s n b z :
  reachable s -> 0 < n <= max_request ->
  (b, z, false) ∈ tiled s -> adjust n <= z ->
  exists r s', malloc n s = Done (r, s') /\ r <> NULL /\ mem_brk s' = mem_brk s.
Proof.
  intros Hreach Hn Hb Hz. destruct (reachable_inv _ Hreach) as (bl & Hinv).
  rewrite (tiled_inv _ _ _ (proj1 Hinv)) in Hb.
  destruct (malloc_reuse s bl n b z Hinv Hn Hb Hz) as (r & m' & Hrun & Hr).
  exists r, (set_mem s m'). auto.
Qed.

(** [free], with the free block that holds the bytes of the freed one. *)
Lemma free_block s l1 p z l2 :
  heap_inv s (l1 ++ (p, z, true) :: l2) ->
  exists m' bl',
    free p s = Done (tt, set_mem s m') /\
    heap_inv (set_mem s m') bl' /\
    preserves (l1 ++ l2) (mem s) m' /\
    (forall q zq, (q, zq, true) ∈ bl' <-> (q, zq, true) ∈ l1 ++ l2) /\
    exists b zb, (b, zb, false) ∈ bl' /\ b <= p /\ p + z <= b + zb.
Proof.
  intros [Hmid Hadj].
  set (P := (heap_listp s, 16, true)).
  set (bl := l1 ++ (p, z, true) :: l2) in *.
  assert (Hbin' : (p, z, true) ∈ bl) by (unfold bl; list_mem).
  assert (Hbin : (p, z, true) ∈ P :: bl) by (apply list_elem_of_further, Hbin').
  destruct (mid_full_block _ _ _ _ _ _ Hmid Hbin)
    as (Hb1 & Hb2 & Hb3 & Hb4 & Hb5 & Hb6 & Hb7 & Hb8 & Hb9).
  destruct (mid_block _ _ _ _ _ _ Hmid Hbin') as (Hc1 & _ & Hc3 & _).
  pose proof (hm_hl _ _ _ Hmid) as Hhl. pose proof (hm_lo _ _ _ Hmid) as Hlo.
  pose proof (hm_tiles _ _ _ Hmid) as Ht. fold P in Ht.
  change (P :: bl) with ((P :: l1) ++ [(p, z, true)] ++ l2) in Ht.
  apply tiles_app in Ht as (q & Hta & Htb).
  apply tiles_app in Htb as (q' & Htm & Htc).
  destruct Htm as (Eq & _ & _ & _ & _ & Eq'). subst q. cbn [tiles] in Eq'. subst q'.
  assert (HL : forall b zb, listed bl b zb -> b + 32 <= p \/ p + z <= b).
  { intros b zb Hin. unfold listed in Hin.
    destruct (mid_apart _ _ _ _ _ _ _ _ _ Hmid Hin Hbin') as [[=]|E].
    pose proof (hm_min _ _ _ Hmid _ _ _ Hin). lia. }
  unfold free. rewrite (proj2 (Z.eqb_neq _ _)) by lia.
  mstep (rd_size _ _ _ _ _ _ Hmid Hbin).
  mstep (init_if_needed_run _ _ _ Hmid).
  change (PACK z 0) with (PACK z (bit false)).
  rewrite (put_tags_run s p z false _ Hb7 Hb8 Hb9 Hb4).
  set (mA := retag (mem s) p z false).
  assert (Hmid2 : heap_mid (set_mem s mA) (l1 ++ [(p, z, false)] ++ l2) (listed bl)).
  { eapply (mid_retile s l1 [(p, z, true)] _ l2 _ mA _ p (p + z));
      [exact Hmid|exact Hta|exact Htc|apply unchanged_retag| | | |].
    - intros w Hw. mem_cases Hw; lia.
    - intros w b zb Hw Hin. destruct (HL _ _ Hin); mem_cases Hw; lia.
    - apply tiles_retag; [lia|assumption].
    - intros b zb a Hin. apply list_elem_of_singleton in Hin as [= -> -> ->]. lia. }
  cbn [app] in Hmid2.
  destruct (coalesce_spec (set_mem s mA) l1 p z l2)
    as (m4 & bl' & bp' & sz' & Hco & Hinv & Hpres4 & Hfb & Hfl & Hfr & Halloc).
  { split; [|exact Hadj].
    eapply heap_mid_ext; [|exact Hmid2]. intros b zb. apply listed_app_alloc. }
  mstep Hco. rewrite set_mem_twice in Hinv |- *. cbn [mem set_mem] in Hpres4.
  exists m4, bl'. split; [reflexivity|]. split; [exact Hinv|].
  split; [|split; [exact Halloc|exists bp', sz'; auto]].
  eapply (preserves_trans _ _ mA).
  - intros q0 zq x Hq Hx. apply (unchanged_retag (mem s) p z false). intros w Hw.
    assert (Hq' : (q0, zq, true) ∈ bl) by (unfold bl; clear - Hq; list_mem).
    destruct (mid_apart _ _ _ _ _ _ _ _ _ Hmid Hq' Hbin') as [E|E].
    + injection E as -> ->. exfalso.
      eapply (mid_not_listed s l1 p z true l2); [exact Hmid|exact Hq].
    + mem_cases Hw; lia.
  - eapply preserves_sub; [|exact Hpres4]. intros q0 zq Hq. clear - Hq. list_mem.
Qed.

(** [free] of an allocated block in a heap that a client has reached:
    it returns; the block is allocated no more, and its bytes lie in a
    free block; the other allocated blocks, and no others, are
    allocated, with their sizes and the bytes of their payloads. *)
Theorem free_result s p z :
  reachable s -> (p, z, true) ∈ tiled s ->
  exists s',
    free p s = Done (tt, s') /\ reachable s' /\
    (forall q zq, (q, zq, true) ∈ tiled s' <-> (q, zq, true) ∈ tiled s /\ q <> p) /\
    (forall q zq, (q, zq, true) ∈ tiled s -> q <> p ->
       bytes_at s' q (zq - QSIZE) = bytes_at s q (zq - QSIZE)) /\
    exists b zb, (b, zb, false) ∈ tiled s' /\ b <= p /\ p + z <= b + zb.
Proof.
  intros Hreach Hp. destruct (reachable_inv _ Hreach) as (bl & Hinv).
  pose proof (tiled_inv _ _ _ (proj1 Hinv)) as Etl. rewrite Etl in *.
  destruct (list_elem_of_split _ _ Hp) as (l1 & l2 & ->).
  destruct (free_block s l1 p z l2 Hinv) as (m' & bl' & Hrun & Hinv' & Hpres & Halloc & Hfb).
  assert (Hnot : forall zq a, (p, zq, a) ∉ l1 ++ l2).
  { intros zq a. eapply mid_not_listed. exact (proj1 Hinv). }
  assert (Hiff : forall q zq, (q, zq, true) ∈ l1 ++ l2 <->
                   (q, zq, true) ∈ l1 ++ (p, z, true) :: l2 /\ q <> p).
  { intros q zq. split.
    - intros Hq. split; [clear - Hq; list_mem|]. intros ->. exact (Hnot _ _ Hq).
    - intros [Hq Hne]. clear - Hq Hne. list_mem. }
  exists (set_mem s m'). split; [exact Hrun|]. split.
  { apply (reachable_step s (Free p) _ Hreach); [|exact Hrun].
    cbn. right. exists z. rewrite Etl. exact Hp. }
  rewrite (tiled_inv _ _ _ (proj1 Hinv')). split; [|split; [|exact Hfb]].
  - intros q zq. rewrite Halloc. apply Hiff.
  - intros q zq Hq Hne. eapply preserves_bytes; [exact Hpres|]. apply Hiff. auto.
Qed.

Lemma adjust_le n z : 0 < n -> n + 16 <= z -> 32 <= z -> z mod 8 = 0 -> z < 2 ^ 64 ->
  adjust n <= z.
Proof.
  intros Hn Hz Hz32 Hz8 Hzr. unfold adjust, QSIZE.
  destruct (Z.leb_spec n 16) as [Hs|Hl]; [change (2 * 16) with 32; lia|].
  assert (Hz' : z <= 2 ^ 64 - 8) by (Z.div_mod_to_equations; lia).
  unfold ALIGN, ALIGNMENT. rewrite (w64_small (n + 16)) by lia.
  rewrite (w64_small (n + 16 + (8 - 1))) by lia.
  set (x := n + 16 + (8 - 1)).
  assert (Ex : x = 8 * (x / 8) + x mod 8) by (apply Z.div_mod; lia).
  assert (El : Z.land x (w64 (Z.lnot 7)) = 8 * (x / 8)).
  { rewrite Ex at 1. apply land_high; unfold x in *; Z.div_mod_to_equations; lia. }
  rewrite El. unfold x in *. Z.div_mod_to_equations. lia.
Qed.


Ltac from_heap0 ops :=
  exists (heap0 (2 ^ 20)), (final (mm_init (heap0 (2 ^ 20)))), ops;
  split; [fresh_heap0|]; split; [vm_compute; reflexivity|].

Ltac one_malloc :=
  split; [split; [unfold op_ok, max_request; lia
                 |destruct (run_op _ _) as [[[] ?]| |]; exact I]
         |vm_compute; reflexivity].

Ltac two_mallocs :=
  split; [split; [unfold op_ok, max_request; lia|];
          replace (run_op (Malloc 24) (final (mm_init (heap0 (2 ^ 20)))))
            with (Done (tt, final (run_op (Malloc 24) (final (mm_init (heap0 (2 ^ 20)))))))
            by (vm_compute; reflexivity);
          split; [unfold op_ok, max_request; lia
                 |destruct (run_op _ _) as [[[] ?]| |]; exact I]
         |vm_compute; reflexivity].

Lemma mm_init_outcome_witness :
  fresh (heap0 (2 ^ 20)) /\
  (mem_start_brk (heap0 (2 ^ 20)) + 336 <= mem_max_addr (heap0 (2 ^ 20)) ->
   exists s', mm_init (heap0 (2 ^ 20)) = Done (0, s') /\
              tiled s' = [(mem_start_brk (heap0 (2 ^ 20)) + 72, 264, false)] /\
              mem_brk s' = mem_start_brk (heap0 (2 ^ 20)) + 336 /\
              heap_listp s' = mem_start_brk (heap0 (2 ^ 20)) + 56) /\
  (mem_max_addr (heap0 (2 ^ 20)) < mem_start_brk (heap0 (2 ^ 20)) + 336 ->
   exists s', mm_init (heap0 (2 ^ 20)) = Done (-1, s')).
Proof.
  assert (H1 : fresh (heap0 (2 ^ 20))) by fresh_heap0.
  split; [exact H1|]. exact (mm_init_outcome _ H1).
Defined.

Lemma malloc_result_witness :
  reachable (final (mm_init (heap0 (2 ^ 20)))) /\ 0 < 24 <= max_request /\
  exists r s', malloc 24 (final (mm_init (heap0 (2 ^ 20)))) = Done (r, s') /\ reachable s' /\
    (forall q zq, (q, zq, true) ∈ tiled (final (mm_init (heap0 (2 ^ 20)))) -> (q, zq, true) ∈ tiled s' /\
       bytes_at s' q (zq - QSIZE) = bytes_at (final (mm_init (heap0 (2 ^ 20)))) q (zq - QSIZE)) /\
    (r = NULL -> forall q zq, (q, zq, true) ∈ tiled s' -> (q, zq, true) ∈ tiled (final (mm_init (heap0 (2 ^ 20))))) /\
    (r <> NULL -> r mod 8 = 0 /\ (forall z, (r, z, true) ∉ tiled (final (mm_init (heap0 (2 ^ 20))))) /\
       exists z, (r, z, true) ∈ tiled s' /\ 24 <= z - QSIZE /\
         forall q zq, (q, zq, true) ∈ tiled s' ->
           (q, zq, true) ∈ tiled (final (mm_init (heap0 (2 ^ 20)))) \/ (q = r /\ zq = z)).
Proof.
  assert (H1 : reachable (final (mm_init (heap0 (2 ^ 20))))).
  { from_heap0 (@nil op). split; [exact I|reflexivity]. }
  assert (H2 : 0 < 24 <= max_request) by (unfold max_request; lia).
  split; [exact H1|]. split; [exact H2|]. exact (malloc_result _ 24 H1 H2).
Defined.

Lemma allocated_blocks_apart_witness :
  reachable (final (run_ops [Malloc 24; Malloc 24] (final (mm_init (heap0 (2 ^ 20)))))) /\ (4168, 40, true) ∈ tiled (final (run_ops [Malloc 24; Malloc 24] (final (mm_init (heap0 (2 ^ 20)))))) /\ (4208, 40, true) ∈ tiled (final (run_ops [Malloc 24; Malloc 24] (final (mm_init (heap0 (2 ^ 20)))))) /\
  (4168 mod 8 = 0 /\ mem_start_brk (final (run_ops [Malloc 24; Malloc 24] (final (mm_init (heap0 (2 ^ 20)))))) + 72 <= 4168 /\ 4168 + 40 <= mem_brk (final (run_ops [Malloc 24; Malloc 24] (final (mm_init (heap0 (2 ^ 20)))))) /\ 32 <= 40) /\
  ((4168 = 4208 /\ 40 = 40) \/ 4168 + 40 <= 4208 \/ 4208 + 40 <= 4168).
Proof.
  assert (H1 : reachable (final (run_ops [Malloc 24; Malloc 24] (final (mm_init (heap0 (2 ^ 20))))))).
  { from_heap0 [Malloc 24; Malloc 24]. two_mallocs. }
  assert (H2 : (4168, 40, true) ∈ tiled (final (run_ops [Malloc 24; Malloc 24] (final (mm_init (heap0 (2 ^ 20))))))) by (vm_compute; apply list_elem_of_here).
  assert (H3 : (4208, 40, true) ∈ tiled (final (run_ops [Malloc 24; Malloc 24] (final (mm_init (heap0 (2 ^ 20)))))))
    by (vm_compute; apply list_elem_of_further, list_elem_of_here).
  split; [exact H1|]. split; [exact H2|]. split; [exact H3|].
  exact (allocated_blocks_apart _ _ _ _ _ H1 H2 H3).
Defined.

Lemma calloc_zeroes_witness :
  reachable (final (mm_init (heap0 (2 ^ 20)))) /\ w64 (1 * 100) <= max_request /\
  calloc 1 100 (final (mm_init (heap0 (2 ^ 20)))) = Done (4168, final (calloc 1 100 (final (mm_init (heap0 (2 ^ 20)))))) /\ 4168 <> NULL /\
  bytes_at (final (calloc 1 100 (final (mm_init (heap0 (2 ^ 20)))))) 4168 (w64 (1 * 100))
  = replicate (Z.to_nat (w64 (1 * 100))) 0.
Proof.
  assert (H1 : reachable (final (mm_init (heap0 (2 ^ 20))))).
  { from_heap0 (@nil op). split; [exact I|reflexivity]. }
  assert (H2 : w64 (1 * 100) <= max_request) by (vm_compute; discriminate).
  assert (H3 : calloc 1 100 (final (mm_init (heap0 (2 ^ 20)))) = Done (4168, final (calloc 1 100 (final (mm_init (heap0 (2 ^ 20)))))))
    by (vm_compute; reflexivity).
  assert (H4 : 4168 <> NULL) by (unfold NULL; lia).
  split; [exact H1|]. split; [exact H2|]. split; [exact H3|]. split; [exact H4|].
  exact (calloc_zeroes _ 1 100 _ _ H1 H2 H3 H4).
Defined.

Lemma malloc_null_iff_exhausted_witness :
  reachable (final (mm_init (heap0 (2 ^ 20)))) /\ 0 < 24 <= max_request /\
  ((exists s', malloc 24 (final (mm_init (heap0 (2 ^ 20)))) = Done (NULL, s')) <->
   (forall b z, (b, z, false) ∈ tiled (final (mm_init (heap0 (2 ^ 20)))) -> z < adjust 24) /\
   mem_max_addr (final (mm_init (heap0 (2 ^ 20)))) < mem_brk (final (mm_init (heap0 (2 ^ 20)))) + Z.max (adjust 24) 264) /\
  (forall s', malloc 24 (final (mm_init (heap0 (2 ^ 20)))) = Done (NULL, s') -> s' = (final (mm_init (heap0 (2 ^ 20))))).
Proof.
  assert (H1 : reachable (final (mm_init (heap0 (2 ^ 20))))).
  { from_heap0 (@nil op). split; [exact I|reflexivity]. }
  assert (H2 : 0 < 24 <= max_request) by (unfold max_request; lia).
  split; [exact H1|]. split; [exact H2|]. exact (malloc_null_iff_exhausted _ 24 H1 H2).
Defined.

Lemma malloc_reuses_free_block_witness :
  reachable (final (mm_init (heap0 (2 ^ 20)))) /\ 0 < 24 <= max_request /\ (4168, 264, false) ∈ tiled (final (mm_init (heap0 (2 ^ 20)))) /\
  adjust 24 <= 264 /\
  exists r s', malloc 24 (final (mm_init (heap0 (2 ^ 20)))) = Done (r, s') /\ r <> NULL /\ mem_brk s' = mem_brk (final (mm_init (heap0 (2 ^ 20)))).
Proof.
  assert (H1 : reachable (final (mm_init (heap0 (2 ^ 20))))).
  { from_heap0 (@nil op). split; [exact I|reflexivity]. }
  assert (H2 : 0 < 24 <= max_request) by (unfold max_request; lia).
  assert (H3 : (4168, 264, false) ∈ tiled (final (mm_init (heap0 (2 ^ 20))))) by (vm_compute; apply list_elem_of_here).
  assert (H4 : adjust 24 <= 264) by (vm_compute; discriminate).
  split; [exact H1|]. split; [exact H2|]. split; [exact H3|]. split; [exact H4|].
  exact (malloc_reuses_free_block _ 24 _ _ H1 H2 H3 H4).
Defined.

Lemma free_result_witness :
  reachable (final (run_ops [Malloc 24; Malloc 24] (final (mm_init (heap0 (2 ^ 20)))))) /\ (4168, 40, true) ∈ tiled (final (run_ops [Malloc 24; Malloc 24] (final (mm_init (heap0 (2 ^ 20)))))) /\
  exists s',
    free 4168 (final (run_ops [Malloc 24; Malloc 24] (final (mm_init (heap0 (2 ^ 20)))))) = Done (tt, s') /\ reachable s' /\
    (forall q zq, (q, zq, true) ∈ tiled s' <-> (q, zq, true) ∈ tiled (final (run_ops [Malloc 24; Malloc 24] (final (mm_init (heap0 (2 ^ 20)))))) /\ q <> 4168) /\
    (forall q zq, (q, zq, true) ∈ tiled (final (run_ops [Malloc 24; Malloc 24] (final (mm_init (heap0 (2 ^ 20)))))) -> q <> 4168 ->
       bytes_at s' q (zq - QSIZE) = bytes_at (final (run_ops [Malloc 24; Malloc 24] (final (mm_init (heap0 (2 ^ 20)))))) q (zq - QSIZE)) /\
    exists b zb, (b, zb, false) ∈ tiled s' /\ b <= 4168 /\ 4168 + 40 <= b + zb.
Proof.
  assert (H1 : reachable (final (run_ops [Malloc 24; Malloc 24] (final (mm_init (heap0 (2 ^ 20))))))).
  { from_heap0 [Malloc 24; Malloc 24]. two_mallocs. }
  assert (H2 : (4168, 40, true) ∈ tiled (final (run_ops [Malloc 24; Malloc 24] (final (mm_init (heap0 (2 ^ 20))))))) by (vm_compute; apply list_elem_of_here).
  split; [exact H1|]. split; [exact H2|]. exact (free_result _ _ _ H1 H2).
Defined.


Lemma count_up_next c n : count_up (Cache.wrap_int (c + 1)) n = count_up c (S n).
Proof. unfold count_up. rewrite Nat.iter_succ_r. reflexivity. Qed.

Lemma count_up_add c n m : count_up (count_up c n) m = count_up c (n + m).
Proof. unfold count_up. rewrite Nat.add_comm, Nat.iter_add. reflexivity. Qed.

Lemma printblock_block s bl L b z a out :
  heap_mid s bl L -> (b, z, a) ∈ (heap_listp s, 16, true) :: bl ->
  printblock b out s = Done (out, s).
Proof.
  intros Hmid Hin. unfold printblock.
  destruct (mid_full_block _ _ _ _ _ _ Hmid Hin) as (_ & _ & Hz & _ & _ & _ & _ & Hv & _).
  mstep (rd_size _ _ _ _ _ _ Hmid Hin). mstep (rd_alloc _ _ _ _ _ _ Hmid Hin).
  mstep (rd_ftrp _ _ _ _ _ _ Hmid Hin). mstep (rd_fsize _ _ _ _ _ _ Hmid Hin).
  mstep (rd_ftrp _ _ _ _ _ _ Hmid Hin). mstep (rd_falloc _ _ _ _ _ _ Hmid Hin).
  rewrite (proj2 (Z.eqb_neq z 0)) by lia. reflexivity.
Qed.

Lemma rd_epilogue_size s bl L :
  heap_mid s bl L -> GET_SIZE (HDRP (mem_brk s)) s = Done (0, s).
Proof.
  intros Hmid. pose proof (mid_brk _ _ _ Hmid). pose proof (hm_hl _ _ _ Hmid).
  pose proof (hm_lo _ _ _ Hmid).
  unfold HDRP, DSIZE. rewrite GET_SIZE_run by (unfold valid; lia).
  rewrite (hm_epi _ _ _ Hmid). reflexivity.
Qed.

Lemma printblock_epilogue s bl L out :
  heap_mid s bl L ->
  printblock (mem_brk s) out s = Done (out ++ [End_of_list (mem_brk s)], s).
Proof.
  intros Hmid. pose proof (mid_brk _ _ _ Hmid). pose proof (hm_hl _ _ _ Hmid).
  pose proof (hm_lo _ _ _ Hmid). unfold printblock.
  mstep (rd_epilogue_size _ _ _ Hmid). mstep (rd_epilogue _ _ _ Hmid).
  assert (Hf : FTRP (mem_brk s) s = Done (mem_brk s - 16, s)).
  { unfold FTRP. mstep (rd_epilogue_size _ _ _ Hmid). rewrite ret_run.
    unfold QSIZE. do 2 f_equal. lia. }
  assert (Hv : valid s (mem_brk s - 16)) by (unfold valid; lia).
  mstep Hf. mstep (GET_SIZE_run _ _ Hv). mstep Hf. mstep (GET_ALLOC_run _ _ Hv).
  reflexivity.
Qed.

Lemma in_heap_run s p :
  in_heap p s = Done ((p <=? mem_brk s - 1) && (mem_start_brk s <=? p), s).
Proof.
  unfold in_heap, mem_heap_hi, mem_heap_lo.
  unfold mbind, M_bind, get, mret, M_ret.
  destruct (p <=? mem_brk s - 1); reflexivity.
Qed.

Lemma aligned_multiple p : 0 <= p < 2 ^ 64 - 8 -> p mod 8 = 0 -> aligned p = true.
Proof.
  intros Hp H8. unfold aligned, ALIGN, ALIGNMENT. apply Z.eqb_eq.
  rewrite w64_small by lia. apply land_high; lia.
Qed.

Lemma block_in_heap s bl L b z a :
  heap_mid s bl L -> (b, z, a) ∈ (heap_listp s, 16, true) :: bl ->
  mem_start_brk s + 56 <= b /\ b + 16 <= mem_brk s /\ b mod 8 = 0 /\ mem_brk s < 2 ^ 64.
Proof.
  intros Hmid Hin. pose proof (mid_brk _ _ _ Hmid). pose proof (hm_hl _ _ _ Hmid) as Hhl.
  pose proof (hm_lo _ _ _ Hmid). pose proof (hm_al _ _ _ Hmid) as Hal.
  destruct (mid_full_block _ _ _ _ _ _ Hmid Hin) as (? & ? & ? & _).
  split; [lia|]. split; [lia|]. split; [|lia].
  apply elem_of_cons in Hin as [[= -> _ _]|Hin].
  - rewrite Hhl. Z.div_mod_to_equations. lia.
  - eapply mid_aligned; eauto.
Qed.

Lemma checkblock_ok s bl L b z a verbose out :
  heap_mid s bl L -> (b, z, a) ∈ (heap_listp s, 16, true) :: bl ->
  checkblock b verbose out s = Done (out, s).
Proof.
  intros Hmid Hin. unfold checkblock.
  destruct (block_in_heap _ _ _ _ _ _ Hmid Hin) as (Hlo & Hhi & H8 & Hbrk).
  pose proof (hm_lo _ _ _ Hmid) as Hs.
  destruct (mid_full_block _ _ _ _ _ _ Hmid Hin)
    as (_ & _ & Hz & _ & Hh & Hf & Hvh & Hvf & _).
  rewrite (aligned_multiple b) by (first [lia|assumption]).
  cbn [negb complain]. mstep (ret_run out s).
  mstep (in_heap_run s b).
  rewrite (proj2 (Z.leb_le b (mem_brk s - 1))) by lia.
  rewrite (proj2 (Z.leb_le (mem_start_brk s) b)) by lia.
  cbn [andb negb complain]. mstep (ret_run out s).
  unfold HDRP at 1, DSIZE. mstep (GET_run _ _ Hvh).
  mstep (rd_ftrp _ _ _ _ _ _ Hmid Hin). mstep (GET_run _ _ Hvf).
  rewrite Hh, Hf, Z.eqb_refl. cbn [negb complain]. mstep (ret_run out s).
  mstep (get_run heap_listp s).
  assert (Hsmall : (if negb (b =? heap_listp s)
                    then sz ← GET_SIZE (HDRP b); mret (sz <? 2 * QSIZE)
                    else mret false) s = Done (false, s)).
  { destruct (Z.eqb_spec b (heap_listp s)) as [E|Hne]; [reflexivity|]. cbn [negb].
    mstep (rd_size _ _ _ _ _ _ Hmid Hin). rewrite ret_run. do 2 f_equal.
    apply Z.ltb_ge. unfold QSIZE.
    apply elem_of_cons in Hin as [[= -> _ _]|Hin]; [contradiction|].
    pose proof (hm_min _ _ _ Hmid _ _ _ Hin). lia. }
  mstep Hsmall. reflexivity.
Qed.

Lemma heap_loop_ok s bl L verbose :
  heap_mid s bl L ->
  forall l p fuel c out,
    tiles (mem s) p l (mem_brk s) ->
    (forall x, x ∈ l -> x ∈ (heap_listp s, 16, true) :: bl) ->
    adj_ok l -> (l = [] -> mem_start_brk s + 8 <= p) ->
    (length l <= fuel)%nat ->
    heap_loop fuel verbose p c out s
    = Done ((mem_brk s, count_up c (free_count l), out), s).
Proof.
  intros Hmid. induction l as [|[[b z] a] l IH]; intros p fuel c out Ht Hin Hadj Hp Hf.
  - cbn [tiles] in Ht. subst p.
    assert (E : heap_loop fuel verbose (mem_brk s) c out s
                = (sz ← GET_SIZE (HDRP (mem_brk s));
                   if 0 <? sz then timeout else mret (mem_brk s, c, out)) s).
    { destruct fuel; [reflexivity|]. cbn [heap_loop].
      unfold mbind, M_bind. rewrite (rd_epilogue_size _ _ _ Hmid). reflexivity. }
    rewrite E. mstep (rd_epilogue_size _ _ _ Hmid). reflexivity.
  - destruct fuel as [|fuel]; [cbn in Hf; lia|].
    pose proof Ht as (Eb & _ & _ & _ & _ & Hrest). subst p.
    assert (Hb : (b, z, a) ∈ (heap_listp s, 16, true) :: bl) by (apply Hin; list_mem).
    destruct (mid_full_block _ _ _ _ _ _ Hmid Hb) as (_ & _ & Hz & _).
    cbn [heap_loop]. mstep (rd_size _ _ _ _ _ _ Hmid Hb).
    rewrite (proj2 (Z.ltb_lt 0 z)) by lia.
    assert (Hpb : (if negb (verbose =? 0) then printblock b out else mret out) s
                  = Done (out, s)).
    { destruct (verbose =? 0); [reflexivity|]. eapply printblock_block; eauto. }
    mstep Hpb. mstep (checkblock_ok _ _ _ _ _ _ verbose out Hmid Hb).
    mstep (rd_alloc _ _ _ _ _ _ Hmid Hb). mstep (rd_alloc _ _ _ _ _ _ Hmid Hb).
    assert (Hnext : GET_ALLOC (HDRP (b + z)) s
                    = Done (match l with [] => 1 | x :: _ => bit (snd x) end, s)).
    { destruct l as [|[[b' z'] a'] l'].
      - cbn [tiles] in Hrest. rewrite Hrest. eapply rd_epilogue; eauto.
      - destruct Hrest as (-> & _). eapply rd_alloc; [exact Hmid|]. apply Hin. list_mem. }
    assert (Hco : (if bit a =? 0
                   then nb ← NEXT_BLKP b; na ← GET_ALLOC (HDRP nb);
                        if na =? 0 then mret (printf Not_coalesced out) else mret out
                   else mret out) s = Done (out, s)).
    { destruct a; [reflexivity|]. cbn [bit Z.eqb].
      mstep (rd_next _ _ _ _ _ _ Hmid Hb). mstep Hnext.
      destruct l as [|[[b' z'] a'] l']; [reflexivity|].
      cbn [adj_ok snd] in Hadj. destruct Hadj as [[Ha|Ha] _]; [discriminate|].
      cbn [snd] in *. subst a'. reflexivity. }
    mstep Hco. mstep (rd_next _ _ _ _ _ _ Hmid Hb).
    rewrite (IH (b + z) fuel _ out Hrest).
    + do 3 f_equal. unfold free_count. cbn [List.filter snd].
      destruct a; cbn [bit Z.eqb negb length]; [reflexivity|]. f_equal. apply count_up_next.
    + intros x Hx. apply Hin. list_mem.
    + destruct Hadj as [_ Hadj]. exact Hadj.
    + intros ->. cbn [tiles] in Hrest. pose proof (mid_brk _ _ _ Hmid).
      pose proof (hm_hl _ _ _ Hmid). lia.
    + cbn in Hf. lia.
Qed.

Lemma fseg_head m l p f t :
  fseg m p l f t NULL -> (l = [] /\ f = NULL) \/ (exists l', l = f :: l' /\ f <> NULL).
Proof.
  destruct l as [|b l']; cbn [fseg].
  - intros [-> _]. by left.
  - intros (-> & Hb & _). right. eauto.
Qed.

Lemma heads_differ m pre lh p q f g t u :
  pre <> [] -> fseg m p (pre ++ lh) f t NULL -> fseg m q lh g u NULL ->
  NoDup (pre ++ lh) -> f <> g.
Proof.
  intros Hpre Hf Hg Hnd. destruct pre as [|c pre]; [contradiction|].
  destruct Hf as (-> & Hc & _).
  destruct (fseg_head _ _ _ _ _ Hg) as [[_ ->]|(l' & -> & _)]; [exact Hc|].
  intros ->. cbn [app] in Hnd. apply NoDup_cons in Hnd as [Hnot _].
  apply Hnot. clear. list_mem.
Qed.

(** On a list that ends, the hare reaches the end: [hascycle] returns 0. *)
Lemma hascycle_loop_ok s : forall fuel pre lh pt ph tortoise hare tt th,
  fseg (mem s) pt (pre ++ lh) tortoise tt NULL ->
  fseg (mem s) ph lh hare th NULL ->
  NoDup (pre ++ lh) -> (forall x, x ∈ pre ++ lh -> valid s x) ->
  (length lh <= fuel)%nat ->
  hascycle_loop fuel tortoise hare s = Done (false, s).
Proof.
  induction fuel as [|fuel IH]; intros pre lh pt ph tortoise hare tt th Ht Hh Hnd Hv Hf.
  - destruct lh; [|cbn in Hf; lia]. destruct Hh as [-> _]. cbn [hascycle_loop].
    rewrite andb_false_r. reflexivity.
  - destruct lh as [|y lh1].
    { destruct Hh as [-> _]. cbn [hascycle_loop]. rewrite andb_false_r. reflexivity. }
    destruct Hh as (-> & Hy & _ & Hh1).
    assert (Hty : exists lt', pre ++ y :: lh1 = tortoise :: lt' /\ tortoise <> NULL).
    { destruct (fseg_head _ _ _ _ _ Ht) as [[E _]|H]; [|exact H].
      destruct pre; discriminate. }
    destruct Hty as (lt' & Elt & Htn).
    cbn [hascycle_loop]. rewrite (eqb_NULL_false _ Htn), (eqb_NULL_false _ Hy).
    cbn [negb andb]. unfold NEXT_FREEBLKP, NEXT_PTR.
    assert (Hvt : valid s tortoise) by (apply Hv; rewrite Elt; list_mem).
    assert (Hvy : valid s y) by (apply Hv; clear; list_mem).
    mstep (GET_ADDRESS_run _ _ Hvt). mstep (GET_ADDRESS_run _ _ Hvy).
    destruct lh1 as [|y' lh2].
    { destruct Hh1 as [-> _]. reflexivity. }
    destruct Hh1 as (Ey' & Hy' & _ & Hh2). rewrite Ey'.
    rewrite (eqb_NULL_false _ Hy').
    assert (Hvy' : valid s y') by (apply Hv; clear; list_mem).
    mstep (GET_ADDRESS_run _ _ Hvy').
    assert (Hnext : exists pre',
              pre' <> [] /\ lt' = pre' ++ lh2 /\
              fseg (mem s) tortoise (pre' ++ lh2) (load8 (mem s) tortoise) tt NULL).
    { rewrite Elt in Ht. destruct Ht as (_ & _ & _ & Ht).
      destruct pre as [|a pre0].
      - injection Elt as <- <-. exists [y']. split; [discriminate|]. split; [reflexivity|].
        exact Ht.
      - injection Elt as <- <-. exists (pre0 ++ [y; y']).
        split; [destruct pre0; discriminate|].
        rewrite <- app_assoc. cbn [app]. split; [reflexivity|exact Ht]. }
    destruct Hnext as (pre' & Hpre' & -> & Ht').
    rewrite Elt in Hnd, Hv. apply NoDup_cons in Hnd as [_ Hnd].
    rewrite (proj2 (Z.eqb_neq _ _) (heads_differ _ _ _ _ _ _ _ _ _ Hpre' Ht' Hh2 Hnd)).
    eapply IH; [exact Ht'|exact Hh2|exact Hnd| |cbn in Hf; lia].
    intros x Hx. apply Hv. clear - Hx. list_mem.
Qed.

Section class_list.
Variables (s : heap) (bl : list (Z * Z * bool)) (verbose k : Z) (l : list Z) (t : Z).
Hypothesis Hmid : heap_mid s bl (listed bl).
Hypothesis Hk : class_offset k.
Hypothesis Hseg : fseg (mem s) NULL l (load8 (mem s) (seg_listp s + k)) t NULL.
Hypothesis Hnd : NoDup l.
Hypothesis Hmem : forall b, b ∈ l <-> exists z, listed bl b z /\ bucket z = k.

Lemma class_node b : b ∈ l -> exists z, (b, z, false) ∈ bl /\ bucket z = k.
Proof. intros Hb. apply Hmem in Hb. exact Hb. Qed.

Lemma class_length : (length l <= Z.to_nat (mem_brk s - mem_start_brk s))%nat.
Proof.
  apply length_bounded; [exact Hnd|]. intros x Hx.
  destruct (class_node x Hx) as (z & Hin & _).
  destruct (mid_links_valid _ _ _ _ _ _ Hmid Hin) as [[? ?] _]. lia.
Qed.

Lemma hascycle_ok : hascycle (load8 (mem s) (seg_listp s + k)) s = Done (false, s).
Proof.
  unfold hascycle. mstep (get_run mem_start_brk s). mstep (get_run mem_brk s).
  eapply (hascycle_loop_ok s _ [] l); cbn [app]; [exact Hseg|exact Hseg|exact Hnd| |].
  - intros x Hx. destruct (class_node x Hx) as (z & Hin & _).
    apply (mid_links_valid _ _ _ _ _ _ Hmid Hin).
  - apply class_length.
Qed.

Lemma list_loop_ok : forall l' fuel p bp cnt out,
  fseg (mem s) p l' bp t NULL -> (forall b, b ∈ l' -> b ∈ l) ->
  (length l' <= fuel)%nat ->
  list_loop fuel verbose (seg_listp s + k) bp cnt out s
  = Done ((count_up cnt (length l'), out), s).
Proof.
  induction l' as [|b rest IH]; intros fuel p bp cnt out Hs Hsub Hf.
  - destruct Hs as [-> _]. destruct fuel; reflexivity.
  - destruct fuel as [|fuel]; [cbn in Hf; lia|].
    destruct Hs as (-> & Hb & _ & Hrest).
    destruct (class_node b) as (z & Hin & Hbk); [apply Hsub; clear; list_mem|].
    assert (Hin' : (b, z, false) ∈ (heap_listp s, 16, true) :: bl)
      by (apply list_elem_of_further, Hin).
    destruct (mid_links_valid _ _ _ _ _ _ Hmid Hin) as [Hvb _].
    destruct (block_in_heap _ _ _ _ _ _ Hmid Hin') as (Hlo & Hhi & _ & _).
    cbn [list_loop]. rewrite (eqb_NULL_false _ Hb). cbn [negb].
    assert (Hpb : (if negb (verbose =? 0) then printblock b out else mret out) s
                  = Done (out, s)).
    { destruct (verbose =? 0); [reflexivity|]. eapply printblock_block; eauto. }
    mstep Hpb. mstep (rd_alloc _ _ _ _ _ _ Hmid Hin'). cbn [bit Z.eqb negb].
    mstep (GET_ADDRESS_run _ _ Hvb).
    assert (Hlinks : (if negb (load8 (mem s) b =? NULL)
                      then pv ← PREV_FREEBLKP (load8 (mem s) b);
                           if negb (pv =? b) then mret (printf (Bad_links b) out)
                           else mret out
                      else mret out) s = Done (out, s)).
    { destruct rest as [|n rest'].
      - destruct Hrest as [-> _]. reflexivity.
      - destruct Hrest as (-> & Hn & Hprev & _). rewrite (eqb_NULL_false _ Hn).
        cbn [negb]. destruct (class_node n) as (zn & Hinn & _).
        { apply Hsub. clear. list_mem. }
        destruct (mid_links_valid _ _ _ _ _ _ Hmid Hinn) as [_ Hvn].
        unfold PREV_FREEBLKP, PREV_PTR, DSIZE. mstep (GET_ADDRESS_run _ _ Hvn).
        rewrite Hprev, Z.eqb_refl. reflexivity. }
    mstep Hlinks. mstep (in_heap_run s b).
    rewrite (proj2 (Z.leb_le b (mem_brk s - 1))) by lia.
    rewrite (proj2 (Z.leb_le (mem_start_brk s) b)) by lia.
    cbn [andb negb]. mstep (rd_size _ _ _ _ _ _ Hmid Hin').
    mstep (get_run seg_listp s). rewrite Hbk, Z.eqb_refl. cbn [negb].
    mstep (GET_ADDRESS_run _ _ Hvb).
    rewrite (IH fuel b _ _ out Hrest); [| |cbn in Hf; lia].
    + cbn [length]. by rewrite count_up_next.
    + intros x Hx. apply Hsub. clear - Hx. list_mem.
Qed.

(** One round of the loop over the classes. *)
Lemma seg_step c cnt out :
  seg_loop (S c) (Z.to_nat (mem_brk s - mem_start_brk s)) verbose
           (seg_listp s + k) (seg_listp s + 32) cnt out s
  = seg_loop c (Z.to_nat (mem_brk s - mem_start_brk s)) verbose
             (seg_listp s + (k + 8)) (seg_listp s + 32) (count_up cnt (length l)) out s.
Proof.
  destruct Hk as [Hk0 _]. pose proof (lo_heads _ _ (hm_lists _ _ _ Hmid)) as Hh.
  cbn [seg_loop]. rewrite (proj2 (Z.leb_le _ _)) by lia.
  assert (Hv : valid s (seg_listp s + k)) by (unfold valid; lia).
  mstep (GET_ADDRESS_run _ _ Hv). mstep hascycle_ok. mstep (ret_run out s).
  mstep (list_loop_ok l _ NULL _ cnt out Hseg ltac:(auto) class_length).
  cbn [fst snd]. unfold DSIZE. by rewrite Z.add_assoc.
Qed.

End class_list.

Lemma tiles_free_nodup m l : forall p e,
  tiles m p l e ->
  NoDup (map (fun x => fst (fst x)) (List.filter (fun x => negb (snd x)) l)).
Proof.
  induction l as [|[[b z] a] l IH]; intros p e Ht; [constructor|].
  destruct Ht as (-> & Hz & _ & _ & _ & Hrest). cbn [List.filter snd].
  destruct a; cbn [negb]; [eapply IH, Hrest|]. cbn [map fst]. constructor.
  - intros Hin. apply list_elem_of_fmap in Hin as ([[b' z'] a'] & E & Hin).
    cbn [fst] in E. subst b'. apply list_elem_of_In, List.filter_In in Hin as [Hin _].
    apply list_elem_of_In in Hin.
    destruct (tiles_bounds _ _ _ _ _ _ _ Hrest Hin). lia.
  - eapply IH, Hrest.
Qed.

Ltac class_of H :=
  match goal with
  | M : forall b, b ∈ _ <-> _ |- _ => apply M in H
  end.

(** The class lists hold as many blocks as there are free blocks. *)
Lemma class_lists_count s bl (l0 l1 l2 l3 l4 : list Z) :
  heap_mid s bl (listed bl) ->
  NoDup l0 -> NoDup l1 -> NoDup l2 -> NoDup l3 -> NoDup l4 ->
  (forall b, b ∈ l0 <-> exists z, listed bl b z /\ bucket z = 0) ->
  (forall b, b ∈ l1 <-> exists z, listed bl b z /\ bucket z = 8) ->
  (forall b, b ∈ l2 <-> exists z, listed bl b z /\ bucket z = 16) ->
  (forall b, b ∈ l3 <-> exists z, listed bl b z /\ bucket z = 24) ->
  (forall b, b ∈ l4 <-> exists z, listed bl b z /\ bucket z = 32) ->
  (length l0 + (length l1 + (length l2 + (length l3 + length l4))))%nat = free_count bl.
Proof.
  intros Hmid N0 N1 N2 N3 N4 M0 M1 M2 M3 M4.
  pose proof (lo_fun _ _ (hm_lists _ _ _ Hmid)) as Hfun.
  assert (Hdis : forall x z z' ka kb,
            listed bl x z /\ bucket z = ka -> listed bl x z' /\ bucket z' = kb ->
            ka <> kb -> False).
  { intros x z z' ka kb [Hz Hbz] [Hz' Hbz'] Hne.
    rewrite (Hfun _ _ _ Hz Hz') in Hbz. congruence. }
  unfold free_count.
  rewrite <- (length_map (fun x => fst (fst x))), <- !length_app.
  apply Permutation_length, NoDup_Permutation.
  - repeat (apply NoDup_app; split; [assumption|split]); try assumption;
      intros x Hx Hin; repeat (apply elem_of_app in Hin as [Hin|Hin]);
      class_of Hx; class_of Hin; destruct Hx as (z & Hx), Hin as (z' & Hin);
      (eapply Hdis; [exact Hx|exact Hin|lia]).
  - destruct (hm_tiles _ _ _ Hmid) as (_ & _ & _ & _ & _ & Ht).
    eapply tiles_free_nodup, Ht.
  - intros x. split.
    + intros Hin.
      assert (Hz : exists z, listed bl x z).
      { repeat (apply elem_of_app in Hin as [Hin|Hin]);
          class_of Hin; destruct Hin as (z & Hz & _); eauto. }
      destruct Hz as (z & Hz). apply list_elem_of_fmap. exists (x, z, false).
      split; [reflexivity|]. apply list_elem_of_In, List.filter_In.
      split; [apply list_elem_of_In, Hz|reflexivity].
    + intros Hin. apply list_elem_of_fmap in Hin as ([[b z] a] & E & Hin).
      cbn [fst] in E. subst b. apply list_elem_of_In, List.filter_In in Hin as [Hin Ha].
      apply list_elem_of_In in Hin. destruct a; [discriminate|].
      destruct (bucket_range z) as [Hr H8].
      assert (Hcase : bucket z = 0 \/ bucket z = 8 \/ bucket z = 16 \/
                      bucket z = 24 \/ bucket z = 32)
        by (Z.div_mod_to_equations; lia).
      rewrite !elem_of_app.
      destruct Hcase as [E|[E|[E|[E|E]]]];
        [left; apply M0|right; left; apply M1|right; right; left; apply M2
        |right; right; right; left; apply M3|right; right; right; right; apply M4];
        exists z; split; assumption.
Qed.

Lemma checkheap_inv s bl verbose :
  heap_inv s bl ->
  mm_checkheap verbose s
  = Done (if verbose =? 0 then []
          else [Heap_at (heap_listp s); End_of_list (mem_brk s)], s).
Proof.
  intros [Hmid Hadj]. unfold mm_checkheap.
  pose proof (mid_brk _ _ _ Hmid) as Hbrk. pose proof (hm_hl _ _ _ Hmid) as Hhl.
  pose proof (hm_lo _ _ _ Hmid) as Hlo.
  set (P := (heap_listp s, 16, true)).
  assert (HP : P ∈ P :: bl) by apply list_elem_of_here.
  mstep (get_run heap_listp s).
  set (out0 := if negb (verbose =? 0) then [Heap_at (heap_listp s)] else []).
  mstep (rd_size _ _ _ _ _ _ Hmid HP).
  assert (Hpro : (if negb (16 =? QSIZE) then mret true
                  else a ← GET_ALLOC (HDRP (heap_listp s)); mret (a =? 0)) s
                 = Done (false, s)).
  { change (negb (16 =? QSIZE)) with false. cbv iota.
    mstep (rd_alloc _ _ _ _ _ _ Hmid HP). reflexivity. }
  mstep Hpro. mstep (checkblock_ok _ _ _ _ _ _ verbose out0 Hmid HP).
  mstep (get_run mem_start_brk s). mstep (get_run mem_brk s).
  assert (Hwalk : heap_loop (Z.to_nat (mem_brk s - mem_start_brk s)) verbose
                            (heap_listp s) 0 out0 s
                  = Done ((mem_brk s, count_up 0 (free_count bl), out0), s)).
  { change (free_count bl) with (free_count (P :: bl)).
    apply (heap_loop_ok s bl _ verbose Hmid (P :: bl)).
    - exact (hm_tiles _ _ _ Hmid).
    - auto.
    - cbn [adj_ok]. split; [|exact Hadj]. destruct bl; [exact I|by left].
    - discriminate.
    - pose proof (tiles_length _ _ _ _ (hm_tiles _ _ _ Hmid)) as Hlen. fold P in Hlen.
      apply Nat2Z.inj_le. rewrite Z2Nat.id by lia. lia. }
  mstep Hwalk. cbn [fst snd].
  set (out1 := if verbose =? 0 then []
               else [Heap_at (heap_listp s); End_of_list (mem_brk s)]).
  assert (Hepi : (if negb (verbose =? 0) then printblock (mem_brk s) out0 else mret out0) s
                 = Done (out1, s)).
  { unfold out0, out1. destruct (verbose =? 0); [reflexivity|]. cbn [negb].
    exact (printblock_epilogue _ _ _ [Heap_at (heap_listp s)] Hmid). }
  mstep Hepi. mstep (rd_epilogue_size _ _ _ Hmid).
  assert (Hend : (if negb (0 =? 0) then mret true
                  else a ← GET_ALLOC (HDRP (mem_brk s)); mret (a =? 0)) s
                 = Done (false, s)).
  { cbn [Z.eqb negb]. mstep (rd_epilogue _ _ _ Hmid). reflexivity. }
  mstep Hend. mstep (get_run seg_listp s). mstep (get_run last_segp s).
  pose proof (hm_lists _ _ _ Hmid) as Hl.
  destruct (lo_class _ _ Hl 0) as (l0 & t0 & S0 & N0 & M0); [split; [lia|reflexivity]|].
  destruct (lo_class _ _ Hl 8) as (l1 & t1 & S1 & N1 & M1); [split; [lia|reflexivity]|].
  destruct (lo_class _ _ Hl 16) as (l2 & t2 & S2 & N2 & M2); [split; [lia|reflexivity]|].
  destruct (lo_class _ _ Hl 24) as (l3 & t3 & S3 & N3 & M3); [split; [lia|reflexivity]|].
  destruct (lo_class _ _ Hl 32) as (l4 & t4 & S4 & N4 & M4); [split; [lia|reflexivity]|].
  assert (Hsegs : seg_loop (Z.to_nat (last_segp s - seg_listp s + 1))
                    (Z.to_nat (mem_brk s - mem_start_brk s)) verbose
                    (seg_listp s) (last_segp s) 0 out1 s
                  = Done ((count_up 0 (free_count bl), out1), s)).
  { replace (last_segp s) with (seg_listp s + 32)
      by (rewrite (hm_last _ _ _ Hmid), (hm_seg _ _ _ Hmid); lia).
    replace (Z.to_nat (seg_listp s + 32 - seg_listp s + 1)) with 33%nat by lia.
    replace (seg_listp s) with (seg_listp s + 0) at 1 by lia.
    rewrite (seg_step s bl verbose 0 l0 t0 Hmid ltac:(split; [lia|reflexivity]) S0 N0 M0).
    rewrite (seg_step s bl verbose 8 l1 t1 Hmid ltac:(split; [lia|reflexivity]) S1 N1 M1).
    rewrite (seg_step s bl verbose 16 l2 t2 Hmid ltac:(split; [lia|reflexivity]) S2 N2 M2).
    rewrite (seg_step s bl verbose 24 l3 t3 Hmid ltac:(split; [lia|reflexivity]) S3 N3 M3).
    rewrite (seg_step s bl verbose 32 l4 t4 Hmid ltac:(split; [lia|reflexivity]) S4 N4 M4).
    cbn [seg_loop]. rewrite (proj2 (Z.leb_gt _ _)) by lia.
    rewrite !count_up_add.
    rewrite <- (class_lists_count s bl l0 l1 l2 l3 l4 Hmid N0 N1 N2 N3 N4 M0 M1 M2 M3 M4).
    rewrite ret_run. do 3 f_equal; lia. }
  mstep Hsegs. cbn [fst snd]. rewrite Z.eqb_refl. reflexivity.
Qed.

(** In a heap that a client has reached, [mm_checkheap] finds nothing
    wrong: it returns, leaves the heap as it is, and prints no error;
    when [verbose] is set it prints the address of the heap and the end
    of the list of blocks, and nothing else. *)
Theorem checkheap_accepts s verbose :
  reachable s ->
  mm_checkheap verbose s
  = Done (if verbose =? 0 then []
          else [Heap_at (heap_listp s); End_of_list (mem_brk s)], s).
Proof.
  intros Hreach. destruct (reachable_inv _ Hreach) as (bl & Hinv).
  eapply checkheap_inv, Hinv.
Qed.

Lemma checkheap_accepts_witness :
  reachable (final (run_ops [Malloc 24; Malloc 24] (final (mm_init (heap0 (2 ^ 20)))))) /\
  mm_checkheap 1 (final (run_ops [Malloc 24; Malloc 24] (final (mm_init (heap0 (2 ^ 20))))))
  = Done (if 1 =? 0 then [] else [Heap_at (heap_listp (final (run_ops [Malloc 24; Malloc 24] (final (mm_init (heap0 (2 ^ 20))))))); End_of_list (mem_brk (final (run_ops [Malloc 24; Malloc 24] (final (mm_init (heap0 (2 ^ 20)))))))], (final (run_ops [Malloc 24; Malloc 24] (final (mm_init (heap0 (2 ^ 20))))))).
Proof.
  assert (H1 : reachable (final (run_ops [Malloc 24; Malloc 24] (final (mm_init (heap0 (2 ^ 20))))))).
  { from_heap0 [Malloc 24; Malloc 24]. two_mallocs. }
  split; [exact H1|]. exact (checkheap_accepts _ 1 H1).
Defined.

(** [realloc] to a size that the block has room for. *)
Lemma realloc_fits s bl p zp n :
  heap_inv s bl -> (p, zp, true) ∈ bl -> 0 < n <= max_request -> adjust n <= zp ->
  exists s' bl' z',
    realloc p n s = Done (p, s') /\ heap_inv s' bl' /\ mem_brk s' = mem_brk s /\
    (p, z', true) ∈ bl' /\ n + 16 <= z' <= zp /\
    (forall q zq, q <> p -> (q, zq, true) ∈ bl' <-> (q, zq, true) ∈ bl) /\
    preserves bl' (mem s) (mem s').
Proof.
  intros Hinv Hp Hn Hfits. pose proof Hinv as [Hmid Hadj]. unfold realloc.
  rewrite (proj2 (Z.eqb_neq n 0)) by lia.
  rewrite (eqb_NULL_false _ (mid_nonnull _ _ _ _ _ _ Hmid Hp)).
  assert (Hsame : forall z', (p, z', true) ∈ bl -> z' = zp).
  { intros z' Hin. destruct (mid_apart _ _ _ _ _ _ _ _ _ Hmid Hp Hin) as [[=]|E]; [auto|].
    pose proof (hm_min _ _ _ Hmid _ _ _ Hp). pose proof (hm_min _ _ _ Hmid _ _ _ Hin). lia. }
  destruct (adjust_spec n ltac:(lia)) as (Ha & Ha8 & Han).
  cbv zeta. set (asize := adjust n) in *.
  set (P := (heap_listp s, 16, true)).
  assert (Hbin : (p, zp, true) ∈ P :: bl) by (apply list_elem_of_further, Hp).
  destruct (mid_full_block _ _ _ _ _ _ Hmid Hbin)
    as (Hb1 & Hb2 & Hb3 & Hb4 & Hb5 & Hb6 & Hb7 & Hb8 & Hb9).
  pose proof (hm_min _ _ _ Hmid _ _ _ Hp) as Hzp.
  pose proof (hm_hl _ _ _ Hmid) as Hhl. pose proof (hm_lo _ _ _ Hmid) as Hlo.
  mstep (rd_size _ _ _ _ _ _ Hmid Hbin).
  assert (Hkeep : exists s' bl' z',
            Done (p, s) = Done (p, s') /\ heap_inv s' bl' /\ mem_brk s' = mem_brk s /\
            (p, z', true) ∈ bl' /\ n + 16 <= z' <= zp /\
            (forall q zq, q <> p -> (q, zq, true) ∈ bl' <-> (q, zq, true) ∈ bl) /\
            preserves bl' (mem s) (mem s')).
  { exists s, bl, zp. split; [reflexivity|]. split; [exact Hinv|]. split; [reflexivity|].
    split; [exact Hp|]. split; [lia|]. split; [reflexivity|]. intros q zq x _ _. reflexivity. }
  destruct (Z.eqb_spec asize zp) as [Heq|Hneq]; [exact Hkeep|].
  destruct (list_elem_of_split _ _ Hp) as (l1 & l2 & Ebl). subst bl.
  set (bl := l1 ++ (p, zp, true) :: l2) in *.
  destruct (adj_ok_sides l1 (p, zp, true) l2 Hadj) as [Hadj1 Hadj2].
  pose proof (hm_tiles _ _ _ Hmid) as Ht. fold P in Ht.
  change (P :: bl) with ((P :: l1) ++ [(p, zp, true)] ++ l2) in Ht.
  apply tiles_app in Ht as (q & Hta & Htb).
  apply tiles_app in Htb as (q' & Htm & Htc).
  destruct Htm as (Eq & _ & _ & _ & _ & Eq'). subst q. cbn [tiles] in Eq'. subst q'.
  assert (HL : forall b z, listed bl b z -> b + 32 <= p \/ p + zp <= b).
  { intros b z Hin. unfold listed in Hin.
    destruct (mid_apart _ _ _ _ _ _ _ _ _ Hmid Hin Hp) as [[=]|E].
    pose proof (hm_min _ _ _ Hmid _ _ _ Hin). lia. }
  rewrite (proj2 (Z.ltb_lt asize zp)) by lia.
  assert (Hlt : asize < zp) by lia.
  { (* a smaller block *)
    rewrite (w64_small (zp - asize)) by lia. change (2 * QSIZE) with 32.
    destruct (Z_lt_ge_dec (zp - asize) 32) as [Hsmall|Hbig];
      [rewrite geb_false by lia; exact Hkeep|].
    rewrite geb_true by lia.
    set (rem := zp - asize) in *. set (rb := p + asize).
    assert (Hva : valid s (p + asize - 16)) by (unfold valid in *; lia).
    assert (Hvr1 : valid s (rb - 8)) by (unfold valid, rb in *; lia).
    assert (Hvr2 : valid s (rb + rem - 16)) by (unfold valid, rb, rem in *; lia).
    assert (Hrem8 : rem mod 8 = 0) by (unfold rem; Z.div_mod_to_equations; lia).
    change (PACK asize 1) with (PACK asize (bit true)).
    rewrite (put_tags_run s p asize true _ Hb7 Hva ltac:(lia) Ha8).
    set (mA := retag (mem s) p asize true).
    mstep (NEXT_BLKP_at s mA p asize true Hb7
             ltac:(apply retag_hdr; [lia|assumption]) ltac:(lia) Ha8).
    fold rb. change (PACK rem 0) with (PACK rem (bit false)).
    rewrite (put_tags s mA rb rem false _ Hvr1 Hvr2 ltac:(lia) Hrem8).
    set (mB := retag mA rb rem false).
    assert (Hun : unchanged_except (mem s) mB
                    ([p - 8; p + asize - 16] ++ [rb - 8; rb + rem - 16])).
    { eapply (unchanged_trans _ mA); apply unchanged_retag. }
    cbn [app] in Hun.
    assert (Hmid2 : heap_mid (set_mem s mB)
                      (l1 ++ [(p, asize, true); (rb, rem, false)] ++ l2) (listed bl)).
    { eapply (mid_retile s l1 [(p, zp, true)] _ l2 _ mB _ p (p + zp));
        [exact Hmid|exact Hta|exact Htc|exact Hun| | | |].
      - intros w Hw. unfold rb, rem in Hw. mem_cases Hw; lia.
      - intros w b z Hw Hin. unfold rb, rem in Hw.
        destruct (HL _ _ Hin); mem_cases Hw; lia.
      - cbn [tiles]. unfold mB.
        rewrite !(retag_other mA rb rem false) by (unfold rb; lia).
        unfold mA. rewrite retag_hdr, retag_ftr by (first [lia|assumption]).
        rewrite retag_hdr, retag_ftr by (first [lia|assumption]).
        repeat (split; [first [reflexivity|assumption|lia]|]). unfold rb, rem. lia.
      - intros b z a Hin.
        repeat (apply elem_of_cons in Hin as [[= -> -> ->]|Hin]); try lia.
        by apply elem_of_nil in Hin. }
    cbn [app] in Hmid2.
    destruct (coalesce_spec (set_mem s mB) (l1 ++ [(p, asize, true)]) rb rem l2)
      as (m4 & bl' & bp' & sz' & Hco & Hinv4 & Hpres4 & _ & _ & _ & Halloc).
    { split.
      - rewrite <- !app_assoc. cbn [app].
        eapply heap_mid_ext; [|exact Hmid2]. intros b z.
        unfold bl. rewrite !listed_app_alloc. reflexivity.
      - rewrite <- app_assoc. apply adj_ok_alloc; [exact Hadj1| |reflexivity].
        apply adj_ok_cons_alloc; [exact Hadj2|reflexivity]. }
    mstep Hco. rewrite set_mem_twice in Hinv4 |- *. cbn [mem set_mem] in Hpres4.
    eexists _, bl', asize. split; [reflexivity|]. split; [exact Hinv4|].
    split; [reflexivity|]. split; [apply Halloc; clear; list_mem|]. split; [lia|]. split.
    - intros q zq Hq. rewrite Halloc. unfold bl. clear - Hq. split; intros H; list_mem.
    - intros q zq x Hin Hx. cbn [mem set_mem].
      assert (Hq : (q = p /\ zq = asize) \/ (q, zq, true) ∈ l1 ++ l2).
      { apply Halloc in Hin. clear - Hin.
        repeat (apply elem_of_app in Hin as [Hin|Hin]);
          [right; list_mem| |right; list_mem].
        apply elem_of_cons in Hin as [[= -> ->]|Hin]; [by left|].
        by apply elem_of_nil in Hin. }
      assert (Hout : forall w, w ∈ [p - 8; p + asize - 16; rb - 8; rb + rem - 16] ->
                x < w \/ w + 8 <= x).
      { intros w Hw. destruct Hq as [[-> ->]|Hq].
        - unfold rb, rem in Hw. mem_cases Hw; lia.
        - assert (Hqb : (q, zq, true) ∈ bl) by (unfold bl; clear - Hq; list_mem).
          destruct (mid_apart _ _ _ _ _ _ _ _ _ Hmid Hqb Hp) as [[= -> ->]|E].
          + exfalso. eapply (mid_not_listed s l1 p zp true l2); [exact Hmid|exact Hq].
          + pose proof (hm_min _ _ _ Hmid _ _ _ Hqb).
            unfold rb, rem in Hw. mem_cases Hw; lia. }
      rewrite (Hpres4 q zq x); [apply Hun, Hout| |exact Hx].
      destruct Hq as [[-> ->]|Hq]; [clear; list_mem|clear - Hq; list_mem]. }
Qed.

(** [realloc] of an allocated block to a size that its payload has room
    for: the result is the block itself; the heap does not grow; the
    block keeps no more than it had; the other allocated blocks are the
    same, and every allocated block keeps the bytes of its payload. *)
Theorem realloc_in_place s p z n :
  reachable s -> (p, z, true) ∈ tiled s -> 0 < n <= z - QSIZE ->
  exists s' z',
    realloc p n s = Done (p, s') /\ reachable s' /\ mem_brk s' = mem_brk s /\
    (p, z', true) ∈ tiled s' /\ n <= z' - QSIZE /\ z' <= z /\
    (forall q zq, q <> p -> (q, zq, true) ∈ tiled s' <-> (q, zq, true) ∈ tiled s) /\
    (forall q zq, (q, zq, true) ∈ tiled s' ->
       bytes_at s' q (zq - QSIZE) = bytes_at s q (zq - QSIZE)).
Proof.
  intros Hreach Hp Hn. unfold QSIZE in Hn.
  destruct (live_block_bounds s p z Hreach Hp) as (Hplo & Hbrk & Hz32 & Hz8).
  destruct (reachable_inv _ Hreach) as (bl & Hinv).
  pose proof (mid_brk _ _ _ (proj1 Hinv)) as Hb.
  pose proof (hm_lo _ _ _ (proj1 Hinv)) as Hlo.
  rewrite (tiled_inv _ _ _ (proj1 Hinv)) in *.
  assert (Hn' : 0 < n <= max_request) by (unfold max_request; lia).
  pose proof (adjust_le n z ltac:(lia) ltac:(lia) Hz32 Hz8 ltac:(lia)) as Hfit.
  destruct (realloc_fits s bl p z n Hinv Hp Hn' Hfit)
    as (s' & bl' & z' & Hrun & Hinv' & Hbrk' & Hin' & Hz' & Hsame & Hpres).
  exists s', z'. split; [exact Hrun|]. split.
  { apply (reachable_step s (Realloc p n) _ Hreach).
    - cbn. split; [right; exists z; rewrite (tiled_inv _ _ _ (proj1 Hinv)); exact Hp|lia].
    - cbn [run_op]. mstep Hrun. reflexivity. }
  rewrite (tiled_inv _ _ _ (proj1 Hinv')). unfold QSIZE.
  split; [exact Hbrk'|]. split; [exact Hin'|]. split; [lia|]. split; [lia|].
  split; [exact Hsame|]. intros q zq Hq. exact (preserves_bytes _ _ _ _ _ Hpres Hq).
Qed.

(** [find_fit] in a heap that a client has reached: it returns and
    leaves the heap as it is; the result is [NULL] exactly when no free
    block has [asize] bytes, whatever its class, and else a free block
    of at least [asize] bytes. *)
Theorem find_fit_finds s asize :
  reachable s -> 0 <= asize ->
  exists r,
    find_fit asize s = Done (r, s) /\
    (r = NULL <-> forall b z, (b, z, false) ∈ tiled s -> z < asize) /\
    (r <> NULL -> exists z, (r, z, false) ∈ tiled s /\ asize <= z).
Proof.
  intros Hreach Ha. destruct (reachable_inv _ Hreach) as (bl & [Hmid _]).
  rewrite (tiled_inv _ _ _ Hmid).
  destruct (find_fit_spec s bl asize Hmid) as (r & Hrun & Hr).
  exists r. split; [exact Hrun|]. split; [split|].
  - intros ->. eapply find_fit_complete; eauto.
  - intros Hall. destruct Hr as [Hr|(z & Hin & Hz)]; [exact Hr|].
    specialize (Hall _ _ Hin). lia.
  - intros Hne. destruct Hr as [Hr|Hr]; [contradiction|exact Hr].
Qed.

(** [bucket] is monotone: a larger size is never in a lower class. *)
Theorem bucket_monotone a b : 0 <= a <= b -> bucket a <= bucket b.
Proof. apply bucket_mono. Qed.

Lemma realloc_in_place_witness :
  reachable (final (run_ops [Malloc 100] (final (mm_init (heap0 (2 ^ 20)))))) /\ (4168, 120, true) ∈ tiled (final (run_ops [Malloc 100] (final (mm_init (heap0 (2 ^ 20)))))) /\ 0 < 40 <= 120 - QSIZE /\
  exists s' z',
    realloc 4168 40 (final (run_ops [Malloc 100] (final (mm_init (heap0 (2 ^ 20)))))) = Done (4168, s') /\ reachable s' /\ mem_brk s' = mem_brk (final (run_ops [Malloc 100] (final (mm_init (heap0 (2 ^ 20)))))) /\
    (4168, z', true) ∈ tiled s' /\ 40 <= z' - QSIZE /\ z' <= 120 /\
    (forall q zq, q <> 4168 -> (q, zq, true) ∈ tiled s' <-> (q, zq, true) ∈ tiled (final (run_ops [Malloc 100] (final (mm_init (heap0 (2 ^ 20))))))) /\
    (forall q zq, (q, zq, true) ∈ tiled s' ->
       bytes_at s' q (zq - QSIZE) = bytes_at (final (run_ops [Malloc 100] (final (mm_init (heap0 (2 ^ 20)))))) q (zq - QSIZE)).
Proof.
  assert (H1 : reachable (final (run_ops [Malloc 100] (final (mm_init (heap0 (2 ^ 20))))))).
  { from_heap0 [Malloc 100]. one_malloc. }
  assert (H2 : (4168, 120, true) ∈ tiled (final (run_ops [Malloc 100] (final (mm_init (heap0 (2 ^ 20))))))) by (vm_compute; apply list_elem_of_here).
  assert (H3 : 0 < 40 <= 120 - QSIZE) by (unfold QSIZE; lia).
  split; [exact H1|]. split; [exact H2|]. split; [exact H3|].
  exact (realloc_in_place _ _ _ 40 H1 H2 H3).
Defined.

Lemma find_fit_finds_witness :
  reachable (final (mm_init (heap0 (2 ^ 20)))) /\ 0 <= 48 /\
  exists r,
    find_fit 48 (final (mm_init (heap0 (2 ^ 20)))) = Done (r, (final (mm_init (heap0 (2 ^ 20))))) /\
    (r = NULL <-> forall b z, (b, z, false) ∈ tiled (final (mm_init (heap0 (2 ^ 20)))) -> z < 48) /\
    (r <> NULL -> exists z, (r, z, false) ∈ tiled (final (mm_init (heap0 (2 ^ 20)))) /\ 48 <= z).
Proof.
  assert (H1 : reachable (final (mm_init (heap0 (2 ^ 20))))).
  { from_heap0 (@nil op). split; [exact I|reflexivity]. }
  assert (H2 : 0 <= 48) by lia.
  split; [exact H1|]. split; [exact H2|]. exact (find_fit_finds _ 48 H1 H2).
Defined.

Lemma bucket_monotone_witness : 0 <= 100 <= 5000 /\ bucket 100 <= bucket 5000.
Proof.
  assert (H1 : 0 <= 100 <= 5000) by lia.
  split; [exact H1|]. exact (bucket_monotone 100 5000 H1).
Defined.

Lemma bind_inv {A B} (m : M A) (k : A -> M B) s r :
  (m ≫= k) s = Done r -> exists a s1, m s = Done (a, s1) /\ k a s1 = Done r.
Proof.
  unfold mbind, M_bind. destruct (m s) as [[a s1]| |]; [|discriminate..]. eauto.
Qed.

Lemma GET_inv s p v s1 :
  GET p s = Done (v, s1) -> s1 = s /\ v = load8 (mem s) p.
Proof.
  unfold GET. destruct (in_heap_range s p 8); [|discriminate]. intros [= <- <-]. auto.
Qed.

Lemma GET_SIZE_inv s p v s1 :
  GET_SIZE p s = Done (v, s1) -> s1 = s /\ v = Z.land (load8 (mem s) p) (w64 (Z.lnot 7)).
Proof.
  unfold GET_SIZE. intros H. apply bind_inv in H as (x & s2 & Hx & H).
  apply GET_inv in Hx as [-> ->]. injection H as <- <-. auto.
Qed.

Lemma GET_ALLOC_inv s p v s1 :
  GET_ALLOC p s = Done (v, s1) -> s1 = s /\ v = Z.land (load8 (mem s) p) 1.
Proof.
  unfold GET_ALLOC. intros H. apply bind_inv in H as (x & s2 & Hx & H).
  apply GET_inv in Hx as [-> ->]. injection H as <- <-. auto.
Qed.

Lemma FTRP_inv s bp f s1 :
  FTRP bp s = Done (f, s1) -> s1 = s /\ f = bp + size_at s bp - QSIZE.
Proof.
  unfold FTRP. intros H. apply bind_inv in H as (x & s2 & Hx & H).
  apply GET_SIZE_inv in Hx as [-> ->]. injection H as <- <-. auto.
Qed.

Lemma NEXT_BLKP_inv s bp nb s1 :
  NEXT_BLKP bp s = Done (nb, s1) -> s1 = s /\ nb = bp + size_at s bp.
Proof.
  unfold NEXT_BLKP. intros H. apply bind_inv in H as (x & s2 & Hx & H).
  apply GET_SIZE_inv in Hx as [-> ->]. injection H as <- <-. auto.
Qed.

Lemma complain_quiet c bp r out s out' s' :
  complain c 0 bp r out s = Done (out', s') ->
  s' = s /\ (out' = [] -> out = [] /\ c = false).
Proof.
  unfold complain. destruct c.
  - cbn [Z.eqb negb]. intros [= <- <-]. split; [reflexivity|].
    unfold printf. intros H. destruct out; discriminate.
  - intros [= <- <-]. auto.
Qed.

Lemma aligned_multiple_inv p : aligned p = true -> p mod 8 = 0.
Proof.
  unfold aligned, ALIGN, ALIGNMENT. intros H. apply Z.eqb_eq in H.
  set (x := w64 (p + (8 - 1))) in *.
  assert (Hx : 0 <= x < 2 ^ 64) by (unfold x, w64; apply Z.mod_pos_bound; lia).
  assert (E : Z.land x (w64 (Z.lnot 7)) = 8 * (x / 8)).
  { rewrite (Z.div_mod x 8) at 1 by lia.
    apply land_high; Z.div_mod_to_equations; lia. }
  rewrite E in H. rewrite <- H. Z.div_mod_to_equations. lia.
Qed.

Lemma checkblock_quiet bp out s out' s' :
  checkblock bp 0 out s = Done (out', s') ->
  s' = s /\ (out' = [] -> out = [] /\ block_ok s bp).
Proof.
  unfold checkblock. intros H.
  apply bind_inv in H as (o1 & s1 & H1 & H). apply complain_quiet in H1 as [-> H1].
  rewrite (bind_run _ _ _ _ _ (in_heap_run s bp)) in H.
  apply bind_inv in H as (o2 & s2 & H2 & H). apply complain_quiet in H2 as [-> H2].
  apply bind_inv in H as (h & s3 & H3 & H). apply GET_inv in H3 as [-> ->].
  apply bind_inv in H as (f & s4 & H4 & H). apply FTRP_inv in H4 as [-> ->].
  apply bind_inv in H as (fv & s5 & H5 & H). apply GET_inv in H5 as [-> ->].
  apply bind_inv in H as (o3 & s6 & H6 & H). apply complain_quiet in H6 as [-> H6].
  rewrite (bind_run _ _ _ _ _ (get_run heap_listp s)) in H.
  apply bind_inv in H as (small & s7 & H7 & H). apply complain_quiet in H as [-> H].
  assert (E7 : s7 = s /\ (small = false -> bp <> heap_listp s -> 32 <= size_at s bp)).
  { destruct (Z.eqb_spec bp (heap_listp s)) as [E|Hne]; cbn [negb] in H7.
    - injection H7 as <- <-. split; [reflexivity|]. intros _ Hc. contradiction.
    - apply bind_inv in H7 as (sz & s8 & H8 & H7). apply GET_SIZE_inv in H8 as [-> ->].
      injection H7 as <- <-. split; [reflexivity|]. intros Hs _.
      apply Z.ltb_ge in Hs. exact Hs. }
  destruct E7 as [-> E7]. split; [reflexivity|]. intros ->.
  destruct (H eq_refl) as [-> Hsmall]. destruct (H6 eq_refl) as [-> Hhf].
  destruct (H2 eq_refl) as [-> Hih]. destruct (H1 eq_refl) as [-> Hal].
  split; [reflexivity|]. split; [|split; [|split]].
  - apply aligned_multiple_inv. by apply negb_false_iff in Hal.
  - apply negb_false_iff, andb_true_iff in Hih as [Hhi Hlo].
    apply Z.leb_le in Hhi, Hlo. lia.
  - apply negb_false_iff, Z.eqb_eq in Hhf. unfold header, footer. exact Hhf.
  - apply E7, Hsmall.
Qed.

Lemma GET_SIZE_range s p v s1 :
  GET_SIZE p s = Done (v, s1) -> in_heap_range s p 8 = true.
Proof.
  unfold GET_SIZE. intros H. apply bind_inv in H as (x & s2 & Hx & _).
  unfold GET in Hx. destruct (in_heap_range s p 8); [reflexivity|discriminate].
Qed.

Lemma printf_quiet (c : bool) r out : (if c then printf r out else out) = [] -> out = [] /\ c = false.
Proof. destruct c; [|auto]. unfold printf. destruct out; discriminate. Qed.

(** The test for two free blocks in a row. *)
Lemma coalesced_quiet s bp a out out' s' :
  (if a =? 0
   then nb ← NEXT_BLKP bp; na ← GET_ALLOC (HDRP nb);
        if na =? 0 then mret (printf Not_coalesced out) else mret out
   else mret out) s = Done (out', s') ->
  s' = s /\
  (out' = [] -> out = [] /\
     (a = 0 -> Z.land (load8 (mem s) (HDRP (bp + size_at s bp))) 1 <> 0)).
Proof.
  destruct (Z.eqb_spec a 0) as [->|Ha].
  - intros H. apply bind_inv in H as (nb & s1 & H1 & H). apply NEXT_BLKP_inv in H1 as [-> ->].
    apply bind_inv in H as (na & s2 & H2 & H). apply GET_ALLOC_inv in H2 as [-> ->].
    destruct (Z.eqb_spec (Z.land (load8 (mem s) (HDRP (bp + size_at s bp))) 1) 0) as [E|Hne].
    + injection H as <- <-. split; [reflexivity|]. unfold printf. intros H.
      destruct out; discriminate.
    + injection H as <- <-. auto.
  - intros [= <- <-]. split; [reflexivity|]. intros ->. split; [reflexivity|]. intros E.
    contradiction.
Qed.

Lemma walk_blocks_head fuel s bp x l :
  walk_blocks fuel s bp = x :: l ->
  x = (bp, size_at s bp, negb (Z.land (load8 (mem s) (HDRP bp)) 1 =? 0)).
Proof.
  destruct fuel as [|f]; [discriminate|]. cbn [walk_blocks].
  destruct (in_heap_range s (HDRP bp) 8); [|discriminate].
  fold (size_at s bp). destruct (0 <? size_at s bp); [|discriminate].
  intros [= <- _]. reflexivity.
Qed.

Lemma heap_loop_quiet : forall fuel bp c out s e c' s',
  heap_loop fuel 0 bp c out s = Done ((e, c', []), s') ->
  s' = s /\ out = [] /\
  (forall x, x ∈ walk_blocks fuel s bp -> checked s x) /\
  adj_ok (walk_blocks fuel s bp).
Proof.
  induction fuel as [|f IH]; intros bp c out s e c' s' H.
  - cbn [heap_loop] in H. apply bind_inv in H as (sz & s1 & H1 & H).
    apply GET_SIZE_inv in H1 as [-> ->].
    destruct (0 <? _); [discriminate|]. injection H as <- <- <- <-.
    cbn [walk_blocks]. split; [reflexivity|]. split; [reflexivity|].
    split; [|exact I]. intros x Hx. by apply elem_of_nil in Hx.
  - cbn [heap_loop] in H. apply bind_inv in H as (sz & s1 & H1 & H).
    pose proof (GET_SIZE_range _ _ _ _ H1) as Hr.
    apply GET_SIZE_inv in H1 as [-> ->]. fold (size_at s bp) in H.
    cbn [walk_blocks]. rewrite Hr. fold (size_at s bp).
    destruct (0 <? size_at s bp) eqn:Hsz.
    2:{ injection H as <- <- <- <-. split; [reflexivity|]. split; [reflexivity|].
        split; [|exact I]. intros x Hx. by apply elem_of_nil in Hx. }
    cbn [Z.eqb negb] in H.
    apply bind_inv in H as (o0 & s0 & H0 & H). injection H0 as <- <-.
    apply bind_inv in H as (o1 & s1 & H1 & H). apply checkblock_quiet in H1 as [-> H1].
    apply bind_inv in H as (a & s2 & H2 & H). apply GET_ALLOC_inv in H2 as [-> ->].
    apply bind_inv in H as (a' & s3 & H3 & H). apply GET_ALLOC_inv in H3 as [-> ->].
    apply bind_inv in H as (o2 & s4 & H4 & H). apply coalesced_quiet in H4 as [-> H4].
    apply bind_inv in H as (nb & s5 & H5 & H). apply NEXT_BLKP_inv in H5 as [-> ->].
    apply IH in H as (-> & -> & Hrest & Hadj).
    destruct (H4 eq_refl) as [-> Hco]. destruct (H1 eq_refl) as [-> Hok].
    split; [reflexivity|]. split; [reflexivity|]. split.
    + intros x Hx. apply elem_of_cons in Hx as [->|Hx]; [|apply Hrest, Hx].
      split; [reflexivity|exact Hok].
    + cbn [adj_ok]. split; [|exact Hadj].
      destruct (walk_blocks f s (bp + size_at s bp)) as [|y l] eqn:Ew; [exact I|].
      apply walk_blocks_head in Ew. subst y. cbn [snd].
      destruct (Z.eqb_spec (Z.land (load8 (mem s) (HDRP bp)) 1) 0) as [E|Hne]; [|by left].
      right. apply negb_true_iff, Z.eqb_neq, Hco, E.
Qed.

Lemma list_loop_quiet : forall fuel b_ptr bp c out s c' s',
  list_loop fuel 0 b_ptr bp c out s = Done ((c', []), s') -> out = [].
Proof.
  induction fuel as [|f IH]; intros b_ptr bp c out s c' s' H.
  - cbn [list_loop] in H. destruct (negb (bp =? NULL)); [discriminate|].
    by injection H as <- <- <-.
  - cbn [list_loop] in H. destruct (negb (bp =? NULL)); [|by injection H as <- <- <-].
    cbn [Z.eqb negb] in H.
    apply bind_inv in H as (o0 & s0 & H0 & H). injection H0 as <- <-.
    apply bind_inv in H as (a & s1 & _ & H).
    apply bind_inv in H as (nf & s2 & _ & H).
    apply bind_inv in H as (o1 & s3 & H1 & H).
    apply bind_inv in H as (ih & s4 & _ & H).
    apply bind_inv in H as (asize & s5 & _ & H).
    apply bind_inv in H as (sl & s6 & _ & H).
    apply bind_inv in H as (nx & s7 & _ & H).
    apply IH in H. apply printf_quiet in H as [H _]. apply printf_quiet in H as [-> _].
    assert (Hq : (if negb (a =? 0) then printf (Not_free bp) out else out) = []).
    { destruct (negb (nf =? NULL)); [|by injection H1].
      apply bind_inv in H1 as (pv & s8 & _ & H1).
      destruct (negb (pv =? bp)); injection H1 as E _; [|exact E].
      unfold printf in E. destruct (if negb (a =? 0) then _ else _); discriminate. }
    by apply printf_quiet in Hq as [-> _].
Qed.

Lemma seg_loop_quiet : forall classes fuel b_ptr max_addr c out s c' s',
  seg_loop classes fuel 0 b_ptr max_addr c out s = Done ((c', []), s') -> out = [].
Proof.
  induction classes as [|k IH]; intros fuel b_ptr max_addr c out s c' s' H.
  - cbn [seg_loop] in H. destruct (b_ptr <=? max_addr); [discriminate|].
    by injection H as <- <- <-.
  - cbn [seg_loop] in H. destruct (b_ptr <=? max_addr); [|by injection H as <- <- <-].
    apply bind_inv in H as (bp & s1 & _ & H).
    apply bind_inv in H as (cyc & s2 & _ & H).
    apply bind_inv in H as (o1 & s3 & H1 & H).
    apply bind_inv in H as ([c1 o2] & s4 & H2 & H). cbn [fst snd] in H.
    apply IH in H. subst o2. apply list_loop_quiet in H2. subst o1.
    destruct cyc; [|by injection H1].
    cbn [Z.eqb negb] in H1.
    apply bind_inv in H1 as (o0 & s5 & H0 & H1). injection H0 as <- <-.
    apply bind_inv in H1 as (sz & s6 & _ & H1). injection H1 as E _.
    unfold printf in E. destruct out; discriminate.
Qed.

Lemma walk_blocks_after : forall fuel s bp x,
  x ∈ walk_blocks fuel s bp -> bp <= fst (fst x).
Proof.
  induction fuel as [|f IH]; intros s bp x Hx; [by apply elem_of_nil in Hx|].
  cbn [walk_blocks] in Hx. destruct (in_heap_range s (HDRP bp) 8); [|by apply elem_of_nil in Hx].
  destruct (Z.ltb_spec 0 (Z.land (load8 (mem s) (HDRP bp)) (w64 (Z.lnot 7))));
    [|by apply elem_of_nil in Hx].
  apply elem_of_cons in Hx as [->|Hx]; [cbn; lia|]. apply IH in Hx. lia.
Qed.

(** When [mm_checkheap] prints nothing, the blocks that it has walked
    are as it tests them: each one after the prologue has a footer equal
    to its header, at least 32 bytes and an aligned address in the heap,
    and no two blocks in a row are free. This holds of any heap,
    whatever has been written into it. *)
Theorem checkheap_quiet_blocks s s' :
  mm_checkheap 0 s = Done ([], s') ->
  (forall b z a, (b, z, a) ∈ tiled s ->
     header s b = footer s b z /\ 32 <= z /\ b mod 8 = 0 /\
     mem_start_brk s <= b < mem_brk s) /\
  adj_ok (tiled s).
Proof.
  unfold mm_checkheap. intros H.
  rewrite (bind_run _ _ _ _ _ (get_run heap_listp s)) in H. cbn [Z.eqb negb] in H.
  apply bind_inv in H as (psz & s1 & H1 & H). apply GET_SIZE_inv in H1 as [-> ->].
  apply bind_inv in H as (bad & s2 & Hbad & H).
  assert (E2 : s2 = s).
  { destruct (negb _); [by injection Hbad|].
    apply bind_inv in Hbad as (a & s3 & H3 & Hbad). apply GET_ALLOC_inv in H3 as [-> _].
    by injection Hbad. }
  subst s2.
  apply bind_inv in H as (o1 & s3 & H3 & H). apply checkblock_quiet in H3 as [-> H3].
  rewrite (bind_run _ _ _ _ _ (get_run mem_start_brk s)) in H.
  rewrite (bind_run _ _ _ _ _ (get_run mem_brk s)) in H.
  apply bind_inv in H as ([[e hc] o2] & s4 & Hwalk & H). cbn [fst snd] in H.
  apply bind_inv in H as (o3 & s5 & H5 & H). injection H5 as <- <-.
  apply bind_inv in H as (esz & s6 & _ & H).
  apply bind_inv in H as (bad' & s7 & _ & H).
  apply bind_inv in H as (bp & s8 & _ & H).
  apply bind_inv in H as (mx & s9 & _ & H).
  apply bind_inv in H as ([sc o4] & s10 & Hseg & H). cbn [fst snd] in H.
  assert (E4 : o4 = []).
  { destruct (negb (hc =? sc)); injection H as E _; [|exact E].
    unfold printf in E. destruct o4; discriminate. }
  subst o4. apply seg_loop_quiet in Hseg. apply printf_quiet in Hseg as [-> _].
  apply heap_loop_quiet in Hwalk as (_ & _ & Hchk & Hadj).
  fold (blocks s) in Hchk, Hadj.
  assert (Hafter : forall x, x ∈ tiled s -> heap_listp s < fst (fst x)).
  { unfold tiled, blocks. intros x Hx.
    destruct (Z.to_nat (mem_brk s - mem_start_brk s)) as [|f]; [by apply elem_of_nil in Hx|].
    cbn [walk_blocks] in Hx.
    destruct (in_heap_range s (HDRP (heap_listp s)) 8); [|by apply elem_of_nil in Hx].
    destruct (Z.ltb_spec 0 (Z.land (load8 (mem s) (HDRP (heap_listp s))) (w64 (Z.lnot 7))));
      [|by apply elem_of_nil in Hx].
    cbn [tail] in Hx. apply walk_blocks_after in Hx. lia. }
  assert (Hsub : forall x, x ∈ tiled s -> x ∈ blocks s).
  { unfold tiled. intros x Hx. destruct (blocks s); [exact Hx|].
    apply list_elem_of_further, Hx. }
  split.
  - intros b z a Hin. destruct (Hchk _ (Hsub _ Hin)) as [Ez (H8 & Hrange & Hhf & Hmin)].
    cbn [fst snd] in *. subst z. specialize (Hafter _ Hin). cbn [fst] in Hafter.
    split; [exact Hhf|]. split; [apply Hmin; lia|]. split; [exact H8|exact Hrange].
  - unfold tiled. destruct (blocks s) as [|x l]; [exact I|]. apply Hadj.
Qed.

Lemma checkheap_quiet_blocks_witness :
  mm_checkheap 0 (final (run_ops [Malloc 24; Malloc 24] (final (mm_init (heap0 (2 ^ 20)))))) = Done ([], (final (run_ops [Malloc 24; Malloc 24] (final (mm_init (heap0 (2 ^ 20))))))) /\
  (forall b z a, (b, z, a) ∈ tiled (final (run_ops [Malloc 24; Malloc 24] (final (mm_init (heap0 (2 ^ 20)))))) ->
     header (final (run_ops [Malloc 24; Malloc 24] (final (mm_init (heap0 (2 ^ 20)))))) b = footer (final (run_ops [Malloc 24; Malloc 24] (final (mm_init (heap0 (2 ^ 20)))))) b z /\ 32 <= z /\ b mod 8 = 0 /\
     mem_start_brk (final (run_ops [Malloc 24; Malloc 24] (final (mm_init (heap0 (2 ^ 20)))))) <= b < mem_brk (final (run_ops [Malloc 24; Malloc 24] (final (mm_init (heap0 (2 ^ 20))))))) /\
  adj_ok (tiled (final (run_ops [Malloc 24; Malloc 24] (final (mm_init (heap0 (2 ^ 20))))))).
Proof.
  assert (H1 : mm_checkheap 0 (final (run_ops [Malloc 24; Malloc 24] (final (mm_init (heap0 (2 ^ 20)))))) = Done ([], (final (run_ops [Malloc 24; Malloc 24] (final (mm_init (heap0 (2 ^ 20)))))))) by (vm_compute; reflexivity).
  split; [exact H1|]. exact (checkheap_quiet_blocks _ _ H1).
Defined.

End Mm.

(** ** proxy.c *)
Module Proxy.

Definition NUL : ascii := "000"%char.
Definition CR : ascii := "013"%char.

(** A pointer to characters that [read_uri] returns: a string literal,
    or its own array [port_s], with what the array held when its block
    ended. *)
Inductive pointer : Type :=
| Literal (s : list ascii)
| Port_s (content : list ascii).

(** The string at the start of an array: the characters before the
    first NUL; [strcpy] copies it. *)
Fixpoint cstring (a : list ascii) : list ascii :=
  match a with
  | [] => []
  | c :: rest => if (c =? NUL)%char then [] else c :: cstring rest
  end.

(** Reading the string of an array that holds no NUL leaves the array. *)
Definition read_string (a : list ascii) : outcome (list ascii) :=
  if decide (length (cstring a) < length a)%nat then Done (cstring a) else Fault.

(** [a[i] = c]: a write outside of the array is a fault. *)
Definition store (a : list ascii) (i : nat) (c : ascii) : outcome (list ascii) :=
  if decide (i < length a)%nat then Done (<[i := c]> a) else Fault.

(** [for(; i < n; i++) a[i] = '\0';], with [k] rounds to go. *)
Fixpoint clear_from (k i : nat) (a : list ascii) : outcome (list ascii) :=
  match k with
  | O => Done a
  | S k' => a' ← store a i NUL; clear_from k' (S i) a'
  end.

(** [tolower], [strncasecmp] and [atoi] of the C library, on ASCII. *)
Definition tolower (c : ascii) : ascii :=
  let n := nat_of_ascii c in
  if (65 <=? n)%nat && (n <=? 90)%nat then ascii_of_nat (n + 32) else c.

Definition char_at (s : list ascii) : ascii := hd NUL s.

Fixpoint strncasecmp (s1 s2 : list ascii) (n : nat) : Z :=
  match n with
  | O => 0
  | S k =>
      let c1 := tolower (char_at s1) in
      let c2 := tolower (char_at s2) in
      if (c1 =? c2)%char then
        if (c1 =? NUL)%char then 0 else strncasecmp (tl s1) (tl s2) k
      else Z.of_nat (nat_of_ascii c1) - Z.of_nat (nat_of_ascii c2)
  end.

Definition isspace (c : ascii) : bool :=
  let n := nat_of_ascii c in (n =? 32)%nat || ((9 <=? n)%nat && (n <=? 13)%nat).

Definition isdigit (c : ascii) : bool :=
  let n := nat_of_ascii c in (48 <=? n)%nat && (n <=? 57)%nat.

Fixpoint digits (s : list ascii) (acc : Z) : Z :=
  match s with
  | c :: rest =>
      if isdigit c then digits rest (10 * acc + (Z.of_nat (nat_of_ascii c) - 48))
      else acc
  | [] => acc
  end.

Fixpoint skip_space (s : list ascii) : list ascii :=
  match s with
  | c :: rest => if isspace c then skip_space rest else s
  | [] => []
  end.

(** The strings that [read_uri] converts have no more than nine
    characters, so that the [int] cannot overflow. *)
Definition atoi (s : list ascii) : Z :=
  match skip_space s with
  | c :: rest =>
      if (c =? "-")%char then - digits rest 0
      else if (c =? "+")%char then digits rest 0
      else digits (c :: rest) 0
  | [] => 0
  end.

Definition http : list ascii := list_ascii_of_string "http://".

(** The tests of the two copying loops of [read_uri]. *)
Definition is_end (c : ascii) : bool := (c =? NUL)%char || (c =? "/")%char.

(** The loop that copies the port into [port_s]; a list that has run
    out is the NUL that ends the string. *)
Fixpoint port_loop (port_p : list ascii) (y : nat) (port_s : list ascii)
  : outcome (nat * list ascii * list ascii) :=
  match port_p with
  | [] => Done (y, port_s, [])
  | c :: rest =>
      if is_end c then Done (y, port_s, port_p)
      else port_s' ← store port_s y c; port_loop rest (S y) port_s'
  end.

(** The loop that copies the host; it returns [i], [host], [uri_p] and
    [port_s] when the loop left through the [break]. *)
Fixpoint host_loop (uri_p : list ascii) (i : nat) (host : list ascii)
  : outcome (nat * list ascii * list ascii * option (list ascii)) :=
  match uri_p with
  | [] => Done (i, host, [], None)
  | c :: rest =>
      if is_end c then Done (i, host, uri_p, None)
      else if (c =? ":")%char then
        r ← port_loop rest 0 (replicate 10 NUL);
        port_s ← clear_from (10 - fst (fst r)) (fst (fst r)) (snd (fst r));
        Done (i, host, snd r, Some port_s)
      else host' ← store host i c; host_loop rest (S i) host'
  end.

(** The test of the first loop of [remove_newline]. *)
Definition line_stop (c : ascii) : bool := (c =? CR)%char || (c =? NUL)%char.

Section buffers.
(** [MAXLINE] of csapp.h, the length of the buffers of [new_request]. *)
Variable MAXLINE : nat.

(** [read_uri]: the result is the pointer returned, [host] and the
    string copied to [remain]. [atoi] reads [port_s] after its block. *)
Definition read_uri (uri host : list ascii)
  : outcome (pointer * list ascii * list ascii) :=
  let uri_p := if strncasecmp uri http 7 =? 0 then drop 7 uri else uri in
  r ← host_loop uri_p 0 host;
  let i := fst (fst (fst r)) in
  host ← clear_from (MAXLINE - i) i (snd (fst (fst r)));
  let remain := cstring (snd (fst r)) in
  match snd r with
  | Some port_s =>
      number ← read_string port_s;
      if atoi number <? 0 then Done (Literal (list_ascii_of_string "80"), host, remain)
      else Done (Port_s port_s, host, remain)
  | None =>
      if atoi (list_ascii_of_string "-1") <? 0
      then Done (Literal (list_ascii_of_string "80"), host, remain)
      else Done (Literal (list_ascii_of_string "-1"), host, remain)
  end.

(** [remove_newline]: the first loop, which looks for a CR or the NUL;
    when there is none it leaves the array. *)
Fixpoint line_end (header_p : list ascii) (x : nat) : outcome nat :=
  match header_p with
  | [] => Fault
  | c :: rest => if line_stop c then Done x else line_end rest (S x)
  end.

Definition remove_newline (header : list ascii) : outcome (list ascii) :=
  x ← line_end header 0; clear_from (MAXLINE - x) x header.

End buffers.

(** The characters of a line before its first CR or NUL. *)
Fixpoint line (a : list ascii) : list ascii :=
  match a with
  | [] => []
  | c :: rest => if line_stop c then [] else c :: line rest
  end.

(** What follows the host or the port: the end of the string or a path. *)
Definition path (rest : list ascii) : Prop :=
  rest = [] \/ exists r, rest = "/"%char :: r.

Definition MAX_CACHE_SIZE : Z := 1049000.
Definition MAX_OBJECT_SIZE : Z := 102400.

(** The variables of the response loop of [new_request]: [response]
    is kept by the bytes copied into it so far; [to_client] are the
    bytes that [rio_writen] has sent; [completed] is unset when the
    function returns from within the loop. *)
Record transfer : Type := Transfer {
  flag : bool;
  total_size : Z;
  response : list ascii;
  to_client : list ascii;
  completed : bool
}.

(** The response loop of [new_request]. Each element of [chunks] is a
    buffer as a call of [rio_readnb] that returns more than 0 fills it,
    with whether the [rio_writen] that follows succeeds; the list ends
    where [rio_readnb] returns no more. *)
Fixpoint forward (chunks : list (list ascii * bool)) (t : transfer) : transfer :=
  match chunks with
  | [] => t
  | (buf, written) :: rest =>
      let rc := Z.of_nat (length buf) in
      let t1 :=
        if flag t then
          if total_size t + rc <=? MAX_OBJECT_SIZE then
            {| flag := true; total_size := total_size t + rc;
               response := response t ++ buf; to_client := to_client t;
               completed := completed t |}
          else
            {| flag := false; total_size := total_size t;
               response := response t; to_client := to_client t;
               completed := completed t |}
        else t in
      if written : bool then
        forward rest {| flag := flag t1; total_size := total_size t1;
                        response := response t1; to_client := to_client t1 ++ buf;
                        completed := completed t1 |}
      else {| flag := flag t1; total_size := total_size t1; response := response t1;
              to_client := to_client t1; completed := false |}
  end.

Definition start : transfer :=
  {| flag := true; total_size := 0; response := []; to_client := [];
     completed := true |}.

(** The end of [new_request]: the response goes into the cache when it
    was kept whole and the connection was not reset; [a] is the address
    of the object that [new_object] allocates. *)
Definition keep_response (request : string) (t : transfer) (reset : bool) (a : Z)
    (s : Cache.state) : outcome Cache.state :=
  if completed t && flag t && negb reset then
    Cache.cache_insert
      (Cache.new_object a request (string_of_list_ascii (response t)) (total_size t) s) a
  else Done s.

Definition host_char (c : ascii) : bool := negb (is_end c) && negb (c =? ":")%char.

(** The URI starts with the scheme [s], whatever its case, or with none. *)
Definition scheme_of (uri s : list ascii) : Prop :=
  (s = [] /\ strncasecmp uri http 7 <> 0) \/
  (length s = 7%nat /\ map tolower s = http).

(** The loop after the bytes [sent] have come from the server. *)
Definition streaming (t : transfer) (sent : list ascii) : Prop :=
  completed t = true /\ to_client t = sent /\
  (flag t = true ->
   response t = sent /\ total_size t = Z.of_nat (length sent) /\
   Z.of_nat (length sent) <= MAX_OBJECT_SIZE) /\
  (flag t = false -> MAX_OBJECT_SIZE < Z.of_nat (length sent)).

Lemma store_at (pre : list ascii) x suf c :
  store (pre ++ x :: suf) (length pre) c = Done (pre ++ c :: suf).
Proof.
  unfold store. rewrite decide_True by (rewrite length_app; cbn; lia).
  rewrite insert_app_r_alt by lia. rewrite Nat.sub_diag. reflexivity.
Qed.

Lemma store_outside (a : list ascii) i c : (length a <= i)%nat -> store a i c = Fault.
Proof. intros H. unfold store. rewrite decide_False by lia. reflexivity. Qed.

Lemma bind_done {A B} (a : A) (f : A -> outcome B) : (Done a ≫= f) = f a.
Proof. reflexivity. Qed.

Lemma clear_from_at k : forall (pre suf : list ascii),
  (k <= length suf)%nat ->
  clear_from k (length pre) (pre ++ suf) = Done (pre ++ replicate k NUL ++ drop k suf).
Proof.
  induction k as [|k IH]; intros pre suf Hk; [reflexivity|].
  destruct suf as [|x suf]; [cbn in Hk; lia|].
  cbn [clear_from]. rewrite store_at, bind_done.
  replace (S (length pre)) with (length (pre ++ [NUL])) by (rewrite length_app; cbn; lia).
  replace (pre ++ NUL :: suf) with ((pre ++ [NUL]) ++ suf) by (by rewrite <- app_assoc).
  rewrite IH by (cbn in Hk; lia). rewrite <- app_assoc. reflexivity.
Qed.

Lemma cstring_app (w rest : list ascii) :
  forallb (fun c => negb (c =? NUL)%char) w = true ->
  cstring (w ++ rest) = w ++ cstring rest.
Proof.
  induction w as [|c w IH]; intros H; [reflexivity|].
  cbn [forallb] in H. apply andb_true_iff in H as [Hc Hw].
  cbn [app cstring]. apply negb_true_iff in Hc. rewrite Hc, IH by exact Hw. reflexivity.
Qed.

Lemma not_end_not_nul (w : list ascii) :
  forallb (fun c => negb (is_end c)) w = true ->
  forallb (fun c => negb (c =? NUL)%char) w = true.
Proof.
  induction w as [|c w IH]; intros H; [reflexivity|].
  cbn [forallb] in *. apply andb_true_iff in H as [Hc Hw].
  rewrite IH by exact Hw. unfold is_end in Hc.
  apply negb_true_iff, orb_false_iff in Hc as [Hc _]. rewrite Hc. reflexivity.
Qed.

Lemma host_char_not_end (h : list ascii) :
  forallb host_char h = true -> forallb (fun c => negb (is_end c)) h = true.
Proof.
  induction h as [|c h IH]; intros H; [reflexivity|].
  cbn [forallb] in *. apply andb_true_iff in H as [Hc Hw].
  rewrite IH by exact Hw. unfold host_char in Hc.
  apply andb_true_iff in Hc as [Hc _]. rewrite Hc. reflexivity.
Qed.

Lemma port_loop_copies (pt : list ascii) : forall (pre suf rest : list ascii),
  forallb (fun c => negb (is_end c)) pt = true -> path rest ->
  (length pt <= length suf)%nat ->
  port_loop (pt ++ rest) (length pre) (pre ++ suf)
  = Done ((length pre + length pt)%nat, pre ++ pt ++ drop (length pt) suf, rest).
Proof.
  induction pt as [|c pt IH]; intros pre suf rest Hpt Hrest Hlen.
  - cbn [app length drop]. rewrite Nat.add_0_r.
    destruct Hrest as [->|(r & ->)]; reflexivity.
  - cbn [forallb] in Hpt. apply andb_true_iff in Hpt as [Hc Hpt].
    destruct suf as [|x suf]; [cbn in Hlen; lia|].
    cbn [app port_loop]. apply negb_true_iff in Hc. rewrite Hc.
    rewrite store_at, bind_done.
    replace (S (length pre)) with (length (pre ++ [c])) by (rewrite length_app; cbn; lia).
    replace (pre ++ c :: suf) with ((pre ++ [c]) ++ suf) by (by rewrite <- app_assoc).
    rewrite IH; [|exact Hpt|exact Hrest|cbn in Hlen; lia].
    rewrite length_app, <- app_assoc. cbn [length app drop].
    do 3 f_equal. lia.
Qed.

Lemma port_loop_overrun (pt : list ascii) : forall (pre suf rest : list ascii),
  forallb (fun c => negb (is_end c)) pt = true ->
  (length suf < length pt)%nat ->
  port_loop (pt ++ rest) (length pre) (pre ++ suf) = Fault.
Proof.
  induction pt as [|c pt IH]; intros pre suf rest Hpt Hlen; [cbn in Hlen; lia|].
  cbn [forallb] in Hpt. apply andb_true_iff in Hpt as [Hc Hpt].
  cbn [app port_loop]. apply negb_true_iff in Hc. rewrite Hc.
  destruct suf as [|x suf].
  - rewrite store_outside by (rewrite length_app; cbn; lia). reflexivity.
  - rewrite store_at, bind_done.
    replace (S (length pre)) with (length (pre ++ [c])) by (rewrite length_app; cbn; lia).
    replace (pre ++ c :: suf) with ((pre ++ [c]) ++ suf) by (by rewrite <- app_assoc).
    apply IH; [exact Hpt|cbn in Hlen; lia].
Qed.

Lemma host_loop_copies (h : list ascii) : forall (pre suf tail : list ascii),
  forallb host_char h = true ->
  (length h <= length suf)%nat ->
  host_loop (h ++ tail) (length pre) (pre ++ suf)
  = host_loop tail (length pre + length h)%nat (pre ++ h ++ drop (length h) suf).
Proof.
  induction h as [|c h IH]; intros pre suf tail Hh Hlen.
  - cbn [app length drop]. rewrite Nat.add_0_r. reflexivity.
  - cbn [forallb] in Hh. apply andb_true_iff in Hh as [Hc Hh].
    destruct suf as [|x suf]; [cbn in Hlen; lia|].
    unfold host_char in Hc. apply andb_true_iff in Hc as [Hc1 Hc2].
    apply negb_true_iff in Hc1, Hc2.
    cbn [app host_loop]. rewrite Hc1, Hc2. rewrite store_at, bind_done.
    replace (S (length pre)) with (length (pre ++ [c])) by (rewrite length_app; cbn; lia).
    replace (pre ++ c :: suf) with ((pre ++ [c]) ++ suf) by (by rewrite <- app_assoc).
    rewrite (IH _ _ tail); [|exact Hh|cbn in Hlen; lia].
    rewrite length_app, <- app_assoc. cbn [length app drop].
    f_equal. lia.
Qed.

(** The host copied from the start of [host], when [host] has room. *)
Lemma host_copied (h host tail : list ascii) :
  forallb host_char h = true -> (length h <= length host)%nat ->
  host_loop (h ++ tail) 0 host
  = host_loop tail (length h) (h ++ drop (length h) host).
Proof. intros Hh Hlen. exact (host_loop_copies h [] host tail Hh Hlen). Qed.

Lemma fill_rest n (h a : list ascii) :
  (length h <= n)%nat -> length a = n ->
  clear_from (n - length h) (length h) (h ++ drop (length h) a)
  = Done (h ++ replicate (n - length h) NUL).
Proof.
  intros Hh Ha. rewrite clear_from_at by (rewrite length_drop; lia).
  rewrite drop_drop, drop_ge by lia. rewrite app_nil_r. reflexivity.
Qed.

Lemma host_loop_path rest i host :
  path rest -> host_loop rest i host = Done (i, host, rest, None).
Proof. intros [->|(r & ->)]; reflexivity. Qed.

Lemma strncasecmp_same n : forall (s t x y : list ascii),
  length s = n -> length t = n -> map tolower s = map tolower t ->
  strncasecmp (s ++ x) (t ++ y) n = 0.
Proof.
  induction n as [|n IH]; intros s t x y Hs Ht E; [reflexivity|].
  destruct s as [|a s]; [discriminate|]. destruct t as [|b t]; [discriminate|].
  cbn [map] in E. injection E as Eab E.
  cbn [strncasecmp app char_at hd tl]. rewrite Eab, Ascii.eqb_refl.
  destruct (tolower b =? NUL)%char; [reflexivity|].
  apply IH; [cbn in Hs; lia|cbn in Ht; lia|exact E].
Qed.

Lemma skip_scheme uri s tail :
  scheme_of uri s -> uri = s ++ tail ->
  (if strncasecmp uri http 7 =? 0 then drop 7 uri else uri) = tail.
Proof.
  intros [[-> Hne]|[Hlen Hmap]] ->.
  - rewrite (proj2 (Z.eqb_neq _ _) Hne). reflexivity.
  - rewrite <- (app_nil_r http) at 1.
    rewrite strncasecmp_same; [|exact Hlen|reflexivity|exact Hmap].
    cbn [Z.eqb]. rewrite <- Hlen. apply drop_app_length.
Qed.

Lemma host_loop_port pt rest i host :
  forallb (fun c => negb (is_end c)) pt = true -> path rest ->
  (length pt <= 10)%nat ->
  host_loop (":"%char :: pt ++ rest) i host
  = Done (i, host, rest, Some (pt ++ replicate (10 - length pt) NUL)).
Proof.
  intros Hpt Hrest Hlen. cbn [host_loop].
  change (is_end ":") with false. change (":" =? ":")%char with true. cbv iota.
  pose proof (port_loop_copies pt [] (replicate 10 NUL) rest Hpt Hrest) as Hloop.
  rewrite length_replicate in Hloop. cbn [length app Nat.add] in Hloop.
  rewrite (Hloop Hlen), bind_done. cbn [fst snd].
  rewrite (fill_rest 10 pt (replicate 10 NUL) Hlen (length_replicate _ _)), bind_done.
  reflexivity.
Qed.

Lemma host_loop_port_overrun pt rest i host :
  forallb (fun c => negb (is_end c)) pt = true -> (10 < length pt)%nat ->
  host_loop (":"%char :: pt ++ rest) i host = Fault.
Proof.
  intros Hpt Hlen. cbn [host_loop].
  change (is_end ":") with false. change (":" =? ":")%char with true. cbv iota.
  pose proof (port_loop_overrun pt [] (replicate 10 NUL) rest Hpt) as Hloop.
  rewrite length_replicate in Hloop. cbn [length app] in Hloop.
  rewrite (Hloop Hlen). reflexivity.
Qed.

Lemma cstring_padded (w : list ascii) k :
  forallb (fun c => negb (c =? NUL)%char) w = true ->
  cstring (w ++ replicate k NUL) = w.
Proof.
  intros Hw. rewrite cstring_app by exact Hw.
  destruct k; cbn; by rewrite app_nil_r.
Qed.

Lemma line_end_found (a : list ascii) : forall x,
  existsb line_stop a = true -> line_end a x = Done (x + length (line a))%nat.
Proof.
  induction a as [|c a IH]; intros x H; [discriminate|].
  cbn [existsb line_end line] in *. destruct (line_stop c).
  - cbn [length]. rewrite Nat.add_0_r. reflexivity.
  - cbn [orb] in H. rewrite IH by exact H. cbn [length]. f_equal. lia.
Qed.

Lemma line_end_missing (a : list ascii) : forall x,
  existsb line_stop a = false -> line_end a x = Fault.
Proof.
  induction a as [|c a IH]; intros x H; [reflexivity|].
  cbn [existsb line_end] in *. apply orb_false_iff in H as [Hc H].
  rewrite Hc. apply IH, H.
Qed.

Lemma line_prefix (a : list ascii) : a = line a ++ drop (length (line a)) a.
Proof.
  induction a as [|c a IH]; [reflexivity|].
  cbn [line]. destruct (line_stop c); [reflexivity|].
  cbn [length drop app]. by rewrite <- IH.
Qed.

Lemma line_length (a : list ascii) : (length (line a) <= length a)%nat.
Proof.
  induction a as [|c a IH]; [reflexivity|].
  cbn [line]. destruct (line_stop c); cbn [length]; lia.
Qed.

Lemma line_padded (h : list ascii) k :
  line (h ++ NUL :: replicate k NUL) = line h.
Proof.
  induction h as [|c h IH]; [reflexivity|].
  cbn [app line]. by rewrite IH.
Qed.

Lemma line_whole (h : list ascii) : existsb line_stop h = false -> line h = h.
Proof.
  induction h as [|c h IH]; intros H; [reflexivity|].
  cbn [existsb line] in *. apply orb_false_iff in H as [Hc H].
  rewrite Hc, IH by exact H. reflexivity.
Qed.

Section theorems.
Variable MAXLINE : nat.

(** [read_uri] of [scheme host path], with the scheme or without it and
    with no port: [host] holds the host and NULs after it, [remain] the
    path, and the port returned is the literal 80. *)
Theorem read_uri_host_path uri s h rest host :
  scheme_of uri s -> uri = s ++ h ++ rest ->
  forallb host_char h = true -> path rest ->
  (length h <= MAXLINE)%nat -> length host = MAXLINE ->
  read_uri MAXLINE uri host
  = Done (Literal (list_ascii_of_string "80"),
          h ++ replicate (MAXLINE - length h) NUL, cstring rest).
Proof.
  intros Hs -> Hh Hrest Hlen Hhost. unfold read_uri.
  rewrite (skip_scheme _ s (h ++ rest) Hs eq_refl).
  rewrite (host_copied h host rest Hh ltac:(lia)), (host_loop_path _ _ _ Hrest).
  rewrite bind_done. cbn [fst snd].
  rewrite (fill_rest MAXLINE h host Hlen Hhost), bind_done. reflexivity.
Qed.

(** [read_uri] of [scheme host : port path], the port of no more than
    nine characters: [host] and [remain] are as without a port; the
    pointer returned is the literal 80 when [atoi] of the port is
    negative, and else points to the array [port_s] of [read_uri], which
    holds the port and NULs after it. *)
Theorem read_uri_port uri s h pt rest host :
  scheme_of uri s -> uri = s ++ h ++ ":"%char :: pt ++ rest ->
  forallb host_char h = true ->
  forallb (fun c => negb (is_end c)) pt = true -> path rest ->
  (length pt <= 9)%nat ->
  (length h <= MAXLINE)%nat -> length host = MAXLINE ->
  read_uri MAXLINE uri host
  = Done (if atoi pt <? 0 then Literal (list_ascii_of_string "80")
          else Port_s (pt ++ replicate (10 - length pt) NUL),
          h ++ replicate (MAXLINE - length h) NUL, cstring rest).
Proof.
  intros Hs -> Hh Hpt Hrest Hlp Hlen Hhost. unfold read_uri.
  rewrite (skip_scheme _ s (h ++ ":"%char :: pt ++ rest) Hs eq_refl).
  rewrite (host_copied h host _ Hh ltac:(lia)).
  rewrite (host_loop_port pt rest _ _ Hpt Hrest ltac:(lia)).
  rewrite bind_done. cbn [fst snd].
  rewrite (fill_rest MAXLINE h host Hlen Hhost), bind_done.
  unfold read_string.
  rewrite (cstring_padded pt _ (not_end_not_nul _ Hpt)).
  rewrite decide_True by (rewrite length_app, length_replicate; lia).
  rewrite bind_done. destruct (atoi pt <? 0); reflexivity.
Qed.

(** A port of ten characters or more: [read_uri] writes past the end of
    [port_s], or, with ten, leaves it without a NUL for [atoi]. *)
Theorem read_uri_port_overrun uri s h pt rest host :
  scheme_of uri s -> uri = s ++ h ++ ":"%char :: pt ++ rest ->
  forallb host_char h = true ->
  forallb (fun c => negb (is_end c)) pt = true -> path rest ->
  (10 <= length pt)%nat ->
  (length h <= MAXLINE)%nat -> length host = MAXLINE ->
  read_uri MAXLINE uri host = Fault.
Proof.
  intros Hs -> Hh Hpt Hrest Hlp Hlen Hhost. unfold read_uri.
  rewrite (skip_scheme _ s (h ++ ":"%char :: pt ++ rest) Hs eq_refl).
  rewrite (host_copied h host _ Hh ltac:(lia)).
  destruct (decide (length pt = 10%nat)) as [E|Hne].
  - rewrite (host_loop_port pt rest _ _ Hpt Hrest ltac:(lia)).
    rewrite bind_done. cbn [fst snd].
    rewrite (fill_rest MAXLINE h host Hlen Hhost), bind_done.
    unfold read_string. rewrite E. cbn [Nat.sub replicate]. rewrite app_nil_r.
    pose proof (cstring_padded pt 0 (not_end_not_nul _ Hpt)) as Hc.
    cbn [replicate] in Hc. rewrite app_nil_r in Hc. rewrite Hc.
    rewrite decide_False by lia. reflexivity.
  - rewrite (host_loop_port_overrun pt rest _ _ Hpt ltac:(lia)). reflexivity.
Qed.

(** [remove_newline] on an array of [MAXLINE] characters: with a CR or
    a NUL in it, the array keeps the characters before the first of
    them, and NULs after; with neither, the first loop leaves the
    array. *)
Theorem remove_newline_cuts header :
  length header = MAXLINE ->
  (existsb line_stop header = true ->
   remove_newline MAXLINE header
   = Done (line header ++ replicate (MAXLINE - length (line header)) NUL)) /\
  (existsb line_stop header = false -> remove_newline MAXLINE header = Fault).
Proof.
  intros Hlen. unfold remove_newline. split; intros H.
  - rewrite (line_end_found _ 0 H), bind_done. cbn [Nat.add].
    assert (Hl : (length (line header) <= MAXLINE)%nat)
      by (rewrite <- Hlen; apply line_length).
    pose proof (fill_rest MAXLINE (line header) header Hl Hlen) as Hf.
    rewrite <- line_prefix in Hf. exact Hf.
  - rewrite (line_end_missing _ 0 H). reflexivity.
Qed.

(** As in [new_request]: [remove_newline] leaves the host that
    [read_uri] has copied as it is, when the host is shorter than
    [MAXLINE] and holds no CR. *)
Theorem host_of_request uri s h rest host :
  scheme_of uri s -> uri = s ++ h ++ rest ->
  forallb host_char h = true -> path rest ->
  existsb line_stop h = false ->
  (length h < MAXLINE)%nat -> length host = MAXLINE ->
  exists port host1 remain,
    read_uri MAXLINE uri host = Done (port, host1, remain) /\
    remove_newline MAXLINE host1 = Done host1 /\
    cstring host1 = h.
Proof.
  intros Hs Huri Hh Hrest Hcr Hlen Hhost.
  exists (Literal (list_ascii_of_string "80")),
         (h ++ replicate (MAXLINE - length h) NUL), (cstring rest).
  split.
  { subst uri. unfold read_uri.
    rewrite (skip_scheme _ s (h ++ rest) Hs eq_refl).
    rewrite (host_copied h host rest Hh ltac:(lia)), (host_loop_path _ _ _ Hrest).
    rewrite bind_done. cbn [fst snd].
    rewrite (fill_rest MAXLINE h host ltac:(lia) Hhost), bind_done. reflexivity. }
  assert (Hpad : replicate (MAXLINE - length h) NUL
                 = NUL :: replicate (MAXLINE - length h - 1) NUL).
  { replace (MAXLINE - length h)%nat with (S (MAXLINE - length h - 1)) at 1 by lia.
    reflexivity. }
  split.
  - unfold remove_newline.
    assert (Hstop : existsb line_stop (h ++ replicate (MAXLINE - length h) NUL) = true).
    { rewrite existsb_app, Hpad. cbn [existsb]. change (line_stop NUL) with true.
      by rewrite orb_true_r. }
    rewrite (line_end_found _ 0 Hstop), bind_done. cbn [Nat.add].
    assert (Hline : line (h ++ replicate (MAXLINE - length h) NUL) = h)
      by (rewrite Hpad, line_padded; apply line_whole, Hcr).
    rewrite Hline.
    pose proof (clear_from_at (MAXLINE - length h) h (replicate (MAXLINE - length h) NUL))
      as Hc.
    rewrite length_replicate in Hc. rewrite Hc by lia.
    rewrite drop_ge by (rewrite length_replicate; lia). by rewrite app_nil_r.
  - apply cstring_padded, not_end_not_nul, host_char_not_end, Hh.
Qed.

End theorems.

Lemma forward_bounds chunks : forall t,
  0 <= total_size t <= MAX_OBJECT_SIZE ->
  0 <= total_size (forward chunks t) <= MAX_OBJECT_SIZE.
Proof.
  induction chunks as [|[buf written] chunks IH]; intros t Ht; [exact Ht|].
  cbn [forward].
  assert (H1 : 0 <= total_size
                 (if flag t
                  then if total_size t + Z.of_nat (length buf) <=? MAX_OBJECT_SIZE
                       then {| flag := true;
                               total_size := total_size t + Z.of_nat (length buf);
                               response := response t ++ buf; to_client := to_client t;
                               completed := completed t |}
                       else {| flag := false; total_size := total_size t;
                               response := response t; to_client := to_client t;
                               completed := completed t |}
                  else t) <= MAX_OBJECT_SIZE).
  { destruct (flag t); [|exact Ht].
    destruct (Z.leb_spec (total_size t + Z.of_nat (length buf)) MAX_OBJECT_SIZE);
      cbn [total_size]; lia. }
  destruct written; [apply IH|]; cbn [total_size]; exact H1.
Qed.

Lemma forward_streaming chunks : forall t sent,
  forallb snd chunks = true -> streaming t sent ->
  streaming (forward chunks t) (sent ++ concat (map fst chunks)).
Proof.
  induction chunks as [|[buf written] chunks IH]; intros t sent Hw Ht.
  - cbn. by rewrite app_nil_r.
  - cbn [forallb snd] in Hw. apply andb_true_iff in Hw as [-> Hw].
    cbn [forward map fst concat]. rewrite app_assoc. apply IH; [exact Hw|].
    destruct Ht as (Hc & Hs & Hon & Hoff). unfold streaming.
    rewrite length_app, Nat2Z.inj_add.
    destruct (flag t) eqn:Ef.
    + destruct (Hon eq_refl) as (Hr & Ht & Hle).
      destruct (Z.leb_spec (total_size t + Z.of_nat (length buf)) MAX_OBJECT_SIZE);
        cbn [flag total_size response to_client completed].
      * split; [exact Hc|]. split; [by rewrite Hs|]. split; [|discriminate].
        intros _. split; [by rewrite Hr|]. lia.
      * split; [exact Hc|]. split; [by rewrite Hs|]. split; [discriminate|].
        intros _. lia.
    + cbn [flag total_size response to_client completed]. rewrite Ef.
      split; [exact Hc|]. split; [by rewrite Hs|]. split; [discriminate|].
      intros _. specialize (Hoff eq_refl). lia.
Qed.

(** The response loop of [new_request], when every [rio_writen]
    succeeds: the client gets every byte that came from the server; the
    response is kept for the cache exactly when it has no more than
    [MAX_OBJECT_SIZE] bytes, and then it is kept whole. *)
Theorem forward_keeps_whole_response chunks :
  forallb snd chunks = true ->
  completed (forward chunks start) = true /\
  to_client (forward chunks start) = concat (map fst chunks) /\
  (flag (forward chunks start) = true <->
   Z.of_nat (length (concat (map fst chunks))) <= MAX_OBJECT_SIZE) /\
  (flag (forward chunks start) = true ->
   response (forward chunks start) = concat (map fst chunks) /\
   total_size (forward chunks start) = Z.of_nat (length (concat (map fst chunks)))).
Proof.
  intros Hw.
  destruct (forward_streaming chunks start [] Hw) as (Hc & Hs & Hon & Hoff).
  { unfold streaming, start, MAX_OBJECT_SIZE. cbn. split; [reflexivity|].
    split; [reflexivity|]. split; [intros _; split; [reflexivity|lia]|discriminate]. }
  cbn [app] in *. split; [exact Hc|]. split; [exact Hs|]. split.
  - split; [intros H; apply Hon, H|].
    intros Hle. destruct (flag (forward chunks start)); [reflexivity|].
    specialize (Hoff eq_refl). lia.
  - intros H. destruct (Hon H) as (Hr & Ht & _). auto.
Qed.

(** The end of [new_request] on the cache of the proxy, whatever the
    server has sent: [cache_insert] returns, for the response that the
    loop has kept is no larger than the cache; and when the response was
    kept, a lookup of the same request line finds it. *)
Theorem keep_response_fits ops s request chunks reset a :
  Cache.trace_ok MAX_CACHE_SIZE (Cache.cache_init MAX_CACHE_SIZE) ops ->
  Cache.run (Cache.cache_init MAX_CACHE_SIZE) ops = Done s ->
  Cache.Malloc_fresh a s ->
  exists s',
    keep_response request (forward chunks start) reset a s = Done s' /\
    (completed (forward chunks start) && flag (forward chunks start) && negb reset = false ->
     s' = s) /\
    (completed (forward chunks start) && flag (forward chunks start) && negb reset = true ->
     Cache.find_request s' request = Done a /\
     Cache.payload (Cache.objs s') a
     = Some (request, string_of_list_ascii (response (forward chunks start)),
             total_size (forward chunks start))).
Proof.
  intros Hok Hrun Hfresh. unfold keep_response.
  destruct (completed (forward chunks start) && flag (forward chunks start) && negb reset).
  - assert (Hmax : Cache.int_range MAX_CACHE_SIZE)
      by (unfold Cache.int_range, MAX_CACHE_SIZE; lia).
    destruct (Cache.reach_cache_inv _ _ _ Hmax Hok Hrun) as (l & Hinv).
    pose proof (forward_bounds chunks start) as Hb.
    assert (Hsz : 0 <= total_size (forward chunks start) <= MAX_CACHE_SIZE).
    { unfold MAX_CACHE_SIZE, MAX_OBJECT_SIZE in *. cbn [start total_size] in Hb. lia. }
    destruct (Cache.cache_insert_spec _ _ _ a request
                (string_of_list_ascii (response (forward chunks start))) _ Hinv Hfresh Hsz)
      as (l0 & ev & s1 & s' & _ & _ & _ & Hins & Hinv' & _ & Hpay).
    exists s'. split; [exact Hins|]. split; [discriminate|]. intros _.
    split; [|exact Hpay].
    rewrite (Cache.find_request_spec _ _ _ request Hinv'). cbn [Cache.first_match].
    unfold Cache.payload in Hpay.
    destruct (Cache.objs s' !! a) as [o|]; [|discriminate].
    cbn in Hpay. injection Hpay as Hreq _ _. rewrite Hreq, Cache.strcmp_refl.
    reflexivity.
  - exists s. split; [reflexivity|]. split; [reflexivity|discriminate].
Qed.

Ltac scheme_given :=
  right; split; [reflexivity|vm_compute; reflexivity].

Lemma read_uri_host_path_witness :
  scheme_of (list_ascii_of_string "http://www.cmu.edu/hub/index.html") (list_ascii_of_string "http://") /\ (list_ascii_of_string "http://www.cmu.edu/hub/index.html") = (list_ascii_of_string "http://") ++ (list_ascii_of_string "www.cmu.edu") ++ (list_ascii_of_string "/hub/index.html") /\
  forallb host_char (list_ascii_of_string "www.cmu.edu") = true /\ path (list_ascii_of_string "/hub/index.html") /\
  (length (list_ascii_of_string "www.cmu.edu") <= 32)%nat /\ length (replicate 32 "x"%char) = 32%nat /\
  read_uri 32 (list_ascii_of_string "http://www.cmu.edu/hub/index.html") (replicate 32 "x"%char)
  = Done (Literal (list_ascii_of_string "80"),
          (list_ascii_of_string "www.cmu.edu") ++ replicate (32 - length (list_ascii_of_string "www.cmu.edu")) NUL, cstring (list_ascii_of_string "/hub/index.html")).
Proof.
  assert (H1 : scheme_of (list_ascii_of_string "http://www.cmu.edu/hub/index.html") (list_ascii_of_string "http://")) by scheme_given.
  assert (H2 : (list_ascii_of_string "http://www.cmu.edu/hub/index.html") = (list_ascii_of_string "http://") ++ (list_ascii_of_string "www.cmu.edu") ++ (list_ascii_of_string "/hub/index.html")) by reflexivity.
  assert (H3 : forallb host_char (list_ascii_of_string "www.cmu.edu") = true) by reflexivity.
  assert (H4 : path (list_ascii_of_string "/hub/index.html")) by (right; eexists; reflexivity).
  assert (H5 : (length (list_ascii_of_string "www.cmu.edu") <= 32)%nat) by (cbn; lia).
  assert (H6 : length (replicate 32 "x"%char) = 32%nat) by reflexivity.
  split; [exact H1|]. split; [exact H2|]. split; [exact H3|]. split; [exact H4|].
  split; [exact H5|]. split; [exact H6|].
  exact (read_uri_host_path 32 _ _ _ _ _ H1 H2 H3 H4 H5 H6).
Defined.

Lemma read_uri_port_witness :
  scheme_of (list_ascii_of_string "HTTP://localhost:8080/x") (list_ascii_of_string "HTTP://") /\ (list_ascii_of_string "HTTP://localhost:8080/x") = (list_ascii_of_string "HTTP://") ++ (list_ascii_of_string "localhost") ++ ":"%char :: (list_ascii_of_string "8080") ++ (list_ascii_of_string "/x") /\
  forallb host_char (list_ascii_of_string "localhost") = true /\
  forallb (fun c => negb (is_end c)) (list_ascii_of_string "8080") = true /\ path (list_ascii_of_string "/x") /\
  (length (list_ascii_of_string "8080") <= 9)%nat /\ (length (list_ascii_of_string "localhost") <= 32)%nat /\ length (replicate 32 "x"%char) = 32%nat /\
  read_uri 32 (list_ascii_of_string "HTTP://localhost:8080/x") (replicate 32 "x"%char)
  = Done (if atoi (list_ascii_of_string "8080") <? 0 then Literal (list_ascii_of_string "80")
          else Port_s ((list_ascii_of_string "8080") ++ replicate (10 - length (list_ascii_of_string "8080")) NUL),
          (list_ascii_of_string "localhost") ++ replicate (32 - length (list_ascii_of_string "localhost")) NUL, cstring (list_ascii_of_string "/x")).
Proof.
  assert (H1 : scheme_of (list_ascii_of_string "HTTP://localhost:8080/x") (list_ascii_of_string "HTTP://")) by scheme_given.
  assert (H2 : (list_ascii_of_string "HTTP://localhost:8080/x") = (list_ascii_of_string "HTTP://") ++ (list_ascii_of_string "localhost") ++ ":"%char :: (list_ascii_of_string "8080") ++ (list_ascii_of_string "/x")) by reflexivity.
  assert (H3 : forallb host_char (list_ascii_of_string "localhost") = true) by reflexivity.
  assert (H4 : forallb (fun c => negb (is_end c)) (list_ascii_of_string "8080") = true) by reflexivity.
  assert (H5 : path (list_ascii_of_string "/x")) by (right; eexists; reflexivity).
  assert (H6 : (length (list_ascii_of_string "8080") <= 9)%nat) by (cbn; lia).
  assert (H7 : (length (list_ascii_of_string "localhost") <= 32)%nat) by (cbn; lia).
  assert (H8 : length (replicate 32 "x"%char) = 32%nat) by reflexivity.
  split; [exact H1|]. split; [exact H2|]. split; [exact H3|]. split; [exact H4|].
  split; [exact H5|]. split; [exact H6|]. split; [exact H7|]. split; [exact H8|].
  exact (read_uri_port 32 _ _ _ _ _ _ H1 H2 H3 H4 H5 H6 H7 H8).
Defined.

Lemma read_uri_port_overrun_witness :
  scheme_of (list_ascii_of_string "localhost:8080808080/x") [] /\ (list_ascii_of_string "localhost:8080808080/x") = [] ++ (list_ascii_of_string "localhost") ++ ":"%char :: (list_ascii_of_string "8080808080") ++ (list_ascii_of_string "/x") /\
  forallb host_char (list_ascii_of_string "localhost") = true /\
  forallb (fun c => negb (is_end c)) (list_ascii_of_string "8080808080") = true /\ path (list_ascii_of_string "/x") /\
  (10 <= length (list_ascii_of_string "8080808080"))%nat /\ (length (list_ascii_of_string "localhost") <= 32)%nat /\ length (replicate 32 "x"%char) = 32%nat /\
  read_uri 32 (list_ascii_of_string "localhost:8080808080/x") (replicate 32 "x"%char) = Fault.
Proof.
  assert (H1 : scheme_of (list_ascii_of_string "localhost:8080808080/x") []).
  { left. split; [reflexivity|vm_compute; discriminate]. }
  assert (H2 : (list_ascii_of_string "localhost:8080808080/x") = [] ++ (list_ascii_of_string "localhost") ++ ":"%char :: (list_ascii_of_string "8080808080") ++ (list_ascii_of_string "/x")) by reflexivity.
  assert (H3 : forallb host_char (list_ascii_of_string "localhost") = true) by reflexivity.
  assert (H4 : forallb (fun c => negb (is_end c)) (list_ascii_of_string "8080808080") = true) by reflexivity.
  assert (H5 : path (list_ascii_of_string "/x")) by (right; eexists; reflexivity).
  assert (H6 : (10 <= length (list_ascii_of_string "8080808080"))%nat) by (cbn; lia).
  assert (H7 : (length (list_ascii_of_string "localhost") <= 32)%nat) by (cbn; lia).
  assert (H8 : length (replicate 32 "x"%char) = 32%nat) by reflexivity.
  split; [exact H1|]. split; [exact H2|]. split; [exact H3|]. split; [exact H4|].
  split; [exact H5|]. split; [exact H6|]. split; [exact H7|]. split; [exact H8|].
  exact (read_uri_port_overrun 32 _ _ _ _ _ _ H1 H2 H3 H4 H5 H6 H7 H8).
Defined.

Lemma remove_newline_cuts_witness :
  length ((list_ascii_of_string "www.cmu.edu") ++ CR :: replicate 20 "x"%char) = 32%nat /\
  (existsb line_stop ((list_ascii_of_string "www.cmu.edu") ++ CR :: replicate 20 "x"%char) = true ->
   remove_newline 32 ((list_ascii_of_string "www.cmu.edu") ++ CR :: replicate 20 "x"%char)
   = Done (line ((list_ascii_of_string "www.cmu.edu") ++ CR :: replicate 20 "x"%char)
           ++ replicate (32 - length (line ((list_ascii_of_string "www.cmu.edu") ++ CR :: replicate 20 "x"%char))) NUL)) /\
  (existsb line_stop ((list_ascii_of_string "www.cmu.edu") ++ CR :: replicate 20 "x"%char) = false ->
   remove_newline 32 ((list_ascii_of_string "www.cmu.edu") ++ CR :: replicate 20 "x"%char) = Fault).
Proof.
  assert (H1 : length ((list_ascii_of_string "www.cmu.edu") ++ CR :: replicate 20 "x"%char) = 32%nat) by reflexivity.
  split; [exact H1|]. exact (remove_newline_cuts 32 _ H1).
Defined.

Lemma host_of_request_witness :
  scheme_of (list_ascii_of_string "http://www.cmu.edu/hub/index.html") (list_ascii_of_string "http://") /\ (list_ascii_of_string "http://www.cmu.edu/hub/index.html") = (list_ascii_of_string "http://") ++ (list_ascii_of_string "www.cmu.edu") ++ (list_ascii_of_string "/hub/index.html") /\
  forallb host_char (list_ascii_of_string "www.cmu.edu") = true /\ path (list_ascii_of_string "/hub/index.html") /\
  existsb line_stop (list_ascii_of_string "www.cmu.edu") = false /\
  (length (list_ascii_of_string "www.cmu.edu") < 32)%nat /\ length (replicate 32 "x"%char) = 32%nat /\
  exists port host1 remain,
    read_uri 32 (list_ascii_of_string "http://www.cmu.edu/hub/index.html") (replicate 32 "x"%char) = Done (port, host1, remain) /\
    remove_newline 32 host1 = Done host1 /\
    cstring host1 = (list_ascii_of_string "www.cmu.edu").
Proof.
  assert (H1 : scheme_of (list_ascii_of_string "http://www.cmu.edu/hub/index.html") (list_ascii_of_string "http://")) by scheme_given.
  assert (H2 : (list_ascii_of_string "http://www.cmu.edu/hub/index.html") = (list_ascii_of_string "http://") ++ (list_ascii_of_string "www.cmu.edu") ++ (list_ascii_of_string "/hub/index.html")) by reflexivity.
  assert (H3 : forallb host_char (list_ascii_of_string "www.cmu.edu") = true) by reflexivity.
  assert (H4 : path (list_ascii_of_string "/hub/index.html")) by (right; eexists; reflexivity).
  assert (H5 : existsb line_stop (list_ascii_of_string "www.cmu.edu") = false) by reflexivity.
  assert (H6 : (length (list_ascii_of_string "www.cmu.edu") < 32)%nat) by (cbn; lia).
  assert (H7 : length (replicate 32 "x"%char) = 32%nat) by reflexivity.
  split; [exact H1|]. split; [exact H2|]. split; [exact H3|]. split; [exact H4|].
  split; [exact H5|]. split; [exact H6|]. split; [exact H7|].
  exact (host_of_request 32 _ _ _ _ _ H1 H2 H3 H4 H5 H6 H7).
Defined.

Lemma forward_keeps_whole_response_witness :
  forallb snd [((list_ascii_of_string "www.cmu.edu"), true); ((list_ascii_of_string "/hub/index.html"), true)] = true /\
  completed (forward [((list_ascii_of_string "www.cmu.edu"), true); ((list_ascii_of_string "/hub/index.html"), true)] start) = true /\
  to_client (forward [((list_ascii_of_string "www.cmu.edu"), true); ((list_ascii_of_string "/hub/index.html"), true)] start)
  = concat (map fst [((list_ascii_of_string "www.cmu.edu"), true); ((list_ascii_of_string "/hub/index.html"), true)]) /\
  (flag (forward [((list_ascii_of_string "www.cmu.edu"), true); ((list_ascii_of_string "/hub/index.html"), true)] start) = true <->
   Z.of_nat (length (concat (map fst [((list_ascii_of_string "www.cmu.edu"), true); ((list_ascii_of_string "/hub/index.html"), true)]))) <= MAX_OBJECT_SIZE) /\
  (flag (forward [((list_ascii_of_string "www.cmu.edu"), true); ((list_ascii_of_string "/hub/index.html"), true)] start) = true ->
   response (forward [((list_ascii_of_string "www.cmu.edu"), true); ((list_ascii_of_string "/hub/index.html"), true)] start)
   = concat (map fst [((list_ascii_of_string "www.cmu.edu"), true); ((list_ascii_of_string "/hub/index.html"), true)]) /\
   total_size (forward [((list_ascii_of_string "www.cmu.edu"), true); ((list_ascii_of_string "/hub/index.html"), true)] start)
   = Z.of_nat (length (concat (map fst [((list_ascii_of_string "www.cmu.edu"), true); ((list_ascii_of_string "/hub/index.html"), true)])))).
Proof.
  assert (H1 : forallb snd [((list_ascii_of_string "www.cmu.edu"), true); ((list_ascii_of_string "/hub/index.html"), true)] = true) by reflexivity.
  split; [exact H1|]. exact (forward_keeps_whole_response _ H1).
Defined.

Lemma keep_response_fits_witness :
  Cache.trace_ok MAX_CACHE_SIZE (Cache.cache_init MAX_CACHE_SIZE)
    [Cache.Insert 8 "GET a" "x" 60] /\
  Cache.run (Cache.cache_init MAX_CACHE_SIZE) [Cache.Insert 8 "GET a" "x" 60]
  = Done (Cache.cache_final (Cache.run (Cache.cache_init MAX_CACHE_SIZE) [Cache.Insert 8 "GET a" "x" 60])) /\
  Cache.Malloc_fresh 16 (Cache.cache_final (Cache.run (Cache.cache_init MAX_CACHE_SIZE) [Cache.Insert 8 "GET a" "x" 60])) /\
  exists s',
    keep_response "GET b" (forward [((list_ascii_of_string "www.cmu.edu"), true)] start) false 16 (Cache.cache_final (Cache.run (Cache.cache_init MAX_CACHE_SIZE) [Cache.Insert 8 "GET a" "x" 60])) = Done s' /\
    (completed (forward [((list_ascii_of_string "www.cmu.edu"), true)] start) && flag (forward [((list_ascii_of_string "www.cmu.edu"), true)] start)
     && negb false = false -> s' = (Cache.cache_final (Cache.run (Cache.cache_init MAX_CACHE_SIZE) [Cache.Insert 8 "GET a" "x" 60]))) /\
    (completed (forward [((list_ascii_of_string "www.cmu.edu"), true)] start) && flag (forward [((list_ascii_of_string "www.cmu.edu"), true)] start)
     && negb false = true ->
     Cache.find_request s' "GET b" = Done 16 /\
     Cache.payload (Cache.objs s') 16
     = Some ("GET b"%string,
             string_of_list_ascii (response (forward [((list_ascii_of_string "www.cmu.edu"), true)] start)),
             total_size (forward [((list_ascii_of_string "www.cmu.edu"), true)] start))).
Proof.
  assert (H1 : Cache.trace_ok MAX_CACHE_SIZE (Cache.cache_init MAX_CACHE_SIZE)
                 [Cache.Insert 8 "GET a" "x" 60]).
  { vm_compute. repeat split; try discriminate; try reflexivity. }
  assert (H2 : Cache.run (Cache.cache_init MAX_CACHE_SIZE) [Cache.Insert 8 "GET a" "x" 60]
               = Done (Cache.cache_final (Cache.run (Cache.cache_init MAX_CACHE_SIZE) [Cache.Insert 8 "GET a" "x" 60]))) by (vm_compute; reflexivity).
  assert (H3 : Cache.Malloc_fresh 16 (Cache.cache_final (Cache.run (Cache.cache_init MAX_CACHE_SIZE) [Cache.Insert 8 "GET a" "x" 60]))).
  { split; [unfold NULL; lia|vm_compute; reflexivity]. }
  split; [exact H1|]. split; [exact H2|]. split; [exact H3|].
  exact (keep_response_fits _ _ "GET b" [((list_ascii_of_string "www.cmu.edu"), true)] false 16 H1 H2 H3).
Defined.

End Proxy.
